(** * TerrainGenerator: terrain mesh and hydrology of WorldBuilding

    A shallow embedding of [src/TerrainGenerator.py].

    - Floating-point numbers are modelled by the real numbers.  An operation
      that has no real result (a division by zero, the square root of a
      negative number) and a raised Python exception are both modelled by
      [None]: the run has left the domain on which the mesh holds real
      heights.  Numpy divides by zero without raising; where the code goes
      on to take the exponential of the quotient ([add_hill]) the model
      follows numpy, see [Py.np_exp_div].
    - Objects live in arenas owned by the [World]: a Vertex reference is its
      position in [vertices], a Ridge or Patch reference is its key in the
      [ridges] or [patches] dictionary.
    - A Python [dict] that the code iterates is an association list in
      insertion order; a [dict] that is only looked up is a [gmap]; a Python
      [set] is a [gset], iterated through [elements] (Python fixes no
      iteration order either). *)

From Stdlib Require Import Reals Lra Lia ZArith Sorted.
From stdpp Require Import base option list gmap.

Local Open Scope R_scope.

(** ** Decidable comparisons on floats *)

#[global] Instance R_eq_dec : EqDecision R := Req_dec_T.
#[global] Instance Rlt_decision (x y : R) : Decision (x < y) := Rlt_dec x y.
#[global] Instance Rle_decision (x y : R) : Decision (x <= y) := Rle_dec x y.

(** ** The Python and numpy primitives the module uses *)

Module Py.

(** [x / y] on floats: no real result when [y] is zero. *)
Definition truediv (x y : R) : option R :=
  if decide (y = 0) then None else Some (x / y).

(** [np.exp(x / y)] on numpy floats, as [add_hill] computes it: numpy
    divides by zero without raising.  A negative number over zero is minus
    infinity, whose exponential is 0; zero over zero is not a number, and a
    positive number over zero is infinity, whose exponential is no real
    number. *)
Definition np_exp_div (x y : R) : option R :=
  if decide (y = 0) then (if decide (x < 0) then Some 0 else None)
  else Some (exp (x / y)).

(** [np.sqrt x]: no real result below zero. *)
Definition np_sqrt (x : R) : option R :=
  if decide (x < 0) then None else Some (sqrt x).

(** [np.linalg.norm] of a 2-vector. *)
Definition norm (c : R * R) : R := sqrt (c.1 * c.1 + c.2 * c.2).

(** [a - b] on 2-element arrays. *)
Definition sub2 (a b : R * R) : R * R := (a.1 - b.1, a.2 - b.2).

(** [np.dot] of two 2-vectors. *)
Definition dot (a b : R * R) : R := a.1 * b.1 + a.2 * b.2.

(** [sum] of a list of floats, from the left. *)
Definition sum (l : list R) : R := fold_left Rplus l 0.

(** [min(a, b)]: the first argument unless the second is smaller. *)
Definition min2 (a b : R) : R := if decide (b < a) then b else a.

(** [min(l, key=...)]: the first element whose key is minimal; raises on
    an empty sequence. *)
Definition min_by {A} (key : A -> R) (l : list A) : option A :=
  match l with
  | [] => None
  | x :: l' =>
      Some (fold_left (fun best y => if decide (key y < key best) then y else best) l' x)
  end.

(** [max(l, key=...)]: the first element whose key is maximal; raises on
    an empty sequence. *)
Definition max_by {A} (key : A -> R) (l : list A) : option A :=
  match l with
  | [] => None
  | x :: l' =>
      Some (fold_left (fun best y => if decide (key best < key y) then y else best) l' x)
  end.

(** [min(l)] on floats. *)
Definition min_list (l : list R) : option R := min_by id l.

(** [max(l)] on floats: the first maximal element. *)
Definition max_list (l : list R) : option R :=
  match l with
  | [] => None
  | x :: l' =>
      Some (fold_left (fun best y => if decide (best < y) then y else best) l' x)
  end.

(** [sorted(l, key=..., reverse=True)]: a stable sort, larger keys first;
    elements with equal keys keep their order in [l]. *)
Fixpoint insert_desc {A} (key : A -> R) (x : A) (l : list A) : list A :=
  match l with
  | [] => [x]
  | y :: l' =>
      if decide (key x < key y) then y :: insert_desc key x l' else x :: y :: l'
  end.

Definition sorted_desc {A} (key : A -> R) (l : list A) : list A :=
  foldr (insert_desc key) [] l.

(** [enumerate(l)]. *)
Definition enumerate {A} (l : list A) : list (nat * A) :=
  imap (fun i x => (i, x)) l.

(** [l[k]] for a Python list of length [n]: the position read, with
    negative indices counted from the end; [None] is IndexError. *)
Definition index (n : nat) (k : Z) : option nat :=
  if decide (0 <= k)%Z then
    (if decide (k < Z.of_nat n)%Z then Some (Z.to_nat k) else None)
  else
    (if decide (- Z.of_nat n <= k)%Z then Some (Z.to_nat (Z.of_nat n + k)) else None).

(** [d[k] = v] on a dict in insertion order: an existing key keeps its
    place. *)
Fixpoint dict_set {V} (k : nat) (v : V) (d : list (nat * V)) : list (nat * V) :=
  match d with
  | [] => [(k, v)]
  | (k', v') :: d' =>
      if decide (k' = k) then (k, v) :: d' else (k', v') :: dict_set k v d'
  end.

(** [d[k]]; [None] is KeyError. *)
Fixpoint dict_get {V} (k : nat) (d : list (nat * V)) : option V :=
  match d with
  | [] => None
  | (k', v') :: d' => if decide (k' = k) then Some v' else dict_get k d'
  end.

(** A [for] loop whose body may raise: the state is threaded through the
    items, and the first failure ends the loop. *)
Fixpoint for_each {A S} (body : A -> S -> option S) (items : list A) (s : S)
  : option S :=
  match items with
  | [] => Some s
  | x :: rest => s' ← body x s; for_each body rest s'
  end.

End Py.

(** ** Helper methods *)

(** [find_centroid(points)]. *)
Definition find_centroid (points : list (R * R)) : option (R * R) :=
  let x_pts := (fun p => p.1) <$> points in
  let y_pts := (fun p => p.2) <$> points in
  cx ← Py.truediv (Py.sum x_pts) (INR (length points));
  cy ← Py.truediv (Py.sum y_pts) (INR (length points));
  Some (cx, cy).

(** ** Map component classes *)

Module Vertex.

Record t := mk {
  name : nat;
  coords : R * R;
  neighbors : gset nat;      (* adjacent vertices *)
  patches : gset nat;        (* adjacent patches *)
  ridges : gmap nat nat;     (* neighbor name -> ridge *)
  height : R;
  flux : R
}.

(** [Vertex(name, coords)], with the default height 0. *)
Definition init (name : nat) (coords : R * R) : t :=
  mk name coords ∅ ∅ ∅ 0 1.

Definition set_height (h : R) (v : t) : t :=
  mk (name v) (coords v) (neighbors v) (patches v) (ridges v) h (flux v).

Definition set_flux (f : R) (v : t) : t :=
  mk (name v) (coords v) (neighbors v) (patches v) (ridges v) (height v) f.

Definition add_patch (p : nat) (v : t) : t :=
  mk (name v) (coords v) (neighbors v) ({[p]} ∪ patches v) (ridges v)
     (height v) (flux v).

(** [self.add_neighbor(neighbor, ridge)] for the vertex at position
    [self]: [neighbor] joins its neighbor set and [ridge] is filed under
    the neighbor's name. *)
Definition add_neighbor (self neighbor ridge : nat) (vs : list t)
  : option (list t) :=
  v ← vs !! self;
  n ← vs !! neighbor;
  Some (<[self := mk (name v) (coords v) ({[neighbor]} ∪ neighbors v) (patches v)
                     (<[name n := ridge]> (ridges v)) (height v) (flux v)]> vs).

(** [self.dist(other)] for a coordinate pair [other]. *)
Definition dist (v : t) (other : R * R) : R :=
  Py.norm (Py.sub2 (coords v) other).

End Vertex.

Module Ridge.

Record t := mk {
  name : nat;
  end_1 : nat;
  end_2 : nat;
  patches : gset nat;
  flux : R
}.

Definition set_flux (f : R) (r : t) : t :=
  mk (name r) (end_1 r) (end_2 r) (patches r) f.

Definition add_patch (p : nat) (r : t) : t :=
  mk (name r) (end_1 r) (end_2 r) ({[p]} ∪ patches r) (flux r).

(** [Ridge(name, end_1, end_2)]: the new ridge, and the vertices after the
    two [add_neighbor] calls. *)
Definition init (name end_1 end_2 : nat) (vs : list Vertex.t)
  : option (t * list Vertex.t) :=
  vs1 ← Vertex.add_neighbor end_1 end_2 name vs;
  vs2 ← Vertex.add_neighbor end_2 end_1 name vs1;
  Some (mk name end_1 end_2 ∅ 0, vs2).

(** The [length] property. *)
Definition length (vs : list Vertex.t) (r : t) : option R :=
  v1 ← vs !! end_1 r;
  v2 ← vs !! end_2 r;
  Some (Vertex.dist v1 (Vertex.coords v2)).

(** The [slope] property. *)
Definition slope (vs : list Vertex.t) (r : t) : option R :=
  v1 ← vs !! end_1 r;
  v2 ← vs !! end_2 r;
  let delta_h := Rabs (Vertex.height v1 - Vertex.height v2) in
  len ← length vs r;
  Py.truediv delta_h len.

End Ridge.

Module Patch.

Record t := mk {
  name : nat;
  vertices : list nat;
  neighbors : list (nat * nat);   (* ridge -> neighboring patch *)
  centroid : R * R;
  _h : option R;
  _slope : option R
}.

Definition set_h (h : R) (p : t) : t :=
  mk (name p) (vertices p) (neighbors p) (centroid p) (Some h) (_slope p).

Definition set_slope (s : R) (p : t) : t :=
  mk (name p) (vertices p) (neighbors p) (centroid p) (_h p) (Some s).

Definition set_neighbor (ridge q : nat) (p : t) : t :=
  mk (name p) (vertices p) (Py.dict_set ridge q (neighbors p)) (centroid p)
     (_h p) (_slope p).

(** [Patch(name, vertices)]: the new patch, and the vertices after each
    has recorded it. *)
Definition init (name : nat) (vertices : list nat) (vs : list Vertex.t)
  : option (t * list Vertex.t) :=
  vs' ← Py.for_each
          (fun i vs => v ← vs !! i; Some (<[i := Vertex.add_patch name v]> vs))
          vertices vs;
  cs ← mapM (fun i => Vertex.coords <$> vs' !! i) vertices;
  c ← find_centroid cs;
  Some (mk name vertices [] c None None, vs').

(** The [height] property: the minimum vertex height, remembered at the
    first read. *)
Definition height (vs : list Vertex.t) (p : t) : option (R * t) :=
  match _h p with
  | Some h => Some (h, p)
  | None =>
      hs ← mapM (fun i => Vertex.height <$> vs !! i) (vertices p);
      h ← Py.min_list hs;
      Some (h, set_h h p)
  end.

(** The [slope] property: the height difference of the highest and the
    lowest vertex over their distance, remembered at the first read. *)
Definition slope (vs : list Vertex.t) (p : t) : option (R * t) :=
  match _slope p with
  | Some s => Some (s, p)
  | None =>
      pvs ← mapM (fun i => vs !! i) (vertices p);
      max_v ← Py.max_by Vertex.height pvs;
      min_v ← Py.min_by Vertex.height pvs;
      s ← Py.truediv (Vertex.height max_v - Vertex.height min_v)
                     (Vertex.dist max_v (Vertex.coords min_v));
      Some (s, set_slope s p)
  end.

End Patch.

(** ** The tessellation, as [scipy.spatial.Voronoi] hands it over *)

Module Voronoi.

Record t := mk {
  vertices : list (R * R);
  ridge_vertices : list (Z * Z);   (* -1 is the point at infinity *)
  regions : list (list Z)
}.

End Voronoi.

(** ** [networkx.DiGraph], as far as the module uses it *)

Module DiGraph.

Record t := mk {
  nodes : gset nat;
  edges : gmap (nat * nat) R     (* (u, v) -> weight *)
}.

Definition empty : t := mk ∅ ∅.

(** [g.add_edge(u, v, weight=w)]: both ends become nodes; an existing edge
    gets the new weight. *)
Definition add_edge (u v : nat) (weight : R) (g : t) : t :=
  mk ({[u]} ∪ ({[v]} ∪ nodes g)) (<[(u, v) := weight]> (edges g)).

End DiGraph.

(** ** The World *)

Record World := mkWorld {
  voronoi : Voronoi.t;
  vertices : list Vertex.t;
  ridges : list (nat * Ridge.t);
  patches : list (nat * Patch.t);
  _land_patches : list nat;
  _patch_network : option DiGraph.t;
  x_lim : R * R;
  y_lim : R * R;
  sea_level : R
}.

Definition set_vertices (vs : list Vertex.t) (w : World) : World :=
  mkWorld (voronoi w) vs (ridges w) (patches w) (_land_patches w)
          (_patch_network w) (x_lim w) (y_lim w) (sea_level w).

Definition set_ridges (rs : list (nat * Ridge.t)) (w : World) : World :=
  mkWorld (voronoi w) (vertices w) rs (patches w) (_land_patches w)
          (_patch_network w) (x_lim w) (y_lim w) (sea_level w).

Definition set_patches (ps : list (nat * Patch.t)) (w : World) : World :=
  mkWorld (voronoi w) (vertices w) (ridges w) ps (_land_patches w)
          (_patch_network w) (x_lim w) (y_lim w) (sea_level w).

Definition set_land_patches (lp : list nat) (w : World) : World :=
  mkWorld (voronoi w) (vertices w) (ridges w) (patches w) lp
          (_patch_network w) (x_lim w) (y_lim w) (sea_level w).

Definition set_patch_network (g : DiGraph.t) (w : World) : World :=
  mkWorld (voronoi w) (vertices w) (ridges w) (patches w) (_land_patches w)
          (Some g) (x_lim w) (y_lim w) (sea_level w).

Definition set_sea (s : R) (w : World) : World :=
  mkWorld (voronoi w) (vertices w) (ridges w) (patches w) (_land_patches w)
          (_patch_network w) (x_lim w) (y_lim w) s.

(** *** Construction *)

Definition _make_vertices (w : World) : World :=
  set_vertices
    (foldl (fun vs ipt => vs ++ [Vertex.init ipt.1 ipt.2]) (vertices w)
           (Py.enumerate (Voronoi.vertices (voronoi w))))
    w.

(** The body of the loop of [_make_ridges]. *)
Definition make_ridge (ip : nat * (Z * Z)) (w : World) : option World :=
  let '(i, (k, j)) := ip in
  if decide (k = (-1)%Z ∨ j = (-1)%Z) then Some w else
  end_1 ← Py.index (length (vertices w)) k;
  end_2 ← Py.index (length (vertices w)) j;
  '(ridge, vs) ← Ridge.init i end_1 end_2 (vertices w);
  Some (set_ridges (Py.dict_set i ridge (ridges w)) (set_vertices vs w)).

Definition _make_ridges (w : World) : option World :=
  Py.for_each make_ridge (Py.enumerate (Voronoi.ridge_vertices (voronoi w))) w.

(** The body of the loop of [_make_patches]. *)
Definition make_patch (ir : nat * list Z) (w : World) : option World :=
  let '(i, region) := ir in
  if decide ((-1)%Z ∈ region ∨ length region = 0%nat) then Some w else
  patch_vertices ← mapM (Py.index (length (vertices w))) region;
  '(patch, vs) ← Patch.init i patch_vertices (vertices w);
  Some (set_patches (Py.dict_set i patch (patches w)) (set_vertices vs w)).

Definition _make_patches (w : World) : option World :=
  Py.for_each make_patch (Py.enumerate (Voronoi.regions (voronoi w))) w.

(** The body of the loop of [_make_neighbors], for the ridge with key [rk].
    Unpacking [p1, p2 = neighbors] raises when more than two patches are
    common to both ends. *)
Definition make_neighbor (rk : nat) (w : World) : option World :=
  ridge ← Py.dict_get rk (ridges w);
  v1 ← vertices w !! Ridge.end_1 ridge;
  v2 ← vertices w !! Ridge.end_2 ridge;
  let neighbors := Vertex.patches v1 ∩ Vertex.patches v2 in
  if decide (size neighbors < 2)%nat then Some w else
  match elements neighbors with
  | [p1; p2] =>
      P1 ← Py.dict_get p1 (patches w);
      let ps1 := Py.dict_set p1 (Patch.set_neighbor rk p2 P1) (patches w) in
      P2 ← Py.dict_get p2 ps1;
      let ps2 := Py.dict_set p2 (Patch.set_neighbor rk p1 P2) ps1 in
      Some (set_ridges
              (Py.dict_set rk (Ridge.add_patch p2 (Ridge.add_patch p1 ridge)) (ridges w))
              (set_patches ps2 w))
  | _ => None
  end.

Definition _make_neighbors (w : World) : option World :=
  Py.for_each make_neighbor (fst <$> ridges w) w.

(** [World(points, x_lim, y_lim)], given the tessellation [Voronoi(points)]. *)
Definition World_init (vor : Voronoi.t) (x_lim y_lim : R * R) : option World :=
  let w := mkWorld vor [] [] [] [] None x_lim y_lim 0 in
  let w := _make_vertices w in
  w ← _make_ridges w;
  w ← _make_patches w;
  _make_neighbors w.

(** *** Heights *)

Definition _check_coord (w : World) (coord : R * R) : Prop :=
  ((x_lim w).1 < coord.1 ∧ coord.1 < (x_lim w).2)
  ∧ ((y_lim w).1 < coord.2 ∧ coord.2 < (y_lim w).2).

#[global] Instance _check_coord_dec w coord : Decision (_check_coord w coord).
Proof. unfold _check_coord. apply _. Defined.

Definition set_heights (w : World) (h : R) : World :=
  set_vertices (Vertex.set_height h <$> vertices w) w.

Definition normalize_heights (w : World) : option World :=
  let heights := Vertex.height <$> vertices w in
  min_h ← Py.min_list heights;
  max_h ← Py.max_list heights;
  vs ← mapM (fun v => h ← Py.truediv (Vertex.height v - min_h) (max_h - min_h);
                      Some (Vertex.set_height h v))
            (vertices w);
  Some (set_vertices vs w).

(** [add_slope]; [rnd] is the value [np.random.random(2)] returns when no
    slope is given, and a magnitude of [None] or zero is not applied. *)
Definition add_slope (w : World) (rnd : R * R) (magnitude : option R)
    (slope : option (R * R)) (normalize : bool) : option World :=
  slope ← match slope with
          | Some s => Some s
          | None =>
              let s := (rnd.1 - 0.5, rnd.2 - 0.5) in
              sx ← Py.truediv s.1 (Py.norm s);
              sy ← Py.truediv s.2 (Py.norm s);
              Some (sx, sy)
          end;
  let slope := match magnitude with
               | Some m => if decide (m = 0) then slope else (slope.1 * m, slope.2 * m)
               | None => slope
               end in
  let w := set_vertices
             ((fun v => if decide (_check_coord w (Vertex.coords v))
                        then Vertex.set_height (Py.dot (Vertex.coords v) slope) v
                        else v) <$> vertices w) w in
  if normalize then normalize_heights w else Some w.

(** [add_hill]; [rnd] is the value [np.random.random(2)] returns when no
    hill is given.  The distance is a numpy float, so that a radius of zero
    does not raise: the vertices off the centre of the hill get the
    exponential of minus infinity, which is 0. *)
Definition add_hill (w : World) (rnd : R * R) (hill : option (R * R)) (r : R)
    (normalize : bool) : option World :=
  let hill := match hill with Some c => c | None => rnd end in
  vs ← mapM (fun v => if decide (_check_coord w (Vertex.coords v))
                      then h ← Py.np_exp_div (- Vertex.dist v hill ^ 2) (2 * r ^ 2);
                           Some (Vertex.set_height (Vertex.height v + h ^ 2) v)
                      else Some v)
            (vertices w);
  let w := set_vertices vs w in
  if normalize then normalize_heights w else Some w.

(** *** Rivers *)

Definition reset_rivers (w : World) : option World :=
  vs ← mapM (fun v => f ← Py.truediv 1 (INR (length (vertices w)));
                      Some (Vertex.set_flux f v))
            (vertices w);
  Some (set_ridges ((fun kr => (kr.1, Ridge.set_flux 0 kr.2)) <$> ridges w)
                   (set_vertices vs w)).

(** The vertices a set of references points to, each with its position. *)
Definition deref (vs : list Vertex.t) (refs : list nat) : option (list (nat * Vertex.t)) :=
  mapM (fun i => v ← vs !! i; Some (i, v)) refs.

(** The body of the loop of [make_rivers], for the vertex at position [i]. *)
Definition route_flux (i : nat) (w : World) : option World :=
  v ← vertices w !! i;
  if decide (_check_coord w (Vertex.coords v)) then
    ns ← deref (vertices w) (elements (Vertex.neighbors v));
    '(lowest, lv) ← Py.min_by (fun nv => Vertex.height nv.2) ns;
    if decide (Vertex.height lv < Vertex.height v) then
      let vs := <[lowest := Vertex.set_flux (Vertex.flux lv + Vertex.flux v) lv]> (vertices w) in
      rk ← Vertex.ridges v !! Vertex.name lv;
      ridge ← Py.dict_get rk (ridges w);
      Some (set_ridges
              (Py.dict_set rk (Ridge.set_flux (Ridge.flux ridge + Vertex.flux v) ridge)
                           (ridges w))
              (set_vertices vs w))
    else Some w
  else Some w.

(** The order in which [make_rivers] visits the vertices. *)
Definition vertices_by_height (w : World) : list (nat * Vertex.t) :=
  Py.sorted_desc (fun iv => Vertex.height iv.2) (Py.enumerate (vertices w)).

Definition make_rivers (w : World) : option World :=
  w ← reset_rivers w;
  Py.for_each route_flux (fst <$> vertices_by_height w) w.

(** The body of the loop of [erode_heights], for the ridge with key [rk]. *)
Definition erode_ridge (max_total : R) (rk : nat) (w : World) : option World :=
  ridge ← Py.dict_get rk (ridges w);
  if decide (Ridge.flux ridge = 0) then Some w else
  sq ← Py.np_sqrt (Ridge.flux ridge);
  s ← Ridge.slope (vertices w) ridge;
  let river := sq * s in
  let creep := s ^ 2 in
  let total := 1000 * river + creep in
  let total := Py.min2 total max_total in
  v1 ← vertices w !! Ridge.end_1 ridge;
  v2 ← vertices w !! Ridge.end_2 ridge;
  '(low, lv) ← Py.min_by (fun iv => Vertex.height iv.2)
                 [(Ridge.end_1 ridge, v1); (Ridge.end_2 ridge, v2)];
  Some (set_vertices
          (<[low := Vertex.set_height (Vertex.height lv - 0.1 * total / 500) lv]> (vertices w))
          w).

Definition erode_heights (w : World) (max_total drop_factor : R) : option World :=
  Py.for_each (erode_ridge max_total) (fst <$> ridges w) w.

(** *** Sea level, land and coast *)

Section SeaLevel.

(** [np.percentile(heights, q)], a function of numpy; it raises when [q]
    is not a percentile. *)
Variable np_percentile : list R -> R -> option R.

Definition set_sea_level (w : World) (sea_level : R) : option World :=
  if decide (sea_level < 1) then Some (set_sea sea_level w)
  else
    let heights := Vertex.height <$> vertices w in
    s ← np_percentile heights sea_level;
    Some (set_sea s w).

End SeaLevel.

(** One step of the list comprehension of [land_patches], for the patch
    with key [k]: its height is read (and remembered by the patch), and the
    patch is kept when it lies above the sea. *)
Definition land_step (k : nat) (st : list nat * World) : option (list nat * World) :=
  let '(acc, w) := st in
  p ← Py.dict_get k (patches w);
  '(h, p') ← Patch.height (vertices w) p;
  let w' := set_patches (Py.dict_set k p' (patches w)) w in
  Some (if decide (sea_level w < h) then acc ++ [k] else acc, w').

(** The [land_patches] property. *)
Definition land_patches (w : World) : option (list nat * World) :=
  if decide (length (_land_patches w) = 0%nat) then
    '(lp, w') ← Py.for_each land_step (fst <$> patches w) ([], w);
    Some (lp, set_land_patches lp w')
  else Some (_land_patches w, w).

(** The body of the loop of [clean_coastline], for the vertex at position
    [i]. *)
Definition clean_vertex (epsilon : R) (i : nat) (w : World) : option World :=
  v ← vertices w !! i;
  ns ← deref (vertices w) (elements (Vertex.neighbors v));
  let neighbor_heights := (fun nv => Vertex.height nv.2) <$> ns in
  let above := length (filter (fun h => sea_level w < h) neighbor_heights) in
  let below := length (filter (fun h => h < sea_level w) neighbor_heights) in
  if decide (Vertex.height v < sea_level w ∧ (1 < above)%nat)
  then Some (set_vertices (<[i := Vertex.set_height (sea_level w + epsilon) v]> (vertices w)) w)
  else if decide (sea_level w < Vertex.height v ∧ (1 < below)%nat)
  then Some (set_vertices (<[i := Vertex.set_height (sea_level w - epsilon) v]> (vertices w)) w)
  else Some w.

Definition clean_coastline (w : World) (epsilon : R) : option World :=
  Py.for_each (clean_vertex epsilon) (seq 0 (length (vertices w))) w.

(** *** The patch network *)

(** Reading the [height] property of the patch with key [k]. *)
Definition read_height (k : nat) (w : World) : option (R * World) :=
  p ← Py.dict_get k (patches w);
  '(h, p') ← Patch.height (vertices w) p;
  Some (h, set_patches (Py.dict_set k p' (patches w)) w).

(** The body of the inner loop of [patch_network]: the neighbor [qk] of the
    land patch [pk]. *)
Definition network_neighbor (pk : nat) (rq : nat * nat) (st : DiGraph.t * World)
  : option (DiGraph.t * World) :=
  let '(g, w) := st in
  let qk := rq.2 in
  '(hq, w) ← read_height qk w;
  if decide (hq < sea_level w) then Some (g, w) else
  patch ← Py.dict_get pk (patches w);
  p ← Py.dict_get qk (patches w);
  let dist := Py.norm (Py.sub2 (Patch.centroid patch) (Patch.centroid p)) in
  '(hq, w) ← read_height qk w;
  '(hp, w) ← read_height pk w;
  let delta_h := hq - hp in
  let weight := dist * exp delta_h in
  Some (DiGraph.add_edge (Patch.name patch) (Patch.name p) weight g, w).

(** The body of the outer loop of [patch_network]. *)
Definition network_patch (pk : nat) (st : DiGraph.t * World)
  : option (DiGraph.t * World) :=
  patch ← Py.dict_get pk (patches st.2);
  Py.for_each (network_neighbor pk) (Patch.neighbors patch) st.

(** The [patch_network] property. *)
Definition patch_network (w : World) : option (DiGraph.t * World) :=
  match _patch_network w with
  | Some g => Some (g, w)
  | None =>
      '(lp, w) ← land_patches w;
      '(g, w) ← Py.for_each network_patch lp (DiGraph.empty, w);
      Some (g, set_patch_network g w)
  end.

(** *** The operations a caller runs on a built world *)

Inductive operation :=
| SetHeights (h : R)
| NormalizeHeights
| AddSlope (rnd : R * R) (magnitude : option R) (slope : option (R * R)) (normalize : bool)
| AddHill (rnd : R * R) (hill : option (R * R)) (r : R) (normalize : bool)
| MakeRivers
| ErodeHeights (max_total drop_factor : R)
| SetSeaLevel (sea_level : R)
| LandPatches
| CleanCoastline (epsilon : R)
| ResetRivers
| PatchNetwork.

Section Operations.

Variable np_percentile : list R -> R -> option R.

Definition run (o : operation) (w : World) : option World :=
  match o with
  | SetHeights h => Some (set_heights w h)
  | NormalizeHeights => normalize_heights w
  | AddSlope rnd magnitude slope normalize => add_slope w rnd magnitude slope normalize
  | AddHill rnd hill r normalize => add_hill w rnd hill r normalize
  | MakeRivers => make_rivers w
  | ErodeHeights max_total drop_factor => erode_heights w max_total drop_factor
  | SetSeaLevel s => set_sea_level np_percentile w s
  | LandPatches => snd <$> land_patches w
  | CleanCoastline epsilon => clean_coastline w epsilon
  | ResetRivers => reset_rivers w
  | PatchNetwork => snd <$> patch_network w
  end.

Definition run_all (os : list operation) (w : World) : option World :=
  Py.for_each run os w.

End Operations.

(** * More of the module, and the nomads that wander the world *)

(** ** Reading the slope of a patch *)

(** Reading the [slope] property of the patch with key [k]. *)
Definition read_slope (k : nat) (w : World) : option (R * World) :=
  p ← Py.dict_get k (patches w);
  '(s, p') ← Patch.slope (vertices w) p;
  Some (s, set_patches (Py.dict_set k p' (patches w)) w).

(** ** Roads *)

Section Roads.

(** [nx.shortest_path(G, source, target, weight='weight')], a function of
    networkx: the nodes of a cheapest path from [source] to [target]; it
    raises when one of the two is no node of [G] or no path joins them. *)
Variable nx_shortest_path : DiGraph.t -> nat -> nat -> option (list nat).

(** [make_road(start_patch, end_patch)]: the segments between the centroids
    of the successive patches of the path. *)
Definition make_road (w : World) (start_patch end_patch : nat)
  : option (list ((R * R) * (R * R)) * World) :=
  '(g, w) ← patch_network w;
  road_patches ← nx_shortest_path g start_patch end_patch;
  road_coords ← mapM (fun i => ka ← road_patches !! i;
                               a ← Py.dict_get ka (patches w);
                               kb ← road_patches !! (i + 1)%nat;
                               b ← Py.dict_get kb (patches w);
                               Some (Patch.centroid a, Patch.centroid b))
                     (seq 0 (length road_patches - 1));
  Some (road_coords, w).

End Roads.

(** ** Lloyd relaxation *)

(** The nested [check_coord] of [lloyd_relaxation]: without limits every
    point passes. *)
Definition check_coord (x_lim y_lim : option (R * R)) (coord : R * R) : Prop :=
  match x_lim, y_lim with
  | Some xl, Some yl =>
      (xl.1 < coord.1 /\ coord.1 < xl.2) /\ (yl.1 < coord.2 /\ coord.2 < yl.2)
  | _, _ => True
  end.

#[global] Instance check_coord_dec x_lim y_lim coord : Decision (check_coord x_lim y_lim coord).
Proof. unfold check_coord. destruct x_lim, y_lim; apply _. Defined.

(** The body of the loop of [lloyd_relaxation], for the point [point] at
    position [i]: the point that takes its place. *)
Definition relax_point (vor : Voronoi.t) (point_region : list Z)
    (x_lim y_lim : option (R * R)) (ip : nat * (R * R)) : option (R * R) :=
  let '(i, point) := ip in
  pr ← point_region !! i;
  ri ← Py.index (length (Voronoi.regions vor)) pr;
  region ← Voronoi.regions vor !! ri;
  if decide (length region = 0%nat \/ (-1)%Z ∈ region) then Some point else
  polygon ← mapM (fun z => j ← Py.index (length (Voronoi.vertices vor)) z;
                           Voronoi.vertices vor !! j) region;
  new_pt ← find_centroid polygon;
  if decide (check_coord x_lim y_lim new_pt) then Some new_pt else Some point.

(** [lloyd_relaxation(points, x_lim, y_lim)], given the tessellation
    [Voronoi(points)] and its [point_region]. *)
Definition lloyd_relaxation (vor : Voronoi.t) (points : list (R * R)) (point_region : list Z)
    (x_lim y_lim : option (R * R)) : option (list (R * R)) :=
  mapM (relax_point vor point_region x_lim y_lim) (Py.enumerate points).

(** ** The nomads ([NomadModel.py]) *)

Section Random.

(** The generator of the [random] module, by call number: [random_random n]
    is the value of the call number [n] when it is [random.random()], and
    [random_below n k] its value when it draws a position below [k] for
    [random.choice]. *)
Variable random_random : nat -> R.
Variable random_below : nat -> nat -> nat.

(** [random.uniform(a, b)], which is [a + (b - a) * random()]. *)
Definition random_uniform (a b : R) (n : nat) : R * nat :=
  (a + (b - a) * random_random n, S n).

(** [random.choice(seq)]; it raises on an empty sequence. *)
Definition random_choice {A} (l : list A) (n : nat) : option (A * nat) :=
  match l with
  | [] => None
  | _ => x ← l !! random_below n (length l); Some (x, S n)
  end.

(** The loop of [weighted_random]: the first choice at which the running
    total reaches [r]; running off the end is the failed assertion. *)
Fixpoint pick_upto (choices : list (nat * R)) (upto r : R) : option nat :=
  match choices with
  | [] => None
  | (c, w) :: rest =>
      if decide (r <= upto + w) then Some c else pick_upto rest (upto + w) r
  end.

(** [weighted_random(choices)], for a dict in insertion order. *)
Definition weighted_random (choices : list (nat * R)) (n : nat) : option (nat * nat) :=
  let total := Py.sum (snd <$> choices) in
  let '(r, n) := random_uniform 0 total n in
  c ← pick_upto choices 0 r;
  Some (c, n).

End Random.

Module Nomad.

Record t := mk {
  name : nat;
  patch : nat;
  size : Z
}.

(** [Nomad(model, name, patch)], with the default size 1. *)
Definition init (name patch : nat) : t := mk name patch 1.

Definition set_patch (p : nat) (self : t) : t := mk (name self) p (size self).

Definition set_size (s : Z) (self : t) : t := mk (name self) (patch self) s.

(** [get_water(patch)]: the sum of the fluxes of the vertices of the patch. *)
Definition get_water (w : World) (p : Patch.t) : option R :=
  fs ← mapM (fun i => Vertex.flux <$> vertices w !! i) (Patch.vertices p);
  Some (Py.sum fs).

(** [evaluate_patch(patch)], for the patch with key [k]; reading slope and
    height makes the patch remember them. *)
Definition evaluate_patch (k : nat) (w : World) : option (R * World) :=
  p ← Py.dict_get k (patches w);
  wt ← get_water w p;
  let water := 1000 * wt in
  '(s, w) ← read_slope k w;
  inv ← Py.truediv 1 s;
  let slope := Py.min2 inv 5 in
  '(h, w) ← read_height k w;
  let elevation := 10 * (1 - h) in
  Some (slope + water + elevation, w).

(** One step of the list comprehension of [move], for the neighbor [rq.2]:
    it is kept when it reports a height above the sea. *)
Definition move_candidate (rq : nat * nat) (st : list nat * World)
  : option (list nat * World) :=
  let '(acc, w) := st in
  '(h, w) ← read_height rq.2 w;
  Some (if decide (sea_level w < h) then acc ++ [rq.2] else acc, w).

(** One step of the dict comprehension of [move], for the candidate [k]. *)
Definition move_weight (k : nat) (st : list (nat * R) * World)
  : option (list (nat * R) * World) :=
  let '(d, w) := st in
  '(x, w) ← evaluate_patch k w;
  Some (Py.dict_set k x d, w).

Section Random.

Variable random_random : nat -> R.

(** [move()], on the world of the model and the generator at call [n]. *)
Definition move (self : t) (st : World * nat) : option (t * (World * nat)) :=
  let '(w, n) := st in
  inv ← Py.truediv 1 (IZR (size self));
  if decide (inv < random_random n) then Some (self, (w, S n)) else
  let n := S n in
  here ← Py.dict_get (patch self) (patches w);
  '(possible_moves, w) ← Py.for_each move_candidate (Patch.neighbors here) ([], w);
  let possible_moves := possible_moves ++ [patch self] in
  '(move_weights, w) ← Py.for_each move_weight possible_moves ([], w);
  '(next_patch, n) ← weighted_random random_random move_weights n;
  Some (set_patch next_patch self, (w, n)).

End Random.

End Nomad.

Module NomadModel.

(** [nomads_per_patch[tribe.patch].append(tribe)] on the defaultdict. *)
Definition file_tribe (d : list (nat * list Nomad.t)) (tribe : Nomad.t)
  : list (nat * list Nomad.t) :=
  Py.dict_set (Nomad.patch tribe)
              (default [] (Py.dict_get (Nomad.patch tribe) d) ++ [tribe]) d.

(** The tribes of one patch join: the first takes the sizes of all. *)
Definition join (patch_tribes : list Nomad.t) : option Nomad.t :=
  match patch_tribes with
  | [] => None
  | first :: _ =>
      Some (Nomad.set_size (fold_left Z.add (Nomad.size <$> patch_tribes) 0%Z) first)
  end.

Section Random.

Variable random_random : nat -> R.
Variable random_below : nat -> nat -> nat.

(** The loop of [NomadModel(world, num_tribes)]: the tribe [i] starts on a
    land patch drawn at random. *)
Definition found_tribe (i : nat) (st : list Nomad.t * (World * nat))
  : option (list Nomad.t * (World * nat)) :=
  let '(nomads, (w, n)) := st in
  '(lp, w) ← land_patches w;
  '(starting_patch, n) ← random_choice random_below lp n;
  Some (nomads ++ [Nomad.init i starting_patch], (w, n)).

Definition init (world : World) (num_tribes : nat) (n : nat)
  : option (list Nomad.t * (World * nat)) :=
  Py.for_each found_tribe (seq 0 num_tribes) ([], (world, n)).

(** The first loop of [one_year]: every tribe moves, one after the other. *)
Fixpoint move_all (nomads : list Nomad.t) (st : World * nat)
  : option (list Nomad.t * (World * nat)) :=
  match nomads with
  | [] => Some ([], st)
  | tribe :: rest =>
      '(tribe', st) ← Nomad.move random_random tribe st;
      '(rest', st) ← move_all rest st;
      Some (tribe' :: rest', st)
  end.

(** [one_year()]: the tribes move, and the tribes that end up on the same
    patch join. *)
Definition one_year (nomads : list Nomad.t) (st : World * nat)
  : option (list Nomad.t * (World * nat)) :=
  '(nomads, st) ← move_all nomads st;
  let nomads_per_patch := fold_left file_tribe nomads [] in
  nomads ← mapM (fun kv => join kv.2) nomads_per_patch;
  Some (nomads, st).

End Random.

End NomadModel.

(** * Invariants of the mesh *)

(** The adjacency part of a vertex and of a ridge: what the constructor
    sets up and no later operation touches. *)
Definition vertex_links (v : Vertex.t) : nat * gset nat * gmap nat nat :=
  (Vertex.name v, Vertex.neighbors v, Vertex.ridges v).

Definition ridge_links (kr : nat * Ridge.t) : nat * nat * nat :=
  (kr.1, Ridge.end_1 kr.2, Ridge.end_2 kr.2).

Definition links (w : World) :=
  (vertex_links <$> vertices w, ridge_links <$> ridges w).

(** Every vertex is named after its position. *)
Definition names_ok (vs : list Vertex.t) : Prop :=
  forall i v, vs !! i = Some v -> Vertex.name v = i.

(** The ridge [r], stored under key [k], links its two ends: each end is in
    the other's neighbor set, and each end's ridge map gives [k] for the
    other. *)
Definition linked (vs : list Vertex.t) (k : nat) (r : Ridge.t) : Prop :=
  exists A B,
    vs !! Ridge.end_1 r = Some A /\ vs !! Ridge.end_2 r = Some B
    /\ Ridge.end_2 r ∈ Vertex.neighbors A /\ Ridge.end_1 r ∈ Vertex.neighbors B
    /\ Vertex.ridges A !! Vertex.name B = Some k
    /\ Vertex.ridges B !! Vertex.name A = Some k.

Definition mesh_symmetric (w : World) : Prop :=
  forall k r, Py.dict_get k (ridges w) = Some r -> linked (vertices w) k r.

(** The ridge maps point back at the ridges: a vertex is a neighbor exactly
    when the ridge map has an entry for it, and the ridge filed under a
    neighbor joins the vertex and that neighbor. *)
Definition ridge_map_sound (w : World) : Prop :=
  forall a A b, vertices w !! a = Some A ->
    (b ∈ Vertex.neighbors A <-> is_Some (Vertex.ridges A !! b))
    /\ forall k, Vertex.ridges A !! b = Some k ->
         (b < length (vertices w))%nat
         /\ exists r, Py.dict_get k (ridges w) = Some r
              /\ ((Ridge.end_1 r = a /\ Ridge.end_2 r = b)
                  \/ (Ridge.end_1 r = b /\ Ridge.end_2 r = a)).

Definition mesh_ok (w : World) : Prop :=
  names_ok (vertices w) /\ ridge_map_sound w.

(** What [add_neighbor] does to the vertex it is called on. *)
Definition link (nb k : nat) (v : Vertex.t) : Vertex.t :=
  Vertex.mk (Vertex.name v) (Vertex.coords v) ({[nb]} ∪ Vertex.neighbors v)
            (Vertex.patches v) (<[nb := k]> (Vertex.ridges v))
            (Vertex.height v) (Vertex.flux v).

(** What [Ridge(i, e1, e2)] does to the vertex at position [a]. *)
Definition relink (e1 e2 i a : nat) (v : Vertex.t) : Vertex.t :=
  let v := if decide (e1 = a) then link e2 i v else v in
  if decide (e2 = a) then link e1 i v else v.

(** The positions of the two ends of a tessellation ridge; [None] for a
    ridge that reaches the point at infinity or names no vertex. *)
Definition ridge_ends (n : nat) (kj : Z * Z) : option (nat * nat) :=
  if decide (kj.1 = (-1)%Z \/ kj.2 = (-1)%Z) then None
  else e1 ← Py.index n kj.1; e2 ← Py.index n kj.2; Some (e1, e2).

Definition unordered (e : nat * nat) : nat * nat :=
  if decide (e.1 <= e.2)%nat then e else (e.2, e.1).

(** A planar tessellation lists the ridge between two vertices once. *)
Definition ridges_listed_once (vor : Voronoi.t) : Prop :=
  NoDup (unordered <$> omap (ridge_ends (length (Voronoi.vertices vor)))
                            (Voronoi.ridge_vertices vor)).

(** The state of the loop of [_make_ridges] after the tessellation ridges
    [pre], for a tessellation with [n] vertices. *)
Definition ridges_inv (n : nat) (pre : list (nat * (Z * Z))) (w : World) : Prop :=
  length (vertices w) = n
  /\ mesh_ok w
  /\ (forall k r, Py.dict_get k (ridges w) = Some r ->
        Ridge.name r = k
        /\ exists kj, (k, kj) ∈ pre /\ ridge_ends n kj = Some (Ridge.end_1 r, Ridge.end_2 r))
  /\ (NoDup (unordered <$> omap (ridge_ends n) pre.*2) -> mesh_symmetric w).

(** The coordinate-wise mean of a list of points. *)
Definition mean (cs : list (R * R)) : R * R :=
  (Py.sum cs.*1 / INR (length cs), Py.sum cs.*2 / INR (length cs)).

(** A patch over vertices with the coordinates [coords]: it has a bounding
    vertex, and its centroid is the mean of its bounding vertices. *)
Definition patch_closed (coords : list (R * R)) (p : Patch.t) : Prop :=
  (1 <= length (Patch.vertices p))%nat
  /\ exists cs, mapM (fun i => coords !! i) (Patch.vertices p) = Some cs
               /\ Patch.centroid p = mean cs.

(** What the constructor fixes for the lifetime of the mesh: everything but
    the heights and fluxes, the remembered patch heights and slopes, the
    sea level and the two caches. *)
Definition vertex_fixed (v : Vertex.t) :=
  (Vertex.name v, Vertex.coords v, Vertex.neighbors v, Vertex.patches v, Vertex.ridges v).

Definition ridge_fixed (kr : nat * Ridge.t) :=
  (kr.1, Ridge.name kr.2, Ridge.end_1 kr.2, Ridge.end_2 kr.2, Ridge.patches kr.2).

Definition patch_fixed (kp : nat * Patch.t) :=
  (kp.1, Patch.name kp.2, Patch.vertices kp.2, Patch.neighbors kp.2, Patch.centroid kp.2).

Definition geometry (w : World) :=
  (vertex_fixed <$> vertices w, ridge_fixed <$> ridges w, patch_fixed <$> patches w,
   voronoi w, x_lim w, y_lim w).

(** A vertex without its incident patches, and a patch without its
    neighbors and remembered values: what the later construction steps
    leave alone. *)
Definition vertex_but_patches (v : Vertex.t) :=
  (Vertex.name v, Vertex.coords v, Vertex.neighbors v, Vertex.ridges v,
   Vertex.height v, Vertex.flux v).

Definition patch_shape (kp : nat * Patch.t) :=
  (kp.1, Patch.name kp.2, Patch.vertices kp.2, Patch.centroid kp.2).

(** The state of the loop of [_make_patches] after the regions [pre], for a
    tessellation with the vertex coordinates [coords]. *)
Definition patches_inv (coords : list (R * R)) (pre : list (nat * list Z)) (w : World)
  : Prop :=
  Vertex.coords <$> vertices w = coords
  /\ (forall k p, Py.dict_get k (patches w) = Some p ->
        Patch.name p = k
        /\ exists region, (k, region) ∈ pre /\ ((-1)%Z ∉ region) /\ region <> []
             /\ mapM (Py.index (length coords)) region = Some (Patch.vertices p)
             /\ patch_closed coords p)
  /\ (forall k region, (k, region) ∈ pre -> (-1)%Z ∉ region -> region <> [] ->
        is_Some (Py.dict_get k (patches w))).

(** The parts of the world no construction step and no mesh operation but
    the sea-level and cache ones touches. *)
Definition world_frame (w : World) := (voronoi w, x_lim w, y_lim w).

(** What a built world satisfies. *)
Definition built_from (vor : Voronoi.t) (w : World) : Prop :=
  voronoi w = vor
  /\ mesh_ok w
  /\ (ridges_listed_once vor -> mesh_symmetric w)
  /\ patches_inv (Voronoi.vertices vor) (Py.enumerate (Voronoi.regions vor)) w.

(** * Erosion, in the words of the specification *)

(** [total = min(1000 * sqrt(flux) * slope + slope^2, max_total)]. *)
Definition erosion_total (max_total flux slope : R) : R :=
  Rmin (1000 * sqrt flux * slope + slope ^ 2) max_total.

(** The end of a ridge with the lower height; the first end when both have
    the same height. *)
Definition lower_end (r : Ridge.t) (v1 v2 : Vertex.t) : nat * Vertex.t :=
  if decide (Vertex.height v2 < Vertex.height v1) then (Ridge.end_2 r, v2)
  else (Ridge.end_1 r, v1).

(** One ridge of an erosion pass: a ridge without flux changes nothing; a
    ridge with flux lowers its lower end by [0.1 * total / 500]. *)
Inductive erodes (max_total : R) (w : World) (rk : nat) : World -> Prop :=
| erodes_dry ridge :
    Py.dict_get rk (ridges w) = Some ridge ->
    Ridge.flux ridge = 0 ->
    erodes max_total w rk w
| erodes_wet ridge v1 v2 slope :
    Py.dict_get rk (ridges w) = Some ridge ->
    0 < Ridge.flux ridge ->
    vertices w !! Ridge.end_1 ridge = Some v1 ->
    vertices w !! Ridge.end_2 ridge = Some v2 ->
    Vertex.dist v1 (Vertex.coords v2) <> 0 ->
    slope = Rabs (Vertex.height v1 - Vertex.height v2) / Vertex.dist v1 (Vertex.coords v2) ->
    erodes max_total w rk
      (set_vertices
         (<[(lower_end ridge v1 v2).1 :=
              Vertex.set_height
                (Vertex.height (lower_end ridge v1 v2).2
                 - 0.1 * erosion_total max_total (Ridge.flux ridge) slope / 500)
                (lower_end ridge v1 v2).2]> (vertices w))
         w).

(** An erosion pass over the ridges with the keys [rks], one after the
    other. *)
Inductive erosion_pass (max_total : R) : list nat -> World -> World -> Prop :=
| erosion_pass_nil w : erosion_pass max_total [] w w
| erosion_pass_cons rk rks w w1 w2 :
    erodes max_total w rk w1 ->
    erosion_pass max_total rks w1 w2 ->
    erosion_pass max_total (rk :: rks) w w2.

(** A ridge over vertices with the coordinates [coords] that an erosion
    pass can work on: its ends exist and lie apart, and its flux is not
    negative. *)
Definition ridge_ready (coords : list (R * R)) (r : Ridge.t) : Prop :=
  exists c1 c2,
    coords !! Ridge.end_1 r = Some c1 /\ coords !! Ridge.end_2 r = Some c2
    /\ c1 <> c2 /\ 0 <= Ridge.flux r.

(** * Flow accumulation, in the words of the specification *)

(** [lowest], the vertex [lv], is a neighbor of [v] of minimum height. *)
Definition lowest_neighbor (w : World) (v : Vertex.t) (lowest : nat) (lv : Vertex.t) : Prop :=
  lowest ∈ Vertex.neighbors v
  /\ vertices w !! lowest = Some lv
  /\ forall n nv, n ∈ Vertex.neighbors v -> vertices w !! n = Some nv ->
                  Vertex.height lv <= Vertex.height nv.

(** The ridge [r] joins the vertices at [a] and [b]. *)
Definition joins (r : Ridge.t) (a b : nat) : Prop :=
  (Ridge.end_1 r = a /\ Ridge.end_2 r = b) \/ (Ridge.end_1 r = b /\ Ridge.end_2 r = a).

(** The visit of the vertex at position [i]: a vertex out of bounds is
    skipped; a vertex in bounds whose lowest neighbor is not lower keeps its
    flux; otherwise its flux is added to the lowest neighbor and to the
    ridge between the two. *)
Inductive routes (w : World) (i : nat) : World -> Prop :=
| routes_outside v :
    vertices w !! i = Some v ->
    ~ _check_coord w (Vertex.coords v) ->
    routes w i w
| routes_level v lowest lv :
    vertices w !! i = Some v ->
    _check_coord w (Vertex.coords v) ->
    lowest_neighbor w v lowest lv ->
    ~ Vertex.height lv < Vertex.height v ->
    routes w i w
| routes_down v lowest lv rk ridge :
    vertices w !! i = Some v ->
    _check_coord w (Vertex.coords v) ->
    lowest_neighbor w v lowest lv ->
    Vertex.height lv < Vertex.height v ->
    Vertex.ridges v !! Vertex.name lv = Some rk ->
    Py.dict_get rk (ridges w) = Some ridge ->
    joins ridge i lowest ->
    routes w i
      (set_ridges
         (Py.dict_set rk (Ridge.set_flux (Ridge.flux ridge + Vertex.flux v) ridge) (ridges w))
         (set_vertices
            (<[lowest := Vertex.set_flux (Vertex.flux lv + Vertex.flux v) lv]> (vertices w))
            w)).

Inductive river_pass : list nat -> World -> World -> Prop :=
| river_pass_nil w : river_pass [] w w
| river_pass_cons i order w w1 w2 :
    routes w i w1 ->
    river_pass order w1 w2 ->
    river_pass (i :: order) w w2.

(** [a] is visited before [b]: it is higher, or as high and earlier in the
    vertex list. *)
Definition higher_first (a b : nat * Vertex.t) : Prop :=
  Vertex.height b.2 < Vertex.height a.2
  \/ (Vertex.height a.2 = Vertex.height b.2 /\ (a.1 < b.1)%nat).

(** [order] visits every vertex of [w] once, higher vertices first. *)
Definition river_order (w : World) (order : list nat) : Prop :=
  exists entries,
    entries ≡ₚ Py.enumerate (vertices w)
    /\ order = entries.*1
    /\ StronglySorted higher_first entries.

(** The rivers are reset: every vertex holds the share [1/|V|] of the rain,
    no ridge carries flux, and heights and geometry are those of [w]. *)
Definition rivers_reset (w w0 : World) : Prop :=
  geometry w0 = geometry w
  /\ Vertex.height <$> vertices w0 = Vertex.height <$> vertices w
  /\ Forall (fun v => Vertex.flux v = 1 / INR (length (vertices w))) (vertices w0)
  /\ Forall (fun kr => Ridge.flux kr.2 = 0) (ridges w0).

(** The visit needs the mesh to be sound and every vertex in bounds to have
    a neighbor; both are read from the geometry. *)
Definition visitable (w : World) : Prop :=
  mesh_ok w
  /\ forall i v, vertices w !! i = Some v -> _check_coord w (Vertex.coords v) ->
                 Vertex.neighbors v <> ∅.

(** * Land *)

(** The height the patch with key [k] reports: the remembered one, or else
    the minimum height of its vertices. *)
Definition patch_height_view (w : World) (k : nat) : option R :=
  p ← Py.dict_get k (patches w);
  fst <$> Patch.height (vertices w) p.

(** The patch with key [k] reports a height above the sea. *)
Definition is_land (w : World) (k : nat) : Prop :=
  exists h, patch_height_view w k = Some h /\ sea_level w < h.

#[global] Instance is_land_dec w k : Decision (is_land w k).
Proof.
  unfold is_land. destruct (patch_height_view w k) as [h |].
  - destruct (decide (sea_level w < h)) as [Hlt | Hge].
    + left. eauto.
    + right. intros (h' & [= <-] & Hlt). contradiction.
  - right. intros (h' & [=] & _).
Defined.

(** * Fluxes *)

(** No vertex and no ridge holds a negative flux. *)
Definition flux_nonneg (w : World) : Prop :=
  Forall (fun v => 0 <= Vertex.flux v) (vertices w)
  /\ Forall (fun kr : nat * Ridge.t => 0 <= Ridge.flux kr.2) (ridges w).

(** The two ends of a ridge over vertices with the coordinates [coords]
    exist and lie apart. *)
Definition ends_apart (coords : list (R * R)) (r : Ridge.t) : Prop :=
  exists c1 c2,
    coords !! Ridge.end_1 r = Some c1 /\ coords !! Ridge.end_2 r = Some c2 /\ c1 <> c2.

(** * Example meshes *)

(** A ridge whose two ends lie on the same point, one unit apart in height. *)
Definition coincident_end_1 : Vertex.t :=
  Vertex.mk 0 (0, 0) {[1%nat]} ∅ {[1%nat := 0%nat]} 1 1.

Definition coincident_end_2 : Vertex.t :=
  Vertex.mk 1 (0, 0) {[0%nat]} ∅ {[0%nat := 0%nat]} 0 1.

Definition coincident_vertices : list Vertex.t :=
  [coincident_end_1; coincident_end_2].

Definition coincident_ridge : Ridge.t := Ridge.mk 0 0 1 ∅ 0.


(** The 4 x 3 grid of the points (0,0) ... (6,4), two units apart.  The
    corners of the two inner cells are the six vertices; seven ridges join
    them and ten more leave for infinity; of the twelve regions (and the
    empty one that comes with them) only the two inner cells, 1 and 4, are
    bounded. *)
Definition grid_voronoi : Voronoi.t :=
  Voronoi.mk
    [(1, 1); (3, 1); (5, 1); (1, 3); (3, 3); (5, 3)]
    [(-1, 0); (0, 1); (-1, 1); (1, 2); (0, 3); (1, 4); (2, 5); (-1, 2);
     (3, 4); (4, 5); (-1, 3); (-1, 4); (-1, 5); (-1, 0); (-1, 3); (-1, 2);
     (-1, 5)]%Z
    [[-1; 0]; [0; 1; 4; 3]; []; [-1; 0; 1]; [1; 2; 5; 4]; [-1; 2; 5];
     [-1; 1; 2]; [-1; 2]; [-1; 0; 3]; [-1; 3]; [-1; 3; 4]; [-1; 4; 5]; [-1; 5]]%Z.

(** The world [World(points, x_lim=(0, 6), y_lim=(0, 4))] over that grid. *)
Definition grid_world : World :=
  mkWorld grid_voronoi
    [ Vertex.mk 0 (1, 1) {[1; 3]}%nat {[1%nat]} {[1 := 1; 3 := 4]}%nat 0 1;
      Vertex.mk 1 (3, 1) {[0; 2; 4]}%nat {[1; 4]}%nat {[0 := 1; 2 := 3; 4 := 5]}%nat 0 1;
      Vertex.mk 2 (5, 1) {[1; 5]}%nat {[4%nat]} {[1 := 3; 5 := 6]}%nat 0 1;
      Vertex.mk 3 (1, 3) {[0; 4]}%nat {[1%nat]} {[0 := 4; 4 := 8]}%nat 0 1;
      Vertex.mk 4 (3, 3) {[1; 3; 5]}%nat {[1; 4]}%nat {[1 := 5; 3 := 8; 5 := 9]}%nat 0 1;
      Vertex.mk 5 (5, 3) {[2; 4]}%nat {[4%nat]} {[2 := 6; 4 := 9]}%nat 0 1 ]
    [ (1%nat, Ridge.mk 1 0 1 ∅ 0); (3%nat, Ridge.mk 3 1 2 ∅ 0);
      (4%nat, Ridge.mk 4 0 3 ∅ 0); (5%nat, Ridge.mk 5 1 4 {[1; 4]}%nat 0);
      (6%nat, Ridge.mk 6 2 5 ∅ 0); (8%nat, Ridge.mk 8 3 4 ∅ 0);
      (9%nat, Ridge.mk 9 4 5 ∅ 0) ]
    [ (1%nat, Patch.mk 1 [0; 1; 4; 3]%nat [(5, 4)]%nat
                       (mean [(1, 1); (3, 1); (3, 3); (1, 3)]) None None);
      (4%nat, Patch.mk 4 [1; 2; 5; 4]%nat [(5, 1)]%nat
                       (mean [(3, 1); (5, 1); (5, 3); (3, 3)]) None None) ]
    [] None (0, 6) (0, 4) 0.

(** A tessellation with a region of two vertices that does not reach
    infinity. *)
Definition degenerate_voronoi : Voronoi.t :=
  Voronoi.mk [(0, 0); (2, 0)] [(0, 1)]%Z [[0; 1]]%Z.

Definition degenerate_world : World :=
  mkWorld degenerate_voronoi
    [ Vertex.mk 0 (0, 0) {[1%nat]} {[0%nat]} {[1%nat := 0%nat]} 0 1;
      Vertex.mk 1 (2, 0) {[0%nat]} {[0%nat]} {[0%nat := 0%nat]} 0 1 ]
    [ (0%nat, Ridge.mk 0 0 1 ∅ 0) ]
    [ (0%nat, Patch.mk 0 [0; 1]%nat [] (mean [(0, 0); (2, 0)]) None None) ]
    [] None (0, 1) (0, 1) 0.

(** A tessellation that lists the ridge between its two vertices twice,
    and the world the constructor builds from it: the second ridge has
    taken the place of the first in the ridge maps of both vertices. *)
Definition twice_voronoi : Voronoi.t :=
  Voronoi.mk [(0, 0); (1, 0)] [(0, 1); (0, 1)]%Z [].

Definition twice_world : World :=
  mkWorld twice_voronoi
    [ Vertex.mk 0 (0, 0) {[1%nat]} ∅ {[1%nat := 1%nat]} 0 1;
      Vertex.mk 1 (1, 0) {[0%nat]} ∅ {[0%nat := 1%nat]} 0 1 ]
    [ (0%nat, Ridge.mk 0 0 1 ∅ 0); (1%nat, Ridge.mk 1 0 1 ∅ 0) ]
    [] [] None (0, 1) (0, 1) 0.

(** The grid after [add_slope(slope=(0.1, 0))]: the height of a vertex is a
    tenth of its abscissa. *)
Definition sloped_world : World :=
  set_vertices
    [ Vertex.mk 0 (1, 1) {[1; 3]}%nat {[1%nat]} {[1 := 1; 3 := 4]}%nat 0.1 1;
      Vertex.mk 1 (3, 1) {[0; 2; 4]}%nat {[1; 4]}%nat {[0 := 1; 2 := 3; 4 := 5]}%nat 0.3 1;
      Vertex.mk 2 (5, 1) {[1; 5]}%nat {[4%nat]} {[1 := 3; 5 := 6]}%nat 0.5 1;
      Vertex.mk 3 (1, 3) {[0; 4]}%nat {[1%nat]} {[0 := 4; 4 := 8]}%nat 0.1 1;
      Vertex.mk 4 (3, 3) {[1; 3; 5]}%nat {[1; 4]}%nat {[1 := 5; 3 := 8; 5 := 9]}%nat 0.3 1;
      Vertex.mk 5 (5, 3) {[2; 4]}%nat {[4%nat]} {[2 := 6; 4 := 9]}%nat 0.5 1 ]
    grid_world.

(** The sloped grid after [set_sea_level(0.1)]: the left patch, of height
    0.1, lies exactly at sea level; the right patch, of height 0.3, above. *)
Definition coast_world : World := set_sea 0.1 sloped_world.

(** The coast after a first read of [land_patches]: both patches remember
    their height, and the cache holds the right patch. *)
Definition landed_world : World :=
  set_land_patches [4%nat]
    (set_patches
       [ (1%nat, Patch.mk 1 [0; 1; 4; 3]%nat [(5, 4)]%nat
                          (mean [(1, 1); (3, 1); (3, 3); (1, 3)]) (Some 0.1) None);
         (4%nat, Patch.mk 4 [1; 2; 5; 4]%nat [(5, 1)]%nat
                          (mean [(3, 1); (5, 1); (5, 3); (3, 3)]) (Some 0.3) None) ]
       coast_world).

(** Four points in a kite, (0,0), (4,0), (2,1) and (2,-1): the tessellation
    has two vertices, the ridge between them, and four ridges to infinity;
    no region is bounded. *)
Definition kite_voronoi : Voronoi.t :=
  Voronoi.mk
    [(1.25, 0); (2.75, 0)]
    [(-1, 0); (-1, 0); (0, 1); (-1, 1); (-1, 1)]%Z
    [[-1; 0]; [-1; 0; 1]; [-1; 1]; [-1; 0; 1]; []]%Z.

(** The world [World(points, x_lim=(0, 4), y_lim=(-1, 1))] over the kite. *)
Definition kite_world : World :=
  mkWorld kite_voronoi
    [ Vertex.mk 0 (1.25, 0) {[1%nat]} ∅ {[1%nat := 2%nat]} 0 1;
      Vertex.mk 1 (2.75, 0) {[0%nat]} ∅ {[0%nat := 2%nat]} 0 1 ]
    [ (2%nat, Ridge.mk 2 0 1 ∅ 0) ]
    [] [] None (0, 4) (-1, 1) 0.

(** The kite after [add_slope(slope=(1, 0))]. *)
Definition kite_slope : World :=
  set_vertices
    [ Vertex.mk 0 (1.25, 0) {[1%nat]} ∅ {[1%nat := 2%nat]} 1.25 1;
      Vertex.mk 1 (2.75, 0) {[0%nat]} ∅ {[0%nat := 2%nat]} 2.75 1 ]
    kite_world.

(** The kite after [add_slope(slope=(1, 0))] and [make_rivers()]. *)
Definition river_world : World :=
  mkWorld kite_voronoi
    [ Vertex.mk 0 (1.25, 0) {[1%nat]} ∅ {[1%nat := 2%nat]} 1.25 1;
      Vertex.mk 1 (2.75, 0) {[0%nat]} ∅ {[0%nat := 2%nat]} 2.75 (1 / 2) ]
    [ (2%nat, Ridge.mk 2 0 1 ∅ (1 / 2)) ]
    [] [] None (0, 4) (-1, 1) 0.

(** Construction with the centroid computed by [mean]: the same function as
    the constructor (see [World_init_exec_eq]), in a form that evaluates. *)
Definition Patch_init_exec (name : nat) (vertices : list nat) (vs : list Vertex.t)
  : option (Patch.t * list Vertex.t) :=
  vs' ← Py.for_each
          (fun i vs => v ← vs !! i; Some (<[i := Vertex.add_patch name v]> vs))
          vertices vs;
  cs ← mapM (fun i => Vertex.coords <$> vs' !! i) vertices;
  c ← match cs with [] => None | _ => Some (mean cs) end;
  Some (Patch.mk name vertices [] c None None, vs').

Definition make_patch_exec (ir : nat * list Z) (w : World) : option World :=
  let '(i, region) := ir in
  if decide ((-1)%Z ∈ region \/ length region = 0%nat) then Some w else
  patch_vertices ← mapM (Py.index (length (vertices w))) region;
  '(patch, vs) ← Patch_init_exec i patch_vertices (vertices w);
  Some (set_patches (Py.dict_set i patch (patches w)) (set_vertices vs w)).

Definition World_init_exec (vor : Voronoi.t) (x_lim y_lim : R * R) : option World :=
  let w := mkWorld vor [] [] [] [] None x_lim y_lim 0 in
  let w := _make_vertices w in
  w ← _make_ridges w;
  w ← Py.for_each make_patch_exec (Py.enumerate (Voronoi.regions (voronoi w))) w;
  _make_neighbors w.

(** * Notions used by the further properties *)

(** The world with every flux set to zero: what [make_rivers] reads. *)
Definition dry (w : World) : World :=
  set_ridges ((fun kr => (kr.1, Ridge.set_flux 0 kr.2)) <$> ridges w)
             (set_vertices (Vertex.set_flux 0 <$> vertices w) w).

(** Three points in a right triangle, (0,0), (2,0) and (0,2): the
    tessellation has one vertex, the circumcentre, and three ridges to
    infinity; no region is bounded. *)
Definition triangle_voronoi : Voronoi.t :=
  Voronoi.mk [(1, 1)] [(-1, 0); (-1, 0); (-1, 0)]%Z [[-1; 0]; [-1; 0]; [-1; 0]; []]%Z.

(** The world [World(points, x_lim=(0, 2), y_lim=(0, 2))] over the
    triangle: one vertex, in bounds, without a neighbor. *)
Definition triangle_world : World :=
  mkWorld triangle_voronoi [ Vertex.mk 0 (1, 1) ∅ ∅ ∅ 0 1 ] [] [] [] None (0, 2) (0, 2) 0.

(** What holds of the fluxes all through the pass of [make_rivers] over a
    world with the heights [hs]: no vertex holds less than [share], and a
    ridge that carries flux joins two vertices of different heights. *)
Definition downhill (hs : list R) (share : R) (t : World) : Prop :=
  Vertex.height <$> vertices t = hs
  /\ Forall (fun v => share <= Vertex.flux v) (vertices t)
  /\ forall k r, Py.dict_get k (ridges t) = Some r ->
       0 <= Ridge.flux r
       /\ (Ridge.flux r <> 0 ->
           exists h1 h2, hs !! Ridge.end_1 r = Some h1 /\ hs !! Ridge.end_2 r = Some h2
                         /\ h1 <> h2).

(** A vertex without its adjacency: what [_make_ridges] leaves alone. *)
Definition vertex_but_links (v : Vertex.t) :=
  (Vertex.coords v, Vertex.patches v, Vertex.height v, Vertex.flux v).

(** The world before the first ridge is made. *)
Definition bare_world (vor : Voronoi.t) (x_lim y_lim : R * R) : World :=
  mkWorld vor (imap Vertex.init (Voronoi.vertices vor)) [] [] [] None x_lim y_lim 0.

(** What only the sea-level and cache operations touch. *)
Definition world_rest (w : World) :=
  (voronoi w, _land_patches w, _patch_network w, x_lim w, y_lim w, sea_level w).

(** Vertices and patches agree on incidence: a vertex lists a patch exactly
    when the patch exists and has the vertex among its bounding vertices. *)
Definition incident (w : World) : Prop :=
  forall a v p, vertices w !! a = Some v ->
    (p ∈ Vertex.patches v
     <-> exists P, Py.dict_get p (patches w) = Some P /\ a ∈ Patch.vertices P).

(** The patch with key [p] lists [q] as its neighbor across the ridge [r]. *)
Definition adjacent (w : World) (p r q : nat) : Prop :=
  exists P, Py.dict_get p (patches w) = Some P /\ Py.dict_get r (Patch.neighbors P) = Some q.

(** The patches that list both ends of a ridge: what [_make_neighbors]
    intersects. *)
Definition shared_patches (w : World) (ridge : Ridge.t) : option (gset nat) :=
  v1 ← vertices w !! Ridge.end_1 ridge;
  v2 ← vertices w !! Ridge.end_2 ridge;
  Some (Vertex.patches v1 ∩ Vertex.patches v2).

(** Adjacency of patches is symmetric and runs across a ridge whose two
    ends the two patches, and no other patch, share; the ridge lists the two
    patches. *)
Definition adjacency_sound (w : World) : Prop :=
  forall p r q, adjacent w p r q ->
    p <> q /\ adjacent w q r p
    /\ exists ridge N,
         Py.dict_get r (ridges w) = Some ridge
         /\ shared_patches w ridge = Some N
         /\ (forall x, x ∈ N <-> x = p \/ x = q)
         /\ (forall x, x ∈ Ridge.patches ridge <-> x = p \/ x = q).

(** A ridge lists only patches that share both its ends. *)
Definition ridge_patches_shared (w : World) : Prop :=
  forall r ridge N,
    Py.dict_get r (ridges w) = Some ridge -> shared_patches w ridge = Some N ->
    Ridge.patches ridge ⊆ N.

(** Two patches that share both ends of one of the ridges [keys] are
    adjacent across it. *)
Definition adjacency_complete (w : World) (keys : list nat) : Prop :=
  forall r ridge N p q,
    r ∈ keys -> Py.dict_get r (ridges w) = Some ridge ->
    shared_patches w ridge = Some N -> p ∈ N -> q ∈ N -> p <> q ->
    adjacent w p r q.

(** A tessellation ridge that does not reach infinity names two vertices
    that exist. *)
Definition ridge_indices_ok (n : nat) (kj : Z * Z) : Prop :=
  (kj.1 = (-1)%Z \/ kj.2 = (-1)%Z)
  \/ (is_Some (Py.index n kj.1) /\ is_Some (Py.index n kj.2)).

(** A tessellation region that does not reach infinity names vertices that
    exist. *)
Definition region_indices_ok (n : nat) (region : list Z) : Prop :=
  ((-1)%Z ∈ region \/ length region = 0%nat) \/ is_Some (mapM (Py.index n) region).

(** The region with index [p] is bounded and names the vertex at [a]. *)
Definition cell_at (vor : Voronoi.t) (p a : nat) : Prop :=
  exists region pv,
    Voronoi.regions vor !! p = Some region /\ ((-1)%Z ∉ region) /\ region <> []
    /\ mapM (Py.index (length (Voronoi.vertices vor))) region = Some pv
    /\ a ∈ pv.

(** No three bounded regions name both ends of one ridge. *)
Definition two_sided (vor : Voronoi.t) : Prop :=
  forall kj e1 e2 p1 p2 p3,
    kj ∈ Voronoi.ridge_vertices vor ->
    ridge_ends (length (Voronoi.vertices vor)) kj = Some (e1, e2) ->
    cell_at vor p1 e1 /\ cell_at vor p1 e2 ->
    cell_at vor p2 e1 /\ cell_at vor p2 e2 ->
    cell_at vor p3 e1 /\ cell_at vor p3 e2 ->
    p1 = p2 \/ p1 = p3 \/ p2 = p3.

(** The tessellations the constructor accepts. *)
Definition well_formed (vor : Voronoi.t) : Prop :=
  Forall (ridge_indices_ok (length (Voronoi.vertices vor))) (Voronoi.ridge_vertices vor)
  /\ Forall (region_indices_ok (length (Voronoi.vertices vor))) (Voronoi.regions vor)
  /\ two_sided vor.

(** Every ridge of the tessellation that does not reach infinity has been
    built, under its index. *)
Definition ridges_all (n : nat) (pre : list (nat * (Z * Z))) (w : World) : Prop :=
  forall i kj e1 e2, (i, kj) ∈ pre -> ridge_ends n kj = Some (e1, e2) ->
    exists r, Py.dict_get i (ridges w) = Some r /\ Ridge.end_1 r = e1 /\ Ridge.end_2 r = e2.

(** The patch with key [k] remembers the height [h]. *)
Definition remembers (w : World) (k : nat) (h : R) : Prop :=
  exists p, Py.dict_get k (patches w) = Some p /\ Patch._h p = Some h.

(** The patch [q] is a value of the neighbor dictionary of the patch [p]. *)
Definition borders (w : World) (p q : nat) : Prop :=
  exists P r, Py.dict_get p (patches w) = Some P /\ (r, q) ∈ Patch.neighbors P.

(** The centroid of the patch with key [k]. *)
Definition centroid_view (w : World) (k : nat) : option (R * R) :=
  Patch.centroid <$> Py.dict_get k (patches w).

(** The weight [patch_network] gives the edge from [p] to [q]: the distance
    of the centroids times the exponential of the climb. *)
Definition edge_weight (w : World) (p q : nat) : option R :=
  cp ← centroid_view w p;
  cq ← centroid_view w q;
  hp ← patch_height_view w p;
  hq ← patch_height_view w q;
  Some (Py.norm (Py.sub2 cp cq) * exp (hq - hp)).

(** The patch with key [k] does not report a height below the sea. *)
Definition not_sea (w : World) (k : nat) : Prop :=
  exists h, patch_height_view w k = Some h /\ ~ h < sea_level w.

(** The list [land_patches] returns: the cached one unless it is empty. *)
Definition land_list (w : World) : list nat :=
  if decide (length (_land_patches w) = 0%nat)
  then filter (is_land w) (patches w).*1
  else _land_patches w.

(** Two worlds with the same geometry in which the patches report the same
    heights against the same sea level. *)
Definition same_view (t' t : World) : Prop :=
  geometry t' = geometry t
  /\ (forall k, patch_height_view t' k = patch_height_view t k)
  /\ sea_level t' = sea_level t.

(** The patches are filed under their names, list existing patches as
    neighbors, and report a height; the cached land patches exist. *)
Definition patches_ok (w : World) : Prop :=
  (forall k P, Py.dict_get k (patches w) = Some P -> Patch.name P = k)
  /\ (forall p q, borders w p q -> q ∈ (patches w).*1)
  /\ (forall k, k ∈ (patches w).*1 -> is_Some (patch_height_view w k)).

(** The edges the loops of [patch_network] have added after the land
    patches [done] and, of the land patch [pk], the neighbors [items]. *)
Definition edges_of (w : World) (done : list nat) (pk : nat) (items : list (nat * nat))
    (a b : nat) (wt : R) : Prop :=
  ((a ∈ done /\ borders w a b) \/ (a = pk /\ exists r, (r, b) ∈ items))
  /\ not_sea w b /\ edge_weight w a b = Some wt.

(** The graph [g] holds exactly the edges [E], and the ends of its edges as
    nodes. *)
Definition graph_of (E : nat -> nat -> R -> Prop) (g : DiGraph.t) : Prop :=
  (forall a b wt, DiGraph.edges g !! (a, b) = Some wt <-> E a b wt)
  /\ (forall x, x ∈ DiGraph.nodes g
        <-> exists y, is_Some (DiGraph.edges g !! (x, y)) \/ is_Some (DiGraph.edges g !! (y, x))).

(** The cached land patches exist. *)
Definition land_cache_ok (w : World) : Prop :=
  forall k, k ∈ _land_patches w -> k ∈ (patches w).*1.

(** The left patch of the grid, before it remembers anything. *)
Definition west_patch : Patch.t :=
  Patch.mk 1 [0; 1; 4; 3]%nat [(5, 4)]%nat (mean [(1, 1); (3, 1); (3, 3); (1, 3)]) None None.

(** The nodes of the cached network are patches. *)
Definition network_ok (w : World) : Prop :=
  forall g, _patch_network w = Some g ->
    forall x, x ∈ DiGraph.nodes g -> x ∈ (patches w).*1.

(** A path finder that only knows the direct way between two nodes. *)
Definition direct_path (g : DiGraph.t) (s e : nat) : option (list nat) :=
  if decide (s ∈ DiGraph.nodes g /\ e ∈ DiGraph.nodes g) then Some [s; e] else None.

(** The sites of the grid tessellation, and the region of each. *)
Definition grid_points : list (R * R) :=
  [(0, 0); (2, 0); (4, 0); (6, 0); (0, 2); (2, 2); (4, 2); (6, 2);
   (0, 4); (2, 4); (4, 4); (6, 4)].

Definition grid_point_region : list Z := [0; 3; 6; 7; 8; 1; 4; 5; 9; 10; 11; 12]%Z.

(** The people of a list of tribes. *)
Definition total_size (l : list Nomad.t) : Z := fold_left Z.add (Nomad.size <$> l) 0%Z.

(** The tribes [filed] sorted by patch: one group for each patch on which a
    tribe stands. *)
Definition groups_of (d : list (nat * list Nomad.t)) (filed : list Nomad.t) : Prop :=
  NoDup d.*1
  /\ Forall (fun kv => kv.2 <> [] /\ Forall (fun t => Nomad.patch t = kv.1) kv.2) d
  /\ concat d.*2 ≡ₚ filed.


(** * Properties *)

(** ** The primitives *)

Module PyFacts.

Lemma truediv_Some x y : y <> 0 -> Py.truediv x y = Some (x / y).
Proof. intros Hy. unfold Py.truediv. destruct (decide (y = 0)); [lra | reflexivity]. Qed.

Lemma truediv_None x y : y = 0 -> Py.truediv x y = None.
Proof. intros Hy. unfold Py.truediv. destruct (decide (y = 0)); [reflexivity | lra]. Qed.

Lemma truediv_inv x y q : Py.truediv x y = Some q -> y <> 0 /\ q = x / y.
Proof. unfold Py.truediv. destruct (decide (y = 0)); intros [= <-]; auto. Qed.

Lemma np_sqrt_Some x : 0 <= x -> Py.np_sqrt x = Some (sqrt x).
Proof. intros Hx. unfold Py.np_sqrt. destruct (decide (x < 0)); [lra | reflexivity]. Qed.

Lemma min2_Rmin a b : Py.min2 a b = Rmin a b.
Proof.
  unfold Py.min2, Rmin. destruct (decide (b < a)), (Rle_dec a b); lra.
Qed.

Lemma norm_nonneg c : 0 <= Py.norm c.
Proof. apply sqrt_pos. Qed.

Lemma norm_zero_iff c : Py.norm c = 0 <-> c = (0, 0).
Proof.
  destruct c as [x y]. unfold Py.norm. simpl. split.
  - intros H. apply sqrt_eq_0 in H; [| nra].
    assert (x = 0) by nra. assert (y = 0) by nra. congruence.
  - intros [= -> ->]. replace (0 * 0 + 0 * 0) with 0 by lra. apply sqrt_0.
Qed.

Section MinBy.
Context {A : Type} (key : A -> R).

Let pick (best y : A) : A := if decide (key y < key best) then y else best.

Lemma fold_pick_spec l x :
  let m := fold_left pick l x in
  m ∈ x :: l /\ forall y, y ∈ x :: l -> key m <= key y.
Proof.
  revert x. induction l as [| z l IH]; intros x; simpl.
  - split; [left |]. intros y Hy. apply list_elem_of_singleton in Hy. subst. lra.
  - destruct (IH (pick x z)) as [Hin Hmin]. split.
    + apply elem_of_cons in Hin as [-> | Hin].
      * unfold pick. destruct (decide (key z < key x)); [right; left | left].
      * right; right; exact Hin.
    + intros y Hy.
      assert (Hp : key (pick x z) <= key x /\ key (pick x z) <= key z).
      { unfold pick. destruct (decide (key z < key x)); lra. }
      apply elem_of_cons in Hy as [-> | Hy].
      * specialize (Hmin (pick x z) ltac:(left)). lra.
      * apply elem_of_cons in Hy as [-> | Hy].
        -- specialize (Hmin (pick x z) ltac:(left)). lra.
        -- apply Hmin. right; exact Hy.
Qed.

Lemma min_by_spec l m :
  Py.min_by key l = Some m -> m ∈ l /\ forall y, y ∈ l -> key m <= key y.
Proof.
  destruct l as [| x l]; [discriminate |]. intros [= <-]. apply fold_pick_spec.
Qed.

Lemma min_by_is_Some l : l <> [] -> is_Some (Py.min_by key l).
Proof. destruct l; [congruence | intros _; eexists; reflexivity]. Qed.

Lemma min_by_None l : Py.min_by key l = None <-> l = [].
Proof. destruct l; simpl; split; congruence. Qed.
End MinBy.

Lemma min_list_spec l m :
  Py.min_list l = Some m -> m ∈ l /\ forall y, y ∈ l -> m <= y.
Proof. apply (min_by_spec id). Qed.

Lemma max_list_spec l m :
  Py.max_list l = Some m -> m ∈ l /\ forall y, y ∈ l -> y <= m.
Proof.
  destruct l as [| x l]; [discriminate |]. intros [= <-].
  revert x. induction l as [| z l IH]; intros x; simpl.
  - split; [left |]. intros y Hy. apply list_elem_of_singleton in Hy. subst. lra.
  - set (b := if decide (x < z) then z else x).
    assert (Hb : x <= b /\ z <= b /\ (b = x \/ b = z)).
    { unfold b. destruct (decide (x < z)); lra. }
    destruct (IH b) as [Hin Hmax]. split.
    + apply elem_of_cons in Hin as [-> | Hin].
      * destruct Hb as (_ & _ & [-> | ->]); [left | right; left].
      * right; right; exact Hin.
    + intros y Hy. specialize (Hmax b ltac:(left)) as Hbm.
      apply elem_of_cons in Hy as [-> | Hy]; [lra |].
      apply elem_of_cons in Hy as [-> | Hy]; [lra |].
      apply Hmax. right; exact Hy.
Qed.

(** Loops: an invariant of the body is an invariant of the loop. *)
Lemma for_each_inv {A S} (P : S -> Prop) (body : A -> S -> option S) items s s' :
  (forall x t t', x ∈ items -> P t -> body x t = Some t' -> P t') ->
  P s -> Py.for_each body items s = Some s' -> P s'.
Proof.
  revert s. induction items as [| x items IH]; intros s Hbody Hs Hrun; simpl in Hrun.
  - congruence.
  - destruct (body x s) as [t |] eqn:Hx; [| discriminate]. simpl in Hrun.
    apply (IH t); [| eapply Hbody; [left | exact Hs | exact Hx] | exact Hrun].
    intros y u u' Hy. apply Hbody. right; exact Hy.
Qed.

Lemma for_each_cons {A S} (body : A -> S -> option S) x l s :
  Py.for_each body (x :: l) s = (s' ← body x s; Py.for_each body l s').
Proof. reflexivity. Qed.

End PyFacts.

(** ** Ridge slope *)

Section RidgeSlope.

Variables (vs : list Vertex.t) (r : Ridge.t) (v1 v2 : Vertex.t).
Hypothesis Hend_1 : vs !! Ridge.end_1 r = Some v1.
Hypothesis Hend_2 : vs !! Ridge.end_2 r = Some v2.

Lemma ridge_length_eq :
  Ridge.length vs r = Some (Vertex.dist v1 (Vertex.coords v2)).
Proof using Hend_1 Hend_2. unfold Ridge.length. rewrite Hend_1, Hend_2. reflexivity. Qed.

Lemma ridge_length_zero_iff :
  Vertex.dist v1 (Vertex.coords v2) = 0 <-> Vertex.coords v1 = Vertex.coords v2.
Proof.
  unfold Vertex.dist. rewrite PyFacts.norm_zero_iff. unfold Py.sub2.
  destruct (Vertex.coords v1) as [x1 y1], (Vertex.coords v2) as [x2 y2]. simpl.
  split; intros [= Hx Hy]; f_equal; lra.
Qed.

Lemma ridge_slope_eq :
  Ridge.slope vs r =
  Py.truediv (Rabs (Vertex.height v1 - Vertex.height v2))
             (Vertex.dist v1 (Vertex.coords v2)).
Proof using Hend_1 Hend_2.
  unfold Ridge.slope. rewrite ridge_length_eq, Hend_1, Hend_2. reflexivity.
Qed.

Lemma ridge_slope_nonneg s : Ridge.slope vs r = Some s -> 0 <= s.
Proof using Hend_1 Hend_2.
  rewrite ridge_slope_eq. intros H. apply PyFacts.truediv_inv in H as [Hne ->].
  pose proof (PyFacts.norm_nonneg (Py.sub2 (Vertex.coords v1) (Vertex.coords v2))) as Hn.
  fold (Vertex.dist v1 (Vertex.coords v2)) in Hn.
  apply Rmult_le_pos; [apply Rabs_pos |].
  apply Rlt_le, Rinv_0_lt_compat. lra.
Qed.

End RidgeSlope.

Lemma slope_divides_length (vs : list Vertex.t) (r : Ridge.t) (v1 v2 : Vertex.t) :
  vs !! Ridge.end_1 r = Some v1 ->
  vs !! Ridge.end_2 r = Some v2 ->
  (Vertex.dist v1 (Vertex.coords v2) = 0 -> Ridge.slope vs r = None)
  /\ (Vertex.dist v1 (Vertex.coords v2) <> 0 ->
      Ridge.slope vs r
      = Some (Rabs (Vertex.height v1 - Vertex.height v2) / Vertex.dist v1 (Vertex.coords v2))).
Proof.
  intros H1 H2. rewrite (ridge_slope_eq vs r v1 v2 H1 H2). split; intros H.
  - apply PyFacts.truediv_None, H.
  - apply PyFacts.truediv_Some, H.
Qed.


(** C7, as stated, fails: the slope of a zero-length ridge is the outcome of
    a division by zero, not zero. *)
Lemma slope_zero_length_not_guarded :
  Ridge.length coincident_vertices coincident_ridge = Some 0
  /\ Ridge.slope coincident_vertices coincident_ridge <> Some 0.
Proof.
  assert (Hlen : Vertex.dist coincident_end_1 (Vertex.coords coincident_end_2) = 0).
  { apply (ridge_length_zero_iff coincident_end_1 coincident_end_2). reflexivity. }
  split.
  - rewrite (ridge_length_eq coincident_vertices coincident_ridge _ _ eq_refl eq_refl).
    rewrite Hlen. reflexivity.
  - rewrite (ridge_slope_eq coincident_vertices coincident_ridge _ _ eq_refl eq_refl).
    rewrite PyFacts.truediv_None by exact Hlen. discriminate.
Qed.

(** C7, amended: the slope query divides the absolute height difference of
    the two ends by the length of the ridge with no guard.  The length is
    zero exactly when the two ends have the same coordinates; the slope of a
    ridge of nonzero length is the non-negative quotient, and the slope of a
    zero-length ridge is the division by zero itself: no zero is
    substituted. *)
Theorem slope_divides_unguarded (vs : list Vertex.t) (r : Ridge.t) (v1 v2 : Vertex.t) :
  vs !! Ridge.end_1 r = Some v1 ->
  vs !! Ridge.end_2 r = Some v2 ->
  let len := Vertex.dist v1 (Vertex.coords v2) in
  let delta_h := Rabs (Vertex.height v1 - Vertex.height v2) in
  Ridge.length vs r = Some len
  /\ (len = 0 <-> Vertex.coords v1 = Vertex.coords v2)
  /\ (len <> 0 -> Ridge.slope vs r = Some (delta_h / len) /\ 0 <= delta_h / len)
  /\ (len = 0 -> Ridge.slope vs r = None).
Proof.
  intros H1 H2 len delta_h. split; [| split; [| split]].
  - apply ridge_length_eq; assumption.
  - apply ridge_length_zero_iff.
  - intros Hne.
    assert (Hs : Ridge.slope vs r = Some (delta_h / len)).
    { rewrite (ridge_slope_eq vs r v1 v2 H1 H2). apply PyFacts.truediv_Some, Hne. }
    split; [exact Hs |]. eapply ridge_slope_nonneg; eassumption.
  - intros Hz. rewrite (ridge_slope_eq vs r v1 v2 H1 H2). apply PyFacts.truediv_None, Hz.
Qed.

Lemma slope_divides_unguarded_witness :
  Ridge.length coincident_vertices coincident_ridge
  = Some (Vertex.dist coincident_end_1 (Vertex.coords coincident_end_2))
  /\ Ridge.slope coincident_vertices coincident_ridge = None.
Proof.
  pose proof (slope_divides_unguarded coincident_vertices coincident_ridge
                coincident_end_1 coincident_end_2 eq_refl eq_refl)
    as (Hlen & Hzero & _ & Hnone).
  split; [exact Hlen |]. apply Hnone, Hzero. reflexivity.
Defined.

(** ** Erosion does not read [drop_factor] *)

(** C10: two erosion passes that differ only in [drop_factor] give the same
    world, hence the same vertex heights. *)
Theorem erode_heights_ignores_drop_factor (w : World) (max_total d1 d2 : R) :
  erode_heights w max_total d1 = erode_heights w max_total d2
  /\ forall w1 w2,
       erode_heights w max_total d1 = Some w1 ->
       erode_heights w max_total d2 = Some w2 ->
       Vertex.height <$> vertices w1 = Vertex.height <$> vertices w2.
Proof.
  assert (Hsame : erode_heights w max_total d1 = erode_heights w max_total d2).
  { unfold erode_heights. reflexivity. }
  split; [exact Hsame |].
  intros w1 w2 H1 H2. rewrite Hsame, H2 in H1. injection H1 as <-. reflexivity.
Qed.

(** ** Sea level *)

(** C4: below 1 the argument becomes the sea level; from 1 on (1 included)
    the sea level becomes the percentile of the current vertex heights that
    numpy computes for the argument, and the call raises when numpy does. *)
Theorem set_sea_level_dual (np_percentile : list R -> R -> option R)
    (w : World) (value : R) :
  (value < 1 ->
     exists w', set_sea_level np_percentile w value = Some w'
                /\ sea_level w' = value)
  /\ (1 <= value ->
      match np_percentile (Vertex.height <$> vertices w) value with
      | Some s => exists w', set_sea_level np_percentile w value = Some w'
                             /\ sea_level w' = s
      | None => set_sea_level np_percentile w value = None
      end).
Proof.
  unfold set_sea_level. split; intros Hv.
  - destruct (decide (value < 1)); [| lra]. eexists; split; reflexivity.
  - destruct (decide (value < 1)); [lra |].
    destruct (np_percentile _ _); simpl; [eexists; split; reflexivity | reflexivity].
Qed.

Lemma set_sea_level_dual_witness :
  (exists w', set_sea_level (fun hs _ => Py.max_list hs) grid_world (1 / 2) = Some w'
              /\ sea_level w' = 1 / 2)
  /\ match Py.max_list (Vertex.height <$> vertices grid_world) with
     | Some s => exists w', set_sea_level (fun hs _ => Py.max_list hs) grid_world 100 = Some w'
                            /\ sea_level w' = s
     | None => set_sea_level (fun hs _ => Py.max_list hs) grid_world 100 = None
     end.
Proof.
  split.
  - apply (proj1 (set_sea_level_dual (fun hs _ => Py.max_list hs) grid_world (1 / 2))). lra.
  - apply (proj2 (set_sea_level_dual (fun hs _ => Py.max_list hs) grid_world 100)). lra.
Defined.

(** ** Construction *)

Lemma for_each_inv_prefix {A S} (P : list A -> S -> Prop)
    (body : A -> S -> option S) items s s' :
  (forall pre x post t t',
      items = pre ++ x :: post -> P pre t -> body x t = Some t' -> P (pre ++ [x]) t') ->
  P [] s -> Py.for_each body items s = Some s' -> P items s'.
Proof.
  intros Hbody.
  enough (Hgen : forall rest done t,
             items = done ++ rest -> P done t ->
             Py.for_each body rest t = Some s' -> P items s').
  { intros Hs Hrun. exact (Hgen items [] s eq_refl Hs Hrun). }
  induction rest as [| x rest IH]; intros done t Heq Ht Hrun; simpl in Hrun.
  - rewrite app_nil_r in Heq. subst done. congruence.
  - destruct (body x t) as [t' |] eqn:Hx; [| discriminate]. simpl in Hrun.
    apply (IH (done ++ [x]) t').
    + rewrite <- app_assoc. exact Heq.
    + eapply Hbody; eauto.
    + exact Hrun.
Qed.

Lemma enumerate_lookup {A} (l : list A) i x :
  Py.enumerate l !! i = Some x <-> x.1 = i /\ l !! i = Some x.2.
Proof.
  unfold Py.enumerate. rewrite list_lookup_imap. destruct (l !! i) as [y |]; simpl.
  - split.
    + intros [= <-]. auto.
    + intros [<- [= ->]]. destruct x; reflexivity.
  - split; [discriminate | intros [_ ?]; discriminate].
Qed.

Lemma enumerate_length {A} (l : list A) : length (Py.enumerate l) = length l.
Proof. apply length_imap. Qed.

Lemma enumerate_snd {A} (l : list A) : (Py.enumerate l).*2 = l.
Proof.
  apply list_eq. intros i. rewrite list_lookup_fmap.
  destruct (Py.enumerate l !! i) as [x |] eqn:Hx; simpl.
  - apply enumerate_lookup in Hx as [_ ->]. reflexivity.
  - apply lookup_ge_None in Hx. rewrite enumerate_length in Hx.
    symmetry. apply lookup_ge_None. exact Hx.
Qed.

Lemma enumerate_split {A} (l : list A) pre x post :
  Py.enumerate l = pre ++ x :: post -> x.1 = length pre /\ forall y, y ∈ pre -> y.1 <> x.1.
Proof.
  intros Heq.
  assert (Hx : Py.enumerate l !! length pre = Some x).
  { rewrite Heq. rewrite lookup_app_r by lia. rewrite Nat.sub_diag. reflexivity. }
  apply enumerate_lookup in Hx as [Hx _]. split; [exact Hx |].
  intros y Hy. apply list_elem_of_lookup in Hy as [j Hj].
  assert (Hlt : (j < length pre)%nat) by (eapply lookup_lt_Some; eauto).
  assert (Hy : Py.enumerate l !! j = Some y).
  { rewrite Heq. rewrite lookup_app_l by exact Hlt. exact Hj. }
  apply enumerate_lookup in Hy as [Hy _]. lia.
Qed.

(** The dictionary primitives. *)
Lemma dict_get_set_eq {V} k (v : V) d : Py.dict_get k (Py.dict_set k v d) = Some v.
Proof.
  induction d as [| [k' v'] d IH]; simpl.
  - rewrite decide_True by reflexivity. reflexivity.
  - destruct (decide (k' = k)); simpl.
    + rewrite decide_True by reflexivity. reflexivity.
    + rewrite decide_False by assumption. exact IH.
Qed.

Lemma dict_get_set_ne {V} k k' (v : V) d :
  k <> k' -> Py.dict_get k' (Py.dict_set k v d) = Py.dict_get k' d.
Proof.
  intros Hne. induction d as [| [k0 v0] d IH]; simpl.
  - rewrite decide_False by assumption. reflexivity.
  - destruct (decide (k0 = k)) as [-> | Hk0]; simpl.
    + rewrite !decide_False by assumption. reflexivity.
    + destruct (decide (k0 = k')); [reflexivity | exact IH].
Qed.

Lemma dict_get_set {V} k k' (v : V) d :
  Py.dict_get k' (Py.dict_set k v d)
  = if decide (k = k') then Some v else Py.dict_get k' d.
Proof.
  destruct (decide (k = k')) as [-> | Hne];
    [apply dict_get_set_eq | apply dict_get_set_ne, Hne].
Qed.

Lemma dict_get_elem_of {V} k (v : V) d : Py.dict_get k d = Some v -> (k, v) ∈ d.
Proof.
  induction d as [| [k' v'] d IH]; simpl; [discriminate |].
  destruct (decide (k' = k)) as [-> | Hne].
  - intros [= ->]. left.
  - intros H. right. apply IH, H.
Qed.

Lemma dict_get_is_Some {V} k (d : list (nat * V)) :
  is_Some (Py.dict_get k d) <-> k ∈ d.*1.
Proof.
  induction d as [| [k' v'] d IH]; simpl.
  - split; [intros [? ?]; discriminate | intros H; inversion H].
  - destruct (decide (k' = k)) as [-> | Hne].
    + split; [intros _; left | intros _; eexists; reflexivity].
    + rewrite IH. split; [intros H; right; exact H |].
      intros H. apply elem_of_cons in H as [-> | H]; [congruence | exact H].
Qed.

Lemma dict_set_keys_present {V} k (v : V) d :
  k ∈ d.*1 -> (Py.dict_set k v d).*1 = d.*1.
Proof.
  induction d as [| [k' v'] d IH]; simpl; intros Hk; [inversion Hk |].
  destruct (decide (k' = k)) as [-> | Hne]; simpl; [reflexivity |].
  f_equal. apply IH. apply elem_of_cons in Hk as [-> | Hk]; [congruence | exact Hk].
Qed.


(** *** [_make_vertices] and [_make_ridges] *)

Lemma make_vertices_fold (cs : list (R * R)) (f : nat -> R * R -> nat * (R * R)) g acc :
  (forall i c, Vertex.init (f i c).1 (f i c).2 = g i c) ->
  foldl (fun vs ipt => vs ++ [Vertex.init ipt.1 ipt.2]) acc (imap f cs)
  = acc ++ imap g cs.
Proof.
  revert f g acc. induction cs as [| c cs IH]; intros f g acc Hfg; simpl.
  - rewrite app_nil_r. reflexivity.
  - rewrite (IH (f ∘ S) (g ∘ S)); [| intros; apply Hfg].
    rewrite Hfg, <- app_assoc. reflexivity.
Qed.

Lemma make_vertices_eq (w : World) :
  vertices w = [] ->
  vertices (_make_vertices w) = imap Vertex.init (Voronoi.vertices (voronoi w)).
Proof.
  intros Hnil. unfold _make_vertices, Py.enumerate. simpl. rewrite Hnil.
  rewrite (make_vertices_fold _ _ Vertex.init); [reflexivity | reflexivity].
Qed.

Lemma add_neighbor_alter vs self nb k vs' :
  names_ok vs ->
  Vertex.add_neighbor self nb k vs = Some vs' ->
  (self < length vs)%nat /\ (nb < length vs)%nat /\ vs' = alter (link nb k) self vs.
Proof.
  intros Hnames. unfold Vertex.add_neighbor.
  destruct (vs !! self) as [v |] eqn:Hv; [| discriminate].
  destruct (vs !! nb) as [n |] eqn:Hn; [| discriminate]. simpl. intros [= <-].
  split; [eapply lookup_lt_Some; eauto |]. split; [eapply lookup_lt_Some; eauto |].
  rewrite (Hnames _ _ Hn). apply list_eq. intros j.
  rewrite list_lookup_alter, list_lookup_insert.
  destruct (decide (self = j)) as [-> | Hne].
  - rewrite decide_True; [| split; [reflexivity | eapply lookup_lt_Some; eauto]].
    rewrite Hv. reflexivity.
  - rewrite decide_False; [reflexivity | intros [? _]; contradiction].
Qed.

Lemma names_ok_alter f i vs :
  (forall v, Vertex.name (f v) = Vertex.name v) -> names_ok vs -> names_ok (alter f i vs).
Proof.
  intros Hf Hvs j v. rewrite list_lookup_alter.
  destruct (decide (i = j)) as [-> | Hne].
  - destruct (vs !! j) as [u |] eqn:Hu; simpl; [| discriminate].
    intros [= <-]. rewrite Hf. apply (Hvs _ _ Hu).
  - apply Hvs.
Qed.

Lemma ridge_init_relink vs i e1 e2 r vs' :
  names_ok vs ->
  Ridge.init i e1 e2 vs = Some (r, vs') ->
  (e1 < length vs)%nat /\ (e2 < length vs)%nat
  /\ r = Ridge.mk i e1 e2 ∅ 0
  /\ length vs' = length vs
  /\ forall a, vs' !! a = relink e1 e2 i a <$> vs !! a.
Proof.
  intros Hnames. unfold Ridge.init.
  destruct (Vertex.add_neighbor e1 e2 i vs) as [vs1 |] eqn:H1; [| discriminate]. simpl.
  destruct (Vertex.add_neighbor e2 e1 i vs1) as [vs2 |] eqn:H2; [| discriminate]. simpl.
  intros [= <- <-].
  apply add_neighbor_alter in H1 as (Hl1 & Hl2 & ->); [| exact Hnames].
  apply add_neighbor_alter in H2 as (_ & _ & ->);
    [| apply names_ok_alter; [reflexivity | exact Hnames]].
  repeat split; try assumption.
  - rewrite !length_alter. reflexivity.
  - intros a. unfold relink. rewrite !list_lookup_alter.
    destruct (decide (e2 = a)) as [-> | H2a], (decide (e1 = a)) as [E | H1a]; subst;
      destruct (vs !! a); reflexivity.
Qed.

Lemma relink_name e1 e2 i a v : Vertex.name (relink e1 e2 i a v) = Vertex.name v.
Proof. unfold relink. repeat case_decide; reflexivity. Qed.

Lemma relink_neighbors e1 e2 i a v b :
  b ∈ Vertex.neighbors (relink e1 e2 i a v)
  <-> (e1 = a /\ b = e2) \/ (e2 = a /\ b = e1) \/ b ∈ Vertex.neighbors v.
Proof. unfold relink. repeat case_decide; simpl; set_solver. Qed.

Lemma relink_ridges e1 e2 i a v b :
  Vertex.ridges (relink e1 e2 i a v) !! b
  = if decide ((e1 = a /\ b = e2) \/ (e2 = a /\ b = e1)) then Some i
    else Vertex.ridges v !! b.
Proof.
  unfold relink.
  destruct (decide (e1 = a)) as [E1 | E1], (decide (e2 = a)) as [E2 | E2]; simpl;
    rewrite ?lookup_insert; repeat case_decide; try reflexivity; try tauto; try congruence;
    exfalso; intuition congruence.
Qed.

Lemma unordered_eq_iff a b c d :
  unordered (a, b) = unordered (c, d) <-> (a = c /\ b = d) \/ (a = d /\ b = c).
Proof.
  unfold unordered. simpl. repeat case_decide; split;
    try (intros [= -> ->]); intros; simplify_eq; intuition (simplify_eq; auto; try lia);
    f_equal; lia.
Qed.

Section MakeRidges.

Variable n : nat.

Lemma make_ridge_inv (l : list (Z * Z)) pre x post w w' :
  Py.enumerate l = pre ++ x :: post ->
  ridges_inv n pre w -> make_ridge x w = Some w' -> ridges_inv n (pre ++ [x]) w'.
Proof.
  intros Henum (Hlen & [Hnames Hsound] & Hkeys & Hsym) Hstep.
  destruct x as [i [kz jz]]. unfold make_ridge in Hstep.
  assert (Hkeys_mono : forall k r, Py.dict_get k (ridges w) = Some r ->
            Ridge.name r = k
            /\ exists kj, (k, kj) ∈ pre ++ [(i, (kz, jz))]
                          /\ ridge_ends n kj = Some (Ridge.end_1 r, Ridge.end_2 r)).
  { intros k r Hk. destruct (Hkeys k r Hk) as (Hn & kj & Hin & He).
    split; [exact Hn |]. exists kj. split; [| exact He]. apply elem_of_app. left. exact Hin. }
  assert (Hnodup_pre : NoDup (unordered <$> omap (ridge_ends n) (pre ++ [(i, (kz, jz))]).*2) ->
                       NoDup (unordered <$> omap (ridge_ends n) pre.*2)).
  { rewrite fmap_app, omap_app, fmap_app. intros H. apply NoDup_app in H as [H' _]. exact H'. }
  destruct (decide (kz = (-1)%Z \/ jz = (-1)%Z)) as [Hinf | Hfin].
  { injection Hstep as <-. split; [exact Hlen |]. split; [split; assumption |].
    split; [exact Hkeys_mono |]. intros Hnd. apply Hsym, Hnodup_pre, Hnd. }
  rewrite Hlen in Hstep.
  destruct (Py.index n kz) as [e1 |] eqn:He1; [| discriminate].
  destruct (Py.index n jz) as [e2 |] eqn:He2; [| discriminate]. simpl in Hstep.
  destruct (Ridge.init i e1 e2 (vertices w)) as [[ridge vs] |] eqn:Hinit; [| discriminate].
  simpl in Hstep. injection Hstep as <-.
  apply ridge_init_relink in Hinit as (Hl1 & Hl2 & -> & Hlen' & Hlook); [| exact Hnames].
  assert (Hends : ridge_ends n (kz, jz) = Some (e1, e2)).
  { unfold ridge_ends. simpl. rewrite decide_False by exact Hfin.
    rewrite He1, He2. reflexivity. }
  assert (Hfresh : forall r, Py.dict_get i (ridges w) = Some r -> False).
  { intros r Hr. destruct (Hkeys i r Hr) as (_ & kj & Hin & _).
    destruct (enumerate_split _ _ _ _ Henum) as [_ Hne].
    apply (Hne _ Hin). reflexivity. }
  split; [simpl; lia |]. split; [split |]; [| | split].
  - (* names *)
    intros a v. simpl. rewrite Hlook.
    destruct (vertices w !! a) as [u |] eqn:Hu; simpl; [| discriminate].
    intros [= <-]. rewrite relink_name. apply (Hnames _ _ Hu).
  - (* the ridge maps are sound *)
    intros a A b. simpl. rewrite Hlook.
    destruct (vertices w !! a) as [u |] eqn:Hu; simpl; [| discriminate].
    intros [= <-]. destruct (Hsound a u b Hu) as [Hnb Hmap].
    rewrite relink_neighbors, relink_ridges. split.
    + destruct (decide ((e1 = a /\ b = e2) \/ (e2 = a /\ b = e1))) as [Hc | Hc].
      * split; [intros _; eexists; reflexivity | tauto].
      * rewrite <- Hnb. tauto.
    + intros k Hk. rewrite Hlen'.
      destruct (decide ((e1 = a /\ b = e2) \/ (e2 = a /\ b = e1))) as [Hc | Hc].
      * injection Hk as <-. split; [destruct Hc as [[_ ->] | [_ ->]]; assumption |].
        eexists. rewrite dict_get_set_eq. split; [reflexivity |]. simpl.
        intuition congruence.
      * destruct (Hmap k Hk) as (Hb & r & Hr & Hab). split; [exact Hb |].
        exists r. split; [| exact Hab].
        rewrite dict_get_set_ne; [exact Hr |]. intros <-. exact (Hfresh _ Hr).
  - (* the ridges come from the tessellation *)
    intros k r. simpl. rewrite dict_get_set.
    destruct (decide (i = k)) as [<- | Hne].
    + intros [= <-]. simpl. split; [reflexivity |]. exists (kz, jz).
      split; [apply elem_of_app; right; left | exact Hends].
    + apply Hkeys_mono.
  - (* symmetry *)
    intros Hnodup k r. simpl. rewrite dict_get_set.
    destruct (decide (i = k)) as [<- | Hne].
    + intros [= <-]. unfold linked. simpl.
      destruct (lookup_lt_is_Some_2 (vertices w) e1 Hl1) as [A HA].
      destruct (lookup_lt_is_Some_2 (vertices w) e2 Hl2) as [B HB].
      exists (relink e1 e2 i e1 A), (relink e1 e2 i e2 B).
      rewrite !Hlook, HA, HB. simpl.
      rewrite !relink_name, (Hnames _ _ HA), (Hnames _ _ HB).
      rewrite !relink_neighbors, !relink_ridges.
      rewrite !decide_True by tauto. tauto.
    + intros Hr. destruct (Hsym (Hnodup_pre Hnodup) k r Hr)
        as (A & B & HA & HB & HnA & HnB & HrA & HrB).
      destruct (Hkeys k r Hr) as (_ & kj & Hin & Hkj).
      assert (Hdiff : unordered (Ridge.end_1 r, Ridge.end_2 r) <> unordered (e1, e2)).
      { intros Heq. rewrite fmap_app, omap_app, fmap_app in Hnodup.
        apply NoDup_app in Hnodup as (_ & Hnot & _).
        apply (Hnot (unordered (Ridge.end_1 r, Ridge.end_2 r))).
        - apply list_elem_of_fmap. eexists. split; [reflexivity |].
          apply list_elem_of_omap. exists kj. split; [| exact Hkj].
          apply list_elem_of_fmap. exists (k, kj). split; [reflexivity | exact Hin].
        - rewrite Heq. simpl. rewrite Hends. simpl. left. }
      rewrite unordered_eq_iff in Hdiff.
      exists (relink e1 e2 i (Ridge.end_1 r) A), (relink e1 e2 i (Ridge.end_2 r) B).
      rewrite !Hlook, HA, HB. simpl.
      rewrite !relink_name, !relink_neighbors, !relink_ridges.
      rewrite (Hnames _ _ HA), (Hnames _ _ HB) in *.
      rewrite !decide_False by (intros [[? ?] | [? ?]]; apply Hdiff; auto).
      tauto.
Qed.

End MakeRidges.

(** *** The invariants read the adjacency only *)

Lemma fmap_eq_lookup {A B} (f : A -> B) (l l' : list A) i x' :
  f <$> l' = f <$> l -> l' !! i = Some x' -> exists x, l !! i = Some x /\ f x = f x'.
Proof.
  intros Heq Hx'.
  assert (H : (f <$> l) !! i = Some (f x')) by (rewrite <- Heq, list_lookup_fmap, Hx'; reflexivity).
  rewrite list_lookup_fmap in H. destruct (l !! i) as [x |]; [| discriminate].
  injection H as H. eauto.
Qed.

Lemma fmap_eq_length {A B} (f : A -> B) (l l' : list A) :
  f <$> l' = f <$> l -> length l' = length l.
Proof. intros H. apply (f_equal length) in H. rewrite !length_fmap in H. exact H. Qed.

Lemma dict_get_fmap_eq {V B} (f : nat * V -> B) (key : B -> nat) (d d' : list (nat * V)) k v' :
  (forall kv, key (f kv) = kv.1) ->
  f <$> d' = f <$> d -> Py.dict_get k d' = Some v' ->
  exists v, Py.dict_get k d = Some v /\ f (k, v) = f (k, v').
Proof.
  intros Hkey. revert d. induction d' as [| [k1 v1] d' IH]; intros [| [k2 v2] d] Heq;
    simpl in *; try discriminate.
  injection Heq as Hhd Htl.
  assert (k1 = k2) as ->. { apply (f_equal key) in Hhd. rewrite !Hkey in Hhd. exact Hhd. }
  destruct (decide (k2 = k)) as [-> | Hne].
  - intros [= <-]. eauto.
  - apply IH, Htl.
Qed.

Lemma dict_set_fmap_id {V B} (f : nat * V -> B) k (v v' : V) d :
  Py.dict_get k d = Some v -> f (k, v') = f (k, v) ->
  f <$> Py.dict_set k v' d = f <$> d.
Proof.
  intros Hget Hf. induction d as [| [k0 v0] d IH]; simpl in *; [discriminate |].
  destruct (decide (k0 = k)) as [-> | Hne]; simpl.
  - injection Hget as ->. rewrite Hf. reflexivity.
  - f_equal. apply IH, Hget.
Qed.

Lemma list_insert_fmap_id {A B} (f : A -> B) (i : nat) (x x' : A) (l : list A) :
  l !! i = Some x -> f x' = f x -> f <$> <[i := x']> l = f <$> l.
Proof.
  intros Hl Hf. rewrite list_fmap_insert, Hf. apply list_insert_id.
  rewrite list_lookup_fmap, Hl. reflexivity.
Qed.

Lemma links_of_geometry w w' : geometry w' = geometry w -> links w' = links w.
Proof.
  unfold geometry, links. intros [= Hv Hr _ _ _ _]. f_equal.
  - apply (f_equal (fmap (fun x : nat * (R * R) * gset nat * gset nat * gmap nat nat =>
                            (x.1.1.1.1, x.1.1.2, x.2)))) in Hv.
    rewrite <- !list_fmap_compose in Hv. exact Hv.
  - apply (f_equal (fmap (fun x : nat * nat * nat * nat * gset nat =>
                            (x.1.1.1.1, x.1.1.2, x.1.2)))) in Hr.
    rewrite <- !list_fmap_compose in Hr. exact Hr.
Qed.

Lemma mesh_symmetric_links w w' :
  links w' = links w -> mesh_symmetric w -> mesh_symmetric w'.
Proof.
  unfold links. intros [= Hv Hr] Hsym k r' Hr'.
  destruct (dict_get_fmap_eq ridge_links (fun x => x.1.1) _ _ _ _ ltac:(reflexivity) Hr Hr')
    as (r & Hget & [= He1 He2]).
  destruct (Hsym k r Hget) as (A & B & HA & HB & HnA & HnB & HrA & HrB).
  symmetry in Hv.
  destruct (fmap_eq_lookup _ _ _ _ _ Hv HA) as (A' & HA' & [= HAn HAnb HAr]).
  destruct (fmap_eq_lookup _ _ _ _ _ Hv HB) as (B' & HB' & [= HBn HBnb HBr]).
  exists A', B'. rewrite <- He1, <- He2, HAn, HAnb, HAr, HBn, HBnb, HBr. auto 10.
Qed.

Lemma mesh_ok_links w w' : links w' = links w -> mesh_ok w -> mesh_ok w'.
Proof.
  unfold links. intros [= Hv Hr] [Hnames Hsound]. split.
  - intros i v' Hv'. destruct (fmap_eq_lookup _ _ _ _ _ Hv Hv') as (v & Hv0 & [= Hn _ _]).
    rewrite <- Hn. apply (Hnames _ _ Hv0).
  - intros a A' b HA'.
    destruct (fmap_eq_lookup _ _ _ _ _ Hv HA') as (A & HA & [= _ Hnb Hrm]).
    destruct (Hsound a A b HA) as [H1 H2]. rewrite <- Hnb, <- Hrm. split; [exact H1 |].
    intros k Hk. destruct (H2 k Hk) as (Hb & r & Hget & Hends).
    rewrite (fmap_eq_length _ _ _ Hv). split; [exact Hb |].
    symmetry in Hr.
    destruct (dict_get_fmap_eq ridge_links (fun x => x.1.1) _ _ _ _ ltac:(reflexivity) Hr Hget)
      as (r' & Hget' & [= He1 He2]).
    exists r'. simpl in *. split; [exact Hget' |]. intuition congruence.
Qed.

(** *** [_make_patches] and [_make_neighbors] *)

Lemma find_centroid_inv cs c : find_centroid cs = Some c -> cs <> [] /\ c = mean cs.
Proof.
  unfold find_centroid. intros H.
  destruct (Py.truediv (Py.sum ((fun p => p.1) <$> cs)) (INR (length cs))) as [cx |] eqn:Hx;
    [| discriminate].
  destruct (Py.truediv (Py.sum ((fun p => p.2) <$> cs)) (INR (length cs))) as [cy |] eqn:Hy;
    [| discriminate].
  simpl in H. injection H as <-.
  apply PyFacts.truediv_inv in Hx as [Hn ->]. apply PyFacts.truediv_inv in Hy as [_ ->].
  split; [| reflexivity]. intros ->. apply Hn. reflexivity.
Qed.

Lemma find_centroid_Some cs : cs <> [] -> find_centroid cs = Some (mean cs).
Proof.
  intros Hne. unfold find_centroid.
  assert (Hn : INR (length cs) <> 0).
  { apply not_0_INR. destruct cs; [congruence | simpl; lia]. }
  rewrite !PyFacts.truediv_Some by exact Hn. reflexivity.
Qed.

Lemma fmap_proj_eq {A B C} (f : A -> B) (g : B -> C) (h : A -> C) (l l' : list A) :
  (forall x, g (f x) = h x) -> f <$> l' = f <$> l -> h <$> l' = h <$> l.
Proof.
  intros Hgf Heq. apply (f_equal (fmap g)) in Heq. rewrite <- !list_fmap_compose in Heq.
  rewrite <- (list_fmap_ext (g ∘ f) h l') by (intros; apply Hgf).
  rewrite <- (list_fmap_ext (g ∘ f) h l) by (intros; apply Hgf). exact Heq.
Qed.

Lemma patch_init_spec k pv vs p vs' :
  Patch.init k pv vs = Some (p, vs') ->
  vertex_but_patches <$> vs' = vertex_but_patches <$> vs
  /\ exists cs, mapM (fun i => (Vertex.coords <$> vs) !! i) pv = Some cs
                /\ cs <> [] /\ p = Patch.mk k pv [] (mean cs) None None.
Proof.
  unfold Patch.init. intros H.
  destruct (Py.for_each _ pv vs) as [vs1 |] eqn:Hloop; [| discriminate]. simpl in H.
  assert (Hsame : vertex_but_patches <$> vs1 = vertex_but_patches <$> vs).
  { apply (PyFacts.for_each_inv
             (fun t => vertex_but_patches <$> t = vertex_but_patches <$> vs) _ _ _ _)
      with (3 := Hloop); [| reflexivity].
    intros i t t' _ Ht Hi. destruct (t !! i) as [v |] eqn:Hv; [| discriminate].
    injection Hi as <-. rewrite <- Ht. eapply list_insert_fmap_id; [exact Hv | reflexivity]. }
  destruct (mapM _ pv) as [cs |] eqn:Hcs; [| discriminate]. simpl in H.
  destruct (find_centroid cs) as [c |] eqn:Hc; [| discriminate]. simpl in H.
  injection H as <- <-. split; [exact Hsame |].
  apply find_centroid_inv in Hc as [Hne ->]. exists cs. split; [| auto].
  rewrite <- Hcs. apply mapM_ext. intros i.
  rewrite <- (fmap_proj_eq vertex_but_patches (fun x => x.1.1.1.1.2) Vertex.coords _ _
                ltac:(reflexivity) Hsame).
  apply list_lookup_fmap.
Qed.

Lemma make_patch_links x w w' :
  make_patch x w = Some w' ->
  vertex_but_patches <$> vertices w' = vertex_but_patches <$> vertices w
  /\ ridges w' = ridges w.
Proof.
  destruct x as [i region]. unfold make_patch.
  destruct (decide _); [intros [= <-]; auto |].
  destruct (mapM _ region) as [pv |]; [| discriminate]. simpl.
  destruct (Patch.init i pv (vertices w)) as [[p vs] |] eqn:Hinit; [| discriminate].
  simpl. intros [= <-]. apply patch_init_spec in Hinit as [Hsame _]. auto.
Qed.

Lemma make_patch_inv (regions : list (list Z)) coords pre x post w w' :
  Py.enumerate regions = pre ++ x :: post ->
  patches_inv coords pre w -> make_patch x w = Some w' -> patches_inv coords (pre ++ [x]) w'.
Proof.
  intros Henum (Hcoords & Hold & Hall) Hstep.
  pose proof (make_patch_links _ _ _ Hstep) as [Hsame _].
  assert (Hcoords' : Vertex.coords <$> vertices w' = coords).
  { rewrite <- Hcoords.
    apply (fmap_proj_eq vertex_but_patches (fun x => x.1.1.1.1.2)); [reflexivity | exact Hsame]. }
  destruct x as [i region]. unfold make_patch in Hstep.
  assert (Hold' : forall k p, Py.dict_get k (patches w) = Some p ->
      Patch.name p = k
      /\ exists region0, (k, region0) ∈ pre ++ [(i, region)] /\ ((-1)%Z ∉ region0) /\ region0 <> []
           /\ mapM (Py.index (length coords)) region0 = Some (Patch.vertices p)
           /\ patch_closed coords p).
  { intros k p Hp. destruct (Hold k p Hp) as (Hn & region0 & Hin & H).
    split; [exact Hn |]. exists region0. split; [apply elem_of_app; left; exact Hin | exact H]. }
  destruct (decide ((-1)%Z ∈ region \/ length region = 0%nat)) as [Hskip | Hkeep].
  { injection Hstep as <-. split; [exact Hcoords |]. split; [exact Hold' |].
    intros k region0 Hin Hfin Hne. apply elem_of_app in Hin as [Hin | Hin].
    - eapply Hall; eauto.
    - apply list_elem_of_singleton in Hin. injection Hin as -> ->.
      exfalso. destruct Hskip as [Hs | Hs]; [contradiction |].
      destruct region; [congruence | discriminate]. }
  assert (Hlen : length (vertices w) = length coords).
  { rewrite <- Hcoords. rewrite length_fmap. reflexivity. }
  rewrite Hlen in Hstep.
  destruct (mapM _ region) as [pv |] eqn:Hpv; [| discriminate]. simpl in Hstep.
  destruct (Patch.init i pv (vertices w)) as [[p vs] |] eqn:Hinit; [| discriminate].
  simpl in Hstep. injection Hstep as <-. simpl in *.
  apply patch_init_spec in Hinit as (_ & cs & Hcs & Hne & ->). rewrite Hcoords in Hcs.
  split; [exact Hcoords' |]. split.
  - intros k p. simpl. rewrite dict_get_set. destruct (decide (i = k)) as [<- | Hik].
    + intros [= <-]. simpl. split; [reflexivity |]. exists region.
      split; [apply elem_of_app; right; left |].
      split; [tauto |]. split; [intros ->; apply Hkeep; right; reflexivity |].
      split; [exact Hpv |]. split; simpl.
      * apply mapM_Some_1, Forall2_length in Hcs. destruct cs; [congruence |].
        simpl in Hcs. lia.
      * eauto.
    + apply Hold'.
  - intros k region0 Hin Hfin Hne0. simpl. rewrite dict_get_set.
    destruct (decide (i = k)) as [<- | Hik]; [eexists; reflexivity |].
    apply elem_of_app in Hin as [Hin | Hin]; [eapply Hall; eauto |].
    apply list_elem_of_singleton in Hin. congruence.
Qed.

Lemma make_neighbor_shape rk w w' :
  make_neighbor rk w = Some w' ->
  vertices w' = vertices w
  /\ ridge_links <$> ridges w' = ridge_links <$> ridges w
  /\ patch_shape <$> patches w' = patch_shape <$> patches w.
Proof.
  unfold make_neighbor.
  destruct (Py.dict_get rk (ridges w)) as [ridge |] eqn:Hr; [| discriminate]. simpl.
  destruct (vertices w !! Ridge.end_1 ridge) as [v1 |]; [| discriminate]. simpl.
  destruct (vertices w !! Ridge.end_2 ridge) as [v2 |]; [| discriminate]. simpl.
  destruct (decide _); [intros [= <-]; auto |].
  destruct (elements _) as [| p1 [| p2 [| ? ?]]]; try discriminate.
  destruct (Py.dict_get p1 (patches w)) as [P1 |] eqn:H1; [| discriminate]. simpl.
  destruct (Py.dict_get p2 _) as [P2 |] eqn:H2; [| discriminate]. simpl.
  intros [= <-]. simpl. split; [reflexivity |]. split.
  - eapply dict_set_fmap_id; [exact Hr | reflexivity].
  - rewrite (dict_set_fmap_id patch_shape _ _ _ _ H2) by reflexivity.
    eapply dict_set_fmap_id; [exact H1 | reflexivity].
Qed.

(** *** [World.__init__] *)

Lemma make_ridge_frame x w w' :
  make_ridge x w = Some w' ->
  Vertex.coords <$> vertices w' = Vertex.coords <$> vertices w
  /\ patches w' = patches w /\ voronoi w' = voronoi w.
Proof.
  destruct x as [i [kz jz]]. unfold make_ridge.
  destruct (decide _); [intros [= <-]; auto |].
  destruct (Py.index _ kz) as [e1 |]; [| discriminate].
  destruct (Py.index _ jz) as [e2 |]; [| discriminate]. simpl.
  unfold Ridge.init, Vertex.add_neighbor.
  destruct (vertices w !! e1) as [v1 |] eqn:H1; [| discriminate].
  destruct (vertices w !! e2) as [v2 |] eqn:H2; [| discriminate]. simpl.
  set (vs1 := <[e1 := _]> (vertices w)).
  destruct (vs1 !! e2) as [v2' |] eqn:H2'; [| discriminate].
  destruct (vs1 !! e1) as [v1' |] eqn:H1'; [| discriminate]. simpl.
  intros [= <-]. simpl. split; [| auto].
  rewrite (list_insert_fmap_id Vertex.coords _ _ _ _ H2') by reflexivity.
  unfold vs1. eapply list_insert_fmap_id; [exact H1 | reflexivity].
Qed.

Lemma make_neighbor_frame rk w w' :
  make_neighbor rk w = Some w' -> voronoi w' = voronoi w.
Proof.
  unfold make_neighbor.
  destruct (Py.dict_get rk (ridges w)) as [ridge |]; [| discriminate]. simpl.
  destruct (vertices w !! Ridge.end_1 ridge) as [v1 |]; [| discriminate]. simpl.
  destruct (vertices w !! Ridge.end_2 ridge) as [v2 |]; [| discriminate]. simpl.
  destruct (decide _); [intros [= <-]; auto |].
  destruct (elements _) as [| p1 [| p2 [| ? ?]]]; try discriminate.
  destruct (Py.dict_get p1 (patches w)) as [P1 |]; [| discriminate]. simpl.
  destruct (Py.dict_get p2 _) as [P2 |]; [| discriminate]. simpl.
  intros [= <-]. reflexivity.
Qed.

Lemma make_patch_frame x w w' : make_patch x w = Some w' -> voronoi w' = voronoi w.
Proof.
  destruct x as [i region]. unfold make_patch.
  destruct (decide _); [intros [= <-]; auto |].
  destruct (mapM _ region) as [pv |]; [| discriminate]. simpl.
  destruct (Patch.init i pv (vertices w)) as [[p vs] |]; [| discriminate].
  simpl. intros [= <-]. reflexivity.
Qed.

Lemma patches_inv_shape coords pre w w' :
  Vertex.coords <$> vertices w' = Vertex.coords <$> vertices w ->
  patch_shape <$> patches w' = patch_shape <$> patches w ->
  patches_inv coords pre w -> patches_inv coords pre w'.
Proof.
  intros Hc Hs (Hcoords & Hold & Hall). split; [congruence |]. split.
  - intros k p' Hp'.
    destruct (dict_get_fmap_eq patch_shape (fun x => x.1.1.1) _ _ _ _ ltac:(reflexivity) Hs Hp')
      as (p & Hp & [= Hn Hv Hcen]).
    destruct (Hold k p Hp) as (Hname & region & Hin & Hfin & Hne & Hidx & Hlen & cs & Hcs & Hm).
    split; [congruence |]. exists region. rewrite <- Hv. repeat (split; [assumption |]).
    split; [rewrite <- Hv; exact Hlen |]. exists cs. rewrite <- Hv, <- Hcen. auto.
  - intros k region Hin Hfin Hne. destruct (Hall k region Hin Hfin Hne) as [p Hp].
    symmetry in Hs.
    destruct (dict_get_fmap_eq patch_shape (fun x => x.1.1.1) _ _ _ _ ltac:(reflexivity) Hs Hp)
      as (p' & Hp' & _).
    eauto.
Qed.

Lemma World_init_built vor x_lim y_lim w :
  World_init vor x_lim y_lim = Some w -> built_from vor w.
Proof.
  unfold World_init. set (w0 := mkWorld vor [] [] [] [] None x_lim y_lim 0).
  set (w1 := _make_vertices w0).
  destruct (_make_ridges w1) as [w2 |] eqn:H2; [| discriminate]. simpl.
  destruct (_make_patches w2) as [w3 |] eqn:H3; [| discriminate]. simpl.
  intros H4.
  unfold _make_ridges in H2. change (voronoi w1) with vor in H2.
  unfold _make_patches in H3. unfold _make_neighbors in H4.
  set (n := length (Voronoi.vertices vor)).
  assert (Hvs1 : vertices w1 = imap Vertex.init (Voronoi.vertices vor)).
  { apply (make_vertices_eq w0). reflexivity. }
  (* the ridges *)
  assert (Hr1 : ridges_inv n [] w1).
  { split; [rewrite Hvs1; apply length_imap |]. split; [split |]; [| | split].
    - intros i v. rewrite Hvs1, list_lookup_imap.
      destruct (Voronoi.vertices vor !! i); simpl; [| discriminate]. intros [= <-]. reflexivity.
    - intros a A b. rewrite Hvs1, list_lookup_imap.
      destruct (Voronoi.vertices vor !! a); simpl; [| discriminate]. intros [= <-]. simpl.
      split.
      + rewrite lookup_empty. split; [set_solver | intros [? ?]; discriminate].
      + intros k. rewrite lookup_empty. discriminate.
    - intros k r. discriminate.
    - intros _ k r. discriminate. }
  assert (Hr2 : ridges_inv n (Py.enumerate (Voronoi.ridge_vertices vor)) w2).
  { apply (for_each_inv_prefix (ridges_inv n) make_ridge
             (Py.enumerate (Voronoi.ridge_vertices vor)) w1 w2); [| exact Hr1 | exact H2].
    intros pre x post t t' Heq. apply (make_ridge_inv n _ _ _ _ _ _ Heq). }
  assert (Hf2 : Vertex.coords <$> vertices w2 = Voronoi.vertices vor
                /\ patches w2 = [] /\ voronoi w2 = vor).
  { apply (PyFacts.for_each_inv
             (fun t => Vertex.coords <$> vertices t = Voronoi.vertices vor
                       /\ patches t = [] /\ voronoi t = vor) make_ridge
             (Py.enumerate (Voronoi.ridge_vertices vor)) w1 w2);
      [| | exact H2].
    - intros x t t' _ (Hc & Hp & Hv) Hx.
      apply make_ridge_frame in Hx as (Hc' & Hp' & Hv'). repeat split; congruence.
    - split; [| auto]. rewrite Hvs1. apply list_eq. intros i.
      rewrite list_lookup_fmap, list_lookup_imap.
      destruct (Voronoi.vertices vor !! i); reflexivity. }
  destruct Hr2 as (Hlen2 & Hok2 & _ & Hsym2). destruct Hf2 as (Hc2 & Hp2 & Hv2).
  rewrite Hv2 in H3.
  (* the patches *)
  assert (Hp3 : patches_inv (Voronoi.vertices vor) (Py.enumerate (Voronoi.regions vor)) w3).
  { apply (for_each_inv_prefix (patches_inv (Voronoi.vertices vor)) make_patch
             (Py.enumerate (Voronoi.regions vor)) w2 w3);
      [| | exact H3].
    - intros pre x post t t' Heq. eapply make_patch_inv. exact Heq.
    - split; [exact Hc2 |]. split.
      + intros k p. rewrite Hp2. discriminate.
      + intros k region Hin. inversion Hin. }
  assert (Hl3 : links w3 = links w2 /\ voronoi w3 = vor).
  { apply (PyFacts.for_each_inv (fun t => links t = links w2 /\ voronoi t = vor)
             make_patch (Py.enumerate (Voronoi.regions vor)) w2 w3); [| auto | exact H3].
    intros x t t' _ [Hl Hv] Hx. pose proof (make_patch_frame _ _ _ Hx) as Hv'.
    apply make_patch_links in Hx as [Hsame Hr]. split; [| congruence].
    rewrite <- Hl. unfold links. rewrite Hr. f_equal.
    apply (fmap_proj_eq vertex_but_patches (fun x => (x.1.1.1.1.1, x.1.1.1.2, x.1.1.2)));
      [reflexivity | exact Hsame]. }
  (* the neighbors *)
  assert (H : (links w = links w3 /\ voronoi w = vor)
              /\ Vertex.coords <$> vertices w = Vertex.coords <$> vertices w3
              /\ patch_shape <$> patches w = patch_shape <$> patches w3).
  { apply (PyFacts.for_each_inv
             (fun t => (links t = links w3 /\ voronoi t = vor)
                       /\ Vertex.coords <$> vertices t = Vertex.coords <$> vertices w3
                       /\ patch_shape <$> patches t = patch_shape <$> patches w3)
             make_neighbor (ridges w3).*1 w3 w); [| tauto | exact H4].
    intros x t t' _ ([Hl Hv] & Hc & Hs) Hx. pose proof (make_neighbor_frame _ _ _ Hx) as Hv'.
    apply make_neighbor_shape in Hx as (Hvs & Hrl & Hps).
    split; [split |]; [| congruence | split; congruence].
    rewrite <- Hl. unfold links. rewrite Hvs, Hrl. reflexivity. }
  destruct H as ([Hl Hv] & Hc & Hs). destruct Hl3 as [Hl3 _].
  assert (Hlinks : links w = links w2) by congruence.
  split; [exact Hv |]. split; [eapply mesh_ok_links; eauto |]. split.
  - intros Hnodup. eapply mesh_symmetric_links; [exact Hlinks |]. apply Hsym2.
    rewrite enumerate_snd. exact Hnodup.
  - eapply patches_inv_shape; eauto.
Qed.

(** ** The operations leave the geometry alone *)

Lemma geometry_intro w w' :
  vertex_fixed <$> vertices w' = vertex_fixed <$> vertices w ->
  ridge_fixed <$> ridges w' = ridge_fixed <$> ridges w ->
  patch_fixed <$> patches w' = patch_fixed <$> patches w ->
  world_frame w' = world_frame w ->
  geometry w' = geometry w.
Proof. unfold geometry, world_frame. intros -> -> -> [= -> -> ->]. reflexivity. Qed.

Lemma geometry_set_vertices vs w :
  vertex_fixed <$> vs = vertex_fixed <$> vertices w ->
  geometry (set_vertices vs w) = geometry w.
Proof. intros H. apply geometry_intro; [exact H | reflexivity ..]. Qed.

Lemma mapM_fmap_preserved {A B} (f : A -> option A) (g : A -> B) l l' :
  mapM f l = Some l' -> (forall x y, f x = Some y -> g y = g x) -> g <$> l' = g <$> l.
Proof.
  intros H Hfg. apply mapM_Some_1 in H.
  induction H as [| x y l l' Hxy _ IH]; simpl; [reflexivity |].
  f_equal; [apply (Hfg _ _ Hxy) | exact IH].
Qed.

Lemma deref_spec vs refs ns :
  deref vs refs = Some ns ->
  ns.*1 = refs /\ forall i v, (i, v) ∈ ns -> vs !! i = Some v.
Proof.
  unfold deref. intros H. apply mapM_Some_1 in H.
  induction H as [| i [j v] refs ns Hi _ [IH1 IH2]]; simpl.
  - split; [reflexivity |]. intros i v Hin. inversion Hin.
  - destruct (vs !! i) as [u |] eqn:Hu; [| discriminate]. injection Hi as <- <-.
    split; [f_equal; exact IH1 |].
    intros k v Hin. apply elem_of_cons in Hin as [[= -> ->] | Hin]; [exact Hu | auto].
Qed.

Lemma deref_is_Some vs refs :
  (forall i, i ∈ refs -> (i < length vs)%nat) -> is_Some (deref vs refs).
Proof.
  intros Hin. apply mapM_is_Some_2. apply Forall_forall. intros i Hi. simpl.
  destruct (lookup_lt_is_Some_2 vs i (Hin i Hi)) as [v ->]. eexists; reflexivity.
Qed.

Lemma set_heights_geometry w h : geometry (set_heights w h) = geometry w.
Proof.
  apply geometry_set_vertices. rewrite <- list_fmap_compose. reflexivity.
Qed.

Lemma normalize_heights_geometry w w' :
  normalize_heights w = Some w' -> geometry w' = geometry w.
Proof.
  unfold normalize_heights.
  destruct (Py.min_list _) as [min_h |]; [| discriminate]. simpl.
  destruct (Py.max_list _) as [max_h |]; [| discriminate]. simpl.
  destruct (mapM _ (vertices w)) as [vs |] eqn:Hvs; [| discriminate]. simpl.
  intros [= <-]. apply geometry_set_vertices.
  eapply mapM_fmap_preserved; [exact Hvs |]. intros x y. simpl.
  destruct (Py.truediv _ _); [| discriminate]. simpl. intros [= <-]. reflexivity.
Qed.

Lemma add_slope_geometry w rnd magnitude slope normalize w' :
  add_slope w rnd magnitude slope normalize = Some w' -> geometry w' = geometry w.
Proof.
  unfold add_slope.
  destruct (match slope with Some s => Some s | None => _ end) as [s |]; [| discriminate].
  simpl. set (w1 := set_vertices _ w).
  assert (H1 : geometry w1 = geometry w).
  { apply geometry_set_vertices. rewrite <- list_fmap_compose. apply list_fmap_ext.
    intros _ v _. simpl. destruct (decide _); reflexivity. }
  destruct normalize.
  - intros H. apply normalize_heights_geometry in H. congruence.
  - intros [= <-]. exact H1.
Qed.

Lemma add_hill_geometry w rnd hill r normalize w' :
  add_hill w rnd hill r normalize = Some w' -> geometry w' = geometry w.
Proof.
  unfold add_hill.
  destruct (mapM _ (vertices w)) as [vs |] eqn:Hvs; [| discriminate]. simpl.
  assert (H1 : geometry (set_vertices vs w) = geometry w).
  { apply geometry_set_vertices. eapply mapM_fmap_preserved; [exact Hvs |].
    intros x y. simpl. destruct (decide _).
    - destruct (Py.np_exp_div _ _); [| discriminate]. simpl. intros [= <-]. reflexivity.
    - intros [= <-]. reflexivity. }
  destruct normalize.
  - intros H. apply normalize_heights_geometry in H. congruence.
  - intros [= <-]. exact H1.
Qed.

Lemma reset_rivers_geometry w w' : reset_rivers w = Some w' -> geometry w' = geometry w.
Proof.
  unfold reset_rivers.
  destruct (mapM _ (vertices w)) as [vs |] eqn:Hvs; [| discriminate]. simpl.
  intros [= <-]. apply geometry_intro; simpl; try reflexivity.
  - eapply mapM_fmap_preserved; [exact Hvs |]. intros x y. simpl.
    destruct (Py.truediv _ _); [| discriminate]. simpl. intros [= <-]. reflexivity.
  - rewrite <- list_fmap_compose. apply list_fmap_ext. intros _ [k r] _. reflexivity.
Qed.

Lemma route_flux_geometry i w w' : route_flux i w = Some w' -> geometry w' = geometry w.
Proof.
  unfold route_flux.
  destruct (vertices w !! i) as [v |]; [| discriminate]. simpl.
  destruct (decide _); [| intros [= <-]; reflexivity].
  destruct (deref _ _) as [ns |] eqn:Hns; [| discriminate]. simpl.
  destruct (Py.min_by _ ns) as [[lowest lv] |] eqn:Hmin; [| discriminate]. simpl.
  destruct (decide _); [| intros [= <-]; reflexivity].
  destruct (Vertex.ridges v !! Vertex.name lv) as [rk |]; [| discriminate]. simpl.
  destruct (Py.dict_get rk (ridges w)) as [ridge |] eqn:Hr; [| discriminate]. simpl.
  intros [= <-]. apply PyFacts.min_by_spec in Hmin as [Hin _].
  apply deref_spec in Hns as [_ Hns]. apply Hns in Hin.
  apply geometry_intro; simpl; try reflexivity.
  - eapply list_insert_fmap_id; [exact Hin | reflexivity].
  - eapply dict_set_fmap_id; [exact Hr | reflexivity].
Qed.

Lemma for_each_geometry {A} (body : A -> World -> option World) items w w' :
  (forall x t t', body x t = Some t' -> geometry t' = geometry t) ->
  Py.for_each body items w = Some w' -> geometry w' = geometry w.
Proof.
  intros Hbody. apply (PyFacts.for_each_inv (fun t => geometry t = geometry w)); [| reflexivity].
  intros x t t' _ Ht Hx. rewrite <- Ht. eapply Hbody, Hx.
Qed.

Lemma make_rivers_geometry w w' : make_rivers w = Some w' -> geometry w' = geometry w.
Proof.
  unfold make_rivers. destruct (reset_rivers w) as [w1 |] eqn:H1; [| discriminate]. simpl.
  intros H. apply for_each_geometry in H; [| apply route_flux_geometry].
  apply reset_rivers_geometry in H1. congruence.
Qed.

Lemma erode_ridge_geometry max_total rk w w' :
  erode_ridge max_total rk w = Some w' -> geometry w' = geometry w.
Proof.
  unfold erode_ridge.
  destruct (Py.dict_get rk (ridges w)) as [ridge |]; [| discriminate]. simpl.
  destruct (decide _); [intros [= <-]; reflexivity |].
  destruct (Py.np_sqrt _) as [sq |]; [| discriminate]. simpl.
  destruct (Ridge.slope _ _) as [s |]; [| discriminate]. simpl.
  destruct (vertices w !! Ridge.end_1 ridge) as [v1 |] eqn:H1; [| discriminate]. simpl.
  destruct (vertices w !! Ridge.end_2 ridge) as [v2 |] eqn:H2; [| discriminate].
  unfold Py.min_by. simpl. destruct (decide _); intros [= <-];
    apply geometry_set_vertices; eapply list_insert_fmap_id; eauto.
Qed.

Lemma erode_heights_geometry w max_total drop_factor w' :
  erode_heights w max_total drop_factor = Some w' -> geometry w' = geometry w.
Proof. apply for_each_geometry, erode_ridge_geometry. Qed.

Lemma set_sea_level_geometry np_percentile w s w' :
  set_sea_level np_percentile w s = Some w' -> geometry w' = geometry w.
Proof.
  unfold set_sea_level. destruct (decide _); [intros [= <-]; reflexivity |].
  destruct (np_percentile _ _); [| discriminate]. simpl. intros [= <-]. reflexivity.
Qed.

Lemma patch_height_fixed vs p h p' :
  Patch.height vs p = Some (h, p') -> forall k, patch_fixed (k, p') = patch_fixed (k, p).
Proof.
  unfold Patch.height. destruct (Patch._h p).
  - intros [= <- <-]. reflexivity.
  - destruct (mapM _ _); [| discriminate]. simpl.
    destruct (Py.min_list _); [| discriminate]. simpl. intros [= <- <-]. reflexivity.
Qed.

Lemma read_height_geometry k w h w' :
  read_height k w = Some (h, w') -> geometry w' = geometry w.
Proof.
  unfold read_height.
  destruct (Py.dict_get k (patches w)) as [p |] eqn:Hp; [| discriminate]. simpl.
  destruct (Patch.height _ p) as [[h' p'] |] eqn:Hh; [| discriminate]. simpl.
  intros [= <- <-]. apply geometry_intro; simpl; try reflexivity.
  eapply dict_set_fmap_id; [exact Hp | eapply patch_height_fixed; exact Hh].
Qed.

Lemma land_step_geometry k acc w acc' w' :
  land_step k (acc, w) = Some (acc', w') -> geometry w' = geometry w.
Proof.
  unfold land_step.
  destruct (Py.dict_get k (patches w)) as [p |] eqn:Hp; [| discriminate]. simpl.
  destruct (Patch.height _ p) as [[h' p'] |] eqn:Hh; [| discriminate]. simpl.
  intros [= _ <-]. apply geometry_intro; simpl; try reflexivity.
  eapply dict_set_fmap_id; [exact Hp | eapply patch_height_fixed; exact Hh].
Qed.

Lemma land_patches_geometry w lp w' :
  land_patches w = Some (lp, w') -> geometry w' = geometry w.
Proof.
  unfold land_patches. destruct (decide _); [| intros [= _ <-]; reflexivity].
  destruct (Py.for_each _ _ _) as [[lp' w1] |] eqn:Hloop; [| discriminate]. simpl.
  intros [= _ <-].
  assert (H : geometry w1 = geometry w).
  { apply (PyFacts.for_each_inv (fun st : list nat * World => geometry st.2 = geometry w)
             land_step (patches w).*1 ([], w) (lp', w1)); [| reflexivity | exact Hloop].
    intros k [acc t] [acc' t'] _ Ht Hk. simpl in *. rewrite <- Ht.
    eapply land_step_geometry, Hk. }
  rewrite <- H. reflexivity.
Qed.

Lemma clean_vertex_geometry epsilon i w w' :
  clean_vertex epsilon i w = Some w' -> geometry w' = geometry w.
Proof.
  unfold clean_vertex.
  destruct (vertices w !! i) as [v |] eqn:Hv; [| discriminate]. simpl.
  destruct (deref _ _) as [ns |]; [| discriminate]. simpl.
  repeat destruct (decide _); intros [= <-]; try reflexivity;
    apply geometry_set_vertices; eapply list_insert_fmap_id; eauto.
Qed.

Lemma clean_coastline_geometry w epsilon w' :
  clean_coastline w epsilon = Some w' -> geometry w' = geometry w.
Proof. apply for_each_geometry, clean_vertex_geometry. Qed.

Lemma network_neighbor_geometry pk rq g w g' w' :
  network_neighbor pk rq (g, w) = Some (g', w') -> geometry w' = geometry w.
Proof.
  unfold network_neighbor.
  destruct (read_height rq.2 w) as [[hq w1] |] eqn:H1; [| discriminate]. simpl.
  apply read_height_geometry in H1.
  destruct (decide _); [intros [= _ <-]; exact H1 |].
  destruct (Py.dict_get pk _); [| discriminate]. simpl.
  destruct (Py.dict_get rq.2 _); [| discriminate]. simpl.
  destruct (read_height rq.2 w1) as [[hq' w2] |] eqn:H2; [| discriminate]. simpl.
  destruct (read_height pk w2) as [[hp w3] |] eqn:H3; [| discriminate]. simpl.
  apply read_height_geometry in H2, H3. intros [= _ <-]. congruence.
Qed.

Lemma network_patch_geometry pk g w g' w' :
  network_patch pk (g, w) = Some (g', w') -> geometry w' = geometry w.
Proof.
  unfold network_patch. simpl.
  destruct (Py.dict_get pk (patches w)) as [patch |]; [| discriminate]. simpl.
  apply (PyFacts.for_each_inv (fun st : DiGraph.t * World => geometry st.2 = geometry w)
           (network_neighbor pk) (Patch.neighbors patch) (g, w) (g', w')); [| reflexivity].
  intros rq [g1 t] [g2 t'] _ Ht Hx. simpl in *. rewrite <- Ht.
  eapply network_neighbor_geometry, Hx.
Qed.

Lemma patch_network_geometry w g w' :
  patch_network w = Some (g, w') -> geometry w' = geometry w.
Proof.
  unfold patch_network. destruct (_patch_network w); [intros [= _ <-]; reflexivity |].
  destruct (land_patches w) as [[lp w1] |] eqn:H1; [| discriminate]. simpl.
  apply land_patches_geometry in H1.
  destruct (Py.for_each _ _ _) as [[g2 w2] |] eqn:H2; [| discriminate]. simpl.
  intros [= _ <-].
  assert (H : geometry w2 = geometry w1).
  { apply (PyFacts.for_each_inv (fun st : DiGraph.t * World => geometry st.2 = geometry w1)
             network_patch lp (DiGraph.empty, w1) (g2, w2)); [| reflexivity | exact H2].
    intros k [g3 t] [g4 t'] _ Ht Hk. simpl in *. rewrite <- Ht.
    eapply network_patch_geometry, Hk. }
  rewrite <- H1, <- H. reflexivity.
Qed.

Lemma run_geometry np_percentile o w w' :
  run np_percentile o w = Some w' -> geometry w' = geometry w.
Proof.
  destruct o; simpl.
  - intros [= <-]. apply set_heights_geometry.
  - apply normalize_heights_geometry.
  - apply add_slope_geometry.
  - apply add_hill_geometry.
  - apply make_rivers_geometry.
  - apply erode_heights_geometry.
  - apply set_sea_level_geometry.
  - destruct (land_patches w) as [[lp w1] |] eqn:H; [| discriminate]. simpl.
    intros [= <-]. eapply land_patches_geometry, H.
  - apply clean_coastline_geometry.
  - apply reset_rivers_geometry.
  - destruct (patch_network w) as [[g w1] |] eqn:H; [| discriminate]. simpl.
    intros [= <-]. eapply patch_network_geometry, H.
Qed.

Lemma run_all_geometry np_percentile os w w' :
  run_all np_percentile os w = Some w' -> geometry w' = geometry w.
Proof. apply for_each_geometry. intros o t t'. apply run_geometry. Qed.

(** ** The example meshes are what the constructor builds *)

Lemma find_centroid_eq cs :
  find_centroid cs = match cs with [] => None | _ => Some (mean cs) end.
Proof.
  destruct cs as [| c cs].
  - unfold find_centroid. simpl. rewrite PyFacts.truediv_None; reflexivity.
  - apply find_centroid_Some. discriminate.
Qed.

Lemma for_each_ext {A S} (f g : A -> S -> option S) items s :
  (forall x t, f x t = g x t) -> Py.for_each f items s = Py.for_each g items s.
Proof.
  intros Hfg. revert s. induction items as [| x items IH]; intros s; simpl; [reflexivity |].
  rewrite Hfg. destruct (g x s); simpl; [apply IH | reflexivity].
Qed.

Lemma World_init_exec_eq vor x_lim y_lim :
  World_init vor x_lim y_lim = World_init_exec vor x_lim y_lim.
Proof.
  unfold World_init, World_init_exec, _make_patches.
  destruct (_make_ridges _) as [w |]; simpl; [| reflexivity].
  rewrite (for_each_ext make_patch make_patch_exec); [reflexivity |].
  intros [i region] t. unfold make_patch, make_patch_exec.
  destruct (decide _); [reflexivity |].
  destruct (mapM _ region) as [pv |]; simpl; [| reflexivity].
  unfold Patch.init, Patch_init_exec.
  destruct (Py.for_each _ pv (vertices t)) as [vs |]; simpl; [| reflexivity].
  destruct (mapM _ pv) as [cs |]; simpl; [| reflexivity].
  rewrite find_centroid_eq. reflexivity.
Qed.

Lemma grid_world_init : World_init grid_voronoi (0, 6) (0, 4) = Some grid_world.
Proof. rewrite World_init_exec_eq. vm_compute. reflexivity. Qed.

Lemma twice_world_init : World_init twice_voronoi (0, 1) (0, 1) = Some twice_world.
Proof. rewrite World_init_exec_eq. vm_compute. reflexivity. Qed.

Lemma degenerate_world_init :
  World_init degenerate_voronoi (0, 1) (0, 1) = Some degenerate_world.
Proof. rewrite World_init_exec_eq. vm_compute. reflexivity. Qed.

Lemma grid_ridges_listed_once : ridges_listed_once grid_voronoi.
Proof. unfold ridges_listed_once. compute_done. Qed.

(** Evaluation on concrete meshes: comparisons of reals are settled by
    [lra], sets and maps by computation. *)
Ltac r_solve :=
  unfold _check_coord; simpl;
  solve [ lra | repeat split; lra | intros [[? ?] [? ?]]; lra | intros [? ?]; lra
        | apply not_0_INR; discriminate | reflexivity | discriminate | lia ].

Ltac r_decide :=
  match goal with
  | |- context [decide ?P] =>
      first [ rewrite (decide_True (P := P)) by r_solve
            | rewrite (decide_False (P := P)) by r_solve ]
  | |- context [Py.truediv ?x ?y] => rewrite (PyFacts.truediv_Some x y) by r_solve
  end.

Ltac g_compute :=
  match goal with
  | |- context [elements ?s] =>
      let r := eval vm_compute in (elements s) in change (elements s) with r
  | |- context [@lookup nat nat (gmap nat nat) _ ?k ?m] =>
      let r := eval vm_compute in (m !! k) in change (m !! k) with r
  end.

Ltac py_unfold :=
  unfold route_flux, erode_ridge, land_step, read_height, network_neighbor, network_patch,
    clean_vertex, deref, set_vertices, set_ridges, set_patches, set_land_patches,
    set_patch_network, set_sea, Vertex.set_flux, Vertex.set_height, Ridge.set_flux,
    Patch.set_h, Patch.height, Py.min_list, Py.min_by, Py.max_list, id.

Ltac py_eval :=
  repeat (progress (py_unfold;
                    cbn -[decide Py.truediv elements gmap_lookup INR sqrt exp mean];
                    repeat r_decide; try g_compute)).

Lemma kite_world_init : World_init kite_voronoi (0, 4) (-1, 1) = Some kite_world.
Proof. rewrite World_init_exec_eq. vm_compute. reflexivity. Qed.

Lemma kite_slope_reached rnd :
  add_slope kite_world rnd None (Some (1, 0)) false = Some kite_slope.
Proof.
  unfold add_slope. cbn -[decide]. repeat r_decide.
  unfold kite_slope, set_vertices, Vertex.set_height, Py.dot. cbn.
  do 2 f_equal. repeat (f_equal; try lra).
Qed.

Lemma river_world_reached : make_rivers kite_slope = Some river_world.
Proof.
  unfold make_rivers, reset_rivers, vertices_by_height, Py.sorted_desc, Py.enumerate.
  py_eval. unfold river_world. do 2 f_equal; repeat (f_equal; try (simpl; lra)).
Qed.

Lemma sloped_world_reached rnd :
  add_slope grid_world rnd None (Some (0.1, 0)) false = Some sloped_world.
Proof.
  unfold add_slope. cbn -[decide]. repeat r_decide.
  unfold sloped_world, set_vertices, Vertex.set_height, Py.dot. cbn.
  do 2 f_equal. repeat (f_equal; try lra).
Qed.

Lemma coast_world_reached np_percentile :
  set_sea_level np_percentile sloped_world 0.1 = Some coast_world.
Proof. unfold set_sea_level. rewrite decide_True by lra. reflexivity. Qed.

(** ** Mesh symmetry *)

(** C8, as stated, fails: the constructor accepts a tessellation that
    lists the ridge between two vertices twice and builds both ridges, and
    [add_neighbor] files the second under the entry of the first.  The first
    ridge, stored under key 0, joins the vertices 0 and 1, yet the ridge
    maps of both give the ridge 1: it is not retrievable from either
    side. *)
Lemma twice_listed_ridge_not_retrievable :
  World_init twice_voronoi (0, 1) (0, 1) = Some twice_world
  /\ run_all (fun _ _ => None) [] twice_world = Some twice_world
  /\ Py.dict_get 0 (ridges twice_world) = Some (Ridge.mk 0 0 1 ∅ 0)
  /\ (exists A B,
        vertices twice_world !! 0%nat = Some A /\ vertices twice_world !! 1%nat = Some B
        /\ Vertex.ridges A !! Vertex.name B = Some 1%nat
        /\ Vertex.ridges B !! Vertex.name A = Some 1%nat)
  /\ ~ linked (vertices twice_world) 0 (Ridge.mk 0 0 1 ∅ 0)
  /\ ~ mesh_symmetric twice_world.
Proof.
  assert (Hnot : ~ linked (vertices twice_world) 0 (Ridge.mk 0 0 1 ∅ 0)).
  { intros (A & B & HA & HB & _ & _ & HAB & _). simpl in HA, HB.
    injection HA as <-. injection HB as <-. vm_compute in HAB. discriminate. }
  split; [exact twice_world_init |]. split; [reflexivity |]. split; [reflexivity |].
  split; [eexists _, _; repeat split |]. split; [exact Hnot |].
  intros Hsym. exact (Hnot (Hsym 0%nat _ eq_refl)).
Qed.

(** C8, amended: in a world built from a tessellation that lists the ridge
    between two vertices once (as a planar tessellation does), and after any
    sequence of operations on it, every ridge [r] stored under key [k] links
    its two ends [A] and [B]: [A] is in the neighbor set of [B], [B] is in
    the neighbor set of [A], and the ridge maps of both give [k]:
    [A.ridges[B.name]] is [r] and so is [B.ridges[A.name]]. *)
Theorem mesh_symmetry_invariant (np_percentile : list R -> R -> option R)
    (vor : Voronoi.t) (x_lim y_lim : R * R) (os : list operation) (w w' : World) :
  ridges_listed_once vor ->
  World_init vor x_lim y_lim = Some w ->
  run_all np_percentile os w = Some w' ->
  forall k r, Py.dict_get k (ridges w') = Some r ->
  exists A B,
    vertices w' !! Ridge.end_1 r = Some A /\ vertices w' !! Ridge.end_2 r = Some B
    /\ Ridge.end_2 r ∈ Vertex.neighbors A /\ Ridge.end_1 r ∈ Vertex.neighbors B
    /\ Vertex.ridges A !! Vertex.name B = Some k
    /\ Vertex.ridges B !! Vertex.name A = Some k.
Proof.
  intros Honce Hinit Hrun.
  apply World_init_built in Hinit as (_ & _ & Hsym & _).
  apply run_all_geometry, links_of_geometry in Hrun.
  exact (mesh_symmetric_links _ _ Hrun (Hsym Honce)).
Qed.

Lemma mesh_symmetry_invariant_witness :
  exists A B,
    vertices (set_heights grid_world 1) !! 1%nat = Some A
    /\ vertices (set_heights grid_world 1) !! 4%nat = Some B
    /\ 4%nat ∈ Vertex.neighbors A /\ 1%nat ∈ Vertex.neighbors B
    /\ Vertex.ridges A !! Vertex.name B = Some 5%nat
    /\ Vertex.ridges B !! Vertex.name A = Some 5%nat.
Proof.
  exact (mesh_symmetry_invariant (fun _ _ => None) grid_voronoi (0, 6) (0, 4)
           [SetHeights 1] grid_world (set_heights grid_world 1)
           grid_ridges_listed_once grid_world_init eq_refl
           5%nat (Ridge.mk 5 1 4 {[1; 4]}%nat 0) eq_refl).
Defined.

(** ** Patches *)

Lemma enumerate_elem_of {A} (l : list A) i x :
  (i, x) ∈ Py.enumerate l <-> l !! i = Some x.
Proof.
  rewrite list_elem_of_lookup. split.
  - intros [j Hj]. apply enumerate_lookup in Hj as [<- Hj]. exact Hj.
  - intros H. exists i. apply enumerate_lookup. auto.
Qed.

Lemma built_patches vor w :
  built_from vor w ->
  (forall k region,
      Voronoi.regions vor !! k = Some region -> (-1)%Z ∉ region -> region <> [] ->
      is_Some (Py.dict_get k (patches w)))
  /\ (forall k p,
         Py.dict_get k (patches w) = Some p ->
         exists region,
           Voronoi.regions vor !! k = Some region /\ ((-1)%Z ∉ region) /\ region <> []
           /\ mapM (Py.index (length (Voronoi.vertices vor))) region = Some (Patch.vertices p)
           /\ patch_closed (Vertex.coords <$> vertices w) p).
Proof.
  intros (_ & _ & _ & Hcoords & Hold & Hall). split.
  - intros k region Hk. apply Hall, enumerate_elem_of, Hk.
  - intros k p Hp. destruct (Hold k p Hp) as (_ & region & Hin & Hfin & Hne & Hidx & Hclosed).
    exists region. rewrite Hcoords. apply enumerate_elem_of in Hin. auto.
Qed.

(** C9, as stated, fails: a region of two vertices that does not reach
    infinity is built into a patch of two vertices, and the constructor
    returns the mesh. *)
Lemma degenerate_region_materialized :
  Voronoi.regions degenerate_voronoi !! 0%nat = Some [0; 1]%Z
  /\ World_init degenerate_voronoi (0, 1) (0, 1) = Some degenerate_world
  /\ exists p, Py.dict_get 0 (patches degenerate_world) = Some p
               /\ length (Patch.vertices p) = 2%nat.
Proof.
  split; [reflexivity |]. split; [exact degenerate_world_init |].
  eexists. split; reflexivity.
Qed.

(** C9, amended: the constructor does not look at the number of vertices of
    a region.  When it returns a world, every region that is not empty and
    does not contain the sentinel -1 has become a patch, whatever its
    length; every patch comes from such a region, is bounded by the vertices
    the region names, has at least one bounding vertex, and has the
    coordinate-wise mean of its bounding vertices as centroid. *)
Theorem patches_materialized (vor : Voronoi.t) (x_lim y_lim : R * R) (w : World) :
  World_init vor x_lim y_lim = Some w ->
  (forall k region,
      Voronoi.regions vor !! k = Some region -> (-1)%Z ∉ region -> region <> [] ->
      is_Some (Py.dict_get k (patches w)))
  /\ (forall k p,
         Py.dict_get k (patches w) = Some p ->
         exists region,
           Voronoi.regions vor !! k = Some region /\ ((-1)%Z ∉ region) /\ region <> []
           /\ mapM (Py.index (length (Voronoi.vertices vor))) region = Some (Patch.vertices p)
           /\ (1 <= length (Patch.vertices p))%nat
           /\ exists cs,
                mapM (fun i => (Vertex.coords <$> vertices w) !! i) (Patch.vertices p) = Some cs
                /\ Patch.centroid p = mean cs).
Proof.
  intros Hinit. apply World_init_built, built_patches in Hinit. exact Hinit.
Qed.

Lemma patches_materialized_witness :
  exists region,
    Voronoi.regions grid_voronoi !! 4%nat = Some region /\ ((-1)%Z ∉ region) /\ region <> []
    /\ mapM (Py.index (length (Voronoi.vertices grid_voronoi))) region = Some [1; 2; 5; 4]%nat
    /\ (1 <= length [1; 2; 5; 4]%nat)%nat
    /\ exists cs,
         mapM (fun i => (Vertex.coords <$> vertices grid_world) !! i) [1; 2; 5; 4]%nat = Some cs
         /\ mean [(3, 1); (5, 1); (5, 3); (3, 3)] = mean cs.
Proof.
  exact (proj2 (patches_materialized grid_voronoi (0, 6) (0, 4) grid_world grid_world_init)
           4%nat
           (Patch.mk 4 [1; 2; 5; 4]%nat [(5, 1)]%nat
                     (mean [(3, 1); (5, 1); (5, 3); (3, 3)]) None None)
           eq_refl).
Defined.

(** ** Normalization *)

Lemma normalize_heights_Some w lo hi :
  Py.min_list (Vertex.height <$> vertices w) = Some lo ->
  Py.max_list (Vertex.height <$> vertices w) = Some hi ->
  lo <> hi ->
  normalize_heights w
  = Some (set_vertices
            ((fun v => Vertex.set_height ((Vertex.height v - lo) / (hi - lo)) v) <$> vertices w)
            w).
Proof.
  intros Hlo Hhi Hne. unfold normalize_heights. rewrite Hlo, Hhi. simpl.
  assert (Hm : mapM (fun v => h ← Py.truediv (Vertex.height v - lo) (hi - lo);
                              Some (Vertex.set_height h v)) (vertices w)
               = Some ((fun v => Vertex.set_height ((Vertex.height v - lo) / (hi - lo)) v)
                         <$> vertices w)).
  { apply mapM_Some_2. apply Forall2_fmap_r, Forall_Forall2_diag, Forall_forall.
    intros v _. rewrite PyFacts.truediv_Some by lra. reflexivity. }
  rewrite Hm. reflexivity.
Qed.

Lemma normalize_heights_flat w :
  (forall h1 h2, h1 ∈ Vertex.height <$> vertices w -> h2 ∈ Vertex.height <$> vertices w ->
                 h1 = h2) ->
  normalize_heights w = None.
Proof.
  intros Hflat. unfold normalize_heights.
  destruct (Py.min_list _) as [lo |] eqn:Hlo; [| reflexivity]. simpl.
  destruct (Py.max_list _) as [hi |] eqn:Hhi; [| reflexivity]. simpl.
  apply PyFacts.min_list_spec in Hlo as [Hlo _].
  apply PyFacts.max_list_spec in Hhi as [Hhi _].
  assert (lo = hi) as -> by (apply Hflat; assumption).
  destruct (vertices w) as [| v vs]; [inversion Hlo |].
  simpl. rewrite PyFacts.truediv_None by lra. reflexivity.
Qed.

Lemma set_heights_height w h x :
  x ∈ Vertex.height <$> vertices (set_heights w h) -> x = h.
Proof.
  unfold set_heights, set_vertices. cbn [vertices]. rewrite <- list_fmap_compose.
  intros Hx. apply list_elem_of_fmap in Hx as (v & -> & _). reflexivity.
Qed.

(** C6, as stated, fails: when all heights are equal the division by zero
    is performed and the operation has no result; in particular it does not
    return the all-zero heights. *)
Lemma normalize_flat_divides_by_zero :
  normalize_heights (set_heights grid_world 1) = None.
Proof.
  apply normalize_heights_flat. intros h1 h2 H1 H2.
  apply set_heights_height in H1, H2. congruence.
Qed.

(** C6, amended: when the vertex heights are not all equal (minimum [lo]
    below maximum [hi]), [normalize_heights] replaces every height [h] by
    [(h - lo) / (hi - lo)], which lies between 0 and 1, is 0 at the minimum
    and 1 at the maximum, and changes nothing else.  When all heights are
    equal, or there is no vertex, nothing guards the division by zero: the
    operation has no result. *)
Theorem normalize_heights_affine (w : World) :
  (forall lo hi,
      lo ∈ Vertex.height <$> vertices w ->
      hi ∈ Vertex.height <$> vertices w ->
      (forall h, h ∈ Vertex.height <$> vertices w -> lo <= h <= hi) ->
      lo < hi ->
      exists w',
        normalize_heights w = Some w'
        /\ geometry w' = geometry w
        /\ length (vertices w') = length (vertices w)
        /\ forall i v, vertices w !! i = Some v ->
             exists v', vertices w' !! i = Some v'
               /\ Vertex.height v' = (Vertex.height v - lo) / (hi - lo)
               /\ 0 <= Vertex.height v' <= 1
               /\ (Vertex.height v = lo -> Vertex.height v' = 0)
               /\ (Vertex.height v = hi -> Vertex.height v' = 1)
               /\ Vertex.flux v' = Vertex.flux v)
  /\ ((forall h1 h2, h1 ∈ Vertex.height <$> vertices w ->
                     h2 ∈ Vertex.height <$> vertices w -> h1 = h2) ->
      normalize_heights w = None).
Proof.
  split; [| apply normalize_heights_flat].
  intros lo hi Hlo Hhi Hbounds Hlt.
  destruct (Py.min_list (Vertex.height <$> vertices w)) as [lo' |] eqn:Hmin.
  2: { apply PyFacts.min_by_None in Hmin. rewrite Hmin in Hlo. inversion Hlo. }
  destruct (Py.max_list (Vertex.height <$> vertices w)) as [hi' |] eqn:Hmax.
  2: { destruct (Vertex.height <$> vertices w); [inversion Hlo | discriminate]. }
  pose proof (PyFacts.min_list_spec _ _ Hmin) as [Hin1 Hle1].
  pose proof (PyFacts.max_list_spec _ _ Hmax) as [Hin2 Hle2].
  assert (lo' = lo) as ->.
  { specialize (Hle1 lo Hlo). specialize (Hbounds lo' Hin1). lra. }
  assert (hi' = hi) as ->.
  { specialize (Hle2 hi Hhi). specialize (Hbounds hi' Hin2). lra. }
  eexists. split; [apply normalize_heights_Some; [exact Hmin | exact Hmax | lra] |].
  split; [| split].
  - apply geometry_set_vertices. rewrite <- list_fmap_compose. reflexivity.
  - simpl. apply length_fmap.
  - intros i v Hv. eexists. split; [simpl; rewrite list_lookup_fmap, Hv; reflexivity |].
    simpl. assert (Hh : lo <= Vertex.height v <= hi).
    { apply Hbounds, list_elem_of_fmap. exists v. split; [reflexivity |].
      eapply list_elem_of_lookup_2, Hv. }
    assert (Hpos : 0 < hi - lo) by lra.
    split; [reflexivity |]. split.
    + split.
      * apply Rmult_le_pos; [lra | apply Rlt_le, Rinv_0_lt_compat, Hpos].
      * apply (Rmult_le_reg_r (hi - lo)); [exact Hpos |]. field_simplify; lra.
    + split; [intros ->; field; lra |]. split; [intros ->; field; lra | reflexivity].
Qed.

Lemma normalize_heights_affine_witness :
  (exists w',
      normalize_heights sloped_world = Some w'
      /\ geometry w' = geometry sloped_world
      /\ length (vertices w') = length (vertices sloped_world)
      /\ forall i v, vertices sloped_world !! i = Some v ->
           exists v', vertices w' !! i = Some v'
             /\ Vertex.height v' = (Vertex.height v - 0.1) / (0.5 - 0.1)
             /\ 0 <= Vertex.height v' <= 1
             /\ (Vertex.height v = 0.1 -> Vertex.height v' = 0)
             /\ (Vertex.height v = 0.5 -> Vertex.height v' = 1)
             /\ Vertex.flux v' = Vertex.flux v)
  /\ normalize_heights (set_heights grid_world 1) = None.
Proof.
  split.
  - apply (proj1 (normalize_heights_affine sloped_world) 0.1 0.5).
    + simpl. left.
    + simpl. do 2 right. left.
    + intros h Hh. simpl in Hh.
      repeat (apply elem_of_cons in Hh as [-> | Hh]; [lra |]). inversion Hh.
    + lra.
  - apply (proj2 (normalize_heights_affine (set_heights grid_world 1))).
    intros h1 h2 H1 H2. apply set_heights_height in H1, H2. congruence.
Defined.

(** ** Erosion *)

Lemma erosion_total_le max_total flux slope :
  erosion_total max_total flux slope <= max_total.
Proof. apply Rmin_r. Qed.

Lemma erosion_total_nonneg max_total flux slope :
  0 <= max_total -> 0 <= slope -> 0 <= erosion_total max_total flux slope.
Proof.
  intros Hm Hs. unfold erosion_total. apply Rmin_glb; [| exact Hm].
  pose proof (sqrt_pos flux) as Hq.
  assert (0 <= 1000 * sqrt flux * slope) by (apply Rmult_le_pos; [lra | exact Hs]).
  assert (0 <= slope ^ 2) by (simpl; nra). lra.
Qed.

(** The code erodes a ready ridge the way the specification says. *)
Lemma erode_ridge_erodes max_total rk w ridge :
  Py.dict_get rk (ridges w) = Some ridge ->
  ridge_ready (Vertex.coords <$> vertices w) ridge ->
  exists w', erode_ridge max_total rk w = Some w' /\ erodes max_total w rk w'.
Proof.
  intros Hget (c1 & c2 & H1 & H2 & Hapart & Hflux).
  rewrite list_lookup_fmap in H1, H2.
  destruct (vertices w !! Ridge.end_1 ridge) as [v1 |] eqn:Hv1; [| discriminate].
  destruct (vertices w !! Ridge.end_2 ridge) as [v2 |] eqn:Hv2; [| discriminate].
  simpl in H1, H2. injection H1 as <-. injection H2 as <-.
  unfold erode_ridge. rewrite Hget. simpl.
  destruct (decide (Ridge.flux ridge = 0)) as [Hdry | Hwet].
  { exists w. split; [reflexivity |]. eapply erodes_dry; eauto. }
  assert (Hlen : Vertex.dist v1 (Vertex.coords v2) <> 0).
  { rewrite ridge_length_zero_iff. exact Hapart. }
  rewrite PyFacts.np_sqrt_Some by exact Hflux. simpl.
  destruct (slope_divides_length _ _ _ _ Hv1 Hv2) as [_ Hslope].
  rewrite (Hslope Hlen). simpl. rewrite Hv1, Hv2. simpl.
  set (s := Rabs (Vertex.height v1 - Vertex.height v2) / Vertex.dist v1 (Vertex.coords v2)).
  assert (Htotal : Py.min2 (1000 * (sqrt (Ridge.flux ridge) * s) + s * (s * 1)) max_total
                   = erosion_total max_total (Ridge.flux ridge) s).
  { rewrite PyFacts.min2_Rmin. unfold erosion_total. f_equal. simpl. ring. }
  rewrite Htotal.
  pose proof (erodes_wet max_total w rk ridge v1 v2 s Hget ltac:(lra) Hv1 Hv2 Hlen eq_refl)
    as Hspec.
  unfold lower_end in Hspec.
  destruct (decide (Vertex.height v2 < Vertex.height v1)); eexists; split;
    try reflexivity; exact Hspec.
Qed.

Lemma lower_end_lookup w ridge v1 v2 :
  vertices w !! Ridge.end_1 ridge = Some v1 ->
  vertices w !! Ridge.end_2 ridge = Some v2 ->
  vertices w !! (lower_end ridge v1 v2).1 = Some (lower_end ridge v1 v2).2.
Proof. intros H1 H2. unfold lower_end. destruct (decide _); assumption. Qed.

Lemma erodes_frame max_total t rk t' :
  erodes max_total t rk t' ->
  ridges t' = ridges t
  /\ Vertex.coords <$> vertices t' = Vertex.coords <$> vertices t
  /\ Vertex.flux <$> vertices t' = Vertex.flux <$> vertices t.
Proof.
  intros [ridge _ _ | ridge v1 v2 slope _ _ H1 H2 _ _]; [auto |].
  pose proof (lower_end_lookup _ _ _ _ H1 H2) as Hlow. simpl.
  split; [reflexivity |]. split; eapply list_insert_fmap_id; eauto.
Qed.

Lemma erodes_loss max_total t rk t' :
  0 <= max_total ->
  erodes max_total t rk t' ->
  forall i v, vertices t !! i = Some v ->
    exists v', vertices t' !! i = Some v'
      /\ 0 <= Vertex.height v - Vertex.height v' <= 0.1 * max_total / 500.
Proof.
  intros Hcap [ridge _ _ | ridge v1 v2 slope _ _ H1 H2 Hlen ->] i v Hv.
  { exists v. split; [exact Hv | lra]. }
  pose proof (lower_end_lookup _ _ _ _ H1 H2) as Hlow. simpl.
  set (slope := Rabs (Vertex.height v1 - Vertex.height v2) / Vertex.dist v1 (Vertex.coords v2)).
  assert (Hslope : 0 <= slope).
  { apply Rmult_le_pos; [apply Rabs_pos |]. apply Rlt_le, Rinv_0_lt_compat.
    pose proof (PyFacts.norm_nonneg (Py.sub2 (Vertex.coords v1) (Vertex.coords v2))) as Hn.
    unfold Vertex.dist in Hlen |- *. lra. }
  pose proof (erosion_total_le max_total (Ridge.flux ridge) slope) as Hle.
  pose proof (erosion_total_nonneg max_total (Ridge.flux ridge) slope Hcap Hslope) as Hge.
  destruct (decide ((lower_end ridge v1 v2).1 = i)) as [<- | Hne].
  - rewrite Hlow in Hv. injection Hv as <-. eexists. split.
    + apply list_lookup_insert_eq. eapply lookup_lt_Some, Hlow.
    + simpl. lra.
  - exists v. rewrite list_lookup_insert_ne by exact Hne. split; [exact Hv | lra].
Qed.

Lemma erosion_pass_run max_total rks :
  forall t,
    (forall rk, rk ∈ rks ->
       exists ridge, Py.dict_get rk (ridges t) = Some ridge
                     /\ ridge_ready (Vertex.coords <$> vertices t) ridge) ->
    exists t', Py.for_each (erode_ridge max_total) rks t = Some t'
               /\ erosion_pass max_total rks t t'.
Proof.
  induction rks as [| rk rks IH]; intros t Hready; simpl.
  - exists t. split; [reflexivity | constructor].
  - destruct (Hready rk ltac:(left)) as (ridge & Hget & Hr).
    destruct (erode_ridge_erodes max_total rk t ridge Hget Hr) as (t1 & -> & Hstep). simpl.
    destruct (erodes_frame _ _ _ _ Hstep) as (Hridges & Hcoords & _).
    destruct (IH t1) as (t' & Hrun & Hpass).
    { intros rk' Hin. rewrite Hridges, Hcoords. apply Hready. right. exact Hin. }
    exists t'. split; [exact Hrun | econstructor; eauto].
Qed.

Lemma erosion_pass_loss max_total rks t t' :
  0 <= max_total ->
  erosion_pass max_total rks t t' ->
  forall i v, vertices t !! i = Some v ->
    exists v', vertices t' !! i = Some v' /\ Vertex.height v' <= Vertex.height v.
Proof.
  intros Hcap Hpass. induction Hpass as [t | rk rks t t1 t2 Hstep _ IH]; intros i v Hv.
  - exists v. split; [exact Hv | lra].
  - destruct (erodes_loss _ _ _ _ Hcap Hstep i v Hv) as (v1 & Hv1 & Hloss).
    destruct (IH i v1 Hv1) as (v2 & Hv2 & Hle). exists v2. split; [exact Hv2 | lra].
Qed.

Lemma ridge_ready_keys t :
  Forall (fun kr => ridge_ready (Vertex.coords <$> vertices t) kr.2) (ridges t) ->
  forall rk, rk ∈ (ridges t).*1 ->
    exists ridge, Py.dict_get rk (ridges t) = Some ridge
                  /\ ridge_ready (Vertex.coords <$> vertices t) ridge.
Proof.
  intros Hall rk Hin. apply dict_get_is_Some in Hin as [ridge Hget].
  exists ridge. split; [exact Hget |].
  apply dict_get_elem_of in Hget. rewrite Forall_forall in Hall. apply (Hall _ Hget).
Qed.

(** The state the kite mesh is in after [add_slope(slope=(1, 0))] and
    [make_rivers()]: the higher vertex 1 has sent its half of the rain to
    vertex 0 along ridge 0. *)
Lemma river_world_ready :
  Forall (fun kr => ridge_ready (Vertex.coords <$> vertices river_world) kr.2)
         (ridges river_world).
Proof.
  repeat constructor. exists (1.25, 0), (2.75, 0). simpl.
  repeat split; try reflexivity; [intros [= H]; lra | lra].
Qed.


(** ** Flow accumulation *)

(** *** The visiting order *)

Section SortedDesc.

Context {A : Type} (key : nat * A -> R).

Let before (a b : nat * A) : Prop :=
  key b < key a \/ (key a = key b /\ (a.1 < b.1)%nat).

Lemma insert_desc_perm x l : Py.insert_desc key x l ≡ₚ x :: l.
Proof.
  induction l as [| y l IH]; simpl; [reflexivity |].
  destruct (decide (key x < key y)); [| reflexivity].
  rewrite IH. apply Permutation_swap.
Qed.

Lemma sorted_desc_perm l : Py.sorted_desc key l ≡ₚ l.
Proof.
  induction l as [| x l IH]; simpl; [reflexivity |].
  rewrite insert_desc_perm, IH. reflexivity.
Qed.

Lemma insert_desc_sorted x l :
  StronglySorted before l ->
  Forall (fun y => (x.1 < y.1)%nat) l ->
  StronglySorted before (Py.insert_desc key x l).
Proof.
  intros Hsorted Hidx. induction Hsorted as [| y l Hl IH Hy]; simpl.
  - repeat constructor.
  - apply Forall_cons in Hidx as [Hxy Hidx].
    destruct (decide (key x < key y)) as [Hlt | Hge].
    + constructor; [apply IH, Hidx |].
      rewrite insert_desc_perm. constructor; [unfold before; left; exact Hlt | exact Hy].
    + constructor; [constructor; assumption |].
      constructor.
      * unfold before.
        destruct (Rtotal_order (key y) (key x)) as [? | [? | ?]];
          [left; assumption | right; split; [lra | exact Hxy] | lra].
      * rewrite Forall_forall in Hy, Hidx |- *. intros z Hz.
        specialize (Hy z Hz). specialize (Hidx z Hz). unfold before in *.
        destruct (Rtotal_order (key z) (key x)) as [? | [? | ?]];
          [left; assumption | right; split; [lra | exact Hidx] | lra].
Qed.

Lemma sorted_desc_sorted l :
  StronglySorted (fun a b : nat * A => (a.1 < b.1)%nat) l ->
  StronglySorted before (Py.sorted_desc key l).
Proof.
  induction 1 as [| x l Hl IH Hx]; simpl; [constructor |].
  apply insert_desc_sorted; [exact IH |].
  rewrite sorted_desc_perm. exact Hx.
Qed.

End SortedDesc.

Lemma enumerate_sorted {A} (l : list A) :
  StronglySorted (fun a b : nat * A => (a.1 < b.1)%nat) (Py.enumerate l).
Proof.
  unfold Py.enumerate.
  enough (H : forall k, StronglySorted (fun a b : nat * A => (a.1 < b.1)%nat)
                          (imap (fun i x => ((k + i)%nat, x)) l)
                        /\ Forall (fun a : nat * A => (k <= a.1)%nat)
                                  (imap (fun i x => ((k + i)%nat, x)) l)).
  { exact (proj1 (H 0%nat)). }
  induction l as [| x l IH]; intros k; simpl; [split; constructor |].
  destruct (IH (S k)) as [Hs Hf].
  assert (Heq : imap ((fun i x0 => ((k + i)%nat, x0)) ∘ S) l
                = imap (fun i x0 => ((S k + i)%nat, x0)) l).
  { apply imap_ext. intros i y _. simpl. f_equal. lia. }
  rewrite Heq. split.
  - constructor; [exact Hs |]. eapply Forall_impl; [exact Hf |]. simpl. intros; lia.
  - constructor; [simpl; lia |]. eapply Forall_impl; [exact Hf |]. simpl. intros; lia.
Qed.

Lemma vertices_by_height_order w :
  river_order w (vertices_by_height w).*1.
Proof.
  exists (vertices_by_height w). split; [apply sorted_desc_perm |]. split; [reflexivity |].
  unfold vertices_by_height.
  pose proof (sorted_desc_sorted (fun iv : nat * Vertex.t => Vertex.height iv.2)
                (Py.enumerate (vertices w)) (enumerate_sorted _)) as H.
  exact H.
Qed.

(** *** The reset *)

Lemma reset_rivers_eq w :
  reset_rivers w
  = Some (set_ridges ((fun kr => (kr.1, Ridge.set_flux 0 kr.2)) <$> ridges w)
            (set_vertices (Vertex.set_flux (1 / INR (length (vertices w))) <$> vertices w) w)).
Proof.
  unfold reset_rivers.
  assert (Hm : mapM (fun v => f ← Py.truediv 1 (INR (length (vertices w)));
                              Some (Vertex.set_flux f v)) (vertices w)
               = Some (Vertex.set_flux (1 / INR (length (vertices w))) <$> vertices w)).
  { apply mapM_Some_2. apply Forall2_fmap_r, Forall_Forall2_diag, Forall_forall.
    intros v Hv. rewrite PyFacts.truediv_Some; [reflexivity |].
    apply not_0_INR. destruct (vertices w); [inversion Hv | discriminate]. }
  rewrite Hm. reflexivity.
Qed.

Lemma reset_rivers_reset w w0 : reset_rivers w = Some w0 -> rivers_reset w w0.
Proof.
  intros H. pose proof (reset_rivers_geometry _ _ H) as Hg.
  rewrite reset_rivers_eq in H. injection H as <-.
  split; [exact Hg |]. simpl. split; [| split].
  - rewrite <- list_fmap_compose. reflexivity.
  - apply Forall_fmap, Forall_forall. intros v _. reflexivity.
  - apply Forall_fmap, Forall_forall. intros kr _. reflexivity.
Qed.

(** *** One visit *)

Lemma route_flux_routes t i v :
  mesh_ok t ->
  vertices t !! i = Some v ->
  (_check_coord t (Vertex.coords v) -> Vertex.neighbors v <> ∅) ->
  exists t', route_flux i t = Some t' /\ routes t i t'.
Proof.
  intros [Hnames Hsound] Hv Hnbrs. unfold route_flux. rewrite Hv. simpl.
  destruct (decide (_check_coord t (Vertex.coords v))) as [Hin | Hout].
  2: { exists t. split; [reflexivity | eapply routes_outside; eauto]. }
  specialize (Hnbrs Hin).
  assert (Hrange : forall n, n ∈ Vertex.neighbors v ->
            exists rk ridge, (n < length (vertices t))%nat
              /\ Vertex.ridges v !! n = Some rk
              /\ Py.dict_get rk (ridges t) = Some ridge /\ joins ridge i n).
  { intros n Hn. destruct (Hsound i v n Hv) as [Hiff Hmap].
    apply Hiff in Hn as [rk Hrk]. destruct (Hmap rk Hrk) as (Hlt & ridge & Hget & Hj).
    exists rk, ridge. auto. }
  destruct (deref_is_Some (vertices t) (elements (Vertex.neighbors v))) as [ns Hns].
  { intros n Hn. apply elem_of_elements in Hn.
    destruct (Hrange n Hn) as (_ & _ & Hlt & _). exact Hlt. }
  rewrite Hns. simpl. apply deref_spec in Hns as [Hkeys Hlook].
  assert (Hne : ns <> []).
  { intros ->. simpl in Hkeys. symmetry in Hkeys.
    apply elements_empty_inv in Hkeys. apply Hnbrs. apply leibniz_equiv. exact Hkeys. }
  destruct (PyFacts.min_by_is_Some (fun nv : nat * Vertex.t => Vertex.height nv.2) ns Hne)
    as [[lowest lv] Hmin].
  rewrite Hmin. simpl. apply PyFacts.min_by_spec in Hmin as [Hmem Hleast].
  assert (Hlowest : lowest_neighbor t v lowest lv).
  { split; [| split].
    - apply elem_of_elements. rewrite <- Hkeys.
      apply list_elem_of_fmap. exists (lowest, lv). auto.
    - apply Hlook, Hmem.
    - intros n nv Hn Hnv. apply elem_of_elements in Hn. rewrite <- Hkeys in Hn.
      apply list_elem_of_fmap in Hn as ([n' nv'] & -> & Hin').
      pose proof (Hlook _ _ Hin') as Hnv'. simpl in Hnv. rewrite Hnv in Hnv'.
      injection Hnv' as <-. apply (Hleast _ Hin'). }
  destruct (decide (Vertex.height lv < Vertex.height v)) as [Hlow | Hlevel].
  2: { exists t. split; [reflexivity | eapply routes_level; eauto]. }
  destruct Hlowest as (Hnb & Hlv & Hleast').
  destruct (Hrange lowest Hnb) as (rk & ridge & _ & Hrk & Hget & Hj).
  rewrite (Hnames _ _ Hlv), Hrk. simpl. rewrite Hget. simpl.
  eexists. split; [reflexivity |].
  eapply routes_down; eauto; [split; auto | rewrite (Hnames _ _ Hlv); exact Hrk].
Qed.

Lemma routes_geometry t i t' : routes t i t' -> geometry t' = geometry t.
Proof.
  intros [v _ _ | v lowest lv _ _ _ _ | v lowest lv rk ridge _ _ (_ & Hlv & _) _ _ Hget _];
    [reflexivity | reflexivity |].
  apply geometry_intro; simpl; try reflexivity.
  - eapply list_insert_fmap_id; [exact Hlv | reflexivity].
  - eapply dict_set_fmap_id; [exact Hget | reflexivity].
Qed.

Lemma visitable_geometry w w' : geometry w' = geometry w -> visitable w -> visitable w'.
Proof.
  intros Hg [Hok Hnb]. split; [eapply mesh_ok_links; [apply links_of_geometry |]; eauto |].
  unfold geometry in Hg. injection Hg as Hv _ _ _ Hx Hy.
  intros i v' Hv' Hin.
  destruct (fmap_eq_lookup _ _ _ _ _ Hv Hv') as (v & Hv0 & [= _ Hc Hn _ _]).
  rewrite <- Hn. apply (Hnb i v Hv0). unfold _check_coord in *. rewrite Hc, <- Hx, <- Hy.
  exact Hin.
Qed.

Lemma river_pass_run order :
  forall t,
    visitable t ->
    (forall i, i ∈ order -> (i < length (vertices t))%nat) ->
    exists t', Py.for_each route_flux order t = Some t' /\ river_pass order t t'.
Proof.
  induction order as [| i order IH]; intros t Hvis Hrange; simpl.
  - exists t. split; [reflexivity | constructor].
  - destruct (lookup_lt_is_Some_2 (vertices t) i (Hrange i ltac:(left))) as [v Hv].
    destruct Hvis as [Hok Hnb].
    destruct (route_flux_routes t i v Hok Hv (Hnb i v Hv)) as (t1 & -> & Hstep). simpl.
    pose proof (routes_geometry _ _ _ Hstep) as Hg.
    destruct (IH t1) as (t' & Hrun & Hpass).
    + eapply visitable_geometry; [exact Hg | split; assumption].
    + intros j Hj. unfold geometry in Hg. injection Hg as Hvs _.
      rewrite (fmap_eq_length _ _ _ Hvs). apply Hrange. right. exact Hj.
    + exists t'. split; [exact Hrun | econstructor; eauto].
Qed.

Lemma river_order_range w order i :
  river_order w order -> i ∈ order -> (i < length (vertices w))%nat.
Proof.
  intros (entries & Hperm & -> & _) Hi.
  apply list_elem_of_fmap in Hi as ([j v] & -> & Hin). rewrite Hperm in Hin.
  apply enumerate_elem_of in Hin. simpl. eapply lookup_lt_Some, Hin.
Qed.


(** ** Land patches *)

(** *** What the operations leave alone *)

Section Frame.

Context {X : Type} (part : World -> X).
Hypothesis part_vertices : forall vs w, part (set_vertices vs w) = part w.
Hypothesis part_ridges : forall rs w, part (set_ridges rs w) = part w.
Hypothesis part_patches : forall ps w, part (set_patches ps w) = part w.

Lemma for_each_frame {A} (body : A -> World -> option World) items w w' :
  (forall x t t', body x t = Some t' -> part t' = part t) ->
  Py.for_each body items w = Some w' -> part w' = part w.
Proof using Type.
  intros Hbody. apply (PyFacts.for_each_inv (fun t => part t = part w)); [| reflexivity].
  intros x t t' _ Ht Hx. rewrite <- Ht. eapply Hbody, Hx.
Qed.

Lemma normalize_heights_frame w w' : normalize_heights w = Some w' -> part w' = part w.
Proof using part_vertices.
  unfold normalize_heights.
  destruct (Py.min_list _); [| discriminate]. simpl.
  destruct (Py.max_list _); [| discriminate]. simpl.
  destruct (mapM _ (vertices w)); [| discriminate]. simpl.
  intros [= <-]. apply part_vertices.
Qed.

Lemma add_slope_frame w rnd magnitude slope normalize w' :
  add_slope w rnd magnitude slope normalize = Some w' -> part w' = part w.
Proof using part_vertices.
  unfold add_slope.
  destruct (match slope with Some s => Some s | None => _ end) as [s |]; [| discriminate].
  simpl. destruct normalize.
  - intros H. apply normalize_heights_frame in H. rewrite H. apply part_vertices.
  - intros [= <-]. apply part_vertices.
Qed.

Lemma add_hill_frame w rnd hill r normalize w' :
  add_hill w rnd hill r normalize = Some w' -> part w' = part w.
Proof using part_vertices.
  unfold add_hill. destruct (mapM _ (vertices w)); [| discriminate]. simpl.
  destruct normalize.
  - intros H. apply normalize_heights_frame in H. rewrite H. apply part_vertices.
  - intros [= <-]. apply part_vertices.
Qed.

Lemma reset_rivers_frame w w' : reset_rivers w = Some w' -> part w' = part w.
Proof using part_vertices part_ridges.
  rewrite reset_rivers_eq. intros [= <-]. rewrite part_ridges. apply part_vertices.
Qed.

Lemma route_flux_frame i w w' : route_flux i w = Some w' -> part w' = part w.
Proof using part_vertices part_ridges.
  unfold route_flux.
  destruct (vertices w !! i) as [v |]; [| discriminate]. simpl.
  destruct (decide _); [| intros [= <-]; reflexivity].
  destruct (deref _ _) as [ns |]; [| discriminate]. simpl.
  destruct (Py.min_by _ ns) as [[lowest lv] |]; [| discriminate]. simpl.
  destruct (decide _); [| intros [= <-]; reflexivity].
  destruct (Vertex.ridges v !! Vertex.name lv) as [rk |]; [| discriminate]. simpl.
  destruct (Py.dict_get rk (ridges w)) as [ridge |]; [| discriminate]. simpl.
  intros [= <-]. rewrite part_ridges. apply part_vertices.
Qed.

Lemma make_rivers_frame w w' : make_rivers w = Some w' -> part w' = part w.
Proof using part_vertices part_ridges.
  unfold make_rivers. destruct (reset_rivers w) as [w1 |] eqn:H1; [| discriminate]. simpl.
  intros H. apply for_each_frame in H; [| apply route_flux_frame].
  apply reset_rivers_frame in H1. congruence.
Qed.

Lemma erode_ridge_frame max_total rk w w' :
  erode_ridge max_total rk w = Some w' -> part w' = part w.
Proof using part_vertices.
  unfold erode_ridge.
  destruct (Py.dict_get rk (ridges w)) as [ridge |]; [| discriminate]. simpl.
  destruct (decide _); [intros [= <-]; reflexivity |].
  destruct (Py.np_sqrt _) as [sq |]; [| discriminate]. simpl.
  destruct (Ridge.slope _ _) as [s |]; [| discriminate]. simpl.
  destruct (vertices w !! Ridge.end_1 ridge) as [v1 |]; [| discriminate]. simpl.
  destruct (vertices w !! Ridge.end_2 ridge) as [v2 |]; [| discriminate].
  unfold Py.min_by. simpl. destruct (decide _); intros [= <-]; apply part_vertices.
Qed.

Lemma clean_vertex_frame epsilon i w w' :
  clean_vertex epsilon i w = Some w' -> part w' = part w.
Proof using part_vertices.
  unfold clean_vertex.
  destruct (vertices w !! i) as [v |]; [| discriminate]. simpl.
  destruct (deref _ _) as [ns |]; [| discriminate]. simpl.
  repeat destruct (decide _); intros [= <-]; try reflexivity; apply part_vertices.
Qed.

Lemma read_height_frame k w h w' : read_height k w = Some (h, w') -> part w' = part w.
Proof using part_patches.
  unfold read_height.
  destruct (Py.dict_get k (patches w)) as [p |]; [| discriminate]. simpl.
  destruct (Patch.height _ p) as [[h' p'] |]; [| discriminate]. simpl.
  intros [= _ <-]. apply part_patches.
Qed.

Lemma network_neighbor_frame pk rq g w g' w' :
  network_neighbor pk rq (g, w) = Some (g', w') -> part w' = part w.
Proof using part_patches.
  unfold network_neighbor.
  destruct (read_height rq.2 w) as [[hq w1] |] eqn:H1; [| discriminate]. simpl.
  apply read_height_frame in H1.
  destruct (decide _); [intros [= _ <-]; exact H1 |].
  destruct (Py.dict_get pk _); [| discriminate]. simpl.
  destruct (Py.dict_get rq.2 _); [| discriminate]. simpl.
  destruct (read_height rq.2 w1) as [[hq' w2] |] eqn:H2; [| discriminate]. simpl.
  destruct (read_height pk w2) as [[hp w3] |] eqn:H3; [| discriminate]. simpl.
  apply read_height_frame in H2, H3. intros [= _ <-]. congruence.
Qed.

Lemma network_loop_frame lp g w g' w' :
  Py.for_each network_patch lp (g, w) = Some (g', w') -> part w' = part w.
Proof using part_patches.
  apply (PyFacts.for_each_inv (fun st : DiGraph.t * World => part st.2 = part w)
           network_patch lp (g, w) (g', w')); [| reflexivity].
  intros pk [g1 t] [g2 t'] _ Ht. simpl in Ht. rewrite <- Ht. clear Ht.
  unfold network_patch. simpl.
  destruct (Py.dict_get pk (patches t)) as [patch |]; [| discriminate]. simpl.
  apply (PyFacts.for_each_inv (fun st : DiGraph.t * World => part st.2 = part t)
           (network_neighbor pk) (Patch.neighbors patch) (g1, t) (g2, t')); [| reflexivity].
  intros rq [g3 u] [g4 u'] _ Hu Hx. simpl in *. rewrite <- Hu.
  eapply network_neighbor_frame, Hx.
Qed.

End Frame.

(** *** The cache *)

Lemma run_keeps_land_patches np_percentile o w w' :
  _land_patches w <> [] ->
  run np_percentile o w = Some w' ->
  _land_patches w' = _land_patches w.
Proof.
  intros Hcached. destruct o; simpl.
  - intros [= <-]. reflexivity.
  - apply (normalize_heights_frame _land_patches); reflexivity.
  - apply (add_slope_frame _land_patches); reflexivity.
  - apply (add_hill_frame _land_patches); reflexivity.
  - apply (make_rivers_frame _land_patches); reflexivity.
  - apply (for_each_frame _land_patches). intros rk t t'.
    apply (erode_ridge_frame _land_patches); reflexivity.
  - unfold set_sea_level. destruct (decide _); [intros [= <-]; reflexivity |].
    destruct (np_percentile _ _); [| discriminate]. simpl. intros [= <-]. reflexivity.
  - unfold land_patches. rewrite decide_False; [intros [= <-]; reflexivity |].
    destruct (_land_patches w); [congruence | discriminate].
  - apply (for_each_frame _land_patches). intros i t t'.
    apply (clean_vertex_frame _land_patches); reflexivity.
  - apply (reset_rivers_frame _land_patches); reflexivity.
  - unfold patch_network. destruct (_patch_network w); [intros [= <-]; reflexivity |].
    unfold land_patches. rewrite decide_False
      by (destruct (_land_patches w); [congruence | discriminate]).
    simpl. destruct (Py.for_each _ _ _) as [[g t] |] eqn:Hloop; [| discriminate]. simpl.
    intros [= <-]. simpl.
    apply (network_loop_frame _land_patches) in Hloop; [exact Hloop | reflexivity].
Qed.

Lemma land_patches_cached w :
  _land_patches w <> [] -> land_patches w = Some (_land_patches w, w).
Proof.
  intros H. unfold land_patches. rewrite decide_False; [reflexivity |].
  destruct (_land_patches w); [congruence | discriminate].
Qed.

(** *** The computation *)

Lemma patch_height_idem vs p h p' :
  Patch.height vs p = Some (h, p') -> Patch.height vs p' = Some (h, p').
Proof.
  unfold Patch.height. destruct (Patch._h p) as [h0 |] eqn:Hh.
  - intros [= <- <-]. rewrite Hh. reflexivity.
  - destruct (mapM _ _); [| discriminate]. simpl.
    destruct (Py.min_list _); [| discriminate]. simpl. intros [= <- <-]. reflexivity.
Qed.

Lemma read_height_view k w h w' :
  read_height k w = Some (h, w') ->
  patch_height_view w k = Some h
  /\ (forall k', patch_height_view w' k' = patch_height_view w k')
  /\ vertices w' = vertices w /\ sea_level w' = sea_level w
  /\ _land_patches w' = _land_patches w /\ (patches w').*1 = (patches w).*1.
Proof.
  unfold read_height, patch_height_view.
  destruct (Py.dict_get k (patches w)) as [p |] eqn:Hp; [| discriminate]. simpl.
  destruct (Patch.height _ p) as [[h' p'] |] eqn:Hh; [| discriminate]. simpl.
  intros [= <- <-]. simpl. split; [reflexivity |]. split; [| split; [| split; [| split]]];
    try reflexivity.
  - intros k'. rewrite dict_get_set. destruct (decide (k = k')) as [<- | Hne]; [| reflexivity].
    rewrite Hp. simpl. rewrite Hh, (patch_height_idem _ _ _ _ Hh). reflexivity.
  - apply dict_set_keys_present, dict_get_is_Some. eauto.
Qed.

Lemma read_height_total k w h :
  patch_height_view w k = Some h -> exists w', read_height k w = Some (h, w').
Proof.
  unfold read_height, patch_height_view.
  destruct (Py.dict_get k (patches w)) as [p |]; [| discriminate]. simpl.
  destruct (Patch.height _ p) as [[h' p'] |]; [| discriminate]. simpl.
  intros [= <-]. eexists. reflexivity.
Qed.

Lemma is_land_view w w' :
  (forall k, patch_height_view w' k = patch_height_view w k) ->
  sea_level w' = sea_level w ->
  forall k, is_land w' k <-> is_land w k.
Proof. intros Hv Hs k. unfold is_land. rewrite Hv, Hs. reflexivity. Qed.

Lemma land_loop keys :
  forall acc t,
    (forall k, k ∈ keys -> is_Some (patch_height_view t k)) ->
    exists t',
      Py.for_each land_step keys (acc, t) = Some (acc ++ filter (is_land t) keys, t')
      /\ (forall k, patch_height_view t' k = patch_height_view t k)
      /\ vertices t' = vertices t /\ sea_level t' = sea_level t
      /\ _land_patches t' = _land_patches t /\ (patches t').*1 = (patches t).*1.
Proof.
  induction keys as [| k keys IH]; intros acc t Hread.
  - exists t. simpl. rewrite app_nil_r. auto 10.
  - destruct (Hread k ltac:(left)) as [h Hh].
    destruct (read_height_total k t h Hh) as [t1 Hstep].
    pose proof (read_height_view _ _ _ _ Hstep) as (_ & Hview & Hvs & Hsea & Hlp & Hkeys).
    assert (Hland : land_step k (acc, t)
                    = Some (if decide (sea_level t < h) then acc ++ [k] else acc, t1)).
    { unfold land_step. unfold read_height in Hstep.
      destruct (Py.dict_get k (patches t)) as [p |]; [| discriminate]. simpl in *.
      destruct (Patch.height _ p) as [[h' p'] |]; [| discriminate]. simpl in *.
      injection Hstep as -> <-. reflexivity. }
    destruct (IH (if decide (sea_level t < h) then acc ++ [k] else acc) t1)
      as (t' & Hrun & Hview' & Hvs' & Hsea' & Hlp' & Hkeys').
    { intros k' Hk'. rewrite Hview. apply Hread. right. exact Hk'. }
    exists t'. rewrite PyFacts.for_each_cons, Hland. simpl. rewrite Hrun.
    split; [| split; [intros; congruence | repeat split; congruence]].
    f_equal. f_equal.
    rewrite (list_filter_iff (is_land t1) (is_land t)) by (apply is_land_view; assumption).
    rewrite filter_cons.
    destruct (decide (sea_level t < h)) as [Hlt | Hge].
    + rewrite decide_True by (exists h; auto). rewrite <- app_assoc. reflexivity.
    + rewrite decide_False; [reflexivity |].
      intros (h' & Hh' & Hlt). rewrite Hh in Hh'. injection Hh' as <-. contradiction.
Qed.


(** ** Fluxes are never negative *)

(** *** What the height operations leave alone in a vertex *)

Section HeightOnly.

Context {X : Type} (part : Vertex.t -> X).
Hypothesis part_height : forall h v, part (Vertex.set_height h v) = part v.

Lemma set_heights_vertices w h :
  part <$> vertices (set_heights w h) = part <$> vertices w.
Proof using part_height.
  simpl. rewrite <- list_fmap_compose. apply list_fmap_ext. intros _ v _. apply part_height.
Qed.

Lemma normalize_heights_vertices w w' :
  normalize_heights w = Some w' -> part <$> vertices w' = part <$> vertices w.
Proof using part_height.
  unfold normalize_heights.
  destruct (Py.min_list _) as [min_h |]; [| discriminate]. simpl.
  destruct (Py.max_list _) as [max_h |]; [| discriminate]. simpl.
  destruct (mapM _ (vertices w)) as [vs |] eqn:Hvs; [| discriminate]. simpl.
  intros [= <-]. simpl. eapply mapM_fmap_preserved; [exact Hvs |]. intros x y. simpl.
  destruct (Py.truediv _ _); [| discriminate]. simpl. intros [= <-]. apply part_height.
Qed.

Lemma add_slope_vertices w rnd magnitude slope normalize w' :
  add_slope w rnd magnitude slope normalize = Some w' ->
  part <$> vertices w' = part <$> vertices w.
Proof using part_height.
  unfold add_slope.
  destruct (match slope with Some s => Some s | None => _ end) as [s |]; [| discriminate].
  simpl. set (w1 := set_vertices _ w).
  assert (H1 : part <$> vertices w1 = part <$> vertices w).
  { simpl. rewrite <- list_fmap_compose. apply list_fmap_ext.
    intros _ v _. simpl. destruct (decide _); [apply part_height | reflexivity]. }
  destruct normalize.
  - intros H. apply normalize_heights_vertices in H. congruence.
  - intros [= <-]. exact H1.
Qed.

Lemma add_hill_vertices w rnd hill r normalize w' :
  add_hill w rnd hill r normalize = Some w' ->
  part <$> vertices w' = part <$> vertices w.
Proof using part_height.
  unfold add_hill.
  destruct (mapM _ (vertices w)) as [vs |] eqn:Hvs; [| discriminate]. simpl.
  assert (H1 : part <$> vs = part <$> vertices w).
  { eapply mapM_fmap_preserved; [exact Hvs |]. intros x y. simpl. destruct (decide _).
    - destruct (Py.np_exp_div _ _); [| discriminate]. simpl. intros [= <-]. apply part_height.
    - intros [= <-]. reflexivity. }
  destruct normalize.
  - intros H. apply normalize_heights_vertices in H. simpl in H. congruence.
  - intros [= <-]. exact H1.
Qed.

Lemma erode_ridge_vertices max_total rk w w' :
  erode_ridge max_total rk w = Some w' -> part <$> vertices w' = part <$> vertices w.
Proof using part_height.
  unfold erode_ridge.
  destruct (Py.dict_get rk (ridges w)) as [ridge |]; [| discriminate]. simpl.
  destruct (decide _); [intros [= <-]; reflexivity |].
  destruct (Py.np_sqrt _) as [sq |]; [| discriminate]. simpl.
  destruct (Ridge.slope _ _) as [s |]; [| discriminate]. simpl.
  destruct (vertices w !! Ridge.end_1 ridge) as [v1 |] eqn:H1; [| discriminate]. simpl.
  destruct (vertices w !! Ridge.end_2 ridge) as [v2 |] eqn:H2; [| discriminate].
  unfold Py.min_by. simpl. destruct (decide _); intros [= <-]; simpl;
    eapply list_insert_fmap_id; eauto.
Qed.

Lemma clean_vertex_vertices epsilon i w w' :
  clean_vertex epsilon i w = Some w' -> part <$> vertices w' = part <$> vertices w.
Proof using part_height.
  unfold clean_vertex.
  destruct (vertices w !! i) as [v |] eqn:Hv; [| discriminate]. simpl.
  destruct (deref _ _) as [ns |]; [| discriminate]. simpl.
  repeat destruct (decide _); intros [= <-]; try reflexivity; simpl;
    eapply list_insert_fmap_id; eauto.
Qed.

Lemma for_each_vertices {A} (body : A -> World -> option World) items w w' :
  (forall x t t', body x t = Some t' -> part <$> vertices t' = part <$> vertices t) ->
  Py.for_each body items w = Some w' -> part <$> vertices w' = part <$> vertices w.
Proof using Type.
  intros Hbody.
  apply (PyFacts.for_each_inv (fun t => part <$> vertices t = part <$> vertices w));
    [| reflexivity].
  intros x t t' _ Ht Hx. rewrite <- Ht. eapply Hbody, Hx.
Qed.

End HeightOnly.

(** *** The invariant *)

Lemma Forall_dict_set {V} (P : nat * V -> Prop) k v d :
  Forall P d -> P (k, v) -> Forall P (Py.dict_set k v d).
Proof.
  intros Hd Hv. induction Hd as [| [k' v'] d Hx Hd IH]; simpl.
  - repeat constructor. exact Hv.
  - destruct (decide (k' = k)); constructor; auto.
Qed.

Lemma Forall_fmap_eq {A B} (f : A -> B) (P : B -> Prop) (l l' : list A) :
  f <$> l' = f <$> l -> Forall (P ∘ f) l -> Forall (P ∘ f) l'.
Proof. intros Heq H. rewrite <- Forall_fmap in *. rewrite Heq. exact H. Qed.

Lemma flux_nonneg_same w w' :
  Vertex.flux <$> vertices w' = Vertex.flux <$> vertices w ->
  ridges w' = ridges w ->
  flux_nonneg w -> flux_nonneg w'.
Proof.
  intros Hv Hr [H1 H2]. split; [| rewrite Hr; exact H2].
  exact (Forall_fmap_eq Vertex.flux (fun f => 0 <= f) _ _ Hv H1).
Qed.

Lemma make_ridge_flux x w w' :
  names_ok (vertices w) -> make_ridge x w = Some w' -> flux_nonneg w -> flux_nonneg w'.
Proof.
  intros Hnames Hstep [Hv Hr]. destruct x as [i [kz jz]]. unfold make_ridge in Hstep.
  destruct (decide _); [injection Hstep as <-; split; assumption |].
  destruct (Py.index _ kz) as [e1 |]; [| discriminate].
  destruct (Py.index _ jz) as [e2 |]; [| discriminate]. simpl in Hstep.
  destruct (Ridge.init i e1 e2 (vertices w)) as [[ridge vs] |] eqn:Hinit; [| discriminate].
  simpl in Hstep. injection Hstep as <-.
  apply ridge_init_relink in Hinit as (_ & _ & -> & _ & Hlook); [| exact Hnames].
  split; simpl.
  - apply Forall_lookup. intros a v'. rewrite Hlook.
    destruct (vertices w !! a) as [v |] eqn:Hva; [| discriminate]. simpl. intros [= <-].
    rewrite Forall_lookup in Hv. specialize (Hv a v Hva).
    unfold relink. repeat case_decide; exact Hv.
  - apply Forall_dict_set; [exact Hr | simpl; lra].
Qed.

Lemma make_neighbor_flux rk w w' :
  make_neighbor rk w = Some w' -> flux_nonneg w -> flux_nonneg w'.
Proof.
  unfold make_neighbor. intros Hstep [Hv Hr].
  destruct (Py.dict_get rk (ridges w)) as [ridge |] eqn:Hget; [| discriminate].
  simpl in Hstep.
  destruct (vertices w !! Ridge.end_1 ridge) as [v1 |]; [| discriminate]. simpl in Hstep.
  destruct (vertices w !! Ridge.end_2 ridge) as [v2 |]; [| discriminate]. simpl in Hstep.
  destruct (decide _); [injection Hstep as <-; split; assumption |].
  destruct (elements _) as [| p1 [| p2 [| ? ?]]]; try discriminate.
  destruct (Py.dict_get p1 (patches w)) as [P1 |]; [| discriminate]. simpl in Hstep.
  destruct (Py.dict_get p2 _) as [P2 |]; [| discriminate]. simpl in Hstep.
  injection Hstep as <-. split; [exact Hv |]. simpl.
  apply Forall_dict_set; [exact Hr |]. simpl.
  apply dict_get_elem_of in Hget. rewrite Forall_forall in Hr. apply (Hr _ Hget).
Qed.

Lemma World_init_flux vor x_lim y_lim w :
  World_init vor x_lim y_lim = Some w -> flux_nonneg w.
Proof.
  unfold World_init. set (w0 := mkWorld vor [] [] [] [] None x_lim y_lim 0).
  set (w1 := _make_vertices w0).
  destruct (_make_ridges w1) as [w2 |] eqn:H2; [| discriminate]. simpl.
  destruct (_make_patches w2) as [w3 |] eqn:H3; [| discriminate]. simpl.
  intros H4. unfold _make_ridges in H2. unfold _make_patches in H3.
  unfold _make_neighbors in H4.
  assert (Hvs1 : vertices w1 = imap Vertex.init (Voronoi.vertices vor)).
  { apply (make_vertices_eq w0). reflexivity. }
  assert (Hf1 : flux_nonneg w1 /\ names_ok (vertices w1)).
  { split; [split |].
    - rewrite Hvs1. apply Forall_lookup. intros i v. rewrite list_lookup_imap.
      destruct (Voronoi.vertices vor !! i); simpl; [| discriminate].
      intros [= <-]. simpl. lra.
    - constructor.
    - intros i v. rewrite Hvs1, list_lookup_imap.
      destruct (Voronoi.vertices vor !! i); simpl; [| discriminate].
      intros [= <-]. reflexivity. }
  assert (Hf2 : flux_nonneg w2 /\ names_ok (vertices w2)).
  { apply (PyFacts.for_each_inv (fun t => flux_nonneg t /\ names_ok (vertices t)) make_ridge
             (Py.enumerate (Voronoi.ridge_vertices (voronoi w1))) w1 w2);
      [| exact Hf1 | exact H2].
    intros x t t' _ [Hf Hn] Hx. split; [eapply make_ridge_flux; eauto |].
    destruct x as [i [kz jz]]. unfold make_ridge in Hx.
    destruct (decide _); [injection Hx as <-; exact Hn |].
    destruct (Py.index _ kz) as [e1 |]; [| discriminate].
    destruct (Py.index _ jz) as [e2 |]; [| discriminate]. simpl in Hx.
    destruct (Ridge.init i e1 e2 (vertices t)) as [[ridge vs] |] eqn:Hinit; [| discriminate].
    simpl in Hx. injection Hx as <-.
    apply ridge_init_relink in Hinit as (_ & _ & _ & _ & Hlook); [| exact Hn].
    intros a v'. simpl. rewrite Hlook.
    destruct (vertices t !! a) as [v |] eqn:Hva; [| discriminate]. simpl. intros [= <-].
    rewrite relink_name. apply (Hn _ _ Hva). }
  assert (Hf3 : flux_nonneg w3).
  { apply (PyFacts.for_each_inv flux_nonneg make_patch
             (Py.enumerate (Voronoi.regions (voronoi w2))) w2 w3);
      [| exact (proj1 Hf2) | exact H3].
    intros x t t' _ Hf Hx. apply make_patch_links in Hx as [Hsame Hr].
    eapply flux_nonneg_same; [| exact Hr | exact Hf].
    apply (fmap_proj_eq vertex_but_patches (fun x => x.2)); [reflexivity | exact Hsame]. }
  apply (PyFacts.for_each_inv flux_nonneg make_neighbor (ridges w3).*1 w3 w);
    [| exact Hf3 | exact H4].
  intros x t t' _ Hf Hx. eapply make_neighbor_flux; eauto.
Qed.

Lemma route_flux_nonneg i w w' :
  route_flux i w = Some w' -> flux_nonneg w -> flux_nonneg w'.
Proof.
  unfold route_flux. intros Hstep [Hv Hr].
  destruct (vertices w !! i) as [v |] eqn:Hvi; [| discriminate]. simpl in Hstep.
  destruct (decide _); [| injection Hstep as <-; split; assumption].
  destruct (deref _ _) as [ns |] eqn:Hns; [| discriminate]. simpl in Hstep.
  destruct (Py.min_by _ ns) as [[lowest lv] |] eqn:Hmin; [| discriminate]. simpl in Hstep.
  destruct (decide _); [| injection Hstep as <-; split; assumption].
  destruct (Vertex.ridges v !! Vertex.name lv) as [rk |]; [| discriminate]. simpl in Hstep.
  destruct (Py.dict_get rk (ridges w)) as [ridge |] eqn:Hget; [| discriminate].
  simpl in Hstep. injection Hstep as <-.
  apply PyFacts.min_by_spec in Hmin as [Hin _].
  apply deref_spec in Hns as [_ Hns]. apply Hns in Hin.
  pose proof Hv as Hall. rewrite Forall_lookup in Hall.
  pose proof (Hall _ _ Hvi) as Hfv. pose proof (Hall _ _ Hin) as Hflv. simpl in *.
  split; simpl.
  - apply Forall_insert; [exact Hv | simpl; lra].
  - apply Forall_dict_set; [exact Hr |]. simpl.
    apply dict_get_elem_of in Hget. rewrite Forall_forall in Hr.
    specialize (Hr _ Hget). simpl in Hr. lra.
Qed.

Lemma make_rivers_nonneg w w' : make_rivers w = Some w' -> flux_nonneg w'.
Proof.
  unfold make_rivers. rewrite reset_rivers_eq. simpl.
  apply PyFacts.for_each_inv.
  - intros i t t' _ Hf Hx. eapply route_flux_nonneg; eauto.
  - split; simpl.
    + apply Forall_fmap, Forall_forall. intros v Hv. simpl.
      apply Rmult_le_pos; [lra |]. apply Rlt_le, Rinv_0_lt_compat, lt_0_INR.
      destruct (vertices w); [inversion Hv | simpl; lia].
    + apply Forall_fmap, Forall_forall. intros kr _. simpl. lra.
Qed.

Lemma run_flux_nonneg np_percentile o w w' :
  run np_percentile o w = Some w' -> flux_nonneg w -> flux_nonneg w'.
Proof.
  destruct o; simpl.
  - intros [= <-]. apply flux_nonneg_same; [| reflexivity].
    apply (set_heights_vertices Vertex.flux). reflexivity.
  - intros H. apply flux_nonneg_same.
    + apply (normalize_heights_vertices Vertex.flux) in H; [exact H | reflexivity].
    + apply (normalize_heights_frame ridges) in H; [exact H | reflexivity].
  - intros H. apply flux_nonneg_same.
    + apply (add_slope_vertices Vertex.flux) in H; [exact H | reflexivity].
    + apply (add_slope_frame ridges) in H; [exact H | reflexivity].
  - intros H. apply flux_nonneg_same.
    + apply (add_hill_vertices Vertex.flux) in H; [exact H | reflexivity].
    + apply (add_hill_frame ridges) in H; [exact H | reflexivity].
  - intros H _. eapply make_rivers_nonneg, H.
  - intros H. apply flux_nonneg_same.
    + apply (for_each_vertices Vertex.flux) in H; [exact H |].
      intros rk t t'. apply (erode_ridge_vertices Vertex.flux). reflexivity.
    + apply (for_each_frame ridges) in H; [exact H |].
      intros rk t t'. apply (erode_ridge_frame ridges). reflexivity.
  - unfold set_sea_level. destruct (decide _); [intros [= <-]; auto |].
    destruct (np_percentile _ _); [| discriminate]. simpl. intros [= <-]. auto.
  - destruct (land_patches w) as [[lp w1] |] eqn:H; [| discriminate]. simpl.
    intros [= <-]. unfold land_patches in H. destruct (decide _).
    + destruct (Py.for_each _ _ _) as [[lp' t] |] eqn:Hloop; [| discriminate].
      simpl in H. injection H as _ <-.
      assert (Hsame : (vertices t, ridges t) = (vertices w, ridges w)).
      { apply (PyFacts.for_each_inv
                 (fun st : list nat * World => (vertices st.2, ridges st.2) = (vertices w, ridges w))
                 land_step (patches w).*1 ([], w) (lp', t)); [| reflexivity | exact Hloop].
        intros k [acc u] [acc' u'] _ Hu Hk. simpl in *. rewrite <- Hu.
        unfold land_step in Hk.
        destruct (Py.dict_get k (patches u)); [| discriminate]. simpl in Hk.
        destruct (Patch.height _ _) as [[h p'] |]; [| discriminate]. simpl in Hk.
        injection Hk as _ <-. reflexivity. }
      injection Hsame as Hv Hr. apply flux_nonneg_same; simpl; congruence.
    + injection H as _ <-. auto.
  - intros H. apply flux_nonneg_same.
    + apply (for_each_vertices Vertex.flux) in H; [exact H |].
      intros i t t'. apply (clean_vertex_vertices Vertex.flux). reflexivity.
    + apply (for_each_frame ridges) in H; [exact H |].
      intros i t t'. apply (clean_vertex_frame ridges). reflexivity.
  - rewrite reset_rivers_eq. intros [= <-] _. split; simpl.
    + apply Forall_fmap, Forall_forall. intros v Hv. simpl.
      apply Rmult_le_pos; [lra |]. apply Rlt_le, Rinv_0_lt_compat, lt_0_INR.
      destruct (vertices w); [inversion Hv | simpl; lia].
    + apply Forall_fmap, Forall_forall. intros kr _. simpl. lra.
  - destruct (patch_network w) as [[g w1] |] eqn:H; [| discriminate]. simpl.
    intros [= <-]. unfold patch_network in H.
    destruct (_patch_network w); [injection H as _ <-; auto |].
    destruct (land_patches w) as [[lp t] |] eqn:Hland; [| discriminate]. simpl in H.
    destruct (Py.for_each _ _ _) as [[g2 t2] |] eqn:Hloop; [| discriminate]. simpl in H.
    injection H as _ <-.
    apply (network_loop_frame (fun u => (vertices u, ridges u))) in Hloop; [| reflexivity].
    assert (Hsame : (vertices t, ridges t) = (vertices w, ridges w)).
    { unfold land_patches in Hland. destruct (decide _).
      - destruct (Py.for_each _ _ _) as [[lp' u] |] eqn:Hl; [| discriminate].
        simpl in Hland. injection Hland as _ <-. simpl.
        apply (PyFacts.for_each_inv
                 (fun st : list nat * World => (vertices st.2, ridges st.2) = (vertices w, ridges w))
                 land_step (patches w).*1 ([], w) (lp', u)); [| reflexivity | exact Hl].
        intros k [acc x] [acc' x'] _ Hu Hk. simpl in *. rewrite <- Hu.
        unfold land_step in Hk.
        destruct (Py.dict_get k (patches x)); [| discriminate]. simpl in Hk.
        destruct (Patch.height _ _) as [[h p'] |]; [| discriminate]. simpl in Hk.
        injection Hk as _ <-. reflexivity.
      - injection Hland as _ <-. reflexivity. }
    rewrite Hsame in Hloop. injection Hloop as Hv Hr.
    apply flux_nonneg_same; simpl; congruence.
Qed.

(** A world the constructor has built and operations have worked on is
    sound and holds no negative flux. *)
Lemma reached_world np_percentile vor x_lim y_lim os w0 w :
  World_init vor x_lim y_lim = Some w0 ->
  run_all np_percentile os w0 = Some w ->
  mesh_ok w /\ flux_nonneg w.
Proof.
  intros Hinit Hrun. split.
  - apply (mesh_ok_links w0).
    + apply links_of_geometry. eapply run_all_geometry, Hrun.
    + apply World_init_built in Hinit as (_ & Hok & _). exact Hok.
  - apply (PyFacts.for_each_inv flux_nonneg (run np_percentile) os w0 w);
      [| eapply World_init_flux; eauto | exact Hrun].
    intros o t t' _ Hf Ho. eapply run_flux_nonneg; eauto.
Qed.

(** ** The patch network *)

Lemma coast_patch_at_sea_level :
  patch_height_view coast_world 1 = Some (sea_level coast_world).
Proof.
  unfold patch_height_view, coast_world, sloped_world. py_eval. reflexivity.
Qed.

(** C3 at the grid with the left patch exactly at sea level: the right
    patch, 4, is the only land patch, and yet the network holds the edge
    from 4 to the left patch, 1, whose height is not above the sea level.
    The weight of the edge is the distance of the centroids times
    [exp(height(1) - height(4))]. *)
Theorem patch_network_edge_into_sea_level_patch :
  exists g w',
    patch_network coast_world = Some (g, w')
    /\ _land_patches w' = [4%nat]
    /\ patch_height_view coast_world 1 = Some (sea_level coast_world)
    /\ ~ is_land coast_world 1
    /\ 1%nat ∈ DiGraph.nodes g
    /\ DiGraph.edges g !! (4%nat, 1%nat)
       = Some (Py.norm (Py.sub2 (mean [(3, 1); (5, 1); (5, 3); (3, 3)])
                                (mean [(1, 1); (3, 1); (3, 3); (1, 3)]))
               * exp (0.1 - 0.3)).
Proof.
  eexists _, _. split.
  - unfold patch_network, land_patches, coast_world, sloped_world. py_eval. reflexivity.
  - split; [reflexivity |]. split; [exact coast_patch_at_sea_level |]. split; [| split].
    + intros (h & Hview & Hlt). rewrite coast_patch_at_sea_level in Hview.
      injection Hview as Hh. rewrite <- Hh in Hlt. exact (Rlt_irrefl _ Hlt).
    + unfold DiGraph.add_edge. simpl. set_solver.
    + unfold DiGraph.add_edge. simpl. apply lookup_insert_eq.
Qed.

(** ** Flow accumulation and erosion on reached worlds *)

Lemma kite_slope_run :
  run_all (fun _ _ => None) [AddSlope (0, 0) None (Some (1, 0)) false] kite_world
  = Some kite_slope.
Proof.
  unfold run_all. cbn [Py.for_each run]. rewrite kite_slope_reached. reflexivity.
Qed.

Lemma river_world_run :
  run_all (fun _ _ => None) [AddSlope (0, 0) None (Some (1, 0)) false; MakeRivers] kite_world
  = Some river_world.
Proof.
  unfold run_all. cbn [Py.for_each run]. rewrite kite_slope_reached.
  cbn [mbind option_bind]. rewrite river_world_reached. reflexivity.
Qed.

(** C1, as stated, fails: vertices of equal height are visited one after
    the other, so the visiting order is not strictly descending. *)
Lemma rivers_visit_equal_heights :
  exists w0,
    reset_rivers (set_heights grid_world 1) = Some w0
    /\ make_rivers (set_heights grid_world 1)
       = Py.for_each route_flux (vertices_by_height w0).*1 w0
    /\ ~ StronglySorted (fun a b : nat * Vertex.t => Vertex.height b.2 < Vertex.height a.2)
           (vertices_by_height w0).
Proof.
  eexists. split; [apply reset_rivers_eq |]. split.
  - unfold make_rivers. rewrite reset_rivers_eq. reflexivity.
  - unfold vertices_by_height, Py.sorted_desc, Py.enumerate. py_eval.
    intros Hsorted. inversion Hsorted as [| a l _ Hfirst]; subst.
    inversion Hfirst as [| b l' Hab _]; subst. simpl in Hab. lra.
Qed.

(** C1, amended: in a world the constructor has built and operations have
    worked on, in which every vertex in bounds has a neighbor, [make_rivers]
    returns.  It first sets every vertex flux to [1/|V|] and every ridge
    flux to 0, leaving heights and geometry alone.  It then visits every
    vertex once, in non-increasing height order (higher vertices first,
    vertices of equal height in the order of the vertex list).  A vertex
    out of bounds is skipped.  For a vertex [v] in bounds a neighbor
    [lowest] of minimum height is found, and exactly when [lowest] is lower
    than [v], the flux [v] holds at that moment is added to the flux of
    [lowest] (in bounds or not) and to the flux of the ridge filed under
    [lowest] in the ridge map of [v], which joins the two. *)
Theorem make_rivers_routes (np_percentile : list R -> R -> option R)
    (vor : Voronoi.t) (x_lim y_lim : R * R) (os : list operation) (w_init w : World) :
  World_init vor x_lim y_lim = Some w_init ->
  run_all np_percentile os w_init = Some w ->
  (forall i v, vertices w !! i = Some v -> _check_coord w (Vertex.coords v) ->
               Vertex.neighbors v <> ∅) ->
  exists w0 order w',
    reset_rivers w = Some w0
    /\ rivers_reset w w0
    /\ river_order w0 order
    /\ make_rivers w = Some w'
    /\ river_pass order w0 w'.
Proof.
  intros Hinit Hops Hnb.
  destruct (reached_world _ _ _ _ _ _ _ Hinit Hops) as [Hok _].
  destruct (reset_rivers w) as [w0 |] eqn:Hreset;
    [| rewrite reset_rivers_eq in Hreset; discriminate].
  pose proof (reset_rivers_reset _ _ Hreset) as Hr.
  pose proof (vertices_by_height_order w0) as Horder.
  destruct (river_pass_run (vertices_by_height w0).*1 w0) as (w' & Hrun & Hpass).
  - eapply visitable_geometry; [apply Hr | split; assumption].
  - intros i. apply river_order_range, Horder.
  - exists w0, (vertices_by_height w0).*1, w'.
    split; [reflexivity |]. split; [exact Hr |]. split; [exact Horder |].
    split; [| exact Hpass]. unfold make_rivers. rewrite Hreset. exact Hrun.
Qed.

Lemma kite_slope_neighbors :
  forall i v, vertices kite_slope !! i = Some v -> _check_coord kite_slope (Vertex.coords v) ->
              Vertex.neighbors v <> ∅.
Proof.
  intros i v Hv _ Hempty. apply (f_equal elements) in Hempty.
  destruct i as [| [| i]]; simpl in Hv; [| | discriminate];
    injection Hv as <-; vm_compute in Hempty; discriminate.
Qed.

Lemma make_rivers_routes_witness :
  exists w0 order w',
    reset_rivers kite_slope = Some w0
    /\ rivers_reset kite_slope w0
    /\ river_order w0 order
    /\ make_rivers kite_slope = Some w'
    /\ river_pass order w0 w'.
Proof.
  exact (make_rivers_routes (fun _ _ => None) kite_voronoi (0, 4) (-1, 1)
           [AddSlope (0, 0) None (Some (1, 0)) false] kite_world kite_slope
           kite_world_init kite_slope_run kite_slope_neighbors).
Defined.

(** C2, as stated, fails: with a negative cap the pass raises the lower end
    of a ridge that carries flux. *)
Lemma erosion_negative_cap_raises :
  exists w' v v',
    erode_heights river_world (-500) 0.1 = Some w'
    /\ vertices river_world !! 0%nat = Some v
    /\ vertices w' !! 0%nat = Some v'
    /\ Vertex.height v < Vertex.height v'.
Proof.
  destruct (erosion_pass_run (-500) (ridges river_world).*1 river_world
              (ridge_ready_keys _ river_world_ready)) as (w' & Hrun & Hpass).
  simpl in Hpass.
  inversion Hpass as [| rk rks t t1 t2 Hstep Hrest]; subst.
  inversion Hrest; subst. clear Hpass Hrest.
  inversion Hstep as [ridge Hget Hflux | ridge v1 v2 slope Hget Hflux H1 H2 Hlen Hslope Heq];
    subst.
  { exfalso. injection Hget as <-. simpl in Hflux. lra. }
  injection Hget as <-. injection H1 as <-. injection H2 as <-.
  eexists _, _, _. split; [exact Hrun |]. split; [reflexivity |].
  match goal with |- context [lower_end ?r ?a ?b] =>
    assert (lower_end r a b = (Ridge.end_1 r, a)) as ->
      by (unfold lower_end; simpl; rewrite decide_False by lra; reflexivity)
  end.
  simpl. split; [reflexivity |]. simpl.
  match goal with |- context [erosion_total ?m ?f ?s] =>
    pose proof (erosion_total_le m f s) end.
  lra.
Qed.

(** C2, amended: for a cap [max_total] that is not negative, in a world the
    constructor has built and operations have worked on, whose ridges join
    vertices that lie apart, one [erode_heights] pass returns; it works
    through the ridges in dictionary order, on the heights the earlier
    ridges of the pass left; a ridge with zero flux changes nothing; a ridge
    with flux computes
    [total = min(1000 * sqrt(flux) * slope + slope^2, max_total)] and lowers
    its lower end by [0.1 * total / 500]; no ridge raises any vertex or
    lowers one by more than [0.1 * max_total / 500], and the pass raises no
    vertex. *)
Theorem erosion_pass_lowers (np_percentile : list R -> R -> option R)
    (vor : Voronoi.t) (x_lim y_lim : R * R) (os : list operation) (w0 w : World)
    (max_total drop_factor : R) :
  World_init vor x_lim y_lim = Some w0 ->
  run_all np_percentile os w0 = Some w ->
  0 <= max_total ->
  Forall (fun kr => ends_apart (Vertex.coords <$> vertices w) kr.2) (ridges w) ->
  exists w',
    erode_heights w max_total drop_factor = Some w'
    /\ erosion_pass max_total (ridges w).*1 w w'
    /\ (forall t rk t', erodes max_total t rk t' ->
          forall i v, vertices t !! i = Some v ->
            exists v', vertices t' !! i = Some v'
              /\ 0 <= Vertex.height v - Vertex.height v' <= 0.1 * max_total / 500)
    /\ (forall i v, vertices w !! i = Some v ->
          exists v', vertices w' !! i = Some v' /\ Vertex.height v' <= Vertex.height v).
Proof.
  intros Hinit Hrun Hcap Hapart.
  destruct (reached_world _ _ _ _ _ _ _ Hinit Hrun) as [_ [_ Hflux]].
  assert (Hready : Forall (fun kr => ridge_ready (Vertex.coords <$> vertices w) kr.2)
                          (ridges w)).
  { rewrite Forall_forall in Hapart, Hflux |- *. intros kr Hkr.
    destruct (Hapart kr Hkr) as (c1 & c2 & H1 & H2 & Hne).
    exists c1, c2. repeat split; try assumption. apply (Hflux kr Hkr). }
  destruct (erosion_pass_run max_total (ridges w).*1 w (ridge_ready_keys _ Hready))
    as (w' & Hpass_run & Hpass).
  exists w'. split; [exact Hpass_run |]. split; [exact Hpass |]. split.
  - intros t rk t'. apply erodes_loss, Hcap.
  - apply erosion_pass_loss with (1 := Hcap) (2 := Hpass).
Qed.

Lemma erosion_pass_lowers_witness :
  exists w',
    erode_heights river_world 500 0.1 = Some w'
    /\ erosion_pass 500 (ridges river_world).*1 river_world w'
    /\ (forall t rk t', erodes 500 t rk t' ->
          forall i v, vertices t !! i = Some v ->
            exists v', vertices t' !! i = Some v'
              /\ 0 <= Vertex.height v - Vertex.height v' <= 0.1 * 500 / 500)
    /\ (forall i v, vertices river_world !! i = Some v ->
          exists v', vertices w' !! i = Some v' /\ Vertex.height v' <= Vertex.height v).
Proof.
  apply (erosion_pass_lowers (fun _ _ => None) kite_voronoi (0, 4) (-1, 1)
           [AddSlope (0, 0) None (Some (1, 0)) false; MakeRivers] kite_world river_world
           500 0.1 kite_world_init river_world_run).
  - lra.
  - repeat constructor. exists (1.25, 0), (2.75, 0). simpl.
    repeat split; try reflexivity. intros [= H]. lra.
Defined.

(** ** Land patches on reached worlds *)

Lemma index_lt n k i : Py.index n k = Some i -> (i < n)%nat.
Proof.
  unfold Py.index. repeat case_decide; intros [= <-]; lia.
Qed.

Lemma reached_readable np_percentile vor x_lim y_lim os w0 w :
  World_init vor x_lim y_lim = Some w0 ->
  run_all np_percentile os w0 = Some w ->
  forall k, k ∈ (patches w).*1 -> is_Some (patch_height_view w k).
Proof.
  intros Hinit Hrun k Hk.
  apply World_init_built in Hinit as (_ & _ & _ & Hcoords & Hold & _).
  apply run_all_geometry in Hrun. unfold geometry in Hrun.
  injection Hrun as Hvs _ Hps _ _ _.
  apply dict_get_is_Some in Hk as [p Hp]. unfold patch_height_view. rewrite Hp. simpl.
  destruct (dict_get_fmap_eq patch_fixed (fun x => x.1.1.1.1) _ _ _ _ ltac:(reflexivity) Hps Hp)
    as (p0 & Hp0 & [= _ Hv _ _]).
  destruct (Hold k p0 Hp0) as (_ & region & _ & _ & _ & Hidx & Hlen & _).
  rewrite Hv in Hidx, Hlen. unfold Patch.height. destruct (Patch._h p); [eexists; reflexivity |].
  assert (Hn : length (vertices w) = length (Voronoi.vertices vor)).
  { rewrite (fmap_eq_length _ _ _ Hvs), <- Hcoords, length_fmap. reflexivity. }
  destruct (mapM (fun i => Vertex.height <$> vertices w !! i) (Patch.vertices p))
    as [hs |] eqn:Hhs.
  - simpl. pose proof (mapM_Some_1 _ _ _ Hhs) as Hf. apply Forall2_length in Hf.
    destruct hs as [| h hs]; [simpl in Hf; lia |]. eexists. reflexivity.
  - exfalso. apply mapM_None in Hhs. apply Exists_exists in Hhs as (i & Hi & Hnone).
    apply mapM_Some_1 in Hidx.
    apply list_elem_of_lookup in Hi as [j Hj].
    destruct (Forall2_lookup_r _ _ _ _ _ Hidx Hj) as (z & _ & Hz).
    apply index_lt in Hz. rewrite <- Hn in Hz.
    destruct (lookup_lt_is_Some_2 (vertices w) i Hz) as [v Hv']. rewrite Hv' in Hnone.
    discriminate.
Qed.

(** C5: in a world the constructor has built and operations have worked
    on, the land patches are the patches whose height lies above the sea
    level, in dictionary order.  A non-empty list that an evaluation has
    left in the cache is returned as it is after any sequence of operations,
    whatever they do to heights and sea level.  While the cache is empty,
    every access computes the list anew from the heights the patches report
    and the sea level of that moment, and stores it; an empty result leaves
    the cache empty, so that the next access computes again. *)
Theorem land_patches_cache (np_percentile : list R -> R -> option R)
    (vor : Voronoi.t) (x_lim y_lim : R * R) (os0 : list operation) (w0 w : World) :
  World_init vor x_lim y_lim = Some w0 ->
  run_all np_percentile os0 w0 = Some w ->
  (_land_patches w <> [] ->
   forall os w', run_all np_percentile os w = Some w' ->
     land_patches w' = Some (_land_patches w, w'))
  /\ (_land_patches w = [] ->
      exists w',
        land_patches w = Some (filter (is_land w) (patches w).*1, w')
        /\ _land_patches w' = filter (is_land w) (patches w).*1
        /\ (forall k, patch_height_view w' k = patch_height_view w k)
        /\ vertices w' = vertices w /\ sea_level w' = sea_level w).
Proof.
  intros Hinit Hreached. split.
  - intros Hcached os w' Hrun.
    assert (H : _land_patches w' = _land_patches w).
    { apply (PyFacts.for_each_inv (fun t => _land_patches t = _land_patches w)
               (run np_percentile) os w w'); [| reflexivity | exact Hrun].
      intros o t t' _ Ht Ho. rewrite <- Ht. eapply run_keeps_land_patches; [| exact Ho].
      congruence. }
    rewrite <- H. apply land_patches_cached. congruence.
  - intros Hempty. unfold land_patches. rewrite Hempty. simpl.
    destruct (land_loop (patches w).*1 [] w
                (reached_readable _ _ _ _ _ _ _ Hinit Hreached))
      as (t' & Hrun & Hview & Hvs & Hsea & _).
    simpl in Hrun. rewrite Hrun. simpl. eexists. split; [reflexivity |]. simpl. auto.
Qed.

Lemma coast_world_run :
  run_all (fun _ _ => None)
          [AddSlope (0, 0) None (Some (0.1, 0)) false; SetSeaLevel 0.1] grid_world
  = Some coast_world.
Proof.
  unfold run_all. cbn [Py.for_each run]. rewrite sloped_world_reached.
  cbn [mbind option_bind]. rewrite coast_world_reached. reflexivity.
Qed.

Lemma landed_world_run :
  run_all (fun _ _ => None)
          [AddSlope (0, 0) None (Some (0.1, 0)) false; SetSeaLevel 0.1; LandPatches]
          grid_world
  = Some landed_world.
Proof.
  unfold run_all. cbn [Py.for_each run]. rewrite sloped_world_reached.
  cbn [mbind option_bind]. rewrite coast_world_reached. cbn [mbind option_bind].
  unfold land_patches, coast_world, sloped_world. py_eval. reflexivity.
Qed.

Lemma land_patches_cache_witness :
  land_patches (set_heights (set_sea 0.45 landed_world) 0)
  = Some ([4%nat], set_heights (set_sea 0.45 landed_world) 0)
  /\ exists w',
       land_patches coast_world
       = Some (filter (is_land coast_world) (patches coast_world).*1, w')
       /\ _land_patches w' = filter (is_land coast_world) (patches coast_world).*1
       /\ (forall k, patch_height_view w' k = patch_height_view coast_world k)
       /\ vertices w' = vertices coast_world /\ sea_level w' = sea_level coast_world.
Proof.
  split.
  - apply (proj1 (land_patches_cache (fun _ _ => None) grid_voronoi (0, 6) (0, 4)
                    [AddSlope (0, 0) None (Some (0.1, 0)) false; SetSeaLevel 0.1; LandPatches]
                    grid_world landed_world grid_world_init landed_world_run)
             ltac:(discriminate) [SetSeaLevel 0.45; SetHeights 0]).
    unfold run_all. cbn [Py.for_each run]. unfold set_sea_level.
    rewrite decide_True by lra. reflexivity.
  - apply (proj2 (land_patches_cache (fun _ _ => None) grid_voronoi (0, 6) (0, 4)
                    [AddSlope (0, 0) None (Some (0.1, 0)) false; SetSeaLevel 0.1]
                    grid_world coast_world grid_world_init coast_world_run)).
    reflexivity.
Defined.

(** * Further properties of the height operations *)

Lemma set_height_same v : Vertex.set_height (Vertex.height v) v = v.
Proof. destruct v. reflexivity. Qed.

Lemma set_vertices_same w : set_vertices (vertices w) w = w.
Proof. destruct w. reflexivity. Qed.

Lemma max_list_is_Some l : l <> [] -> is_Some (Py.max_list l).
Proof. destruct l; [congruence | intros _; eexists; reflexivity]. Qed.

Lemma normalize_heights_inv w w1 :
  normalize_heights w = Some w1 ->
  exists lo hi,
    Py.min_list (Vertex.height <$> vertices w) = Some lo
    /\ Py.max_list (Vertex.height <$> vertices w) = Some hi
    /\ lo < hi
    /\ w1 = set_vertices
              ((fun v => Vertex.set_height ((Vertex.height v - lo) / (hi - lo)) v)
                 <$> vertices w) w.
Proof.
  intros H. pose proof H as H0. unfold normalize_heights in H.
  destruct (Py.min_list _) as [lo |] eqn:Hlo; [| discriminate]. simpl in H.
  destruct (Py.max_list _) as [hi |] eqn:Hhi; [| discriminate]. simpl in H.
  destruct (mapM _ (vertices w)) as [vs |] eqn:Hvs; [| discriminate].
  pose proof (PyFacts.min_list_spec _ _ Hlo) as [Hin Hle].
  pose proof (PyFacts.max_list_spec _ _ Hhi) as [Hin' Hge].
  assert (Hne : lo <> hi).
  { intros ->. apply list_elem_of_fmap in Hin as (v & _ & Hv).
    apply mapM_Some_1 in Hvs. apply list_elem_of_lookup in Hv as [i Hi].
    destruct (Forall2_lookup_l _ _ _ _ _ Hvs Hi) as (v' & _ & Hdiv).
    rewrite PyFacts.truediv_None in Hdiv by lra. discriminate. }
  exists lo, hi. split; [reflexivity |]. split; [reflexivity |]. split.
  - specialize (Hle hi Hin'). lra.
  - rewrite (normalize_heights_Some w lo hi Hlo Hhi Hne) in H0. congruence.
Qed.

(** X5: normalizing is idempotent.  Once [normalize_heights] has returned,
    the lowest vertex is at 0 and the highest at 1, so that a second call
    returns as well and changes nothing. *)
Theorem normalize_heights_idempotent (w w1 : World) :
  normalize_heights w = Some w1 -> normalize_heights w1 = Some w1.
Proof.
  intros H. apply normalize_heights_inv in H as (lo & hi & Hlo & Hhi & Hlt & ->).
  pose proof (PyFacts.min_list_spec _ _ Hlo) as [Hin Hle].
  pose proof (PyFacts.max_list_spec _ _ Hhi) as [Hin' Hge].
  set (f := fun v => Vertex.set_height ((Vertex.height v - lo) / (hi - lo)) v).
  set (w1 := set_vertices (f <$> vertices w) w).
  assert (Hhs : Vertex.height <$> vertices w1
                = (fun h => (h - lo) / (hi - lo)) <$> (Vertex.height <$> vertices w)).
  { unfold w1. simpl. rewrite <- !list_fmap_compose. reflexivity. }
  assert (Hpos : 0 < / (hi - lo)) by (apply Rinv_0_lt_compat; lra).
  assert (Hrange : forall h', h' ∈ Vertex.height <$> vertices w1 -> 0 <= h' <= 1).
  { intros h'. rewrite Hhs. intros Hh'. apply list_elem_of_fmap in Hh' as (h & -> & Hh).
    specialize (Hle h Hh). specialize (Hge h Hh). split.
    - apply Rmult_le_pos; lra.
    - apply (Rmult_le_reg_r (hi - lo)); [lra |]. field_simplify; lra. }
  assert (H0 : 0 ∈ Vertex.height <$> vertices w1).
  { rewrite Hhs. apply list_elem_of_fmap. exists lo. split; [field; lra | exact Hin]. }
  assert (H1 : 1 ∈ Vertex.height <$> vertices w1).
  { rewrite Hhs. apply list_elem_of_fmap. exists hi. split; [field; lra | exact Hin']. }
  assert (Hne : Vertex.height <$> vertices w1 <> []).
  { intros Hnil. rewrite Hnil in H0. inversion H0. }
  destruct (PyFacts.min_by_is_Some id _ Hne) as [lo' Hlo'].
  destruct (max_list_is_Some _ Hne) as [hi' Hhi'].
  pose proof (PyFacts.min_list_spec _ _ Hlo') as [Hin1 Hle1].
  pose proof (PyFacts.max_list_spec _ _ Hhi') as [Hin2 Hge2].
  assert (lo' = 0) as ->.
  { specialize (Hle1 0 H0). specialize (Hrange lo' Hin1). lra. }
  assert (hi' = 1) as ->.
  { specialize (Hge2 1 H1). specialize (Hrange hi' Hin2). lra. }
  rewrite (normalize_heights_Some w1 0 1 Hlo' Hhi') by lra. f_equal.
  rewrite <- (set_vertices_same w1) at 3. f_equal.
  rewrite <- (list_fmap_id (vertices w1)) at 2. apply list_fmap_ext. intros _ v _. simpl.
  rewrite <- (set_height_same v) at 3. f_equal. field.
Qed.

Lemma sloped_world_normalizes : exists w1, normalize_heights sloped_world = Some w1.
Proof.
  eexists. apply (normalize_heights_Some sloped_world 0.1 0.5); [| | lra].
  - unfold sloped_world. py_eval. reflexivity.
  - unfold sloped_world. py_eval. reflexivity.
Qed.

Lemma normalize_heights_idempotent_witness :
  exists w1, normalize_heights sloped_world = Some w1 /\ normalize_heights w1 = Some w1.
Proof.
  destruct sloped_world_normalizes as [w1 H1]. exists w1.
  split; [exact H1 | exact (normalize_heights_idempotent sloped_world w1 H1)].
Defined.



(** The height [add_hill] adds to a vertex: never below 0, never above 1. *)
Lemma hill_bump x y h :
  x <= 0 -> 0 <= y -> Py.np_exp_div x y = Some h -> 0 <= h ^ 2 <= 1.
Proof.
  intros Hx Hy0. unfold Py.np_exp_div. destruct (decide (y = 0)) as [-> | Hy].
  - destruct (decide (x < 0)); [| discriminate]. intros [= <-]. simpl. lra.
  - intros [= <-].
    pose proof (exp_pos (x / y)) as Hpos.
    split; [apply pow_le; lra |].
    assert (Hle : x / y <= 0).
    { assert (0 < / y) by (apply Rinv_0_lt_compat; lra). unfold Rdiv. nra. }
    assert (Hexp : exp (x / y) <= 1).
    { rewrite <- exp_0.
      destruct Hle as [Hlt | ->]; [left; apply exp_increasing, Hlt | right; reflexivity]. }
    rewrite <- (pow1 2). apply pow_incr. lra.
Qed.

(** X7: a hill never lowers.  [add_hill] (without normalizing) leaves
    geometry, fluxes and the vertices out of bounds alone.  For a radius
    other than zero it returns, and a vertex in bounds ends not lower than
    it was and at most 1 higher; it ends exactly 1 higher where it lies on
    the centre of the hill.  For a radius of zero it returns the world as it
    is when no vertex in bounds lies on the centre of the hill (the
    exponential of minus infinity is 0), and has no result when one does
    (zero over zero is not a number). *)
Theorem add_hill_raises (w : World) (rnd : R * R) (hill : option (R * R)) (r : R) :
  (r <> 0 ->
   exists w',
     add_hill w rnd hill r false = Some w'
     /\ geometry w' = geometry w
     /\ Vertex.flux <$> vertices w' = Vertex.flux <$> vertices w
     /\ forall i v, vertices w !! i = Some v ->
          exists v', vertices w' !! i = Some v'
            /\ (_check_coord w (Vertex.coords v) ->
                Vertex.height v <= Vertex.height v' <= Vertex.height v + 1
                /\ (Vertex.coords v = default rnd hill ->
                    Vertex.height v' = Vertex.height v + 1))
            /\ (~ _check_coord w (Vertex.coords v) -> v' = v))
  /\ (r = 0 ->
      (forall i v, vertices w !! i = Some v -> _check_coord w (Vertex.coords v) ->
         Vertex.coords v <> default rnd hill) ->
      add_hill w rnd hill r false = Some w)
  /\ (r = 0 ->
      (exists i v, vertices w !! i = Some v /\ _check_coord w (Vertex.coords v)
                   /\ Vertex.coords v = default rnd hill) ->
      add_hill w rnd hill r false = None).
Proof.
  set (c := match hill with Some c => c | None => rnd end).
  assert (Hc : default rnd hill = c) by (destruct hill; reflexivity).
  assert (Hcentre : forall v, Vertex.dist v c = 0 <-> Vertex.coords v = c).
  { intros v. unfold Vertex.dist. rewrite PyFacts.norm_zero_iff. unfold Py.sub2.
    destruct (Vertex.coords v) as [x y], c as [cx cy]. simpl. split.
    - intros [= Hx Hy]. f_equal; lra.
    - intros [= -> ->]. f_equal; lra. }
  split; [| split].
  - intros Hr.
    assert (Hden : 2 * r ^ 2 <> 0).
    { assert (0 < r * r) by (destruct (Rtotal_order r 0) as [? | [? | ?]]; [nra | lra | nra]).
      simpl. lra. }
    assert (Hdiv : forall x, Py.np_exp_div x (2 * r ^ 2) = Some (exp (x / (2 * r ^ 2)))).
    { intros x. unfold Py.np_exp_div. rewrite decide_False by exact Hden. reflexivity. }
    set (f := fun v => if decide (_check_coord w (Vertex.coords v))
                       then Vertex.set_height
                              (Vertex.height v + exp (- Vertex.dist v c ^ 2 / (2 * r ^ 2)) ^ 2) v
                       else v).
    assert (Hm : mapM (fun v => if decide (_check_coord w (Vertex.coords v))
                                then h ← Py.np_exp_div (- Vertex.dist v c ^ 2) (2 * r ^ 2);
                                     Some (Vertex.set_height (Vertex.height v + h ^ 2) v)
                                else Some v) (vertices w)
                 = Some (f <$> vertices w)).
    { apply mapM_Some_2. apply Forall2_fmap_r, Forall_Forall2_diag, Forall_forall.
      intros v _. unfold f. simpl.
      destruct (decide (_check_coord w (Vertex.coords v))); [| reflexivity].
      rewrite Hdiv. reflexivity. }
    exists (set_vertices (f <$> vertices w) w). split.
    { unfold add_hill. fold c. rewrite Hm. reflexivity. }
    split; [| split].
    + apply geometry_set_vertices. rewrite <- list_fmap_compose. apply list_fmap_ext.
      intros _ v _. simpl. unfold f. destruct (decide _); reflexivity.
    + simpl. rewrite <- list_fmap_compose. apply list_fmap_ext.
      intros _ v _. simpl. unfold f. destruct (decide _); reflexivity.
    + intros i v Hv. exists (f v). split; [simpl; rewrite list_lookup_fmap, Hv; reflexivity |].
      unfold f. split.
      * intros Hin. rewrite decide_True by exact Hin.
        cbn [Vertex.height Vertex.set_height].
        assert (Hneg : - Vertex.dist v c ^ 2 <= 0).
        { assert (0 <= Vertex.dist v c ^ 2) by (apply pow2_ge_0). lra. }
        assert (Hpos : 0 <= 2 * r ^ 2).
        { assert (0 <= r ^ 2) by (apply pow2_ge_0). lra. }
        pose proof (hill_bump _ _ _ Hneg Hpos (Hdiv (- Vertex.dist v c ^ 2))) as [Hlo Hhi].
        split; [lra |]. rewrite Hc. intros Hat.
        rewrite (proj2 (Hcentre v) Hat).
        replace (- 0 ^ 2 / (2 * r ^ 2)) with 0 by (field; exact Hr).
        rewrite exp_0. lra.
      * intros Hout. rewrite decide_False by exact Hout. reflexivity.
  - intros -> Hoff. rewrite Hc in Hoff. unfold add_hill. fold c.
    assert (Hm : mapM (fun v => if decide (_check_coord w (Vertex.coords v))
                                then h ← Py.np_exp_div (- Vertex.dist v c ^ 2) (2 * 0 ^ 2);
                                     Some (Vertex.set_height (Vertex.height v + h ^ 2) v)
                                else Some v) (vertices w)
                 = Some (vertices w)).
    { apply mapM_Some_2, Forall_Forall2_diag, Forall_forall. intros v Hv.
      apply list_elem_of_lookup in Hv as [i Hv].
      destruct (decide (_check_coord w (Vertex.coords v))) as [Hin | _]; [| reflexivity].
      unfold Py.np_exp_div. rewrite decide_True by (simpl; lra).
      assert (Hd : Vertex.dist v c <> 0).
      { intros Hd. apply (Hoff i v Hv Hin), Hcentre, Hd. }
      rewrite decide_True.
      - simpl. f_equal. etransitivity; [| apply (set_height_same v)]. f_equal. lra.
      - assert (0 < Vertex.dist v c * Vertex.dist v c)
          by (destruct (Rtotal_order (Vertex.dist v c) 0) as [? | [? | ?]]; [nra | lra | nra]).
        simpl. lra. }
    rewrite Hm. simpl. f_equal. apply set_vertices_same.
  - intros -> (i & v & Hv & Hin & Hat). rewrite Hc in Hat. unfold add_hill. fold c.
    destruct (mapM _ (vertices w)) as [vs |] eqn:Hvs; [| reflexivity]. exfalso.
    apply mapM_Some_1 in Hvs. destruct (Forall2_lookup_l _ _ _ _ _ Hvs Hv) as (v' & _ & Hv').
    rewrite decide_True in Hv' by exact Hin.
    rewrite (proj2 (Hcentre v) Hat) in Hv'. unfold Py.np_exp_div in Hv'.
    rewrite decide_True in Hv' by (simpl; lra).
    rewrite decide_False in Hv' by (simpl; lra). discriminate.
Qed.

Lemma add_hill_raises_witness :
  (exists w',
     add_hill grid_world (0, 0) (Some (3, 1)) 0.5 false = Some w'
     /\ geometry w' = geometry grid_world
     /\ Vertex.flux <$> vertices w' = Vertex.flux <$> vertices grid_world
     /\ forall i v, vertices grid_world !! i = Some v ->
          exists v', vertices w' !! i = Some v'
            /\ (_check_coord grid_world (Vertex.coords v) ->
                Vertex.height v <= Vertex.height v' <= Vertex.height v + 1
                /\ (Vertex.coords v = default (0, 0) (Some (3, 1)) ->
                    Vertex.height v' = Vertex.height v + 1))
            /\ (~ _check_coord grid_world (Vertex.coords v) -> v' = v))
  /\ add_hill grid_world (0, 0) (Some (2, 2)) 0 false = Some grid_world
  /\ add_hill grid_world (0, 0) (Some (3, 1)) 0 false = None.
Proof.
  split; [| split].
  - apply (proj1 (add_hill_raises grid_world (0, 0) (Some (3, 1)) 0.5)). lra.
  - apply (proj1 (proj2 (add_hill_raises grid_world (0, 0) (Some (2, 2)) 0)) eq_refl).
    intros i v Hv _ Hat. simpl in Hat.
    do 6 (destruct i as [| i]; [injection Hv as <-; simpl in Hat; injection Hat as Hx Hy; lra |]).
    discriminate.
  - apply (proj2 (proj2 (add_hill_raises grid_world (0, 0) (Some (3, 1)) 0)) eq_refl).
    exists 1%nat, (Vertex.mk 1 (3, 1) {[0; 2; 4]}%nat {[1; 4]}%nat
                     {[0 := 1; 2 := 3; 4 := 5]}%nat 0 1).
    split; [reflexivity |]. split; [unfold _check_coord; simpl; lra | reflexivity].
Defined.


(** * Further properties of the rivers and of erosion *)

Lemma triangle_world_init : World_init triangle_voronoi (0, 2) (0, 2) = Some triangle_world.
Proof. rewrite World_init_exec_eq. vm_compute. reflexivity. Qed.

(** A loop fails when the body fails on one of its items, whatever the
    state the loop reaches it in. *)
Lemma for_each_fails {A S} (P : S -> Prop) (body : A -> S -> option S) items s x :
  x ∈ items ->
  (forall y t t', P t -> body y t = Some t' -> P t') ->
  (forall t, P t -> body x t = None) ->
  P s -> Py.for_each body items s = None.
Proof.
  intros Hx Hstep Hfail. revert s. induction items as [| y items IH]; intros s Hs.
  - inversion Hx.
  - simpl. destruct (body y s) as [s' |] eqn:Hy; [| reflexivity]. simpl.
    apply elem_of_cons in Hx as [-> | Hx].
    + rewrite (Hfail s Hs) in Hy. discriminate.
    + apply IH; [exact Hx | eapply Hstep; eauto].
Qed.

(** A loop whose body changes nothing changes nothing. *)
Lemma for_each_fixed {A S} (body : A -> S -> option S) items s :
  (forall x, x ∈ items -> body x s = Some s) -> Py.for_each body items s = Some s.
Proof.
  induction items as [| x items IH]; intros H; simpl; [reflexivity |].
  rewrite (H x ltac:(left)). simpl. apply IH. intros y Hy. apply H. right. exact Hy.
Qed.

(** ** [make_rivers] reads heights and geometry only *)

Lemma reset_rivers_dry w : reset_rivers (dry w) = reset_rivers w.
Proof.
  rewrite !reset_rivers_eq. unfold dry, set_ridges, set_vertices. simpl.
  rewrite length_fmap, <- !list_fmap_compose. reflexivity.
Qed.

Lemma dry_set_flux vs rs vs' rs' w :
  Vertex.set_flux 0 <$> vs' = Vertex.set_flux 0 <$> vs ->
  (fun kr : nat * Ridge.t => (kr.1, Ridge.set_flux 0 kr.2)) <$> rs'
  = (fun kr => (kr.1, Ridge.set_flux 0 kr.2)) <$> rs ->
  dry (set_ridges rs' (set_vertices vs' w)) = dry (set_ridges rs (set_vertices vs w)).
Proof. intros Hv Hr. unfold dry, set_ridges, set_vertices. simpl. rewrite Hv, Hr. reflexivity. Qed.

Lemma set_ridges_vertices_same w : set_ridges (ridges w) (set_vertices (vertices w) w) = w.
Proof. destruct w. reflexivity. Qed.

Lemma route_flux_dry i w w' : route_flux i w = Some w' -> dry w' = dry w.
Proof.
  unfold route_flux.
  destruct (vertices w !! i) as [v |]; [| discriminate]. simpl.
  destruct (decide _); [| intros [= <-]; reflexivity].
  destruct (deref _ _) as [ns |] eqn:Hns; [| discriminate]. simpl.
  destruct (Py.min_by _ ns) as [[lowest lv] |] eqn:Hmin; [| discriminate]. simpl.
  destruct (decide _); [| intros [= <-]; reflexivity].
  destruct (Vertex.ridges v !! Vertex.name lv) as [rk |]; [| discriminate]. simpl.
  destruct (Py.dict_get rk (ridges w)) as [ridge |] eqn:Hget; [| discriminate]. simpl.
  intros [= <-]. rewrite <- (set_ridges_vertices_same w) at 3. apply dry_set_flux.
  - apply deref_spec in Hns as [_ Hlook]. apply PyFacts.min_by_spec in Hmin as [Hmem _].
    eapply list_insert_fmap_id; [apply Hlook, Hmem | reflexivity].
  - eapply dict_set_fmap_id; [exact Hget | reflexivity].
Qed.

Lemma make_rivers_dry w w' : make_rivers w = Some w' -> dry w' = dry w.
Proof.
  unfold make_rivers. rewrite reset_rivers_eq. simpl. intros H.
  apply (PyFacts.for_each_inv (fun t => dry t = dry w)) in H; [exact H | |].
  - intros i t t' _ Ht Hi. rewrite <- Ht. eapply route_flux_dry, Hi.
  - unfold dry, set_ridges, set_vertices. simpl. rewrite <- !list_fmap_compose. reflexivity.
Qed.

Lemma make_rivers_of_dry w w' : dry w' = dry w -> make_rivers w' = make_rivers w.
Proof.
  intros H. unfold make_rivers.
  rewrite <- (reset_rivers_dry w'), <- (reset_rivers_dry w), H. reflexivity.
Qed.

(** X8: [make_rivers] is idempotent.  The pass starts from the reset fluxes
    and reads nothing but heights and geometry, so that running it again on
    its own result returns that result. *)
Theorem make_rivers_idempotent (w w1 : World) :
  make_rivers w = Some w1 -> make_rivers w1 = Some w1.
Proof.
  intros H. rewrite (make_rivers_of_dry w w1); [exact H |]. eapply make_rivers_dry, H.
Qed.

Lemma make_rivers_idempotent_witness : make_rivers river_world = Some river_world.
Proof. exact (make_rivers_idempotent kite_slope river_world river_world_reached). Defined.

(** X9: [make_rivers] raises on a vertex in bounds that has no neighbor:
    the minimum over its empty neighbor set does not exist, whatever the
    heights are. *)
Theorem make_rivers_isolated_vertex (w : World) (i : nat) (v : Vertex.t) :
  vertices w !! i = Some v ->
  _check_coord w (Vertex.coords v) ->
  Vertex.neighbors v = ∅ ->
  make_rivers w = None.
Proof.
  intros Hv Hin Hnb. unfold make_rivers.
  destruct (reset_rivers w) as [w0 |] eqn:Hreset; [| reflexivity]. simpl.
  pose proof (reset_rivers_geometry _ _ Hreset) as Hg0.
  apply (for_each_fails (fun t => geometry t = geometry w) route_flux _ w0 i).
  - assert (Hlen : (i < length (vertices w0))%nat).
    { unfold geometry in Hg0. injection Hg0 as Hvs _.
      rewrite (fmap_eq_length _ _ _ Hvs). eapply lookup_lt_Some, Hv. }
    destruct (lookup_lt_is_Some_2 _ _ Hlen) as [v0 Hv0].
    apply list_elem_of_fmap. exists (i, v0). split; [reflexivity |].
    unfold vertices_by_height. rewrite sorted_desc_perm.
    apply list_elem_of_lookup. exists i. apply enumerate_lookup. auto.
  - intros j t t' Ht Hj. rewrite <- Ht. eapply route_flux_geometry, Hj.
  - intros t Ht. unfold geometry in Ht. injection Ht as Hvs _ _ _ Hx Hy.
    symmetry in Hvs. destruct (fmap_eq_lookup _ _ _ _ _ Hvs Hv) as (v' & Hv' & [= _ Hc Hn _ _]).
    unfold route_flux. rewrite Hv'. simpl. rewrite decide_True.
    + rewrite Hn, Hnb, elements_empty. reflexivity.
    + unfold _check_coord in *. rewrite Hc, Hx, Hy. exact Hin.
  - exact Hg0.
Qed.

Lemma make_rivers_isolated_vertex_witness : make_rivers triangle_world = None.
Proof.
  apply (make_rivers_isolated_vertex triangle_world 0 (Vertex.mk 0 (1, 1) ∅ ∅ ∅ 0 1)).
  - reflexivity.
  - unfold _check_coord. simpl. lra.
  - reflexivity.
Defined.

(** X11: erosion needs rivers.  Right after [reset_rivers] no ridge carries
    flux, and an erosion pass returns the world as it is, whatever the cap
    and whatever the slopes, ridges of length zero included. *)
Theorem erode_after_reset (w : World) (max_total drop_factor : R) :
  (w0 ← reset_rivers w; erode_heights w0 max_total drop_factor) = reset_rivers w.
Proof.
  rewrite reset_rivers_eq. simpl. unfold erode_heights. apply for_each_fixed.
  intros rk Hrk. apply dict_get_is_Some in Hrk as [ridge Hget].
  unfold erode_ridge. rewrite Hget. simpl.
  apply dict_get_elem_of in Hget. simpl in Hget.
  apply list_elem_of_fmap in Hget as ([k r] & [= -> ->] & _). simpl.
  rewrite decide_True by reflexivity. reflexivity.
Qed.

(** ** Rivers run downhill *)

Lemma route_flux_Some_routes t i t' :
  mesh_ok t -> route_flux i t = Some t' -> routes t i t'.
Proof.
  intros Hok H.
  destruct (vertices t !! i) as [v |] eqn:Hv;
    [| unfold route_flux in H; rewrite Hv in H; discriminate].
  destruct (route_flux_routes t i v Hok Hv) as (t'' & H'' & Hr).
  - intros Hin Hempty. unfold route_flux in H. rewrite Hv in H. simpl in H.
    rewrite decide_True in H by exact Hin. rewrite Hempty, elements_empty in H.
    discriminate.
  - congruence.
Qed.

Lemma routes_downhill hs share t i t' :
  0 <= share -> routes t i t' -> downhill hs share t -> downhill hs share t'.
Proof.
  intros Hshare Hr (Hhs & Hvf & Hrf).
  destruct Hr as [v _ _ | v lowest lv _ _ _ _
                 | v lowest lv rk ridge Hv _ (_ & Hlv & _) Hlow _ Hget Hj];
    [split; auto | split; auto |].
  assert (Hfv : share <= Vertex.flux v).
  { rewrite Forall_forall in Hvf. apply Hvf. eapply list_elem_of_lookup_2, Hv. }
  assert (Hflv : share <= Vertex.flux lv).
  { rewrite Forall_forall in Hvf. apply Hvf. eapply list_elem_of_lookup_2, Hlv. }
  split; [| split]; simpl.
  - rewrite <- Hhs. eapply list_insert_fmap_id; [exact Hlv | reflexivity].
  - apply Forall_insert; [exact Hvf |]. simpl. lra.
  - intros k r. rewrite dict_get_set. destruct (decide (rk = k)) as [<- | Hne]; [| apply Hrf].
    intros [= <-]. simpl. destruct (Hrf rk ridge Hget) as [Hpos _]. split; [lra |].
    intros _.
    assert (Hi : hs !! i = Some (Vertex.height v))
      by (rewrite <- Hhs, list_lookup_fmap, Hv; reflexivity).
    assert (Hl : hs !! lowest = Some (Vertex.height lv))
      by (rewrite <- Hhs, list_lookup_fmap, Hlv; reflexivity).
    destruct Hj as [[-> ->] | [-> ->]].
    + exists (Vertex.height v), (Vertex.height lv). repeat split; try assumption. lra.
    + exists (Vertex.height lv), (Vertex.height v). repeat split; try assumption. lra.
Qed.

(** X10: rivers run downhill.  In a world the constructor has built and
    operations have worked on, a pass of [make_rivers] that returns has left
    the heights alone; every vertex holds at least its share [1/|V|] of the
    rain; no ridge holds a negative flux, and a ridge that carries flux
    joins two vertices of different heights. *)
Theorem rivers_run_downhill (np_percentile : list R -> R -> option R)
    (vor : Voronoi.t) (x_lim y_lim : R * R) (os : list operation) (w0 w w' : World) :
  World_init vor x_lim y_lim = Some w0 ->
  run_all np_percentile os w0 = Some w ->
  make_rivers w = Some w' ->
  Vertex.height <$> vertices w' = Vertex.height <$> vertices w
  /\ Forall (fun v => 1 / INR (length (vertices w)) <= Vertex.flux v) (vertices w')
  /\ forall k r, Py.dict_get k (ridges w') = Some r ->
       0 <= Ridge.flux r
       /\ (Ridge.flux r <> 0 ->
           exists v1 v2,
             vertices w' !! Ridge.end_1 r = Some v1 /\ vertices w' !! Ridge.end_2 r = Some v2
             /\ Vertex.height v1 <> Vertex.height v2).
Proof.
  intros Hinit Hrun Hrivers.
  destruct (reached_world _ _ _ _ _ _ _ Hinit Hrun) as [Hok _].
  set (share := 1 / INR (length (vertices w))).
  assert (Hshare : 0 <= share).
  { unfold share. destruct (vertices w) as [| v vs]; simpl length.
    - simpl. unfold Rdiv. rewrite Rinv_0. lra.
    - apply Rlt_le, Rdiv_lt_0_compat; [lra |]. apply lt_0_INR. lia. }
  unfold make_rivers in Hrivers. rewrite reset_rivers_eq in Hrivers. simpl in Hrivers.
  set (wr := set_ridges _ _) in Hrivers.
  assert (Hgr : geometry wr = geometry w).
  { apply (reset_rivers_geometry w). apply reset_rivers_eq. }
  assert (H : geometry w' = geometry w
              /\ downhill (Vertex.height <$> vertices w) share w').
  { apply (PyFacts.for_each_inv
             (fun t => geometry t = geometry w
                       /\ downhill (Vertex.height <$> vertices w) share t)
             route_flux (vertices_by_height wr).*1 wr w'); [| | exact Hrivers].
    - intros i t t' _ [Hg Hd] Hi.
      assert (Hr : routes t i t').
      { apply route_flux_Some_routes; [| exact Hi].
        eapply mesh_ok_links; [apply links_of_geometry, Hg | exact Hok]. }
      split; [rewrite <- Hg; eapply routes_geometry, Hr |].
      eapply routes_downhill; eauto.
    - split; [exact Hgr |]. unfold wr. split; [| split]; simpl.
      + rewrite <- list_fmap_compose. reflexivity.
      + apply Forall_fmap, Forall_forall. intros v _. simpl. unfold share. lra.
      + intros k r Hget. apply dict_get_elem_of in Hget.
        apply list_elem_of_fmap in Hget as ([k0 r0] & [= -> ->] & _). simpl.
        split; [lra | congruence]. }
  destruct H as [_ (Hhs & Hvf & Hrf)]. split; [exact Hhs |]. split; [exact Hvf |].
  intros k r Hget. destruct (Hrf k r Hget) as [Hpos Hwet]. split; [exact Hpos |].
  intros Hne. destruct (Hwet Hne) as (h1 & h2 & H1 & H2 & Hdiff).
  rewrite <- Hhs, list_lookup_fmap in H1, H2.
  destruct (vertices w' !! Ridge.end_1 r) as [v1 |]; [| discriminate].
  destruct (vertices w' !! Ridge.end_2 r) as [v2 |]; [| discriminate].
  injection H1 as <-. injection H2 as <-. eauto.
Qed.

Lemma rivers_run_downhill_witness :
  Vertex.height <$> vertices river_world = Vertex.height <$> vertices kite_slope
  /\ Forall (fun v => 1 / INR (length (vertices kite_slope)) <= Vertex.flux v)
            (vertices river_world)
  /\ forall k r, Py.dict_get k (ridges river_world) = Some r ->
       0 <= Ridge.flux r
       /\ (Ridge.flux r <> 0 ->
           exists v1 v2,
             vertices river_world !! Ridge.end_1 r = Some v1
             /\ vertices river_world !! Ridge.end_2 r = Some v2
             /\ Vertex.height v1 <> Vertex.height v2).
Proof.
  exact (rivers_run_downhill (fun _ _ => None) kite_voronoi (0, 4) (-1, 1)
           [AddSlope (0, 0) None (Some (1, 0)) false] kite_world kite_slope river_world
           kite_world_init kite_slope_run river_world_reached).
Defined.

(** * Further properties of the constructor *)

(** ** The three loops *)

Lemma make_vertices_bare vor x_lim y_lim :
  _make_vertices (mkWorld vor [] [] [] [] None x_lim y_lim 0) = bare_world vor x_lim y_lim.
Proof.
  set (w0 := mkWorld vor [] [] [] [] None x_lim y_lim 0).
  change (_make_vertices w0) with (set_vertices (vertices (_make_vertices w0)) w0).
  rewrite (make_vertices_eq w0) by reflexivity. reflexivity.
Qed.

Section BuildFrame.

Context {X : Type} (part : World -> X).
Hypothesis part_vertices : forall vs w, part (set_vertices vs w) = part w.
Hypothesis part_ridges : forall rs w, part (set_ridges rs w) = part w.
Hypothesis part_patches : forall ps w, part (set_patches ps w) = part w.

Lemma make_ridge_part x w w' : make_ridge x w = Some w' -> part w' = part w.
Proof using part_vertices part_ridges.
  destruct x as [i [kz jz]]. unfold make_ridge.
  destruct (decide _); [intros [= <-]; reflexivity |].
  destruct (Py.index _ kz) as [e1 |]; [| discriminate].
  destruct (Py.index _ jz) as [e2 |]; [| discriminate]. simpl.
  destruct (Ridge.init i e1 e2 (vertices w)) as [[ridge vs] |]; [| discriminate]. simpl.
  intros [= <-]. rewrite part_ridges. apply part_vertices.
Qed.

Lemma make_patch_part x w w' : make_patch x w = Some w' -> part w' = part w.
Proof using part_vertices part_patches.
  destruct x as [i region]. unfold make_patch.
  destruct (decide _); [intros [= <-]; reflexivity |].
  destruct (mapM _ region) as [pv |]; [| discriminate]. simpl.
  destruct (Patch.init i pv (vertices w)) as [[p vs] |]; [| discriminate]. simpl.
  intros [= <-]. rewrite part_patches. apply part_vertices.
Qed.

Lemma make_neighbor_part rk w w' : make_neighbor rk w = Some w' -> part w' = part w.
Proof using part_ridges part_patches.
  unfold make_neighbor.
  destruct (Py.dict_get rk (ridges w)) as [ridge |]; [| discriminate]. simpl.
  destruct (vertices w !! Ridge.end_1 ridge) as [v1 |]; [| discriminate]. simpl.
  destruct (vertices w !! Ridge.end_2 ridge) as [v2 |]; [| discriminate]. simpl.
  destruct (decide _); [intros [= <-]; reflexivity |].
  destruct (elements _) as [| p1 [| p2 [| ? ?]]]; try discriminate.
  destruct (Py.dict_get p1 (patches w)) as [P1 |]; [| discriminate]. simpl.
  destruct (Py.dict_get p2 _) as [P2 |]; [| discriminate]. simpl.
  intros [= <-]. rewrite part_ridges. apply part_patches.
Qed.

End BuildFrame.

Lemma World_init_stages vor x_lim y_lim w :
  World_init vor x_lim y_lim = Some w <->
  exists w2 w3,
    Py.for_each make_ridge (Py.enumerate (Voronoi.ridge_vertices vor))
                (bare_world vor x_lim y_lim) = Some w2
    /\ Py.for_each make_patch (Py.enumerate (Voronoi.regions vor)) w2 = Some w3
    /\ Py.for_each make_neighbor (ridges w3).*1 w3 = Some w.
Proof.
  unfold World_init. rewrite make_vertices_bare. unfold _make_ridges.
  change (voronoi (bare_world vor x_lim y_lim)) with vor.
  destruct (Py.for_each make_ridge _ _) as [w2 |] eqn:H2; simpl.
  2: { split; [discriminate | intros (? & ? & ? & _); discriminate]. }
  assert (Hv : voronoi w2 = vor).
  { apply (for_each_frame voronoi) in H2; [exact H2 |].
    intros x t t'. apply (make_ridge_part voronoi); reflexivity. }
  unfold _make_patches. rewrite Hv.
  destruct (Py.for_each make_patch _ _) as [w3 |] eqn:H3; simpl.
  2: { split; [discriminate | intros (? & ? & [= <-] & ? & _); congruence]. }
  unfold _make_neighbors. split.
  - intros H4. exists w2, w3. auto.
  - intros (? & ? & [= <-] & H3' & H4). congruence.
Qed.

(** ** The state of a new world *)

Lemma add_neighbor_but_links self nb k vs vs' :
  Vertex.add_neighbor self nb k vs = Some vs' ->
  vertex_but_links <$> vs' = vertex_but_links <$> vs.
Proof.
  unfold Vertex.add_neighbor.
  destruct (vs !! self) as [v |] eqn:Hv; [| discriminate].
  destruct (vs !! nb) as [n |]; [| discriminate]. simpl. intros [= <-].
  eapply list_insert_fmap_id; [exact Hv | reflexivity].
Qed.

Lemma make_ridge_but_links x w w' :
  make_ridge x w = Some w' ->
  vertex_but_links <$> vertices w' = vertex_but_links <$> vertices w
  /\ (Forall (fun kr : nat * Ridge.t => Ridge.flux kr.2 = 0 /\ Ridge.patches kr.2 = ∅)
             (ridges w) ->
      Forall (fun kr : nat * Ridge.t => Ridge.flux kr.2 = 0 /\ Ridge.patches kr.2 = ∅)
             (ridges w')).
Proof.
  destruct x as [i [kz jz]]. unfold make_ridge.
  destruct (decide _); [intros [= <-]; auto |].
  destruct (Py.index _ kz) as [e1 |]; [| discriminate].
  destruct (Py.index _ jz) as [e2 |]; [| discriminate]. simpl.
  unfold Ridge.init.
  destruct (Vertex.add_neighbor e1 e2 i (vertices w)) as [vs1 |] eqn:H1; [| discriminate].
  simpl.
  destruct (Vertex.add_neighbor e2 e1 i vs1) as [vs2 |] eqn:H2; [| discriminate]. simpl.
  intros [= <-]. simpl. split.
  - apply add_neighbor_but_links in H1, H2. congruence.
  - intros Hr. apply Forall_dict_set; [exact Hr | auto].
Qed.

(** The patches a vertex lists after [Patch(k, pv)]. *)
Lemma patch_init_patches k pv :
  forall vs vs' : list Vertex.t,
    Py.for_each (fun i vs => v ← vs !! i; Some (<[i := Vertex.add_patch k v]> vs)) pv vs
    = Some vs' ->
    forall a v', vs' !! a = Some v' ->
      exists v, vs !! a = Some v
        /\ forall q, q ∈ Vertex.patches v' <-> (q = k /\ a ∈ pv) \/ q ∈ Vertex.patches v.
Proof.
  induction pv as [| j pv IH]; intros vs vs' Hloop a v' Hv'.
  - injection Hloop as <-. exists v'. split; [exact Hv' |]. intros q. split; [auto |].
    intros [[_ H] | H]; [inversion H | exact H].
  - simpl in Hloop. destruct (vs !! j) as [u |] eqn:Hu; [| discriminate]. simpl in Hloop.
    destruct (IH _ _ Hloop a v' Hv') as (v1 & Hv1 & Hq).
    rewrite list_lookup_insert in Hv1. destruct (decide (j = a /\ (j < length vs)%nat)) as [[-> _] | Hne].
    + injection Hv1 as <-. exists u. split; [exact Hu |]. intros q. rewrite Hq. simpl.
      rewrite elem_of_union, elem_of_singleton, elem_of_cons. tauto.
    + exists v1. split; [exact Hv1 |]. intros q. rewrite Hq, elem_of_cons.
      assert (Hja : j <> a).
      { intros ->. apply Hne. split; [reflexivity |]. eapply lookup_lt_Some, Hu. }
      split; [tauto |]. intros [[-> [-> | Ha]] | Ha]; [congruence | auto | auto].
Qed.

Lemma make_patch_incident (regions : list (list Z)) coords pre x post w w' :
  Py.enumerate regions = pre ++ x :: post ->
  patches_inv coords pre w -> incident w -> make_patch x w = Some w' -> incident w'.
Proof.
  intros Henum (_ & Hold & _) Hinc Hstep. destruct x as [i region].
  assert (Hfresh : forall P, Py.dict_get i (patches w) = Some P -> False).
  { intros P HP. destruct (Hold i P HP) as (_ & region0 & Hin & _).
    destruct (enumerate_split _ _ _ _ Henum) as [_ Hne]. apply (Hne _ Hin). reflexivity. }
  unfold make_patch in Hstep. destruct (decide _); [injection Hstep as <-; exact Hinc |].
  destruct (mapM _ region) as [pv |]; [| discriminate]. simpl in Hstep.
  destruct (Patch.init i pv (vertices w)) as [[p vs] |] eqn:Hinit; [| discriminate].
  simpl in Hstep. injection Hstep as <-.
  pose proof (patch_init_spec _ _ _ _ _ Hinit) as (_ & cs & _ & _ & ->).
  unfold Patch.init in Hinit.
  destruct (Py.for_each _ pv (vertices w)) as [vs1 |] eqn:Hloop; [| discriminate].
  simpl in Hinit. destruct (mapM _ pv); [| discriminate]. simpl in Hinit.
  destruct (find_centroid _); [| discriminate]. simpl in Hinit. injection Hinit as _ <-.
  intros a v' q Hv'. simpl in Hv' |- *.
  destruct (patch_init_patches i pv _ _ Hloop a v' Hv') as (v & Hv & Hq).
  rewrite Hq, (Hinc a v q Hv), dict_get_set. destruct (decide (i = q)) as [<- | Hne].
  - split.
    + intros [[_ Ha] | (P & HP & _)]; [eauto | destruct (Hfresh P HP)].
    + intros (P & [= <-] & Ha). left. auto.
  - split; [intros [[-> _] | H]; [congruence | exact H] | auto].
Qed.

Lemma incident_shape w w' :
  vertices w' = vertices w ->
  patch_shape <$> patches w' = patch_shape <$> patches w ->
  incident w -> incident w'.
Proof.
  intros Hv Hs Hinc a v p. rewrite Hv. intros Ha. rewrite (Hinc a v p Ha). split.
  - intros (P & HP & Hin). symmetry in Hs.
    destruct (dict_get_fmap_eq patch_shape (fun x => x.1.1.1) _ _ _ _ ltac:(reflexivity) Hs HP)
      as (P' & HP' & [= _ Hvs _]). exists P'. split; [exact HP' |]. first [rewrite Hvs | rewrite <- Hvs]; exact Hin.
  - intros (P & HP & Hin).
    destruct (dict_get_fmap_eq patch_shape (fun x => x.1.1.1) _ _ _ _ ltac:(reflexivity) Hs HP)
      as (P' & HP' & [= _ Hvs _]). exists P'. split; [exact HP' |]. first [rewrite <- Hvs | rewrite Hvs]; exact Hin.
Qed.

Lemma incident_geometry w w' : geometry w' = geometry w -> incident w -> incident w'.
Proof.
  unfold geometry. intros [= Hv _ Hp _ _ _] Hinc a v' p Ha.
  destruct (fmap_eq_lookup _ _ _ _ _ Hv Ha) as (v & Hv0 & [= _ _ _ Hps _]).
  rewrite <- Hps, (Hinc a v p Hv0). split.
  - intros (P & HP & Hin). symmetry in Hp.
    destruct (dict_get_fmap_eq patch_fixed (fun x => x.1.1.1.1) _ _ _ _ ltac:(reflexivity) Hp HP)
      as (P' & HP' & [= _ Hvs _ _]). exists P'. split; [exact HP' |]. first [rewrite Hvs | rewrite <- Hvs]; exact Hin.
  - intros (P & HP & Hin).
    destruct (dict_get_fmap_eq patch_fixed (fun x => x.1.1.1.1) _ _ _ _ ltac:(reflexivity) Hp HP)
      as (P' & HP' & [= _ Hvs _ _]). exists P'. split; [exact HP' |]. first [rewrite <- Hvs | rewrite Hvs]; exact Hin.
Qed.

(** The world before the first patch neighbors are set. *)
Lemma before_neighbors vor x_lim0 y_lim0 w2 w3 :
  Py.for_each make_ridge (Py.enumerate (Voronoi.ridge_vertices vor))
              (bare_world vor x_lim0 y_lim0) = Some w2 ->
  Py.for_each make_patch (Py.enumerate (Voronoi.regions vor)) w2 = Some w3 ->
  Forall (fun v => Vertex.height v = 0 /\ Vertex.flux v = 1) (vertices w3)
  /\ Forall (fun kr : nat * Ridge.t => Ridge.flux kr.2 = 0 /\ Ridge.patches kr.2 = ∅)
            (ridges w3)
  /\ Forall (fun kp : nat * Patch.t =>
               Patch.neighbors kp.2 = [] /\ Patch._h kp.2 = None /\ Patch._slope kp.2 = None)
            (patches w3)
  /\ incident w3
  /\ ridges w3 = ridges w2
  /\ patches_inv (Voronoi.vertices vor) (Py.enumerate (Voronoi.regions vor)) w3.
Proof.
  intros H2 H3. set (w1 := bare_world vor x_lim0 y_lim0) in *.
  set (level := fun v => (Vertex.patches v, Vertex.height v, Vertex.flux v)).
  assert (Hv1 : level <$> vertices w1 = (fun _ => (∅, 0, 1)) <$> vertices w1).
  { unfold w1, bare_world. simpl. apply list_eq. intros i.
    rewrite !list_lookup_fmap, list_lookup_imap.
    destruct (Voronoi.vertices vor !! i); reflexivity. }
  assert (Hv2 : level <$> vertices w2 = level <$> vertices w1
                /\ Forall (fun kr : nat * Ridge.t => Ridge.flux kr.2 = 0 /\ Ridge.patches kr.2 = ∅)
                          (ridges w2)
                /\ patches w2 = [] /\ Vertex.coords <$> vertices w2 = Voronoi.vertices vor).
  { apply (PyFacts.for_each_inv
             (fun t => level <$> vertices t = level <$> vertices w1
                       /\ Forall (fun kr : nat * Ridge.t =>
                                    Ridge.flux kr.2 = 0 /\ Ridge.patches kr.2 = ∅) (ridges t)
                       /\ patches t = []
                       /\ Vertex.coords <$> vertices t = Voronoi.vertices vor)
             make_ridge _ w1 w2) with (3 := H2).
    - intros x t t' _ (Hl & Hr & Hp & Hc) Hx.
      pose proof (make_ridge_frame _ _ _ Hx) as (Hc' & Hp' & _).
      apply make_ridge_but_links in Hx as [Hl' Hr'].
      split; [| split; [auto | split; congruence]]. rewrite <- Hl.
      apply (fmap_proj_eq vertex_but_links (fun x => (x.1.1.2, x.1.2, x.2)));
        [reflexivity | exact Hl'].
    - split; [reflexivity |]. split; [constructor |]. split; [reflexivity |].
      unfold w1, bare_world. simpl. apply list_eq. intros i.
      rewrite list_lookup_fmap, list_lookup_imap.
      destruct (Voronoi.vertices vor !! i); reflexivity. }
  destruct Hv2 as (Hv2 & Hr2 & Hp2 & Hc2).
  set (flat := fun v => (Vertex.height v, Vertex.flux v)).
  assert (Hinc2 : incident w2).
  { intros a v p Hv. rewrite Hp2. simpl.
    assert (Hi : (level <$> vertices w2) !! a = Some (level v))
      by (rewrite list_lookup_fmap, Hv; reflexivity).
    rewrite Hv2, Hv1, list_lookup_fmap in Hi. destruct (vertices w1 !! a); [| discriminate].
    injection Hi as Hps _ _. rewrite <- Hps. split; [set_solver |].
    intros (P & HP & _). discriminate. }
  assert (Hv3 : (flat <$> vertices w3 = flat <$> vertices w2 /\ ridges w3 = ridges w2
                 /\ Forall (fun kp : nat * Patch.t =>
                              Patch.neighbors kp.2 = [] /\ Patch._h kp.2 = None
                              /\ Patch._slope kp.2 = None) (patches w3))
                /\ patches_inv (Voronoi.vertices vor) (Py.enumerate (Voronoi.regions vor)) w3
                /\ incident w3).
  { apply (for_each_inv_prefix
             (fun pre t => (flat <$> vertices t = flat <$> vertices w2 /\ ridges t = ridges w2
                            /\ Forall (fun kp : nat * Patch.t =>
                                         Patch.neighbors kp.2 = [] /\ Patch._h kp.2 = None
                                         /\ Patch._slope kp.2 = None) (patches t))
                           /\ patches_inv (Voronoi.vertices vor) pre t /\ incident t)
             make_patch (Py.enumerate (Voronoi.regions vor)) w2 w3) with (3 := H3).
    - intros pre [i region] post t t' Heq ((Hl & Hr & Hp) & Hinv & Hinc) Hx.
      split; [| split; [eapply make_patch_inv; eauto | eapply make_patch_incident; eauto]].
      pose proof (make_patch_links _ _ _ Hx) as [Hsame Hr'].
      split; [| split; [congruence |]].
      + rewrite <- Hl.
        apply (fmap_proj_eq vertex_but_patches (fun x => (x.1.2, x.2))); [reflexivity | exact Hsame].
      + unfold make_patch in Hx. destruct (decide _); [injection Hx as <-; exact Hp |].
        destruct (mapM _ region) as [pv |]; [| discriminate]. simpl in Hx.
        destruct (Patch.init i pv (vertices t)) as [[p vs] |] eqn:Hinit; [| discriminate].
        simpl in Hx. injection Hx as <-. simpl.
        apply patch_init_spec in Hinit as (_ & cs & _ & _ & ->).
        apply Forall_dict_set; [exact Hp | auto].
    - split; [split; [reflexivity | split; [reflexivity | rewrite Hp2; constructor]] |].
      split; [| exact Hinc2]. split; [exact Hc2 |]. split.
      + intros k p. rewrite Hp2. discriminate.
      + intros k region Hin. inversion Hin. }
  destruct Hv3 as ((Hv3 & Hr3 & Hp3) & Hinv3 & Hinc3).
  split; [| split; [rewrite Hr3; exact Hr2 | split; [| split; [| split]]; assumption]].
  assert (Hl : flat <$> vertices w3 = (fun _ => (0, 1)) <$> vertices w1).
  { rewrite Hv3.
    rewrite (fmap_proj_eq level (fun x => (x.1.2, x.2)) flat _ _ ltac:(reflexivity) Hv2).
    apply (f_equal (fmap (fun x : gset nat * R * R => (x.1.2, x.2)))) in Hv1.
    rewrite <- !list_fmap_compose in Hv1. exact Hv1. }
  apply Forall_lookup. intros i v Hv.
  assert (Hi : (flat <$> vertices w3) !! i = Some (flat v))
    by (rewrite list_lookup_fmap, Hv; reflexivity).
  rewrite Hl, list_lookup_fmap in Hi. destruct (vertices w1 !! i); [| discriminate].
  injection Hi as Ha Hb. auto.
Qed.

(** X1: the state of a new world.  When the constructor returns, the world
    holds one vertex for every vertex of the tessellation, at its
    coordinates, with height 0 and flux 1; no ridge carries flux; no patch
    remembers a height or a slope; the sea level is 0, the limits are those
    given, and both caches are empty. *)
Theorem new_world_is_flat_and_dry (vor : Voronoi.t) (x_lim0 y_lim0 : R * R) (w : World) :
  World_init vor x_lim0 y_lim0 = Some w ->
  voronoi w = vor /\ x_lim w = x_lim0 /\ y_lim w = y_lim0
  /\ sea_level w = 0 /\ _land_patches w = [] /\ _patch_network w = None
  /\ Vertex.coords <$> vertices w = Voronoi.vertices vor
  /\ Forall (fun v => Vertex.height v = 0 /\ Vertex.flux v = 1) (vertices w)
  /\ Forall (fun kr : nat * Ridge.t => Ridge.flux kr.2 = 0) (ridges w)
  /\ Forall (fun kp : nat * Patch.t => Patch._h kp.2 = None /\ Patch._slope kp.2 = None)
            (patches w).
Proof.
  intros Hinit. pose proof (World_init_built _ _ _ _ Hinit) as (_ & _ & _ & Hcoords & _).
  apply World_init_stages in Hinit as (w2 & w3 & H2 & H3 & H4).
  destruct (before_neighbors _ _ _ _ _ H2 H3) as (Hv3 & Hr3 & Hp3 & _).
  set (w1 := bare_world vor x_lim0 y_lim0) in *.
  assert (Hrest : world_rest w = world_rest w1).
  { apply (for_each_frame world_rest) in H2, H3, H4.
    - congruence.
    - intros x t t'. apply (make_neighbor_part world_rest); reflexivity.
    - intros x t t'. apply (make_patch_part world_rest); reflexivity.
    - intros x t t'. apply (make_ridge_part world_rest); reflexivity. }
  unfold world_rest in Hrest. injection Hrest as -> -> -> -> -> ->.
  do 6 (split; [reflexivity |]). split; [exact Hcoords |].
  assert (Hv4 : vertices w = vertices w3
                /\ Forall (fun kr : nat * Ridge.t => Ridge.flux kr.2 = 0) (ridges w)
                /\ Forall (fun kp : nat * Patch.t =>
                             Patch._h kp.2 = None /\ Patch._slope kp.2 = None) (patches w)).
  { apply (PyFacts.for_each_inv
             (fun t => vertices t = vertices w3
                       /\ Forall (fun kr : nat * Ridge.t => Ridge.flux kr.2 = 0) (ridges t)
                       /\ Forall (fun kp : nat * Patch.t =>
                                    Patch._h kp.2 = None /\ Patch._slope kp.2 = None)
                                 (patches t)) make_neighbor _ w3 w) with (3 := H4).
    - intros rk t t' _ (Hvs & Hr & Hp) Hx. unfold make_neighbor in Hx.
      destruct (Py.dict_get rk (ridges t)) as [ridge |] eqn:Hget; [| discriminate].
      simpl in Hx.
      destruct (vertices t !! Ridge.end_1 ridge) as [v1 |]; [| discriminate]. simpl in Hx.
      destruct (vertices t !! Ridge.end_2 ridge) as [v2 |]; [| discriminate]. simpl in Hx.
      destruct (decide _); [injection Hx as <-; auto |].
      destruct (elements _) as [| p1 [| p2 [| ? ?]]]; try discriminate.
      destruct (Py.dict_get p1 (patches t)) as [P1 |] eqn:H1; [| discriminate]. simpl in Hx.
      destruct (Py.dict_get p2 _) as [P2 |] eqn:H2'; [| discriminate]. simpl in Hx.
      injection Hx as <-. simpl. split; [exact Hvs |]. split.
      + apply Forall_dict_set; [exact Hr |]. simpl.
        apply dict_get_elem_of in Hget. rewrite Forall_forall in Hr. apply (Hr _ Hget).
      + assert (Hp1 : Forall (fun kp : nat * Patch.t =>
                                Patch._h kp.2 = None /\ Patch._slope kp.2 = None)
                             (Py.dict_set p1 (Patch.set_neighbor rk p2 P1) (patches t))).
        { apply Forall_dict_set; [exact Hp |]. simpl.
          apply dict_get_elem_of in H1. rewrite Forall_forall in Hp. apply (Hp _ H1). }
        apply Forall_dict_set; [exact Hp1 |]. simpl.
        apply dict_get_elem_of in H2'. rewrite Forall_forall in Hp1. apply (Hp1 _ H2').
    - split; [reflexivity |]. split.
      + eapply Forall_impl; [exact Hr3 |]. intros kr [Hf _]. exact Hf.
      + eapply Forall_impl; [exact Hp3 |]. intros kp (_ & Hh & Hs). auto. }
  destruct Hv4 as (Hv4 & Hr4 & Hp4). rewrite Hv4. auto.
Qed.

Lemma new_world_is_flat_and_dry_witness :
  voronoi grid_world = grid_voronoi /\ x_lim grid_world = (0, 6) /\ y_lim grid_world = (0, 4)
  /\ sea_level grid_world = 0 /\ _land_patches grid_world = []
  /\ _patch_network grid_world = None
  /\ Vertex.coords <$> vertices grid_world = Voronoi.vertices grid_voronoi
  /\ Forall (fun v => Vertex.height v = 0 /\ Vertex.flux v = 1) (vertices grid_world)
  /\ Forall (fun kr : nat * Ridge.t => Ridge.flux kr.2 = 0) (ridges grid_world)
  /\ Forall (fun kp : nat * Patch.t => Patch._h kp.2 = None /\ Patch._slope kp.2 = None)
            (patches grid_world).
Proof.
  exact (new_world_is_flat_and_dry grid_voronoi (0, 6) (0, 4) grid_world grid_world_init).
Defined.

(** X3: vertices and patches agree on incidence.  In a world the
    constructor has built and operations have worked on, a vertex lists a
    patch among its patches exactly when the patch exists and has the vertex
    among its bounding vertices. *)
Theorem vertex_patch_incidence (np_percentile : list R -> R -> option R)
    (vor : Voronoi.t) (x_lim y_lim : R * R) (os : list operation) (w0 w : World) :
  World_init vor x_lim y_lim = Some w0 ->
  run_all np_percentile os w0 = Some w ->
  forall a v p, vertices w !! a = Some v ->
    (p ∈ Vertex.patches v
     <-> exists P, Py.dict_get p (patches w) = Some P /\ a ∈ Patch.vertices P).
Proof.
  intros Hinit Hrun. apply (incident_geometry w0); [eapply run_all_geometry, Hrun |].
  apply World_init_stages in Hinit as (w2 & w3 & H2 & H3 & H4).
  destruct (before_neighbors _ _ _ _ _ H2 H3) as (_ & _ & _ & Hinc & _).
  assert (H : vertices w0 = vertices w3
              /\ patch_shape <$> patches w0 = patch_shape <$> patches w3).
  { apply (PyFacts.for_each_inv
             (fun t => vertices t = vertices w3
                       /\ patch_shape <$> patches t = patch_shape <$> patches w3)
             make_neighbor _ w3 w0) with (3 := H4); [| auto].
    intros rk t t' _ [Hv Hs] Hx. apply make_neighbor_shape in Hx as (Hv' & _ & Hs').
    split; congruence. }
  destruct H as [Hv Hs]. exact (incident_shape _ _ Hv Hs Hinc).
Qed.

Lemma vertex_patch_incidence_witness :
  (4%nat) ∈ Vertex.patches
              (Vertex.mk 1 (3, 1) {[0; 2; 4]}%nat {[1; 4]}%nat
                 {[0 := 1; 2 := 3; 4 := 5]}%nat 0.3 1)
  <-> exists P, Py.dict_get 4 (patches sloped_world) = Some P
                /\ (1%nat) ∈ Patch.vertices P.
Proof.
  apply (vertex_patch_incidence (fun _ _ => None) grid_voronoi (0, 6) (0, 4)
           [AddSlope (0, 0) None (Some (0.1, 0)) false] grid_world sloped_world
           grid_world_init).
  - unfold run_all. cbn [Py.for_each run]. rewrite sloped_world_reached. reflexivity.
  - reflexivity.
Defined.

(** * Patch adjacency *)

Lemma two_elements_size (N : gset nat) p q : p ∈ N -> q ∈ N -> p <> q -> (2 <= size N)%nat.
Proof.
  intros Hp Hq Hpq.
  assert (Hsub : ({[p]} ∪ {[q]} : gset nat) ⊆ N) by set_solver.
  apply subseteq_size in Hsub. rewrite size_union, !size_singleton in Hsub by set_solver.
  exact Hsub.
Qed.

Lemma shared_patches_same w w' ridge ridge' :
  vertices w' = vertices w ->
  Ridge.end_1 ridge' = Ridge.end_1 ridge -> Ridge.end_2 ridge' = Ridge.end_2 ridge ->
  shared_patches w' ridge' = shared_patches w ridge.
Proof. unfold shared_patches. intros -> -> ->. reflexivity. Qed.

Lemma make_neighbor_adjacency rk pre w w' :
  make_neighbor rk w = Some w' ->
  adjacency_sound w /\ ridge_patches_shared w /\ adjacency_complete w pre ->
  adjacency_sound w' /\ ridge_patches_shared w' /\ adjacency_complete w' (pre ++ [rk]).
Proof.
  unfold make_neighbor. intros Hstep (Hsound & Hshared & Hcomp).
  destruct (Py.dict_get rk (ridges w)) as [ridge |] eqn:Hget; [| discriminate].
  simpl in Hstep.
  destruct (vertices w !! Ridge.end_1 ridge) as [v1 |] eqn:Hv1; [| discriminate].
  simpl in Hstep.
  destruct (vertices w !! Ridge.end_2 ridge) as [v2 |] eqn:Hv2; [| discriminate].
  simpl in Hstep.
  set (N := Vertex.patches v1 ∩ Vertex.patches v2) in *.
  assert (HN : shared_patches w ridge = Some N).
  { unfold shared_patches. rewrite Hv1, Hv2. reflexivity. }
  destruct (decide (size N < 2)%nat) as [Hsmall | Hbig].
  { injection Hstep as <-. split; [exact Hsound |]. split; [exact Hshared |].
    intros r ridge0 N0 p q Hr Hget0 HN0 Hp Hq Hpq.
    apply elem_of_app in Hr as [Hr | Hr]; [eapply Hcomp; eauto |].
    apply list_elem_of_singleton in Hr. subst r. rewrite Hget in Hget0.
    injection Hget0 as <-. rewrite HN in HN0. injection HN0 as <-. exfalso.
    pose proof (two_elements_size N p q Hp Hq Hpq). lia. }
  destruct (elements N) as [| p1 [| p2 [| ? ?]]] eqn:Hel; try discriminate.
  assert (HN2 : forall x, x ∈ N <-> x = p1 \/ x = p2).
  { intros x. rewrite <- elem_of_elements, Hel, !elem_of_cons, elem_of_nil. tauto. }
  assert (Hne12 : p1 <> p2).
  { pose proof (NoDup_elements N) as Hnd. rewrite Hel in Hnd.
    apply NoDup_cons in Hnd as [Hnot _]. intros ->. apply Hnot. left. }
  destruct (Py.dict_get p1 (patches w)) as [P1 |] eqn:H1; [| discriminate]. simpl in Hstep.
  destruct (Py.dict_get p2 _) as [P2 |] eqn:H2; [| discriminate]. simpl in Hstep.
  rewrite dict_get_set_ne in H2 by exact Hne12.
  set (ridge' := Ridge.add_patch p2 (Ridge.add_patch p1 ridge)) in *.
  injection Hstep as Hw'.
  assert (Hvs' : vertices w' = vertices w) by (rewrite <- Hw'; reflexivity).
  assert (Hrs' : ridges w' = Py.dict_set rk ridge' (ridges w)) by (rewrite <- Hw'; reflexivity).
  assert (Hps' : patches w'
                 = Py.dict_set p2 (Patch.set_neighbor rk p1 P2)
                     (Py.dict_set p1 (Patch.set_neighbor rk p2 P1) (patches w)))
    by (rewrite <- Hw'; reflexivity).
  clear Hw'.
  assert (Hadj : forall p r q,
             adjacent w' p r q
             <-> (r = rk /\ ((p = p1 /\ q = p2) \/ (p = p2 /\ q = p1)))
                 \/ ((r <> rk \/ (p <> p1 /\ p <> p2)) /\ adjacent w p r q)).
  { intros p r q. unfold adjacent. rewrite Hps'. split.
    - intros (P & HP & Hr). rewrite !dict_get_set in HP.
      destruct (decide (p2 = p)) as [<- | Hp2].
      + injection HP as <-. simpl in Hr. rewrite dict_get_set in Hr.
        destruct (decide (rk = r)) as [<- | Hrk].
        * injection Hr as <-. left. auto.
        * right. split; [left; congruence |]. exists P2. auto.
      + destruct (decide (p1 = p)) as [<- | Hp1].
        * injection HP as <-. simpl in Hr. rewrite dict_get_set in Hr.
          destruct (decide (rk = r)) as [<- | Hrk].
          -- injection Hr as <-. left. auto.
          -- right. split; [left; congruence |]. exists P1. auto.
        * right. split; [right; split; congruence |]. exists P. auto.
    - intros [[-> [[-> ->] | [-> ->]]] | [Hside (P & HP & Hr)]].
      + exists (Patch.set_neighbor rk p2 P1).
        rewrite dict_get_set_ne by congruence. rewrite dict_get_set_eq.
        split; [reflexivity |]. simpl. apply dict_get_set_eq.
      + exists (Patch.set_neighbor rk p1 P2). rewrite dict_get_set_eq.
        split; [reflexivity |]. simpl. apply dict_get_set_eq.
      + rewrite !dict_get_set. destruct (decide (p2 = p)) as [<- | Hp2].
        * assert (P = P2) as -> by congruence. eexists. split; [reflexivity |]. simpl.
          rewrite dict_get_set_ne; [exact Hr |]. intros ->. destruct Hside as [? | [_ ?]]; congruence.
        * destruct (decide (p1 = p)) as [<- | Hp1].
          -- assert (P = P1) as -> by congruence. eexists. split; [reflexivity |]. simpl.
             rewrite dict_get_set_ne; [exact Hr |]. intros ->.
             destruct Hside as [? | [? _]]; congruence.
          -- exists P. auto. }
  assert (Hridge' : forall x, x ∈ Ridge.patches ridge' <-> x = p1 \/ x = p2).
  { intros x. unfold ridge'. simpl. specialize (Hshared rk ridge N Hget HN).
    specialize (HN2 x). set_solver. }
  assert (HN' : shared_patches w' ridge' = Some N).
  { rewrite <- HN. apply shared_patches_same; [exact Hvs' | reflexivity | reflexivity]. }
  split; [| split].
  - (* sound *)
    intros p r q Hpq. apply Hadj in Hpq as [[-> Hpq] | [Hside Hold]].
    + split; [destruct Hpq as [[-> ->] | [-> ->]]; congruence |].
      split; [apply Hadj; left; split; [reflexivity | tauto] |].
      exists ridge', N. rewrite Hrs', dict_get_set_eq. split; [reflexivity |].
      split; [exact HN' |]. split.
      * intros x. rewrite HN2. destruct Hpq as [[-> ->] | [-> ->]]; tauto.
      * intros x. rewrite Hridge'. destruct Hpq as [[-> ->] | [-> ->]]; tauto.
    + destruct (Hsound p r q Hold) as (Hpq & Hsym & ridge0 & N0 & Hget0 & HN0 & HNeq & HRp).
      assert (Hr : r <> rk).
      { intros ->. rewrite Hget in Hget0. injection Hget0 as <-.
        rewrite HN in HN0. injection HN0 as <-.
        assert (Hp : p = p1 \/ p = p2) by (apply HN2, HNeq; auto).
        destruct Hside as [? | [? ?]]; [congruence | tauto]. }
      split; [exact Hpq |]. split; [apply Hadj; right; auto |].
      exists ridge0, N0. rewrite Hrs', dict_get_set_ne by congruence.
      split; [exact Hget0 |]. split; [| auto].
      rewrite <- HN0. apply shared_patches_same; [exact Hvs' | reflexivity | reflexivity].
  - (* the ridges list shared patches only *)
    intros r ridge0 N0. rewrite Hrs', dict_get_set.
    destruct (decide (rk = r)) as [<- | Hr].
    + intros [= <-]. rewrite HN'. intros [= <-]. intros x. rewrite Hridge', HN2. tauto.
    + intros Hget0 HN0. apply (Hshared r ridge0 N0 Hget0). rewrite <- HN0. symmetry.
      apply shared_patches_same; [exact Hvs' | reflexivity | reflexivity].
  - (* complete *)
    intros r ridge0 N0 p q Hr. rewrite Hrs', dict_get_set.
    destruct (decide (rk = r)) as [<- | Hrk].
    + intros [= <-]. rewrite HN'. intros [= <-] Hp Hq Hpq. apply Hadj. left.
      split; [reflexivity |]. apply HN2 in Hp, Hq. destruct Hp, Hq; subst; tauto.
    + intros Hget0 HN0 Hp Hq Hpq. apply Hadj. right. split; [left; congruence |].
      apply elem_of_app in Hr as [Hr | Hr].
      * apply (Hcomp r ridge0 N0 p q Hr Hget0); [| assumption ..].
        rewrite <- HN0. symmetry.
        apply shared_patches_same; [exact Hvs' | reflexivity | reflexivity].
      * apply list_elem_of_singleton in Hr. congruence.
Qed.

(** Adjacency is read from the geometry. *)
Lemma adjacent_geometry w w' p r q :
  geometry w' = geometry w -> adjacent w p r q -> adjacent w' p r q.
Proof.
  unfold geometry. intros [= _ _ Hp _ _ _] (P & HP & Hr). symmetry in Hp.
  destruct (dict_get_fmap_eq patch_fixed (fun x => x.1.1.1.1) _ _ _ _ ltac:(reflexivity) Hp HP)
    as (P' & HP' & [= _ _ Hn _]).
  exists P'. split; [exact HP' |]. rewrite Hn. exact Hr.
Qed.

Lemma ridge_geometry w w' r ridge' :
  geometry w' = geometry w -> Py.dict_get r (ridges w') = Some ridge' ->
  exists ridge,
    Py.dict_get r (ridges w) = Some ridge
    /\ Ridge.patches ridge = Ridge.patches ridge'
    /\ shared_patches w ridge = shared_patches w' ridge'.
Proof.
  unfold geometry. intros [= Hv Hr _ _ _ _] Hget.
  destruct (dict_get_fmap_eq ridge_fixed (fun x => x.1.1.1.1) _ _ _ _ ltac:(reflexivity) Hr Hget)
    as (ridge & Hget0 & [= _ He1 He2 Hps]).
  exists ridge. split; [exact Hget0 |]. split; [exact Hps |].
  unfold shared_patches. rewrite He1, He2.
  assert (Hlook : forall i, (fun v => Vertex.patches v) <$> vertices w !! i
                            = (fun v => Vertex.patches v) <$> vertices w' !! i).
  { intros i. rewrite <- !list_lookup_fmap. f_equal. symmetry.
    apply (fmap_proj_eq vertex_fixed (fun x => x.1.2)); [reflexivity | exact Hv]. }
  pose proof (Hlook (Ridge.end_1 ridge')) as L1. pose proof (Hlook (Ridge.end_2 ridge')) as L2.
  destruct (vertices w !! Ridge.end_1 ridge'), (vertices w' !! Ridge.end_1 ridge');
    simpl in L1 |- *; try discriminate; [| reflexivity].
  destruct (vertices w !! Ridge.end_2 ridge'), (vertices w' !! Ridge.end_2 ridge');
    simpl in L2 |- *; try discriminate; [| reflexivity].
  injection L1 as ->. injection L2 as ->. reflexivity.
Qed.

Lemma adjacency_geometry w w' :
  geometry w' = geometry w ->
  adjacency_sound w /\ adjacency_complete w (ridges w).*1 ->
  adjacency_sound w' /\ adjacency_complete w' (ridges w').*1.
Proof.
  intros Hg [Hsound Hcomp]. pose proof (eq_sym Hg) as Hg'. split.
  - intros p r q Hpq. apply (adjacent_geometry _ _ _ _ _ Hg') in Hpq.
    destruct (Hsound p r q Hpq) as (Hne & Hsym & ridge & N & Hget & HN & HNeq & HRp).
    split; [exact Hne |]. split; [eapply adjacent_geometry; eauto |].
    destruct (ridge_geometry _ _ _ _ Hg' Hget) as (ridge' & Hget' & Hps & Hsh).
    exists ridge', N. split; [exact Hget' |]. split; [congruence |]. split; [exact HNeq |].
    rewrite Hps. exact HRp.
  - intros r ridge' N p q Hr Hget' HN Hp Hq Hpq.
    destruct (ridge_geometry _ _ _ _ Hg Hget') as (ridge & Hget & Hps & Hsh).
    apply (adjacent_geometry w w'); [exact Hg |].
    apply (Hcomp r ridge N p q); try assumption; [| congruence].
    apply dict_get_is_Some. eauto.
Qed.

(** X4: patch adjacency is symmetric.  In a world the constructor has built
    and operations have worked on, a patch [p] that lists [q] as its
    neighbor across a ridge is another patch than [q] and is listed by [q]
    across the same ridge; the two are the only patches that list both
    ends of that ridge, and the ridge lists the two.  Conversely, two
    different patches that list both ends of a ridge are neighbors across
    it. *)
Theorem patch_adjacency_symmetric (np_percentile : list R -> R -> option R)
    (vor : Voronoi.t) (x_lim y_lim : R * R) (os : list operation) (w0 w : World) :
  World_init vor x_lim y_lim = Some w0 ->
  run_all np_percentile os w0 = Some w ->
  adjacency_sound w /\ adjacency_complete w (ridges w).*1.
Proof.
  intros Hinit Hrun. apply (adjacency_geometry w0); [eapply run_all_geometry, Hrun |].
  apply World_init_stages in Hinit as (w2 & w3 & H2 & H3 & H4).
  destruct (before_neighbors _ _ _ _ _ H2 H3) as (_ & Hr3 & Hp3 & _).
  assert (H : (adjacency_sound w0 /\ ridge_patches_shared w0
               /\ adjacency_complete w0 (ridges w3).*1)
              /\ (ridges w0).*1 = (ridges w3).*1).
  { apply (for_each_inv_prefix
             (fun pre t => (adjacency_sound t /\ ridge_patches_shared t
                            /\ adjacency_complete t pre)
                           /\ (ridges t).*1 = (ridges w3).*1)
             make_neighbor (ridges w3).*1 w3 w0) with (3 := H4).
    - intros pre rk post t t' _ [Hinv Hkeys] Hx.
      split; [eapply make_neighbor_adjacency; eauto |].
      apply make_neighbor_shape in Hx as (_ & Hrl & _). rewrite <- Hkeys.
      apply (fmap_proj_eq ridge_links (fun x => x.1.1)); [reflexivity | exact Hrl].
    - split; [| reflexivity]. split; [| split].
      + intros p r q (P & HP & Hr). apply dict_get_elem_of in HP.
        rewrite Forall_forall in Hp3. destruct (Hp3 _ HP) as [Hnil _]. simpl in Hnil.
        rewrite Hnil in Hr. discriminate.
      + intros r ridge N Hget _. apply dict_get_elem_of in Hget.
        rewrite Forall_forall in Hr3. destruct (Hr3 _ Hget) as [_ Hempty]. simpl in Hempty.
        rewrite Hempty. set_solver.
      + intros r ridge N p q Hr. inversion Hr. }
  destruct H as [(Hs & _ & Hc) Hkeys]. rewrite Hkeys. auto.
Qed.

Lemma patch_adjacency_symmetric_witness :
  adjacency_sound sloped_world /\ adjacency_complete sloped_world (ridges sloped_world).*1.
Proof.
  apply (patch_adjacency_symmetric (fun _ _ => None) grid_voronoi (0, 6) (0, 4)
           [AddSlope (0, 0) None (Some (0.1, 0)) false] grid_world sloped_world
           grid_world_init).
  unfold run_all. cbn [Py.for_each run]. rewrite sloped_world_reached. reflexivity.
Defined.

(** * The tessellations the constructor accepts *)

(** A loop returns exactly when its body returns on every item. *)
Lemma for_each_is_Some {A S} (P : S -> Prop) (ok : A -> Prop)
    (body : A -> S -> option S) items :
  forall s,
    P s ->
    (forall x t, x ∈ items -> P t -> (is_Some (body x t) <-> ok x)) ->
    (forall x t t', x ∈ items -> P t -> body x t = Some t' -> P t') ->
    (is_Some (Py.for_each body items s) <-> forall x, x ∈ items -> ok x).
Proof.
  induction items as [| a items IH]; intros s Hs Hok Hstep.
  - simpl. split; [intros _ x Hx; inversion Hx | intros _; eexists; reflexivity].
  - simpl. destruct (body a s) as [s' |] eqn:Hb; simpl.
    + rewrite (IH s').
      * split.
        -- intros H x Hx. apply elem_of_cons in Hx as [-> | Hx]; [| apply H, Hx].
           apply (Hok a s); [left | exact Hs | rewrite Hb; eexists; reflexivity].
        -- intros H x Hx. apply H. right. exact Hx.
      * eapply Hstep; [left | exact Hs | exact Hb].
      * intros x t Hx. apply Hok. right. exact Hx.
      * intros x t t' Hx. apply Hstep. right. exact Hx.
    + split; [intros [? ?]; discriminate |]. intros H.
      specialize (H a ltac:(left)). apply (Hok a s) in H; [| left | exact Hs].
      rewrite Hb in H. destruct H; discriminate.
Qed.

(** ** The ridges *)

Lemma add_neighbor_is_Some self nb k (vs : list Vertex.t) :
  (self < length vs)%nat -> (nb < length vs)%nat ->
  exists vs', Vertex.add_neighbor self nb k vs = Some vs' /\ length vs' = length vs.
Proof.
  intros H1 H2. unfold Vertex.add_neighbor.
  destruct (lookup_lt_is_Some_2 vs self H1) as [v ->].
  destruct (lookup_lt_is_Some_2 vs nb H2) as [n ->]. simpl.
  eexists. split; [reflexivity |]. apply length_insert.
Qed.

Lemma make_ridge_is_Some n x t :
  length (vertices t) = n -> (is_Some (make_ridge x t) <-> ridge_indices_ok n x.2).
Proof.
  intros Hlen. destruct x as [i [kz jz]]. unfold make_ridge, ridge_indices_ok. simpl.
  destruct (decide (kz = (-1)%Z \/ jz = (-1)%Z)) as [Hinf | Hfin].
  { split; [auto | intros _; eexists; reflexivity]. }
  rewrite Hlen.
  destruct (Py.index n kz) as [e1 |] eqn:He1; simpl.
  2: { split; [intros [? ?]; discriminate | intros [? | [[? ?] _]]; [tauto | discriminate]]. }
  destruct (Py.index n jz) as [e2 |] eqn:He2; simpl.
  2: { split; [intros [? ?]; discriminate | intros [? | [_ [? ?]]]; [tauto | discriminate]]. }
  apply index_lt in He1, He2. rewrite <- Hlen in He1, He2.
  split; [intros _; right; split; eexists; reflexivity |]. intros _.
  unfold Ridge.init.
  destruct (add_neighbor_is_Some e1 e2 i (vertices t) He1 He2) as (vs1 & -> & Hl1). simpl.
  rewrite <- Hl1 in He1, He2.
  destruct (add_neighbor_is_Some e2 e1 i vs1 He2 He1) as (vs2 & -> & Hl2). simpl.
  eexists. reflexivity.
Qed.

Lemma make_ridge_length x t t' :
  make_ridge x t = Some t' -> length (vertices t') = length (vertices t).
Proof.
  intros H. apply make_ridge_frame in H as (Hc & _ & _).
  apply (fmap_eq_length _ _ _ Hc).
Qed.

Lemma make_ridge_all n (l : list (Z * Z)) pre x post w w' :
  Py.enumerate l = pre ++ x :: post ->
  length (vertices w) = n ->
  ridges_all n pre w -> make_ridge x w = Some w' -> ridges_all n (pre ++ [x]) w'.
Proof.
  intros Henum Hlen Hall Hstep. destruct x as [i0 [kz jz]].
  destruct (enumerate_split _ _ _ _ Henum) as [_ Hfresh].
  unfold make_ridge in Hstep. rewrite Hlen in Hstep.
  intros i kj e1 e2 Hin Hends. apply elem_of_app in Hin as [Hin | Hin].
  - destruct (Hall i kj e1 e2 Hin Hends) as (r & Hr & He).
    exists r. split; [| exact He].
    destruct (decide _); [injection Hstep as <-; exact Hr |].
    destruct (Py.index n kz); [| discriminate].
    destruct (Py.index n jz); [| discriminate]. simpl in Hstep.
    destruct (Ridge.init _ _ _ _) as [[ridge vs] |]; [| discriminate]. simpl in Hstep.
    injection Hstep as <-. simpl. rewrite dict_get_set_ne; [exact Hr |].
    intros <-. apply (Hfresh _ Hin). reflexivity.
  - apply list_elem_of_singleton in Hin. injection Hin as -> ->.
    unfold ridge_ends in Hends. simpl in Hends.
    destruct (decide _); [discriminate |].
    destruct (Py.index n kz) as [a |]; [| discriminate].
    destruct (Py.index n jz) as [b |]; [| discriminate]. simpl in Hends, Hstep.
    injection Hends as <- <-. unfold Ridge.init in Hstep.
    destruct (Vertex.add_neighbor a b i0 (vertices w)) as [vs1 |]; [| discriminate].
    simpl in Hstep.
    destruct (Vertex.add_neighbor b a i0 vs1) as [vs2 |]; [| discriminate]. simpl in Hstep.
    injection Hstep as <-. simpl. rewrite dict_get_set_eq. eexists. split; [reflexivity |]. auto.
Qed.

(** What the loop of [_make_ridges] leaves. *)
Lemma ridges_built vor x_lim0 y_lim0 w2 :
  Py.for_each make_ridge (Py.enumerate (Voronoi.ridge_vertices vor))
              (bare_world vor x_lim0 y_lim0) = Some w2 ->
  let n := length (Voronoi.vertices vor) in
  length (vertices w2) = n
  /\ (forall k r, Py.dict_get k (ridges w2) = Some r ->
        exists kj, kj ∈ Voronoi.ridge_vertices vor
                   /\ ridge_ends n kj = Some (Ridge.end_1 r, Ridge.end_2 r))
  /\ (forall kj e1 e2, kj ∈ Voronoi.ridge_vertices vor -> ridge_ends n kj = Some (e1, e2) ->
        exists k r, Py.dict_get k (ridges w2) = Some r
                    /\ Ridge.end_1 r = e1 /\ Ridge.end_2 r = e2).
Proof.
  intros H2 n. set (w1 := bare_world vor x_lim0 y_lim0) in *.
  assert (Hlen1 : length (vertices w1) = n) by apply length_imap.
  assert (H : (length (vertices w2) = n
               /\ forall k r, Py.dict_get k (ridges w2) = Some r ->
                    exists kj, (k, kj) ∈ Py.enumerate (Voronoi.ridge_vertices vor)
                               /\ ridge_ends n kj = Some (Ridge.end_1 r, Ridge.end_2 r))
              /\ ridges_all n (Py.enumerate (Voronoi.ridge_vertices vor)) w2).
  { apply (for_each_inv_prefix
             (fun pre t => (length (vertices t) = n
                            /\ forall k r, Py.dict_get k (ridges t) = Some r ->
                                 exists kj, (k, kj) ∈ pre
                                   /\ ridge_ends n kj = Some (Ridge.end_1 r, Ridge.end_2 r))
                           /\ ridges_all n pre t)
             make_ridge _ w1 w2) with (3 := H2).
    - intros pre x post t t' Heq [[Hlen Hkeys] Hall] Hx.
      split; [| eapply make_ridge_all; eauto].
      split; [rewrite (make_ridge_length _ _ _ Hx); exact Hlen |].
      destruct x as [i [kz jz]]. unfold make_ridge in Hx. rewrite Hlen in Hx.
      assert (Hmono : forall k r, Py.dict_get k (ridges t) = Some r ->
                exists kj, (k, kj) ∈ pre ++ [(i, (kz, jz))]
                           /\ ridge_ends n kj = Some (Ridge.end_1 r, Ridge.end_2 r)).
      { intros k r Hk. destruct (Hkeys k r Hk) as (kj & Hin & He).
        exists kj. split; [apply elem_of_app; left; exact Hin | exact He]. }
      destruct (decide (kz = (-1)%Z \/ jz = (-1)%Z)) as [Hinf | Hfin];
        [injection Hx as <-; exact Hmono |].
      destruct (Py.index n kz) as [a |] eqn:Ha; [| discriminate].
      destruct (Py.index n jz) as [b |] eqn:Hb; [| discriminate]. simpl in Hx.
      unfold Ridge.init in Hx.
      destruct (Vertex.add_neighbor a b i (vertices t)) as [vs1 |]; [| discriminate].
      simpl in Hx.
      destruct (Vertex.add_neighbor b a i vs1) as [vs2 |]; [| discriminate]. simpl in Hx.
      injection Hx as <-. simpl. intros k r. rewrite dict_get_set.
      destruct (decide (i = k)) as [<- | Hne]; [| apply Hmono].
      intros [= <-]. simpl. exists (kz, jz). split; [apply elem_of_app; right; left |].
      unfold ridge_ends. simpl. rewrite decide_False by exact Hfin. rewrite Ha, Hb. reflexivity.
    - split; [split; [exact Hlen1 | intros k r; discriminate] |].
      intros i kj e1 e2 Hin. inversion Hin. }
  destruct H as [[Hlen Hkeys] Hall]. split; [exact Hlen |]. split.
  - intros k r Hr. destruct (Hkeys k r Hr) as (kj & Hin & He). exists kj.
    split; [| exact He]. apply enumerate_elem_of in Hin. eapply list_elem_of_lookup_2, Hin.
  - intros kj e1 e2 Hin He. apply list_elem_of_lookup in Hin as [i Hi].
    apply enumerate_elem_of in Hi. destruct (Hall i kj e1 e2 Hi He) as (r & Hr & H1 & H2').
    exists i, r. auto.
Qed.

(** ** The patches *)

Lemma patch_init_is_Some k pv (vs : list Vertex.t) :
  pv <> [] -> (forall a, a ∈ pv -> (a < length vs)%nat) -> is_Some (Patch.init k pv vs).
Proof.
  intros Hne Hrange. unfold Patch.init.
  set (body := fun (i : nat) (vs : list Vertex.t) =>
                 v ← vs !! i; Some (<[i := Vertex.add_patch k v]> vs)).
  assert (Hloop : is_Some (Py.for_each body pv vs)).
  { apply (for_each_is_Some (fun t => length t = length vs)
             (fun a => (a < length vs)%nat) body pv vs); [reflexivity | | | exact Hrange].
    - intros a t _ Ht. unfold body. split.
      + intros [t' Ht']. destruct (t !! a) as [v |] eqn:Hv; [| discriminate].
        rewrite <- Ht. eapply lookup_lt_Some, Hv.
      + intros Ha. rewrite <- Ht in Ha. destruct (lookup_lt_is_Some_2 t a Ha) as [v ->].
        eexists. reflexivity.
    - intros a t t' _ Ht. unfold body. destruct (t !! a); [| discriminate]. simpl.
      intros [= <-]. rewrite length_insert. exact Ht. }
  destruct Hloop as [vs' Hloop]. fold body. rewrite Hloop. simpl.
  assert (Hlen : length vs' = length vs).
  { apply (PyFacts.for_each_inv (fun t => length t = length vs) body pv vs vs');
      [| reflexivity | exact Hloop].
    intros a t t' _ Ht. unfold body. destruct (t !! a); [| discriminate]. simpl.
    intros [= <-]. rewrite length_insert. exact Ht. }
  destruct (mapM (fun i => Vertex.coords <$> vs' !! i) pv) as [cs |] eqn:Hcs.
  - simpl. rewrite find_centroid_Some; [eexists; reflexivity |].
    apply mapM_Some_1, Forall2_length in Hcs. destruct cs, pv; simpl in *; congruence.
  - exfalso. apply mapM_None in Hcs. apply Exists_exists in Hcs as (a & Ha & Hnone).
    specialize (Hrange a Ha). rewrite <- Hlen in Hrange.
    destruct (lookup_lt_is_Some_2 vs' a Hrange) as [v Hv]. rewrite Hv in Hnone. discriminate.
Qed.

Lemma make_patch_is_Some n x t :
  length (vertices t) = n -> (is_Some (make_patch x t) <-> region_indices_ok n x.2).
Proof.
  intros Hlen. destruct x as [i region]. unfold make_patch, region_indices_ok. simpl.
  destruct (decide ((-1)%Z ∈ region \/ length region = 0%nat)) as [Hskip | Hkeep].
  { split; [auto | intros _; eexists; reflexivity]. }
  rewrite Hlen. destruct (mapM (Py.index n) region) as [pv |] eqn:Hpv; simpl.
  - split; [intros _; right; eexists; reflexivity |]. intros _.
    destruct (patch_init_is_Some i pv (vertices t)) as [[p vs] Hinit].
    + intros ->. apply mapM_Some_1, Forall2_length in Hpv. apply Hkeep. right. exact Hpv.
    + intros a Ha. apply mapM_Some_1 in Hpv. apply list_elem_of_lookup in Ha as [j Hj].
      destruct (Forall2_lookup_r _ _ _ _ _ Hpv Hj) as (z & _ & Hz).
      apply index_lt in Hz. lia.
    + rewrite Hinit. eexists. reflexivity.
  - split; [intros [? ?]; discriminate | intros [? | [? ?]]; [tauto | discriminate]].
Qed.

Lemma make_patch_length x t t' :
  make_patch x t = Some t' -> length (vertices t') = length (vertices t).
Proof.
  intros H. apply make_patch_links in H as [Hsame _]. apply (fmap_eq_length _ _ _ Hsame).
Qed.

Lemma enumerate_Forall {A} (Q : A -> Prop) (l : list A) :
  (forall x, x ∈ Py.enumerate l -> Q x.2) <-> Forall Q l.
Proof.
  split.
  - intros H. rewrite <- (enumerate_snd l). apply Forall_fmap, Forall_forall. exact H.
  - intros H x Hx. rewrite <- (enumerate_snd l) in H.
    rewrite Forall_fmap, Forall_forall in H. apply (H x Hx).
Qed.

(** ** The neighbors *)

Lemma size_le_2 (N : gset nat) :
  (size N <= 2)%nat
  <-> forall p1 p2 p3, p1 ∈ N -> p2 ∈ N -> p3 ∈ N -> p1 = p2 \/ p1 = p3 \/ p2 = p3.
Proof.
  split.
  - intros Hsize p1 p2 p3 H1 H2 H3.
    destruct (decide (p1 = p2)) as [| H12]; [auto |].
    destruct (decide (p1 = p3)) as [| H13]; [auto |].
    destruct (decide (p2 = p3)) as [| H23]; [auto |]. exfalso.
    assert (Hsub : ({[p1]} ∪ ({[p2]} ∪ {[p3]}) : gset nat) ⊆ N) by set_solver.
    apply subseteq_size in Hsub.
    rewrite size_union, size_union, !size_singleton in Hsub by set_solver. lia.
  - intros H. destruct (elements N) as [| a [| b [| c l]]] eqn:Hel.
    + change (size N) with (length (elements N)). rewrite Hel. simpl. lia.
    + change (size N) with (length (elements N)). rewrite Hel. simpl. lia.
    + change (size N) with (length (elements N)). rewrite Hel. simpl. lia.
    + exfalso. pose proof (NoDup_elements N) as Hnd. rewrite Hel in Hnd.
      assert (Ha : a ∈ N) by (apply elem_of_elements; rewrite Hel; set_solver).
      assert (Hb : b ∈ N) by (apply elem_of_elements; rewrite Hel; set_solver).
      assert (Hc : c ∈ N) by (apply elem_of_elements; rewrite Hel; set_solver).
      apply NoDup_cons in Hnd as [Hab Hnd]. apply NoDup_cons in Hnd as [Hbc _].
      destruct (H a b c Ha Hb Hc) as [-> | [-> | ->]].
      * apply Hab. left.
      * apply Hab. right. left.
      * apply Hbc. left.
Qed.

Lemma make_neighbor_is_Some w3 t rk :
  incident w3 ->
  (forall k r, Py.dict_get k (ridges w3) = Some r ->
     (Ridge.end_1 r < length (vertices w3))%nat /\ (Ridge.end_2 r < length (vertices w3))%nat) ->
  vertices t = vertices w3 ->
  ridge_links <$> ridges t = ridge_links <$> ridges w3 ->
  patch_shape <$> patches t = patch_shape <$> patches w3 ->
  rk ∈ (ridges w3).*1 ->
  (is_Some (make_neighbor rk t)
   <-> forall ridge N, Py.dict_get rk (ridges w3) = Some ridge ->
         shared_patches w3 ridge = Some N -> (size N <= 2)%nat).
Proof.
  intros Hinc Hrange Hvs Hrl Hps Hrk.
  apply dict_get_is_Some in Hrk as [ridge3 Hget3].
  symmetry in Hrl.
  destruct (dict_get_fmap_eq ridge_links (fun x => x.1.1) _ _ _ _ ltac:(reflexivity) Hrl Hget3)
    as (ridge & Hget & [= He1 He2]).
  destruct (Hrange rk ridge3 Hget3) as [Hl1 Hl2].
  destruct (lookup_lt_is_Some_2 _ _ Hl1) as [v1 Hv1].
  destruct (lookup_lt_is_Some_2 _ _ Hl2) as [v2 Hv2].
  set (N := Vertex.patches v1 ∩ Vertex.patches v2).
  assert (HN : shared_patches w3 ridge3 = Some N).
  { unfold shared_patches. rewrite Hv1, Hv2. reflexivity. }
  assert (Hexists : forall p, p ∈ N -> is_Some (Py.dict_get p (patches t))).
  { intros p Hp. apply elem_of_intersection in Hp as [Hp _].
    apply (Hinc _ _ _ Hv1) in Hp as (P & HP & _). symmetry in Hps.
    destruct (dict_get_fmap_eq patch_shape (fun x => x.1.1.1) _ _ _ _ ltac:(reflexivity) Hps HP)
      as (P' & HP' & _). eauto. }
  unfold make_neighbor. rewrite Hget. simpl. rewrite Hvs, He1, He2, Hv1, Hv2. simpl.
  fold N. split.
  - intros Hsome ridge0 N0 Hget0 HN0. rewrite Hget3 in Hget0. injection Hget0 as <-.
    rewrite HN in HN0. injection HN0 as <-.
    destruct (decide (size N < 2)%nat); [lia |].
    change (size N) with (length (elements N)).
    destruct (elements N) as [| p1 [| p2 [| ? ?]]]; simpl; try lia.
    destruct Hsome; discriminate.
  - intros Hok. specialize (Hok ridge3 N Hget3 HN).
    destruct (decide (size N < 2)%nat) as [| Hbig]; [eexists; reflexivity |].
    destruct (elements N) as [| p1 [| p2 [| p3 l]]] eqn:Hel;
      try (change (size N) with (length (elements N)) in Hok, Hbig;
           rewrite Hel in Hok, Hbig; simpl in Hok, Hbig; lia).
    assert (H1 : p1 ∈ N) by (apply elem_of_elements; rewrite Hel; left).
    assert (H2 : p2 ∈ N) by (apply elem_of_elements; rewrite Hel; right; left).
    destruct (Hexists p1 H1) as [P1 ->]. simpl. rewrite dict_get_set.
    destruct (decide (p1 = p2)); simpl; [eexists; reflexivity |].
    destruct (Hexists p2 H2) as [P2 ->]. simpl. eexists. reflexivity.
Qed.

Lemma cells_of_vertex vor w3 a v p :
  incident w3 ->
  patches_inv (Voronoi.vertices vor) (Py.enumerate (Voronoi.regions vor)) w3 ->
  vertices w3 !! a = Some v ->
  (p ∈ Vertex.patches v <-> cell_at vor p a).
Proof.
  intros Hinc (_ & Hold & Hall) Hv. rewrite (Hinc a v p Hv). split.
  - intros (P & HP & Ha).
    destruct (Hold p P HP) as (_ & region & Hin & Hfin & Hne & Hidx & _).
    exists region, (Patch.vertices P). apply enumerate_elem_of in Hin. auto.
  - intros (region & pv & Hreg & Hfin & Hne & Hidx & Ha).
    apply enumerate_elem_of in Hreg. destruct (Hall p region Hreg Hfin Hne) as [P HP].
    exists P. split; [exact HP |].
    destruct (Hold p P HP) as (_ & region' & Hin' & _ & _ & Hidx' & _).
    apply enumerate_elem_of in Hreg, Hin'. assert (region' = region) as -> by congruence.
    assert (Patch.vertices P = pv) as -> by congruence. exact Ha.
Qed.

(** X2: the tessellations the constructor accepts.  [World(...)] returns a
    world exactly when every ridge and every region of the tessellation
    that does not reach infinity names existing vertices only, and no three
    bounded regions name both ends of one ridge; otherwise an index or the
    unpacking of the two neighbors raises. *)
Theorem World_init_accepts (vor : Voronoi.t) (x_lim0 y_lim0 : R * R) :
  is_Some (World_init vor x_lim0 y_lim0) <-> well_formed vor.
Proof.
  set (n := length (Voronoi.vertices vor)).
  set (w1 := bare_world vor x_lim0 y_lim0).
  assert (Hlen1 : length (vertices w1) = n) by apply length_imap.
  (* the three loops, each on its own *)
  assert (Hstage1 : is_Some (Py.for_each make_ridge
                               (Py.enumerate (Voronoi.ridge_vertices vor)) w1)
                    <-> Forall (ridge_indices_ok n) (Voronoi.ridge_vertices vor)).
  { rewrite <- enumerate_Forall.
    apply (for_each_is_Some (fun t => length (vertices t) = n)); [exact Hlen1 | |].
    - intros x t _ Ht. apply make_ridge_is_Some, Ht.
    - intros x t t' _ Ht Hx. rewrite (make_ridge_length _ _ _ Hx). exact Ht. }
  assert (Hstage2 : forall w2, length (vertices w2) = n ->
             (is_Some (Py.for_each make_patch (Py.enumerate (Voronoi.regions vor)) w2)
              <-> Forall (region_indices_ok n) (Voronoi.regions vor))).
  { intros w2 Hlen2. rewrite <- enumerate_Forall.
    apply (for_each_is_Some (fun t => length (vertices t) = n)); [exact Hlen2 | |].
    - intros x t _ Ht. apply make_patch_is_Some, Ht.
    - intros x t t' _ Ht Hx. rewrite (make_patch_length _ _ _ Hx). exact Ht. }
  assert (Hstage3 : forall w2 w3,
             Py.for_each make_ridge (Py.enumerate (Voronoi.ridge_vertices vor)) w1 = Some w2 ->
             Py.for_each make_patch (Py.enumerate (Voronoi.regions vor)) w2 = Some w3 ->
             (is_Some (Py.for_each make_neighbor (ridges w3).*1 w3) <-> two_sided vor)).
  { intros w2 w3 H2 H3.
    destruct (ridges_built _ _ _ _ H2) as (Hlen2 & Hfrom & Hto). fold n in Hlen2, Hfrom, Hto.
    destruct (before_neighbors _ _ _ _ _ H2 H3) as (_ & _ & _ & Hinc & Hr3 & Hinv).
    assert (Hlen3 : length (vertices w3) = n).
    { destruct Hinv as (Hc & _). rewrite <- (length_fmap Vertex.coords), Hc. reflexivity. }
    assert (Hrange : forall k r, Py.dict_get k (ridges w3) = Some r ->
               (Ridge.end_1 r < length (vertices w3))%nat
               /\ (Ridge.end_2 r < length (vertices w3))%nat).
    { intros k r Hr. rewrite Hr3 in Hr. destruct (Hfrom k r Hr) as (kj & _ & He).
      unfold ridge_ends in He. destruct (decide _); [discriminate |].
      destruct (Py.index n kj.1) as [a |] eqn:Ha; [| discriminate].
      destruct (Py.index n kj.2) as [b |] eqn:Hb; [| discriminate].
      simpl in He. injection He as <- <-. apply index_lt in Ha, Hb. lia. }
    rewrite (for_each_is_Some
               (fun t => vertices t = vertices w3
                         /\ ridge_links <$> ridges t = ridge_links <$> ridges w3
                         /\ patch_shape <$> patches t = patch_shape <$> patches w3)
               (fun rk => forall ridge N, Py.dict_get rk (ridges w3) = Some ridge ->
                            shared_patches w3 ridge = Some N -> (size N <= 2)%nat)
               make_neighbor (ridges w3).*1 w3); [| auto | |].
    2: { intros rk t Hrk (Hv & Hr & Hp). apply make_neighbor_is_Some; assumption. }
    2: { intros rk t t' _ (Hv & Hr & Hp) Hx.
         apply make_neighbor_shape in Hx as (Hv' & Hr' & Hp'). repeat split; congruence. }
    split.
    - intros Hok kj e1 e2 p1 p2 p3 Hin Hends [C11 C12] [C21 C22] [C31 C32].
      destruct (Hto kj e1 e2 Hin Hends) as (k & r & Hr & <- & <-). rewrite <- Hr3 in Hr.
      destruct (Hrange k r Hr) as [Hl1 Hl2].
      destruct (lookup_lt_is_Some_2 _ _ Hl1) as [v1 Hv1].
      destruct (lookup_lt_is_Some_2 _ _ Hl2) as [v2 Hv2].
      assert (HN : shared_patches w3 r = Some (Vertex.patches v1 ∩ Vertex.patches v2)).
      { unfold shared_patches. rewrite Hv1, Hv2. reflexivity. }
      assert (Hk : k ∈ (ridges w3).*1) by (apply dict_get_is_Some; eauto).
      specialize (Hok k Hk r _ Hr HN).
      apply (proj1 (size_le_2 _) Hok); apply elem_of_intersection;
        split; eapply cells_of_vertex; eauto.
    - intros Htwo rk Hrk ridge N Hget HN. rewrite Hr3 in Hget.
      destruct (Hfrom rk ridge Hget) as (kj & Hin & Hends).
      unfold shared_patches in HN.
      destruct (vertices w3 !! Ridge.end_1 ridge) as [v1 |] eqn:Hv1; [| discriminate].
      destruct (vertices w3 !! Ridge.end_2 ridge) as [v2 |] eqn:Hv2; [| discriminate].
      simpl in HN. injection HN as <-. apply size_le_2. intros p1 p2 p3 H1 H2' H3'.
      apply elem_of_intersection in H1 as [H11 H12], H2' as [H21 H22], H3' as [H31 H32].
      apply (Htwo kj _ _ p1 p2 p3 Hin Hends);
        split; eapply cells_of_vertex; eauto. }
  unfold well_formed. fold n. split.
  - intros [w Hw]. apply World_init_stages in Hw as (w2 & w3 & H2 & H3 & H4).
    fold w1 in H2.
    pose proof (ridges_built _ _ _ _ H2) as (Hlen2 & _).
    split; [apply Hstage1; rewrite H2; eexists; reflexivity |].
    split; [apply (Hstage2 w2 Hlen2); rewrite H3; eexists; reflexivity |].
    apply (Hstage3 w2 w3 H2 H3). rewrite H4. eexists. reflexivity.
  - intros (Ha & Hb & Hc).
    apply Hstage1 in Ha as [w2 H2].
    pose proof (ridges_built _ _ _ _ H2) as (Hlen2 & _).
    apply (Hstage2 w2 Hlen2) in Hb as [w3 H3].
    apply (Hstage3 w2 w3 H2 H3) in Hc as [w H4].
    exists w. apply World_init_stages. exists w2, w3. auto.
Qed.

(** * The remembered heights and the network cache *)

Lemma land_step_read k acc w :
  land_step k (acc, w)
  = hw ← read_height k w;
    Some (if decide (sea_level w < hw.1) then acc ++ [k] else acc, hw.2).
Proof.
  unfold land_step, read_height.
  destruct (Py.dict_get k (patches w)) as [p |]; [| reflexivity]. simpl.
  destruct (Patch.height _ p) as [[h p'] |]; reflexivity.
Qed.

(** What every read of a patch height keeps is kept by [land_patches] and
    by [patch_network]. *)
Lemma land_patches_inv (Q : World -> Prop) w lp w' :
  (forall k t h t', read_height k t = Some (h, t') -> Q t -> Q t') ->
  (forall l t, Q t -> Q (set_land_patches l t)) ->
  land_patches w = Some (lp, w') -> Q w -> Q w'.
Proof.
  intros Hread Hset. unfold land_patches. destruct (decide _); [| intros [= _ <-]; auto].
  destruct (Py.for_each _ _ _) as [[lp' w1] |] eqn:Hloop; [| discriminate]. simpl.
  intros [= _ <-] Hw. apply Hset.
  apply (PyFacts.for_each_inv (fun st : list nat * World => Q st.2)
           land_step (patches w).*1 ([], w) (lp', w1)); [| exact Hw | exact Hloop].
  intros k [acc t] [acc' t'] _ Ht. rewrite land_step_read. simpl in *.
  destruct (read_height k t) as [[h u] |] eqn:Hk; [| discriminate]. simpl.
  intros [= _ <-]. eapply Hread; eauto.
Qed.

Lemma network_loop_inv (Q : World -> Prop) lp g w g' w' :
  (forall k t h t', read_height k t = Some (h, t') -> Q t -> Q t') ->
  Py.for_each network_patch lp (g, w) = Some (g', w') -> Q w -> Q w'.
Proof.
  intros Hread Hloop Hw.
  apply (PyFacts.for_each_inv (fun st : DiGraph.t * World => Q st.2)
           network_patch lp (g, w) (g', w')); [| exact Hw | exact Hloop].
  intros pk [g1 t] [g2 t'] _ Ht. unfold network_patch. simpl in *.
  destruct (Py.dict_get pk (patches t)) as [patch |]; [| discriminate]. simpl.
  apply (PyFacts.for_each_inv (fun st : DiGraph.t * World => Q st.2)
           (network_neighbor pk) (Patch.neighbors patch) (g1, t) (g2, t')); [| exact Ht].
  intros rq [g3 u] [g4 u'] _ Hu. unfold network_neighbor. simpl in *.
  destruct (read_height rq.2 u) as [[hq u1] |] eqn:H1; [| discriminate]. simpl.
  pose proof (Hread _ _ _ _ H1 Hu) as Hu1.
  destruct (decide _); [intros [= _ <-]; exact Hu1 |].
  destruct (Py.dict_get pk _); [| discriminate]. simpl.
  destruct (Py.dict_get rq.2 _); [| discriminate]. simpl.
  destruct (read_height rq.2 u1) as [[hq' u2] |] eqn:H2; [| discriminate]. simpl.
  destruct (read_height pk u2) as [[hp u3] |] eqn:H3; [| discriminate]. simpl.
  intros [= _ <-]. eapply Hread; [exact H3 |]. eapply Hread; eauto.
Qed.

Lemma patch_network_inv (Q : World -> Prop) w g w' :
  (forall k t h t', read_height k t = Some (h, t') -> Q t -> Q t') ->
  (forall l t, Q t -> Q (set_land_patches l t)) ->
  (forall g0 t, Q t -> Q (set_patch_network g0 t)) ->
  patch_network w = Some (g, w') -> Q w -> Q w'.
Proof.
  intros Hread Hland Hnet. unfold patch_network.
  destruct (_patch_network w); [intros [= _ <-]; auto |].
  destruct (land_patches w) as [[lp w1] |] eqn:H1; [| discriminate]. simpl.
  destruct (Py.for_each _ _ _) as [[g2 w2] |] eqn:H2; [| discriminate]. simpl.
  intros [= _ <-] Hw. apply Hnet. eapply network_loop_inv; [exact Hread | exact H2 |].
  eapply land_patches_inv; eauto.
Qed.

(** The operations that read no patch leave the patches alone. *)
Lemma run_patches np_percentile o w w' :
  o <> LandPatches -> o <> PatchNetwork ->
  run np_percentile o w = Some w' ->
  patches w' = patches w /\ _patch_network w' = _patch_network w
  /\ _land_patches w' = _land_patches w.
Proof.
  intros H1 H2 Hrun.
  set (part := fun t : World => (patches t, _patch_network t, _land_patches t)).
  enough (H : part w' = part w).
  { unfold part in H. injection H as -> -> ->. auto. }
  revert Hrun. destruct o; simpl; try congruence.
  - intros [= <-]. reflexivity.
  - apply (normalize_heights_frame part). reflexivity.
  - apply (add_slope_frame part). reflexivity.
  - apply (add_hill_frame part). reflexivity.
  - apply (make_rivers_frame part); reflexivity.
  - apply (for_each_frame part). intros rk t t'. apply (erode_ridge_frame part). reflexivity.
  - unfold set_sea_level. destruct (decide _); [intros [= <-]; reflexivity |].
    destruct (np_percentile _ _); [| discriminate]. simpl. intros [= <-]. reflexivity.
  - apply (for_each_frame part). intros i t t'. apply (clean_vertex_frame part). reflexivity.
  - apply (reset_rivers_frame part); reflexivity.
Qed.

(** ** A height once read stays *)

Lemma patch_height_sets vs p h p' : Patch.height vs p = Some (h, p') -> Patch._h p' = Some h.
Proof.
  unfold Patch.height. destruct (Patch._h p) as [h0 |] eqn:Hh.
  - intros [= <- <-]. exact Hh.
  - destruct (mapM _ _); [| discriminate]. simpl.
    destruct (Py.min_list _); [| discriminate]. simpl. intros [= <- <-]. reflexivity.
Qed.

Lemma read_height_remembers k w h w1 : read_height k w = Some (h, w1) -> remembers w1 k h.
Proof.
  unfold read_height.
  destruct (Py.dict_get k (patches w)) as [p |]; [| discriminate]. simpl.
  destruct (Patch.height _ p) as [[h' p'] |] eqn:Hh; [| discriminate]. simpl.
  intros [= <- <-]. exists p'. simpl. rewrite dict_get_set_eq.
  split; [reflexivity | eapply patch_height_sets, Hh].
Qed.

Lemma read_height_keeps k' t h' t' k h :
  read_height k' t = Some (h', t') -> remembers t k h -> remembers t' k h.
Proof.
  unfold read_height. intros Hread (p & Hp & Hh).
  destruct (Py.dict_get k' (patches t)) as [p0 |] eqn:Hp0; [| discriminate]. simpl in Hread.
  destruct (Patch.height _ p0) as [[h0 p0'] |] eqn:Hh0; [| discriminate]. simpl in Hread.
  injection Hread as _ <-. unfold remembers. simpl. rewrite dict_get_set.
  destruct (decide (k' = k)) as [-> | Hne]; [| eauto].
  exists p0'. split; [reflexivity |]. assert (p0 = p) as -> by congruence.
  unfold Patch.height in Hh0. rewrite Hh in Hh0. injection Hh0 as _ <-. exact Hh.
Qed.

Lemma remembers_view w k h : remembers w k h -> patch_height_view w k = Some h.
Proof.
  intros (p & Hp & Hh). unfold patch_height_view. rewrite Hp. simpl.
  unfold Patch.height. rewrite Hh. reflexivity.
Qed.

Lemma run_remembers np_percentile o w w' k h :
  run np_percentile o w = Some w' -> remembers w k h -> remembers w' k h.
Proof.
  intros Hrun Hrem.
  destruct o;
    try (match type of Hrun with
         | run _ ?o _ = _ =>
             destruct (run_patches np_percentile o w w' ltac:(discriminate)
                         ltac:(discriminate) Hrun) as (Hp & _ & _)
         end; unfold remembers; rewrite Hp; exact Hrem).
  - simpl in Hrun. destruct (land_patches w) as [[lp w1] |] eqn:H; [| discriminate].
    injection Hrun as <-.
    apply (land_patches_inv (fun t => remembers t k h) _ _ _) with (3 := H); auto.
    intros k' t h' t' Hk. eapply read_height_keeps, Hk.
  - simpl in Hrun. destruct (patch_network w) as [[g w1] |] eqn:H; [| discriminate].
    injection Hrun as <-.
    apply (patch_network_inv (fun t => remembers t k h) _ _ _) with (4 := H); auto.
    intros k' t h' t' Hk. eapply read_height_keeps, Hk.
Qed.

(** X12: a patch height once read is frozen.  After the [height] of a
    patch has been read, the patch reports that height after any sequence of
    operations, whatever they do to the heights of its vertices: nothing
    resets the remembered value. *)
Theorem patch_height_frozen (np_percentile : list R -> R -> option R)
    (k : nat) (w w1 w2 : World) (h : R) (os : list operation) :
  read_height k w = Some (h, w1) ->
  run_all np_percentile os w1 = Some w2 ->
  patch_height_view w2 k = Some h.
Proof.
  intros Hread Hrun. apply remembers_view.
  apply (PyFacts.for_each_inv (fun t => remembers t k h) (run np_percentile) os w1 w2);
    [| eapply read_height_remembers, Hread | exact Hrun].
  intros o t t' _ Ht Ho. eapply run_remembers; eauto.
Qed.

Lemma patch_height_frozen_witness :
  exists w1,
    read_height 1 coast_world = Some (0.1, w1)
    /\ patch_height_view (set_heights w1 5) 1 = Some 0.1.
Proof.
  assert (H : exists w1, read_height 1 coast_world = Some (0.1, w1)).
  { eexists. unfold coast_world, sloped_world. py_eval. reflexivity. }
  destruct H as [w1 H]. exists w1. split; [exact H |].
  exact (patch_height_frozen (fun _ _ => None) 1 coast_world w1 (set_heights w1 5) 0.1
           [SetHeights 5] H eq_refl).
Defined.

(** ** The network once built stays *)

Lemma patch_network_sets w g w1 :
  patch_network w = Some (g, w1) -> _patch_network w1 = Some g.
Proof.
  unfold patch_network. destruct (_patch_network w) as [g0 |] eqn:Hc.
  - intros [= <- <-]. exact Hc.
  - destruct (land_patches w) as [[lp t] |]; [| discriminate]. simpl.
    destruct (Py.for_each _ _ _) as [[g2 t2] |]; [| discriminate]. simpl.
    intros [= <- <-]. reflexivity.
Qed.

Lemma run_keeps_network np_percentile o w w' g :
  run np_percentile o w = Some w' -> _patch_network w = Some g -> _patch_network w' = Some g.
Proof.
  intros Hrun Hg.
  destruct o;
    try (match type of Hrun with
         | run _ ?o _ = _ =>
             destruct (run_patches np_percentile o w w' ltac:(discriminate)
                         ltac:(discriminate) Hrun) as (_ & Hn & _)
         end; congruence).
  - simpl in Hrun. destruct (land_patches w) as [[lp w1] |] eqn:H; [| discriminate].
    injection Hrun as <-.
    apply (land_patches_inv (fun t => _patch_network t = Some g) _ _ _) with (3 := H); auto.
    intros k' t h' t' Hk. apply (read_height_frame _patch_network) in Hk; [congruence |].
    reflexivity.
  - simpl in Hrun. unfold patch_network in Hrun. rewrite Hg in Hrun. simpl in Hrun.
    injection Hrun as <-. exact Hg.
Qed.

(** X14: the patch network is built once.  After [patch_network] has
    returned a graph, it returns that same graph after any sequence of
    operations, whatever they do to heights, sea level and land patches. *)
Theorem patch_network_cached (np_percentile : list R -> R -> option R)
    (w w1 w2 : World) (g : DiGraph.t) (os : list operation) :
  patch_network w = Some (g, w1) ->
  run_all np_percentile os w1 = Some w2 ->
  patch_network w2 = Some (g, w2).
Proof.
  intros Hnet Hrun.
  assert (H : _patch_network w2 = Some g).
  { apply (PyFacts.for_each_inv (fun t => _patch_network t = Some g)
             (run np_percentile) os w1 w2); [| eapply patch_network_sets, Hnet | exact Hrun].
    intros o t t' _ Ht Ho. eapply run_keeps_network; eauto. }
  unfold patch_network. rewrite H. reflexivity.
Qed.

Lemma coast_network_built : exists g w1, patch_network coast_world = Some (g, w1).
Proof.
  eexists _, _. unfold patch_network, land_patches, coast_world, sloped_world.
  py_eval. reflexivity.
Qed.

Lemma patch_network_cached_witness :
  exists g w1,
    patch_network coast_world = Some (g, w1)
    /\ patch_network (set_sea 0.45 (set_heights w1 0))
       = Some (g, set_sea 0.45 (set_heights w1 0)).
Proof.
  destruct coast_network_built as (g & w1 & H). exists g, w1. split; [exact H |].
  apply (patch_network_cached (fun _ _ => None) coast_world w1 _ g
           [SetHeights 0; SetSeaLevel 0.45] H).
  unfold run_all. cbn [Py.for_each run mbind option_bind]. unfold set_sea_level.
  rewrite decide_True by lra. reflexivity.
Defined.

(** * The coastline *)

Lemma clean_vertex_is_Some epsilon i t :
  mesh_ok t -> (i < length (vertices t))%nat -> is_Some (clean_vertex epsilon i t).
Proof.
  intros [_ Hsound] Hi. unfold clean_vertex.
  destruct (lookup_lt_is_Some_2 _ _ Hi) as [v Hv]. rewrite Hv. simpl.
  destruct (deref_is_Some (vertices t) (elements (Vertex.neighbors v))) as [ns Hns].
  { intros n Hn. apply elem_of_elements in Hn. destruct (Hsound i v n Hv) as [Hiff Hmap].
    apply Hiff in Hn as [rk Hrk]. destruct (Hmap rk Hrk) as (Hlt & _). exact Hlt. }
  rewrite Hns. simpl. repeat destruct (decide _); eexists; reflexivity.
Qed.

(** What one visit of [clean_coastline] does to the vertex it visits and to
    the others. *)
Lemma clean_vertex_spec epsilon i t t' :
  clean_vertex epsilon i t = Some t' ->
  sea_level t' = sea_level t
  /\ Vertex.flux <$> vertices t' = Vertex.flux <$> vertices t
  /\ (forall j, j <> i -> vertices t' !! j = vertices t !! j)
  /\ exists v v', vertices t !! i = Some v /\ vertices t' !! i = Some v'
       /\ (Vertex.height v' = Vertex.height v
           \/ (Vertex.height v < sea_level t /\ Vertex.height v' = sea_level t + epsilon)
           \/ (sea_level t < Vertex.height v /\ Vertex.height v' = sea_level t - epsilon)).
Proof.
  unfold clean_vertex.
  destruct (vertices t !! i) as [v |] eqn:Hv; [| discriminate]. simpl.
  destruct (deref _ _) as [ns |]; [| discriminate]. simpl.
  assert (Hi : (i < length (vertices t))%nat) by (eapply lookup_lt_Some, Hv).
  destruct (decide _) as [[Hlow _] |]; [| destruct (decide _) as [[Hhigh _] |]];
    intros [= <-]; simpl.
  - split; [reflexivity |]. split; [eapply list_insert_fmap_id; eauto |].
    split; [intros j Hj; apply list_lookup_insert_ne; congruence |].
    eexists v, _. split; [reflexivity |].
    split; [apply list_lookup_insert_eq; exact Hi |]. simpl. auto.
  - split; [reflexivity |]. split; [eapply list_insert_fmap_id; eauto |].
    split; [intros j Hj; apply list_lookup_insert_ne; congruence |].
    eexists v, _. split; [reflexivity |].
    split; [apply list_lookup_insert_eq; exact Hi |]. simpl. auto.
  - split; [reflexivity |]. split; [reflexivity |]. split; [reflexivity |].
    exists v, v. auto.
Qed.

(** X13: [clean_coastline] only moves vertices across the sea level.  In a
    world the constructor has built and operations have worked on, the pass
    returns; it leaves geometry, fluxes and sea level alone; and every
    vertex either keeps its height, or lay below the sea level and is now
    [epsilon] above it, or lay above and is now [epsilon] below it.  A
    vertex exactly at sea level is never moved. *)
Theorem clean_coastline_flips (np_percentile : list R -> R -> option R)
    (vor : Voronoi.t) (x_lim y_lim : R * R) (os : list operation) (w0 w : World)
    (epsilon : R) :
  World_init vor x_lim y_lim = Some w0 ->
  run_all np_percentile os w0 = Some w ->
  exists w',
    clean_coastline w epsilon = Some w'
    /\ geometry w' = geometry w /\ sea_level w' = sea_level w
    /\ Vertex.flux <$> vertices w' = Vertex.flux <$> vertices w
    /\ forall i v, vertices w !! i = Some v ->
         exists v', vertices w' !! i = Some v'
           /\ (Vertex.height v' = Vertex.height v
               \/ (Vertex.height v < sea_level w
                   /\ Vertex.height v' = sea_level w + epsilon)
               \/ (sea_level w < Vertex.height v
                   /\ Vertex.height v' = sea_level w - epsilon)).
Proof.
  intros Hinit Hrun. destruct (reached_world _ _ _ _ _ _ _ Hinit Hrun) as [Hok _].
  assert (Hsome : is_Some (clean_coastline w epsilon)).
  { unfold clean_coastline.
    apply (for_each_is_Some (fun t => geometry t = geometry w) (fun _ => True)
             (clean_vertex epsilon) (seq 0 (length (vertices w))) w); auto.
    - intros i t Hi Ht. split; [auto |]. intros _. apply clean_vertex_is_Some.
      + eapply mesh_ok_links; [apply links_of_geometry, Ht | exact Hok].
      + apply elem_of_seq in Hi. unfold geometry in Ht. injection Ht as Hvs _.
        rewrite (fmap_eq_length _ _ _ Hvs). lia.
    - intros i t t' _ Ht Hi. rewrite <- Ht. eapply clean_vertex_geometry, Hi. }
  destruct Hsome as [w' Hw']. exists w'. split; [exact Hw' |].
  split; [eapply clean_coastline_geometry, Hw' |].
  unfold clean_coastline in Hw'.
  assert (H : sea_level w' = sea_level w
              /\ Vertex.flux <$> vertices w' = Vertex.flux <$> vertices w
              /\ forall i v, vertices w !! i = Some v ->
                   exists v', vertices w' !! i = Some v'
                     /\ (i ∉ seq 0 (length (vertices w)) -> v' = v)
                     /\ (Vertex.height v' = Vertex.height v
                         \/ (Vertex.height v < sea_level w
                             /\ Vertex.height v' = sea_level w + epsilon)
                         \/ (sea_level w < Vertex.height v
                             /\ Vertex.height v' = sea_level w - epsilon))).
  { apply (for_each_inv_prefix
             (fun pre t =>
                sea_level t = sea_level w
                /\ Vertex.flux <$> vertices t = Vertex.flux <$> vertices w
                /\ forall i v, vertices w !! i = Some v ->
                     exists v', vertices t !! i = Some v'
                       /\ (i ∉ pre -> v' = v)
                       /\ (Vertex.height v' = Vertex.height v
                           \/ (Vertex.height v < sea_level w
                               /\ Vertex.height v' = sea_level w + epsilon)
                           \/ (sea_level w < Vertex.height v
                               /\ Vertex.height v' = sea_level w - epsilon)))
             (clean_vertex epsilon) (seq 0 (length (vertices w))) w w') with (3 := Hw').
    - intros pre i post t t' Heq (Hsea & Hflux & Hvs) Hi.
      assert (Hfresh : i ∉ pre).
      { pose proof (NoDup_seq 0 (length (vertices w))) as Hnd. rewrite Heq in Hnd.
        apply NoDup_app in Hnd as (_ & Hnot & _). intros Hin. apply (Hnot i Hin). left. }
      apply clean_vertex_spec in Hi as (Hsea' & Hflux' & Hother & u & u' & Hu & Hu' & Hcase).
      split; [congruence |]. split; [congruence |].
      intros j v Hv. destruct (Hvs j v Hv) as (vt & Hvt & Hsame & Hold).
      destruct (decide (j = i)) as [-> | Hne].
      + exists u'. split; [exact Hu' |]. split.
        * intros Hnot. exfalso. apply Hnot, elem_of_app. right. left.
        * assert (vt = v) as -> by (apply Hsame, Hfresh).
          assert (u = v) as -> by congruence. rewrite <- Hsea. exact Hcase.
      + exists vt. rewrite (Hother j Hne). split; [exact Hvt |]. split; [| exact Hold].
        intros Hnot. apply Hsame. intros Hin. apply Hnot, elem_of_app. left. exact Hin.
    - split; [reflexivity |]. split; [reflexivity |]. intros i v Hv. exists v. auto. }
  destruct H as (Hsea & Hflux & Hvs). split; [exact Hsea |]. split; [exact Hflux |].
  intros i v Hv. destruct (Hvs i v Hv) as (v' & Hv' & _ & Hcase). eauto.
Qed.

Lemma clean_coastline_flips_witness :
  exists w',
    clean_coastline coast_world 0.01 = Some w'
    /\ geometry w' = geometry coast_world /\ sea_level w' = sea_level coast_world
    /\ Vertex.flux <$> vertices w' = Vertex.flux <$> vertices coast_world
    /\ forall i v, vertices coast_world !! i = Some v ->
         exists v', vertices w' !! i = Some v'
           /\ (Vertex.height v' = Vertex.height v
               \/ (Vertex.height v < sea_level coast_world
                   /\ Vertex.height v' = sea_level coast_world + 0.01)
               \/ (sea_level coast_world < Vertex.height v
                   /\ Vertex.height v' = sea_level coast_world - 0.01)).
Proof.
  exact (clean_coastline_flips (fun _ _ => None) grid_voronoi (0, 6) (0, 4)
           [AddSlope (0, 0) None (Some (0.1, 0)) false; SetSeaLevel 0.1]
           grid_world coast_world 0.01 grid_world_init coast_world_run).
Defined.

(** * The patch network *)

(** ** Views *)

Lemma same_view_refl t : same_view t t.
Proof. repeat split. Qed.

Lemma same_view_trans t1 t2 t3 : same_view t3 t2 -> same_view t2 t1 -> same_view t3 t1.
Proof.
  intros (Hg & Hv & Hs) (Hg' & Hv' & Hs').
  split; [congruence | split; [intros k; rewrite Hv; apply Hv' | congruence]].
Qed.

Lemma read_height_same_view k t h t' :
  read_height k t = Some (h, t') -> same_view t' t /\ patch_height_view t k = Some h.
Proof.
  intros H. pose proof (read_height_geometry _ _ _ _ H) as Hg.
  apply read_height_view in H as (Hh & Hv & _ & Hs & _). repeat split; assumption.
Qed.

Lemma patch_of_geometry t' t k P' :
  geometry t' = geometry t -> Py.dict_get k (patches t') = Some P' ->
  exists P, Py.dict_get k (patches t) = Some P /\ patch_fixed (k, P) = patch_fixed (k, P').
Proof.
  unfold geometry. intros [= _ _ Hp _ _ _] HP'.
  exact (dict_get_fmap_eq patch_fixed (fun x => x.1.1.1.1) _ _ _ _ ltac:(reflexivity) Hp HP').
Qed.

Lemma keys_of_geometry t' t : geometry t' = geometry t -> (patches t').*1 = (patches t).*1.
Proof.
  unfold geometry. intros [= _ _ Hp _ _ _].
  apply (fmap_proj_eq patch_fixed (fun x => x.1.1.1.1)); [reflexivity | exact Hp].
Qed.

Lemma centroid_view_geometry t' t k :
  geometry t' = geometry t -> centroid_view t' k = centroid_view t k.
Proof.
  intros Hg. unfold centroid_view.
  destruct (Py.dict_get k (patches t')) as [P' |] eqn:HP'.
  - destruct (patch_of_geometry _ _ _ _ Hg HP') as (P & -> & [= _ _ _ Hc]). simpl. congruence.
  - destruct (Py.dict_get k (patches t)) as [P |] eqn:HP; [| reflexivity].
    destruct (patch_of_geometry _ _ _ _ (eq_sym Hg) HP) as (P' & HP'' & _). congruence.
Qed.

Lemma borders_geometry t' t p q : geometry t' = geometry t -> borders t p q -> borders t' p q.
Proof.
  intros Hg (P & r & HP & Hin).
  destruct (patch_of_geometry _ _ _ _ (eq_sym Hg) HP) as (P' & HP' & [= _ _ Hn _]).
  exists P', r. rewrite Hn. auto.
Qed.

Lemma edge_weight_same_view t' t p q : same_view t' t -> edge_weight t' p q = edge_weight t p q.
Proof.
  intros (Hg & Hv & _). unfold edge_weight.
  rewrite !(centroid_view_geometry _ _ _ Hg), !Hv. reflexivity.
Qed.

Lemma not_sea_same_view t' t k : same_view t' t -> not_sea t' k <-> not_sea t k.
Proof. intros (_ & Hv & Hs). unfold not_sea. rewrite Hv, Hs. reflexivity. Qed.

Lemma patches_ok_same_view t' t : same_view t' t -> patches_ok t -> patches_ok t'.
Proof.
  intros (Hg & Hv & _) (Hnames & Hnb & Hread). split; [| split].
  - intros k P' HP'. destruct (patch_of_geometry _ _ _ _ Hg HP') as (P & HP & [= Hn _ _ _]).
    rewrite <- Hn. apply (Hnames _ _ HP).
  - intros p q Hb. rewrite (keys_of_geometry _ _ Hg). apply (Hnb p).
    eapply borders_geometry; [symmetry; exact Hg | exact Hb].
  - intros k. rewrite (keys_of_geometry _ _ Hg), Hv. apply Hread.
Qed.

Lemma edges_of_same_view t' t done pk items a b wt :
  same_view t' t -> edges_of t' done pk items a b wt <-> edges_of t done pk items a b wt.
Proof.
  intros Hs. unfold edges_of.
  rewrite (not_sea_same_view _ _ _ Hs), (edge_weight_same_view _ _ _ _ Hs).
  destruct Hs as (Hg & _).
  assert (Hb : borders t' a b <-> borders t a b).
  { split; apply borders_geometry; congruence. }
  rewrite Hb. reflexivity.
Qed.

(** ** One neighbor *)

Lemma network_neighbor_spec pk r q g t :
  patches_ok t -> pk ∈ (patches t).*1 -> q ∈ (patches t).*1 ->
  exists t' hq wt,
    patch_height_view t q = Some hq /\ edge_weight t pk q = Some wt /\ same_view t' t
    /\ network_neighbor pk (r, q) (g, t)
       = Some (if decide (hq < sea_level t) then g else DiGraph.add_edge pk q wt g, t').
Proof.
  intros (Hnames & _ & Hread) Hpk Hq.
  destruct (Hread q Hq) as [hq Hhq]. destruct (Hread pk Hpk) as [hp Hhp].
  apply dict_get_is_Some in Hpk as [Pp HPp]. apply dict_get_is_Some in Hq as [Pq HPq].
  destruct (read_height_total q t hq Hhq) as [t1 H1].
  destruct (read_height_same_view _ _ _ _ H1) as [Hs1 _].
  pose proof Hs1 as (Hg1 & Hv1 & Hsea1).
  exists (if decide (hq < sea_level t) then t1
          else match read_height q t1 with
               | Some (_, t2) => match read_height pk t2 with
                                 | Some (_, t3) => t3 | None => t1 end
               | None => t1 end),
    hq, (Py.norm (Py.sub2 (Patch.centroid Pp) (Patch.centroid Pq)) * exp (hq - hp)).
  split; [exact Hhq |]. split.
  { unfold edge_weight, centroid_view. rewrite HPp, HPq, Hhp, Hhq. reflexivity. }
  unfold network_neighbor. cbn [snd]. rewrite H1. cbn [mbind option_bind]. rewrite Hsea1.
  destruct (decide (hq < sea_level t)) as [Hlow | Hhigh]; [split; [exact Hs1 | reflexivity] |].
  destruct (patch_of_geometry _ _ _ _ (eq_sym Hg1) HPp) as (P1 & HP1 & [= Hn1 _ _ Hc1]).
  destruct (patch_of_geometry _ _ _ _ (eq_sym Hg1) HPq) as (Q1 & HQ1 & [= Hm1 _ _ Hd1]).
  rewrite HP1, HQ1. cbn [mbind option_bind].
  destruct (read_height_total q t1 hq) as [t2 H2]; [rewrite Hv1; exact Hhq |].
  destruct (read_height_same_view _ _ _ _ H2) as [Hs2 _].
  rewrite H2. cbn [mbind option_bind].
  destruct (read_height_total pk t2 hp) as [t3 H3].
  { destruct Hs2 as (_ & Hv2 & _). rewrite Hv2, Hv1. exact Hhp. }
  destruct (read_height_same_view _ _ _ _ H3) as [Hs3 _].
  rewrite H3. cbn [mbind option_bind]. split.
  - eapply same_view_trans; [exact Hs3 |]. eapply same_view_trans; eauto.
  - rewrite Hn1, Hm1, (Hnames _ _ HPp), (Hnames _ _ HPq), Hc1, Hd1. reflexivity.
Qed.

(** ** The graph *)

Lemma graph_of_ext (E E' : nat -> nat -> R -> Prop) g :
  (forall a b x, E a b x <-> E' a b x) -> graph_of E g -> graph_of E' g.
Proof.
  intros Hext [He Hn]. split; [| exact Hn]. intros a b x. rewrite He. apply Hext.
Qed.

Lemma graph_of_add_edge (E E' : nat -> nat -> R -> Prop) g u v wt :
  graph_of E g ->
  (forall a b x, E' a b x <-> (a = u /\ b = v /\ x = wt) \/ ((a, b) <> (u, v) /\ E a b x)) ->
  graph_of E' (DiGraph.add_edge u v wt g).
Proof.
  intros [He Hn] HE'. unfold DiGraph.add_edge. split; simpl.
  - intros a b x. rewrite HE', lookup_insert.
    destruct (decide ((u, v) = (a, b))) as [[= <- <-] | Hne].
    + split; [intros [= <-]; auto |].
      intros [(_ & _ & ->) | [Hab _]]; [reflexivity | congruence].
    + rewrite He. split; [intros H; right; split; [congruence | exact H] |].
      intros [(-> & -> & _) | [_ H]]; [congruence | exact H].
  - intros x. rewrite !elem_of_union, !elem_of_singleton, Hn. split.
    + intros [-> | [-> | (y & Hy)]].
      * exists v. left. rewrite lookup_insert_eq. eexists; reflexivity.
      * exists u. right. rewrite lookup_insert_eq. eexists; reflexivity.
      * exists y. rewrite !lookup_insert. destruct Hy as [Hy | Hy]; [left | right];
          destruct (decide _); [eexists; reflexivity | exact Hy | eexists; reflexivity | exact Hy].
    + intros (y & Hy). rewrite !lookup_insert in Hy. destruct Hy as [Hy | Hy].
      * destruct (decide ((u, v) = (x, y))) as [[= <- <-] | Hne]; [auto |].
        right; right. exists y. auto.
      * destruct (decide ((u, v) = (y, x))) as [[= <- <-] | Hne]; [auto |].
        right; right. exists y. auto.
Qed.

(** ** The loops *)

Lemma inner_loop wa done pk :
  patches_ok wa -> pk ∈ (patches wa).*1 ->
  forall items pre g t,
    (forall r q, (r, q) ∈ items -> q ∈ (patches wa).*1) ->
    same_view t wa ->
    graph_of (edges_of wa done pk pre) g ->
    exists g' t',
      Py.for_each (network_neighbor pk) items (g, t) = Some (g', t')
      /\ same_view t' wa
      /\ graph_of (edges_of wa done pk (pre ++ items)) g'.
Proof.
  intros Hok Hpk. induction items as [| [r q] items IH]; intros pre g t Hkeys Hs Hg.
  - exists g, t. rewrite app_nil_r. auto.
  - pose proof Hs as (Hgeo & Hv & Hsea).
    destruct (network_neighbor_spec pk r q g t) as (t1 & hq & wt & Hhq & Hwt & Hs1 & Hstep).
    + eapply patches_ok_same_view; eauto.
    + rewrite (keys_of_geometry _ _ Hgeo). exact Hpk.
    + rewrite (keys_of_geometry _ _ Hgeo). apply (Hkeys r q). left.
    + rewrite (edge_weight_same_view _ _ _ _ Hs) in Hwt. rewrite Hv in Hhq. rewrite Hsea in Hstep.
      rewrite PyFacts.for_each_cons, Hstep. cbn [mbind option_bind].
      destruct (IH (pre ++ [(r, q)])
                   (if decide (hq < sea_level wa) then g else DiGraph.add_edge pk q wt g) t1)
        as (g' & t' & Hrun & Hs' & Hg').
      * intros r' q' Hin. apply (Hkeys r' q'). right. exact Hin.
      * eapply same_view_trans; eauto.
      * destruct (decide (hq < sea_level wa)) as [Hlow | Hhigh].
        -- eapply graph_of_ext; [| exact Hg]. intros a b x. unfold edges_of. split.
           ++ intros ([Hd | [-> (r' & Hr')]] & Hns & Hw); (split; [| auto]); [auto |].
              right. split; [reflexivity |]. exists r'. apply elem_of_app. auto.
           ++ intros ([Hd | [-> (r' & Hr')]] & Hns & Hw); (split; [| auto]); [auto |].
              apply elem_of_app in Hr' as [Hr' | Hr']; [eauto |].
              apply list_elem_of_singleton in Hr'. injection Hr' as -> ->.
              destruct Hns as (h' & Hh' & Hnot). rewrite Hhq in Hh'. injection Hh' as <-.
              contradiction.
        -- eapply graph_of_add_edge; [exact Hg |]. intros a b x. unfold edges_of. split.
           ++ intros (Hcl & Hns & Hw). destruct (decide ((a, b) = (pk, q))) as [[= -> ->] | Hne].
              ** left. rewrite Hwt in Hw. injection Hw as <-. auto.
              ** right. split; [exact Hne |]. split; [| auto].
                 destruct Hcl as [Hd | [-> (r' & Hr')]]; [auto |].
                 apply elem_of_app in Hr' as [Hr' | Hr']; [eauto |].
                 apply list_elem_of_singleton in Hr'. injection Hr' as -> ->. congruence.
           ++ intros [(-> & -> & ->) | (_ & [Hd | [-> (r' & Hr')]] & Hns & Hw)].
              ** split; [right; split; [reflexivity |]; exists r; apply elem_of_app; right; left |].
                 split; [exists hq; auto | exact Hwt].
              ** split; [auto | auto].
              ** split; [| auto]. right. split; [reflexivity |]. exists r'.
                 apply elem_of_app. auto.
      * exists g', t'. rewrite <- app_assoc in Hg'. auto.
Qed.

Lemma outer_loop wa :
  patches_ok wa ->
  forall lp done g t,
    (forall k, k ∈ lp -> k ∈ (patches wa).*1) ->
    same_view t wa ->
    graph_of (edges_of wa done 0 []) g ->
    exists g' t',
      Py.for_each network_patch lp (g, t) = Some (g', t')
      /\ same_view t' wa
      /\ graph_of (edges_of wa (done ++ lp) 0 []) g'.
Proof.
  intros Hok. induction lp as [| pk lp IH]; intros done g t Hkeys Hs Hg.
  - exists g, t. rewrite app_nil_r. auto.
  - pose proof Hs as (Hgeo & _). pose proof Hok as (_ & Hnb & _).
    assert (Hpk : pk ∈ (patches wa).*1) by (apply Hkeys; left).
    pose proof Hpk as Hpk'. apply dict_get_is_Some in Hpk' as [Pa HPa].
    destruct (patch_of_geometry _ _ _ _ (eq_sym Hgeo) HPa) as (Pt & HPt & [= _ _ Hn _]).
    destruct (inner_loop wa done pk Hok Hpk (Patch.neighbors Pt) [] g t)
      as (g1 & t1 & Hrun1 & Hs1 & Hg1).
    + intros r q Hin. apply (Hnb pk). exists Pa, r. rewrite <- Hn. auto.
    + exact Hs.
    + eapply graph_of_ext; [| exact Hg]. intros a b x. unfold edges_of. split.
      * intros ([Hd | [_ (r & Hr)]] & H); [auto | inversion Hr].
      * intros ([Hd | [_ (r & Hr)]] & H); [auto | inversion Hr].
    + destruct (IH (done ++ [pk]) g1 t1) as (g' & t' & Hrun & Hs' & Hg').
      * intros k Hk. apply Hkeys. right. exact Hk.
      * exact Hs1.
      * eapply graph_of_ext; [| exact Hg1]. intros a b x. unfold edges_of. simpl. split.
        -- intros ([Hd | [-> (r & Hr)]] & H); (split; [| exact H]); left.
           ++ split; [apply elem_of_app; left; tauto | tauto].
           ++ split; [apply elem_of_app; right; left |]. exists Pa, r. rewrite <- Hn. auto.
        -- intros ([[Hd Hb] | [_ (r & Hr)]] & H); [| inversion Hr]. split; [| exact H].
           apply elem_of_app in Hd as [Hd | Hd]; [auto |].
           apply list_elem_of_singleton in Hd. subst a. right. split; [reflexivity |].
           destruct Hb as (P & r & HP & Hin). exists r. rewrite Hn.
           assert (P = Pa) as -> by congruence. exact Hin.
      * exists g', t'. rewrite <- app_assoc in Hg'. split; [| auto].
        rewrite PyFacts.for_each_cons.
        change (network_patch pk (g, t))
          with (patch ← Py.dict_get pk (patches t);
                Py.for_each (network_neighbor pk) (Patch.neighbors patch) (g, t)).
        rewrite HPt. cbn [mbind option_bind]. rewrite Hrun1. exact Hrun.
Qed.

(** ** The patches of a world the constructor has built *)

Lemma dict_set_elem_of {V} k (v : V) d kv :
  kv ∈ Py.dict_set k v d -> kv = (k, v) \/ kv ∈ d.
Proof.
  induction d as [| [k' v'] d IH]; simpl.
  - intros H. apply list_elem_of_singleton in H. auto.
  - destruct (decide (k' = k)) as [-> | Hne]; intros H; apply elem_of_cons in H as [-> | H].
    + auto.
    + right. right. exact H.
    + right. left.
    + destruct (IH H) as [-> | H']; [auto | right; right; exact H'].
Qed.

Lemma make_neighbor_borders rk w w' :
  make_neighbor rk w = Some w' ->
  (forall p q, borders w p q -> q ∈ (patches w).*1) ->
  (forall p q, borders w' p q -> q ∈ (patches w').*1).
Proof.
  unfold make_neighbor. intros Hstep Hnb.
  destruct (Py.dict_get rk (ridges w)) as [ridge |]; [| discriminate]. simpl in Hstep.
  destruct (vertices w !! Ridge.end_1 ridge) as [v1 |]; [| discriminate]. simpl in Hstep.
  destruct (vertices w !! Ridge.end_2 ridge) as [v2 |]; [| discriminate]. simpl in Hstep.
  destruct (decide _); [injection Hstep as <-; exact Hnb |].
  destruct (elements _) as [| p1 [| p2 [| ? ?]]]; try discriminate.
  destruct (Py.dict_get p1 (patches w)) as [P1 |] eqn:H1; [| discriminate]. simpl in Hstep.
  destruct (Py.dict_get p2 _) as [P2 |] eqn:H2; [| discriminate]. simpl in Hstep.
  injection Hstep as <-. simpl.
  assert (Hk1 : p1 ∈ (patches w).*1) by (apply dict_get_is_Some; eauto).
  assert (Hkeys1 : (Py.dict_set p1 (Patch.set_neighbor rk p2 P1) (patches w)).*1
                   = (patches w).*1) by (apply dict_set_keys_present, Hk1).
  assert (Hk2 : p2 ∈ (patches w).*1).
  { rewrite <- Hkeys1. apply dict_get_is_Some. eauto. }
  rewrite dict_set_keys_present by (rewrite Hkeys1; exact Hk2). rewrite Hkeys1.
  intros p q (P & r & HP & Hin). simpl in HP. rewrite dict_get_set in HP.
  destruct (decide (p2 = p)) as [<- | Hp2].
  - injection HP as <-. simpl in Hin. apply dict_set_elem_of in Hin as [[= _ ->] | Hin];
      [exact Hk1 |].
    rewrite dict_get_set in H2. destruct (decide (p1 = p2)) as [<- | Hne].
    + injection H2 as <-. simpl in Hin. apply dict_set_elem_of in Hin as [[= _ ->] | Hin];
        [exact Hk1 |]. apply (Hnb p1). exists P1, r. auto.
    + apply (Hnb p2). exists P2, r. auto.
  - rewrite dict_get_set in HP. destruct (decide (p1 = p)) as [<- | Hp1].
    + injection HP as <-. simpl in Hin. apply dict_set_elem_of in Hin as [[= _ ->] | Hin];
        [exact Hk2 |]. apply (Hnb p1). exists P1, r. auto.
    + apply (Hnb p). exists P, r. auto.
Qed.

Lemma for_each_snoc {A S} (body : A -> S -> option S) items x s :
  Py.for_each body (items ++ [x]) s = (t ← Py.for_each body items s; body x t).
Proof.
  revert s. induction items as [| y items IH]; intros s; simpl.
  - destruct (body x s); reflexivity.
  - destruct (body y s); simpl; [apply IH | reflexivity].
Qed.

Lemma land_patches_spec w :
  (forall k, k ∈ (patches w).*1 -> is_Some (patch_height_view w k)) ->
  exists wa,
    land_patches w = Some (land_list w, wa)
    /\ same_view wa w
    /\ _land_patches wa = land_list w
    /\ _patch_network wa = _patch_network w.
Proof.
  intros Hread. unfold land_patches, land_list.
  destruct (decide (length (_land_patches w) = 0%nat)) as [Hempty | Hfull].
  - destruct (land_loop (patches w).*1 [] w Hread) as (t' & Hrun & Hview & _ & Hsea & _).
    simpl in Hrun. rewrite Hrun. simpl. eexists. split; [reflexivity |].
    assert (Hg : geometry t' = geometry w).
    { apply (PyFacts.for_each_inv (fun st : list nat * World => geometry st.2 = geometry w)
               land_step (patches w).*1 ([], w) (_, t')) with (3 := Hrun); [| reflexivity].
      intros k [acc t] [acc' u] _ Ht Hk. simpl in *. rewrite <- Ht.
      eapply land_step_geometry, Hk. }
    split; [split; [exact Hg | split; [exact Hview | exact Hsea]] |].
    split; [reflexivity |].
    apply (PyFacts.for_each_inv
             (fun st : list nat * World => _patch_network st.2 = _patch_network w)
             land_step (patches w).*1 ([], w) (_, t')) with (3 := Hrun); [| reflexivity].
    intros k [acc t] [acc' u] _ Ht. rewrite land_step_read. simpl in *.
    destruct (read_height k t) as [[h x] |] eqn:Hk; [| discriminate]. simpl.
    intros [= _ <-]. apply (read_height_frame _patch_network) in Hk; [congruence | reflexivity].
  - exists w. split; [reflexivity |]. split; [apply same_view_refl | auto].
Qed.

(** A world the constructor has built and operations have worked on files
    its patches under their names, lists existing patches as neighbors, can
    read every patch height, and caches existing land patches only. *)
Lemma reached_patches np_percentile vor x_lim y_lim os w0 w :
  World_init vor x_lim y_lim = Some w0 ->
  run_all np_percentile os w0 = Some w ->
  patches_ok w /\ land_cache_ok w.
Proof.
  intros Hinit Hrun.
  pose proof (run_all_geometry _ _ _ _ Hrun) as Hg.
  split; [split; [| split] |].
  - (* names *)
    apply World_init_built in Hinit as (_ & _ & _ & _ & Hold & _).
    intros k P HP. destruct (patch_of_geometry _ _ _ _ Hg HP) as (P0 & HP0 & [= Hn _ _ _]).
    rewrite <- Hn. apply (Hold k P0 HP0).
  - (* neighbors exist *)
    assert (H0 : forall p q, borders w0 p q -> q ∈ (patches w0).*1).
    { apply World_init_stages in Hinit as (w2 & w3 & H2 & H3 & H4).
      destruct (before_neighbors _ _ _ _ _ H2 H3) as (_ & _ & Hp3 & _).
      apply (PyFacts.for_each_inv (fun t => forall p q, borders t p q -> q ∈ (patches t).*1)
               make_neighbor (ridges w3).*1 w3 w0) with (3 := H4).
      - intros rk t t' _ Ht Hx. eapply make_neighbor_borders; eauto.
      - intros p q (P & r & HP & Hin). apply dict_get_elem_of in HP.
        rewrite Forall_forall in Hp3. destruct (Hp3 _ HP) as [Hnil _]. simpl in Hnil.
        rewrite Hnil in Hin. inversion Hin. }
    intros p q Hb. rewrite (keys_of_geometry _ _ Hg). apply (H0 p).
    eapply borders_geometry; [symmetry; exact Hg | exact Hb].
  - eapply reached_readable; eauto.
  - (* the land cache *)
    assert (H : (fun t => exists pre, run_all np_percentile pre w0 = Some t) w
                /\ land_cache_ok w).
    { apply (PyFacts.for_each_inv
               (fun t => (exists pre, run_all np_percentile pre w0 = Some t) /\ land_cache_ok t)
               (run np_percentile) os w0 w) with (3 := Hrun).
      - intros o t t' _ [(pre & Hpre) Hcache] Ho.
        split; [exists (pre ++ [o]); unfold run_all; rewrite for_each_snoc;
                fold (run_all np_percentile pre w0); rewrite Hpre; exact Ho |].
        pose proof (reached_readable _ _ _ _ _ _ _ Hinit Hpre) as Hread.
        destruct o;
          try (match type of Ho with
               | run _ ?o _ = _ =>
                   destruct (run_patches np_percentile o t t' ltac:(discriminate)
                               ltac:(discriminate) Ho) as (Hp & _ & Hl)
               end; unfold land_cache_ok; rewrite Hp, Hl; exact Hcache).
        + simpl in Ho. destruct (land_patches_spec t Hread) as (wa & Hland & Hs & Hl & _).
          rewrite Hland in Ho. injection Ho as <-. unfold land_cache_ok. rewrite Hl.
          destruct Hs as (Hgeo & _). rewrite (keys_of_geometry _ _ Hgeo).
          unfold land_list. destruct (decide _); [| exact Hcache].
          intros k Hk. apply list_elem_of_filter in Hk as [_ Hk]. exact Hk.
        + simpl in Ho. unfold patch_network in Ho.
          destruct (_patch_network t); [injection Ho as <-; exact Hcache |].
          destruct (land_patches_spec t Hread) as (wa & Hland & Hs & Hl & _).
          rewrite Hland in Ho. simpl in Ho.
          destruct (Py.for_each _ _ _) as [[g2 t2] |] eqn:Hloop; [| discriminate].
          simpl in Ho. injection Ho as <-.
          pose proof (network_loop_frame _land_patches ltac:(reflexivity) _ _ _ _ _ Hloop) as Hl2.
          assert (Hg2 : geometry t2 = geometry wa).
          { apply (PyFacts.for_each_inv
                     (fun st : DiGraph.t * World => geometry st.2 = geometry wa)
                     network_patch _ (DiGraph.empty, wa) (g2, t2)) with (3 := Hloop);
              [| reflexivity].
            intros k [g3 u] [g4 u'] _ Hu Hk. simpl in *. rewrite <- Hu.
            eapply network_patch_geometry, Hk. }
          unfold land_cache_ok. simpl. rewrite Hl2, Hl, (keys_of_geometry _ _ Hg2).
          destruct Hs as (Hgeo & _). rewrite (keys_of_geometry _ _ Hgeo).
          unfold land_list. destruct (decide _); [| exact Hcache].
          intros k Hk. apply list_elem_of_filter in Hk as [_ Hk]. exact Hk.
      - split; [exists []; reflexivity |].
        assert (Hl0 : _land_patches w0 = []).
        { apply World_init_stages in Hinit as (w2 & w3 & H2 & H3 & H4).
          apply (for_each_frame _land_patches) in H2, H3, H4.
          - unfold bare_world in H2. simpl in H2. congruence.
          - intros x t t'. apply (make_neighbor_part _land_patches); reflexivity.
          - intros x t t'. apply (make_patch_part _land_patches); reflexivity.
          - intros x t t'. apply (make_ridge_part _land_patches); reflexivity. }
        unfold land_cache_ok. rewrite Hl0. intros k Hk. inversion Hk. }
    exact (proj2 H).
Qed.

(** The network a world without a cached one builds. *)
Lemma network_built w :
  patches_ok w -> land_cache_ok w -> _patch_network w = None ->
  exists g w',
    patch_network w = Some (g, w')
    /\ graph_of (fun p q wt => p ∈ land_list w /\ borders w p q /\ not_sea w q
                               /\ edge_weight w p q = Some wt) g.
Proof.
  intros Hok Hcache Hnone.
  pose proof Hok as (_ & _ & Hread).
  destruct (land_patches_spec w Hread) as (wa & Hland & Hs & _ & _).
  pose proof Hs as (Hgeo & _).
  assert (Hoka : patches_ok wa) by (eapply patches_ok_same_view; eauto).
  destruct (outer_loop wa Hoka (land_list w) [] DiGraph.empty wa)
    as (g & t & Hloop & _ & Hgraph).
  - intros k Hk. rewrite (keys_of_geometry _ _ Hgeo). unfold land_list in Hk.
    destruct (decide _); [| apply Hcache, Hk].
    apply list_elem_of_filter in Hk as [_ Hk]. exact Hk.
  - apply same_view_refl.
  - split; simpl.
    + intros a b x. rewrite lookup_empty. split; [discriminate |].
      intros ([[Hd _] | [_ (r & Hr)]] & _); [inversion Hd | inversion Hr].
    + intros x. split; [set_solver |]. intros (y & [[? Hy] | [? Hy]]);
        rewrite lookup_empty in Hy; discriminate.
  - exists g, (set_patch_network g t). split.
    { unfold patch_network. rewrite Hnone, Hland. simpl. rewrite Hloop. reflexivity. }
    eapply graph_of_ext; [| exact Hgraph].
    intros p q wt. rewrite (edges_of_same_view _ _ _ _ _ _ _ _ Hs).
    unfold edges_of. simpl. split.
    + intros ([[Hd Hb] | [_ (r & Hr)]] & Hns & Hw); [auto | inversion Hr].
    + intros (Hd & Hb & Hns & Hw). auto.
Qed.

(** The nodes of a cached network are patches. *)
Lemma reached_network np_percentile vor x_lim y_lim os w0 w :
  World_init vor x_lim y_lim = Some w0 ->
  run_all np_percentile os w0 = Some w ->
  network_ok w.
Proof.
  intros Hinit Hrun.
  assert (H : (fun t => exists pre, run_all np_percentile pre w0 = Some t) w /\ network_ok w).
  { apply (PyFacts.for_each_inv
             (fun t => (exists pre, run_all np_percentile pre w0 = Some t) /\ network_ok t)
             (run np_percentile) os w0 w) with (3 := Hrun).
    - intros o t t' _ [(pre & Hpre) Hnet] Ho.
      split; [exists (pre ++ [o]); unfold run_all; rewrite for_each_snoc;
              fold (run_all np_percentile pre w0); rewrite Hpre; exact Ho |].
      destruct (reached_patches _ _ _ _ _ _ _ Hinit Hpre) as [Hok Hcache].
      pose proof Hok as (_ & Hnb & Hread).
      destruct o;
        try (match type of Ho with
             | run _ ?o _ = _ =>
                 destruct (run_patches np_percentile o t t' ltac:(discriminate)
                             ltac:(discriminate) Ho) as (Hp & Hn & _)
             end; unfold network_ok; rewrite Hp, Hn; exact Hnet).
      + simpl in Ho. destruct (land_patches_spec t Hread) as (wa & Hland & Hs & _ & Hn).
        rewrite Hland in Ho. injection Ho as <-. unfold network_ok. rewrite Hn.
        destruct Hs as (Hgeo & _). rewrite (keys_of_geometry _ _ Hgeo). exact Hnet.
      + simpl in Ho. destruct (patch_network t) as [[g t1] |] eqn:Hpn; [| discriminate].
        injection Ho as <-.
        pose proof (patch_network_geometry _ _ _ Hpn) as Hgeo.
        pose proof (patch_network_sets _ _ _ Hpn) as Hset.
        unfold network_ok. rewrite Hset, (keys_of_geometry _ _ Hgeo). intros g' [= <-].
        destruct (_patch_network t) as [g0 |] eqn:Hc.
        * unfold patch_network in Hpn. rewrite Hc in Hpn. injection Hpn as <- _.
          apply (Hnet _ Hc).
        * destruct (network_built t Hok Hcache Hc) as (g' & t' & Hpn' & Hedges & Hnodes).
          rewrite Hpn in Hpn'. injection Hpn' as <- <-.
          intros x Hx. apply Hnodes in Hx as (y & [[wt Hy] | [wt Hy]]);
            apply Hedges in Hy as (Hl & Hb & _).
          -- unfold land_list in Hl. destruct (decide _); [| apply Hcache, Hl].
             apply list_elem_of_filter in Hl as [_ Hl]. exact Hl.
          -- apply (Hnb y x Hb).
    - split; [exists []; reflexivity |].
      assert (Hn0 : _patch_network w0 = None).
      { apply World_init_stages in Hinit as (w2 & w3 & H2 & H3 & H4).
        apply (for_each_frame _patch_network) in H2, H3, H4.
        - unfold bare_world in H2. simpl in H2. congruence.
        - intros x t t'. apply (make_neighbor_part _patch_network); reflexivity.
        - intros x t t'. apply (make_patch_part _patch_network); reflexivity.
        - intros x t t'. apply (make_ridge_part _patch_network); reflexivity. }
      unfold network_ok. rewrite Hn0. discriminate. }
  exact (proj2 H).
Qed.

(** X15: the edges of the patch network.  In a world the constructor has
    built and operations have worked on, [patch_network] returns (no patch
    it looks up is missing).  When no network is cached, the graph it builds
    holds the edge from [p] to [q] exactly when [p] is one of the land
    patches [land_patches] returns, [q] is a neighbor of [p], and [q] does
    not report a height below the sea level; the weight of the edge is the
    distance of the two centroids times [exp(height(q) - height(p))]; and
    the nodes of the graph are the ends of its edges. *)
Theorem patch_network_edges (np_percentile : list R -> R -> option R)
    (vor : Voronoi.t) (x_lim y_lim : R * R) (os : list operation) (w0 w : World) :
  World_init vor x_lim y_lim = Some w0 ->
  run_all np_percentile os w0 = Some w ->
  _patch_network w = None ->
  exists g w',
    patch_network w = Some (g, w')
    /\ (forall p q wt,
          DiGraph.edges g !! (p, q) = Some wt
          <-> p ∈ land_list w /\ borders w p q /\ not_sea w q
              /\ edge_weight w p q = Some wt)
    /\ (forall x, x ∈ DiGraph.nodes g
          <-> exists y, is_Some (DiGraph.edges g !! (x, y))
                        \/ is_Some (DiGraph.edges g !! (y, x))).
Proof.
  intros Hinit Hrun Hnone.
  destruct (reached_patches _ _ _ _ _ _ _ Hinit Hrun) as [Hok Hcache].
  destruct (network_built w Hok Hcache Hnone) as (g & w' & Hpn & Hedges & Hnodes).
  exists g, w'. auto.
Qed.

Lemma patch_network_edges_witness :
  exists g w',
    patch_network coast_world = Some (g, w')
    /\ (forall p q wt,
          DiGraph.edges g !! (p, q) = Some wt
          <-> p ∈ land_list coast_world /\ borders coast_world p q /\ not_sea coast_world q
              /\ edge_weight coast_world p q = Some wt)
    /\ (forall x, x ∈ DiGraph.nodes g
          <-> exists y, is_Some (DiGraph.edges g !! (x, y))
                        \/ is_Some (DiGraph.edges g !! (y, x))).
Proof.
  exact (patch_network_edges (fun _ _ => None) grid_voronoi (0, 6) (0, 4)
           [AddSlope (0, 0) None (Some (0.1, 0)) false; SetSeaLevel 0.1]
           grid_world coast_world grid_world_init coast_world_run eq_refl).
Defined.

(** * The slope of a patch *)

Lemma max_by_spec {A} (key : A -> R) l m :
  Py.max_by key l = Some m -> m ∈ l /\ forall y, y ∈ l -> key y <= key m.
Proof.
  destruct l as [| x l]; [discriminate |]. simpl. intros [= <-].
  revert x. induction l as [| z l IH]; intros x; simpl.
  - split; [left |]. intros y Hy. apply list_elem_of_singleton in Hy. subst. lra.
  - destruct (IH (if decide (key x < key z) then z else x)) as [Hin Hmax]. split.
    + apply elem_of_cons in Hin as [-> | Hin]; [| right; right; exact Hin].
      destruct (decide _); [right; left | left].
    + intros y Hy.
      assert (Hp : key x <= key (if decide (key x < key z) then z else x)
                   /\ key z <= key (if decide (key x < key z) then z else x)).
      { destruct (decide (key x < key z)); lra. }
      pose proof (Hmax _ ltac:(left)) as H0.
      apply elem_of_cons in Hy as [-> | Hy]; [lra |].
      apply elem_of_cons in Hy as [-> | Hy]; [lra |]. apply Hmax. right. exact Hy.
Qed.

(** On a sequence whose keys are all the same, [min] and [max] both return
    the first element. *)
Lemma min_max_level {A} (key : A -> R) x l :
  (forall y, y ∈ l -> key y = key x) ->
  Py.min_by key (x :: l) = Some x /\ Py.max_by key (x :: l) = Some x.
Proof.
  intros Hlevel. simpl. split; f_equal.
  - induction l as [| z l IH]; simpl; [reflexivity |].
    rewrite decide_False by (rewrite (Hlevel z ltac:(left)); lra).
    apply IH. intros y Hy. apply Hlevel. right. exact Hy.
  - induction l as [| z l IH]; simpl; [reflexivity |].
    rewrite decide_False by (rewrite (Hlevel z ltac:(left)); lra).
    apply IH. intros y Hy. apply Hlevel. right. exact Hy.
Qed.

Lemma dist_self v : Vertex.dist v (Vertex.coords v) = 0.
Proof.
  unfold Vertex.dist. apply PyFacts.norm_zero_iff. unfold Py.sub2. f_equal; lra.
Qed.

(** X16: the slope of a patch is positive or undefined, never zero.  A
    patch that has not remembered a slope and whose [slope] is read reports
    a value above zero and remembers it, whatever happens to the vertices
    afterwards.  On a patch whose vertices all have the same height, [max]
    and [min] pick the same vertex, and the division of zero by the zero
    distance has no result. *)
Theorem patch_slope_positive (vs : list Vertex.t) (p : Patch.t) :
  Patch._slope p = None ->
  (forall s p', Patch.slope vs p = Some (s, p') ->
     0 < s /\ forall vs', Patch.slope vs' p' = Some (s, p'))
  /\ ((forall pvs v1 v2, mapM (fun i => vs !! i) (Patch.vertices p) = Some pvs ->
         v1 ∈ pvs -> v2 ∈ pvs -> Vertex.height v1 = Vertex.height v2) ->
      Patch.slope vs p = None).
Proof.
  intros Hnone. unfold Patch.slope. rewrite Hnone. split.
  - intros s p'.
    destruct (mapM _ (Patch.vertices p)) as [pvs |]; [| discriminate]. simpl.
    destruct (Py.max_by Vertex.height pvs) as [max_v |] eqn:Hmax; [| discriminate]. simpl.
    destruct (Py.min_by Vertex.height pvs) as [min_v |] eqn:Hmin; [| discriminate]. simpl.
    destruct (Py.truediv _ _) as [s0 |] eqn:Hdiv; [| discriminate]. simpl.
    intros [= <- <-]. split; [| intros vs'; reflexivity].
    apply PyFacts.truediv_inv in Hdiv as [Hdist ->].
    pose proof (max_by_spec _ _ _ Hmax) as [Hin_max Hle_max].
    pose proof (PyFacts.min_by_spec _ _ _ Hmin) as [Hin_min Hle_min].
    assert (Hpos : 0 < Vertex.dist max_v (Vertex.coords min_v)).
    { pose proof (PyFacts.norm_nonneg (Py.sub2 (Vertex.coords max_v) (Vertex.coords min_v))).
      unfold Vertex.dist in *. lra. }
    assert (Hge : Vertex.height min_v <= Vertex.height max_v) by (apply Hle_max, Hin_min).
    apply Rdiv_lt_0_compat; [| exact Hpos].
    destruct Hge as [Hlt | Heq]; [lra |]. exfalso.
    destruct pvs as [| x l]; [inversion Hin_max |].
    destruct (min_max_level Vertex.height x l) as [Hmin' Hmax'].
    { intros y Hy. pose proof (Hle_max y ltac:(right; exact Hy)).
      pose proof (Hle_min y ltac:(right; exact Hy)).
      pose proof (Hle_max x ltac:(left)). pose proof (Hle_min x ltac:(left)). lra. }
    rewrite Hmin' in Hmin. rewrite Hmax' in Hmax. injection Hmin as <-. injection Hmax as <-.
    apply Hdist, dist_self.
  - intros Hlevel.
    destruct (mapM _ (Patch.vertices p)) as [pvs |]; [| reflexivity]. simpl.
    destruct pvs as [| x l]; [reflexivity |].
    destruct (min_max_level Vertex.height x l) as [Hmin Hmax].
    { intros y Hy. apply (Hlevel (x :: l)); [reflexivity | right; exact Hy | left]. }
    rewrite Hmin, Hmax. simpl. rewrite PyFacts.truediv_None by apply dist_self. reflexivity.
Qed.

Lemma sloped_patch_slope :
  exists s p', Patch.slope (vertices sloped_world) west_patch = Some (s, p').
Proof.
  eexists _, _. unfold Patch.slope, west_patch, sloped_world, Py.max_by, Py.min_by.
  cbn -[decide Py.truediv mean]. repeat r_decide.
  rewrite PyFacts.truediv_Some; [reflexivity |].
  intros H. apply PyFacts.norm_zero_iff in H. unfold Py.sub2 in H. simpl in H.
  injection H as H _. lra.
Qed.

Lemma patch_slope_positive_witness :
  (exists s p', Patch.slope (vertices sloped_world) west_patch = Some (s, p') /\ 0 < s)
  /\ Patch.slope (vertices grid_world) west_patch = None.
Proof.
  split.
  - destruct sloped_patch_slope as (s & p' & H). exists s, p'. split; [exact H |].
    exact (proj1 (proj1 (patch_slope_positive (vertices sloped_world) west_patch eq_refl)
                    s p' H)).
  - apply (proj2 (patch_slope_positive (vertices grid_world) west_patch eq_refl)).
    intros pvs v1 v2 Hm. simpl in Hm. injection Hm as <-. intros H1 H2.
    repeat (apply elem_of_cons in H1 as [-> | H1]);
      repeat (apply elem_of_cons in H2 as [-> | H2]);
      try reflexivity; try (inversion H1); inversion H2.
Defined.

(** * Lloyd relaxation *)

(** One point of the relaxation, when its region exists and names vertices
    that exist. *)
Lemma relax_point_spec vor point_region x_lim y_lim i point pr region :
  point_region !! i = Some pr ->
  (Py.index (length (Voronoi.regions vor)) pr ≫= (Voronoi.regions vor !!.)) = Some region ->
  region_indices_ok (length (Voronoi.vertices vor)) region ->
  exists q, relax_point vor point_region x_lim y_lim (i, point) = Some q
            /\ (q = point \/ check_coord x_lim y_lim q).
Proof.
  intros Hpr Hregion Hok. unfold relax_point. rewrite Hpr. simpl.
  destruct (Py.index (length (Voronoi.regions vor)) pr) as [ri |]; [| discriminate].
  simpl in *. rewrite Hregion. simpl.
  destruct (decide (length region = 0%nat \/ (-1)%Z ∈ region)) as [Hopen | Hclosed];
    [eauto |].
  destruct Hok as [[? | ?] | [pv Hpv]]; [tauto | tauto |].
  assert (Hpoly : exists polygon,
             mapM (fun z => j ← Py.index (length (Voronoi.vertices vor)) z;
                            Voronoi.vertices vor !! j) region = Some polygon
             /\ length polygon = length region).
  { assert (Hall : is_Some (mapM (fun z => j ← Py.index (length (Voronoi.vertices vor)) z;
                                            Voronoi.vertices vor !! j) region)).
    { apply mapM_is_Some, Forall_forall. intros z Hz.
      apply mapM_Some in Hpv.
      apply list_elem_of_lookup in Hz as [n Hn].
      destruct (Forall2_lookup_l _ _ _ _ _ Hpv Hn) as (j & _ & Hj).
      unfold compose. rewrite Hj. simpl. apply lookup_lt_is_Some.
      unfold Py.index in Hj. repeat destruct (decide _); inversion Hj; lia. }
    destruct Hall as [polygon Hp]. exists polygon. split; [exact Hp |].
    apply mapM_Some in Hp. symmetry. exact (Forall2_length _ _ _ Hp). }
  destruct Hpoly as (polygon & -> & Hlen). simpl.
  assert (Hn : INR (length polygon) <> 0).
  { apply not_0_INR. rewrite Hlen. tauto. }
  unfold find_centroid, Py.truediv. rewrite !decide_False by exact Hn. simpl.
  destruct (decide _); eauto.
Qed.

(** X18: Lloyd relaxation keeps the points inside the limits.  When the
    tessellation gives every point a region, and the bounded regions name
    vertices that exist, [lloyd_relaxation] returns as many points as it was
    given (the empty region never divides by zero); each one is the point it
    replaces or lies strictly inside the limits, so points that are inside
    the limits stay inside. *)
Theorem lloyd_relaxation_stays_inside vor points point_region x_lim y_lim :
  length point_region = length points ->
  Forall (fun pr => is_Some (Py.index (length (Voronoi.regions vor)) pr)) point_region ->
  Forall (region_indices_ok (length (Voronoi.vertices vor))) (Voronoi.regions vor) ->
  exists new_points,
    lloyd_relaxation vor points point_region x_lim y_lim = Some new_points
    /\ length new_points = length points
    /\ Forall2 (fun p q => q = p \/ check_coord x_lim y_lim q) points new_points
    /\ (Forall (check_coord x_lim y_lim) points ->
        Forall (check_coord x_lim y_lim) new_points).
Proof.
  intros Hlen Hpr Hregions.
  assert (Hstep : forall i p, points !! i = Some p ->
            exists q, relax_point vor point_region x_lim y_lim (i, p) = Some q
                      /\ (q = p \/ check_coord x_lim y_lim q)).
  { intros i p Hp.
    destruct (lookup_lt_is_Some_2 point_region i) as [pr Hi].
    { rewrite Hlen. eapply lookup_lt_Some, Hp. }
    pose proof (proj1 (Forall_lookup _ _) Hpr i pr Hi) as [ri Hri].
    destruct (lookup_lt_is_Some_2 (Voronoi.regions vor) ri) as [region Hregion].
    { unfold Py.index in Hri. repeat destruct (decide _); inversion Hri; lia. }
    apply (relax_point_spec vor point_region x_lim y_lim i p pr region Hi).
    - rewrite Hri. exact Hregion.
    - exact (proj1 (Forall_lookup _ _) Hregions ri region Hregion). }
  assert (Hall : is_Some (lloyd_relaxation vor points point_region x_lim y_lim)).
  { apply mapM_is_Some, Forall_forall. intros [i p] Hip.
    apply list_elem_of_lookup in Hip as [n Hn]. unfold Py.enumerate in Hn.
    rewrite list_lookup_imap in Hn.
    destruct (points !! n) as [p' |] eqn:Hp; [| discriminate]. injection Hn as <- <-.
    destruct (Hstep _ _ Hp) as (q & Hq & _). unfold compose. rewrite Hq. eauto. }
  destruct Hall as [new_points Hnew]. exists new_points. split; [exact Hnew |].
  apply mapM_Some in Hnew.
  assert (Hl : length new_points = length points).
  { rewrite <- (Forall2_length _ _ _ Hnew). unfold Py.enumerate. apply length_imap. }
  assert (H2 : Forall2 (fun p q => q = p \/ check_coord x_lim y_lim q) points new_points).
  { apply Forall2_same_length_lookup. split; [symmetry; exact Hl |].
    intros i p q Hp Hq.
    assert (Hip : Py.enumerate points !! i = Some (i, p)).
    { unfold Py.enumerate. rewrite list_lookup_imap, Hp. reflexivity. }
    destruct (Forall2_lookup_l _ _ _ _ _ Hnew Hip) as (q' & Hq' & Hrel).
    rewrite Hq in Hq'. injection Hq' as <-.
    destruct (Hstep _ _ Hp) as (q0 & Hq0 & Hor). rewrite Hrel in Hq0.
    injection Hq0 as <-. exact Hor. }
  split; [exact Hl |]. split; [exact H2 |].
  intros Hin. apply Forall_forall. intros q Hq.
  apply list_elem_of_lookup in Hq as [i Hi].
  destruct (Forall2_lookup_r _ _ _ _ _ H2 Hi) as (p & Hp & [-> | Hc]); [| exact Hc].
  exact (proj1 (Forall_lookup _ _) Hin i p Hp).
Qed.

Lemma lloyd_relaxation_stays_inside_witness :
  exists new_points,
    lloyd_relaxation grid_voronoi grid_points grid_point_region (Some (0, 6)) (Some (0, 4))
    = Some new_points
    /\ length new_points = length grid_points
    /\ Forall2 (fun p q => q = p \/ check_coord (Some (0, 6)) (Some (0, 4)) q)
         grid_points new_points
    /\ (Forall (check_coord (Some (0, 6)) (Some (0, 4))) grid_points ->
        Forall (check_coord (Some (0, 6)) (Some (0, 4))) new_points).
Proof.
  apply (lloyd_relaxation_stays_inside grid_voronoi grid_points grid_point_region
           (Some (0, 6)) (Some (0, 4))).
  - reflexivity.
  - repeat (apply Forall_cons; split; [vm_compute; eauto |]). constructor.
  - repeat (apply Forall_cons; split;
            [first [left; left; left | left; right; reflexivity | right; vm_compute; eauto]
            |]).
    constructor.
Defined.

(** * The nomads *)

Lemma sum_from (l : list R) (a : R) : fold_left Rplus l a = a + Py.sum l.
Proof.
  unfold Py.sum. revert a. induction l as [| x l IH]; intros a; simpl; [lra |].
  rewrite (IH (a + x)), (IH (0 + x)). lra.
Qed.

Lemma sum_cons (x : R) (l : list R) : Py.sum (x :: l) = x + Py.sum l.
Proof. unfold Py.sum at 1. simpl. rewrite sum_from. lra. Qed.

Lemma sum_app (l1 l2 : list R) : Py.sum (l1 ++ l2) = Py.sum l1 + Py.sum l2.
Proof.
  induction l1 as [| x l1 IH]; simpl.
  - unfold Py.sum at 2. simpl. lra.
  - rewrite !sum_cons, IH. lra.
Qed.

(** The choice the loop of [weighted_random] stops at. *)
Lemma pick_upto_spec choices upto r c :
  pick_upto choices upto r = Some c ->
  exists pre w post,
    choices = pre ++ (c, w) :: post
    /\ r <= upto + Py.sum pre.*2 + w
    /\ Forall (fun k => upto + Py.sum (take (S k) pre).*2 < r) (seq 0 (length pre)).
Proof.
  revert upto. induction choices as [| [c0 w0] rest IH]; intros upto; simpl; [discriminate |].
  destruct (decide (r <= upto + w0)) as [Hle | Hgt].
  - intros [= <-]. exists [], w0, rest. simpl. unfold Py.sum. simpl.
    split; [reflexivity |]. split; [lra | constructor].
  - intros Hrest. destruct (IH _ Hrest) as (pre & w & post & -> & Hr & Hpre).
    exists ((c0, w0) :: pre), w, post.
    split; [reflexivity |]. split.
    { rewrite fmap_cons, sum_cons. cbn [snd]. lra. }
    cbn [length seq]. constructor.
    + rewrite firstn_cons, take_0, fmap_cons, sum_cons. cbn [snd fmap list_fmap].
      unfold Py.sum. cbn [fold_left]. lra.
    + rewrite <- fmap_S_seq. apply Forall_fmap. eapply Forall_impl; [exact Hpre |].
      intros k Hk. unfold compose. rewrite firstn_cons, fmap_cons, sum_cons. cbn [snd].
      cbn beta in Hk. lra.
Qed.

(** The loop runs off the end only when the total stays below [r]. *)
Lemma pick_upto_is_Some choices upto r :
  choices <> [] -> r <= upto + Py.sum choices.*2 -> is_Some (pick_upto choices upto r).
Proof.
  revert upto. induction choices as [| [c0 w0] rest IH]; intros upto Hne Hr; [congruence |].
  simpl. rewrite fmap_cons, sum_cons in Hr. cbn [snd] in Hr.
  destruct (decide (r <= upto + w0)) as [Hle | Hgt]; [eauto |].
  apply IH; [| lra]. intros ->. unfold Py.sum in Hr. simpl in Hr. lra.
Qed.

(** X19: the weighted draw.  For a dict that is not empty and whose weights
    do not sum below zero, and a generator that draws from [0, 1],
    [weighted_random] never reaches its failed assertion: it returns a key
    of the dict, the first one at which the running total of the weights
    reaches the number drawn, and uses one call of the generator. *)
Theorem weighted_random_picks random_random choices n :
  choices <> [] ->
  0 <= Py.sum choices.*2 ->
  0 <= random_random n <= 1 ->
  exists c pre w post,
    weighted_random random_random choices n = Some (c, S n)
    /\ choices = pre ++ (c, w) :: post
    /\ Py.sum choices.*2 * random_random n <= Py.sum pre.*2 + w
    /\ Forall (fun k => Py.sum (take (S k) pre).*2 < Py.sum choices.*2 * random_random n)
         (seq 0 (length pre)).
Proof.
  intros Hne Htotal Hrand. unfold weighted_random, random_uniform. cbv beta zeta iota.
  set (r := 0 + (Py.sum choices.*2 - 0) * random_random n).
  assert (Hr : r = Py.sum choices.*2 * random_random n) by (unfold r; lra).
  destruct (pick_upto_is_Some choices 0 r Hne) as [c Hc]; [nra |].
  destruct (pick_upto_spec _ _ _ _ Hc) as (pre & w & post & Hcs & Hle & Hpre).
  exists c, pre, w, post. rewrite Hc. simpl.
  split; [reflexivity |]. split; [exact Hcs |]. rewrite <- Hr. split; [lra |].
  eapply Forall_impl; [exact Hpre |]. intros k Hk. simpl in Hk. lra.
Qed.

Lemma weighted_random_picks_witness :
  exists c pre w post,
    weighted_random (fun _ => 1 / 2) [(3%nat, 1); (5%nat, 2); (8%nat, 1)] 0 = Some (c, 1%nat)
    /\ [(3%nat, 1); (5%nat, 2); (8%nat, 1)] = pre ++ (c, w) :: post
    /\ Py.sum [(3%nat, 1); (5%nat, 2); (8%nat, 1)].*2 * (1 / 2) <= Py.sum pre.*2 + w
    /\ Forall (fun k => Py.sum (take (S k) pre).*2
                        < Py.sum [(3%nat, 1); (5%nat, 2); (8%nat, 1)].*2 * (1 / 2))
         (seq 0 (length pre)).
Proof.
  apply (weighted_random_picks (fun _ => 1 / 2) [(3%nat, 1); (5%nat, 2); (8%nat, 1)] 0%nat).
  - discriminate.
  - unfold Py.sum. simpl. lra.
  - lra.
Defined.

(** Reading the slope of a patch changes what the patch remembers, nothing
    else. *)
Lemma patch_slope_fixed vs p s p' :
  Patch.slope vs p = Some (s, p') ->
  (forall k, patch_fixed (k, p') = patch_fixed (k, p))
  /\ forall vs0, fst <$> Patch.height vs0 p' = fst <$> Patch.height vs0 p.
Proof.
  unfold Patch.slope. destruct (Patch._slope p).
  - intros [= <- <-]. split; reflexivity.
  - destruct (mapM _ _); [| discriminate]. simpl.
    destruct (Py.max_by _ _); [| discriminate]. simpl.
    destruct (Py.min_by _ _); [| discriminate]. simpl.
    destruct (Py.truediv _ _); [| discriminate]. simpl.
    intros [= <- <-]. split; [reflexivity |]. intros vs0.
    unfold Patch.height. simpl. destruct (Patch._h p); [reflexivity |].
    destruct (mapM _ _); [| reflexivity]. simpl.
    destruct (Py.min_list _); reflexivity.
Qed.

Lemma read_slope_same_view k w s w' : read_slope k w = Some (s, w') -> same_view w' w.
Proof.
  unfold read_slope.
  destruct (Py.dict_get k (patches w)) as [p |] eqn:Hp; [| discriminate]. simpl.
  destruct (Patch.slope _ p) as [[s' p'] |] eqn:Hs; [| discriminate]. simpl.
  intros [= <- <-]. destruct (patch_slope_fixed _ _ _ _ Hs) as [Hfix Hh].
  split; [| split]; [| | reflexivity].
  - apply geometry_intro; simpl; try reflexivity.
    eapply dict_set_fmap_id; [exact Hp | apply Hfix].
  - intros k'. unfold patch_height_view. simpl. rewrite dict_get_set.
    destruct (decide (k = k')) as [<- | Hne]; [| reflexivity].
    rewrite Hp. simpl. apply Hh.
Qed.

Lemma evaluate_patch_same_view k w x w' :
  Nomad.evaluate_patch k w = Some (x, w') -> same_view w' w.
Proof.
  unfold Nomad.evaluate_patch.
  destruct (Py.dict_get k (patches w)) as [p |]; [| discriminate]. simpl.
  destruct (Nomad.get_water w p) as [wt |]; [| discriminate]. simpl.
  destruct (read_slope k w) as [[s w1] |] eqn:Hs; [| discriminate]. simpl.
  destruct (Py.truediv 1 s) as [inv |]; [| discriminate]. simpl.
  destruct (read_height k w1) as [[h w2] |] eqn:Hh; [| discriminate]. simpl.
  intros [= _ <-]. eapply same_view_trans.
  - apply (read_height_same_view _ _ _ _ Hh).
  - apply (read_slope_same_view _ _ _ _ Hs).
Qed.

(** The candidates of a move are neighbors that lie above the sea. *)
Lemma move_candidates w items acc w1 :
  Py.for_each Nomad.move_candidate items ([], w) = Some (acc, w1) ->
  same_view w1 w /\ forall q, q ∈ acc -> q ∈ items.*2 /\ is_land w q.
Proof.
  intros Hrun.
  apply (PyFacts.for_each_inv
           (fun st : list nat * World =>
              same_view st.2 w /\ forall q, q ∈ st.1 -> q ∈ items.*2 /\ is_land w q)
           Nomad.move_candidate items ([], w) (acc, w1)) with (3 := Hrun).
  - intros rq [a t] [a' t'] Hin [Hview Hacc] Hstep. simpl in *.
    destruct (read_height rq.2 t) as [[h t1] |] eqn:Hh; [| discriminate]. simpl in Hstep.
    injection Hstep as <- <-.
    destruct (read_height_same_view _ _ _ _ Hh) as [Hv1 Hq].
    split; [eapply same_view_trans; eauto |].
    destruct (decide (sea_level t1 < h)) as [Hlt | Hge]; [| exact Hacc].
    intros q Hq'. apply elem_of_app in Hq' as [Hq' | Hq']; [apply Hacc, Hq' |].
    apply list_elem_of_singleton in Hq' as ->. split.
    + apply list_elem_of_fmap. exists rq. auto.
    + exists h. destruct Hview as (_ & Hv & Hs). destruct Hv1 as (_ & _ & Hs1).
      rewrite <- Hv, <- Hs, <- Hs1. auto.
  - split; [apply same_view_refl |]. intros q Hq. inversion Hq.
Qed.

(** The weights of a move are those of its candidates. *)
Lemma move_weights w items d w1 :
  Py.for_each Nomad.move_weight items ([], w) = Some (d, w1) ->
  same_view w1 w /\ forall k, k ∈ d.*1 -> k ∈ items.
Proof.
  intros Hrun.
  apply (PyFacts.for_each_inv
           (fun st : list (nat * R) * World =>
              same_view st.2 w /\ forall k, k ∈ st.1.*1 -> k ∈ items)
           Nomad.move_weight items ([], w) (d, w1)) with (3 := Hrun).
  - intros k [a t] [a' t'] Hin [Hview Hkeys] Hstep. simpl in *.
    destruct (Nomad.evaluate_patch k t) as [[x t1] |] eqn:Hx; [| discriminate].
    simpl in Hstep. injection Hstep as <- <-.
    split; [eapply same_view_trans; [eapply evaluate_patch_same_view |]; eauto |].
    intros k' Hk'. apply list_elem_of_fmap in Hk' as ([k0 x0] & -> & Hk').
    apply dict_set_elem_of in Hk' as [[= -> ->] | Hk']; [exact Hin |].
    apply Hkeys, list_elem_of_fmap. exists (k0, x0). auto.
  - split; [apply same_view_refl |]. intros k Hk. inversion Hk.
Qed.

Lemma pick_upto_elem_of choices upto r c : pick_upto choices upto r = Some c -> c ∈ choices.*1.
Proof.
  intros H. destruct (pick_upto_spec _ _ _ _ H) as (pre & w & post & -> & _).
  rewrite fmap_app, fmap_cons. apply elem_of_app. right. left.
Qed.

(** X20: where a tribe moves.  When [move] returns, the tribe has kept its
    name and size and stands on the patch it was on or on a neighbor of it
    that reports a height above the sea; the world has the same geometry,
    the patches report the same heights against the same sea level, and the
    generator has been called once (the tribe stayed without looking) or
    twice. *)
Theorem nomad_move_stays_or_lands random_random self w n self' w' n' :
  Nomad.move random_random self (w, n) = Some (self', (w', n')) ->
  Nomad.name self' = Nomad.name self
  /\ Nomad.size self' = Nomad.size self
  /\ (Nomad.patch self' = Nomad.patch self
      \/ (borders w (Nomad.patch self) (Nomad.patch self')
          /\ is_land w (Nomad.patch self')))
  /\ same_view w' w
  /\ (n' = S n \/ n' = S (S n)).
Proof.
  unfold Nomad.move.
  destruct (Py.truediv 1 (IZR (Nomad.size self))) as [inv |]; [| discriminate]. simpl.
  destruct (decide (inv < random_random n)).
  { intros [= <- <- <-]. repeat split; auto. }
  destruct (Py.dict_get (Nomad.patch self) (patches w)) as [here |] eqn:Hhere;
    [| discriminate]. simpl.
  destruct (Py.for_each Nomad.move_candidate _ _) as [[cands w1] |] eqn:Hc; [| discriminate].
  simpl.
  destruct (Py.for_each Nomad.move_weight _ _) as [[d w2] |] eqn:Hw; [| discriminate].
  simpl. unfold weighted_random, random_uniform. cbv beta zeta iota.
  destruct (pick_upto d 0 _) as [c |] eqn:Hpick; [| discriminate]. simpl.
  intros [= <- <- <-]. simpl.
  destruct (move_candidates _ _ _ _ Hc) as [Hv1 Hcands].
  destruct (move_weights _ _ _ _ Hw) as [Hv2 Hkeys].
  split; [reflexivity |]. split; [reflexivity |]. split; [| split].
  - apply pick_upto_elem_of, Hkeys in Hpick.
    apply elem_of_app in Hpick as [Hin | Hin].
    + right. destruct (Hcands _ Hin) as [Hnb Hland]. split; [| exact Hland].
      apply list_elem_of_fmap in Hnb as ([r q] & -> & Hrq). exists here, r. auto.
    + left. apply list_elem_of_singleton in Hin. exact Hin.
  - eapply same_view_trans; eauto.
  - auto.
Qed.

Lemma sloped_nomad_moves random_random :
  random_random 0%nat = 0 -> random_random 1%nat = 0 ->
  exists w',
    Nomad.move random_random (Nomad.init 0 1) (sloped_world, 0%nat)
    = Some (Nomad.init 0 4, (w', 2%nat)).
Proof.
  intros H0 H1.
  assert (Hdist : forall v x y, Vertex.coords v = (x + 2, y) -> Vertex.dist v (x, y) = 2).
  { intros v x y H. unfold Vertex.dist, Py.norm, Py.sub2. rewrite H. simpl.
    replace ((x + 2 - x) * (x + 2 - x) + (y - y) * (y - y)) with (2 * 2) by lra.
    apply sqrt_square. lra. }
  eexists.
  unfold Nomad.move, Nomad.init, sloped_world, Nomad.move_candidate,
    Nomad.move_weight, Nomad.evaluate_patch, Nomad.get_water, read_slope, Patch.slope,
    Py.max_by, weighted_random, random_uniform.
  rewrite H0, H1. py_eval.
  rewrite (Hdist _ 3 1) by (simpl; f_equal; lra). py_eval.
  rewrite (Hdist _ 1 1) by (simpl; f_equal; lra). py_eval.
  unfold Py.min2. repeat r_decide. unfold Nomad.set_patch. simpl.
  reflexivity.
Qed.

Lemma nomad_move_stays_or_lands_witness :
  exists w',
    Nomad.move (fun _ => 0) (Nomad.init 0 1) (sloped_world, 0%nat)
    = Some (Nomad.init 0 4, (w', 2%nat))
    /\ (Nomad.name (Nomad.init 0 4) = Nomad.name (Nomad.init 0 1)
        /\ Nomad.size (Nomad.init 0 4) = Nomad.size (Nomad.init 0 1)
        /\ (Nomad.patch (Nomad.init 0 4) = Nomad.patch (Nomad.init 0 1)
            \/ (borders sloped_world (Nomad.patch (Nomad.init 0 1))
                  (Nomad.patch (Nomad.init 0 4))
                /\ is_land sloped_world (Nomad.patch (Nomad.init 0 4))))
        /\ same_view w' sloped_world
        /\ (2%nat = 1%nat \/ 2%nat = 2%nat)).
Proof.
  destruct (sloped_nomad_moves (fun _ => 0) eq_refl eq_refl) as [w' H].
  exists w'. split; [exact H |].
  exact (nomad_move_stays_or_lands (fun _ => 0) (Nomad.init 0 1) sloped_world 0%nat
           (Nomad.init 0 4) w' 2%nat H).
Defined.

(** ** A year of the model *)

Lemma move_keeps random_random self st self' st' :
  Nomad.move random_random self st = Some (self', st') ->
  Nomad.name self' = Nomad.name self /\ Nomad.size self' = Nomad.size self.
Proof.
  destruct st as [w n]. unfold Nomad.move.
  destruct (Py.truediv _ _); [| discriminate]. simpl.
  destruct (decide _); [intros [= <- _]; auto |].
  destruct (Py.dict_get _ _); [| discriminate]. simpl.
  destruct (Py.for_each Nomad.move_candidate _ _) as [[c w1] |]; [| discriminate]. simpl.
  destruct (Py.for_each Nomad.move_weight _ _) as [[d w2] |]; [| discriminate]. simpl.
  destruct (weighted_random _ _ _) as [[q m] |]; [| discriminate]. simpl.
  intros [= <- _]. auto.
Qed.

Lemma move_all_keeps random_random nomads st moved st' :
  NomadModel.move_all random_random nomads st = Some (moved, st') ->
  Forall2 (fun t t' => Nomad.name t' = Nomad.name t /\ Nomad.size t' = Nomad.size t)
    nomads moved.
Proof.
  revert st moved. induction nomads as [| t rest IH]; intros st moved; simpl.
  - intros [= <- _]. constructor.
  - destruct (Nomad.move _ t st) as [[t' st1] |] eqn:Ht; [| discriminate]. simpl.
    destruct (NomadModel.move_all _ rest st1) as [[rest' st2] |] eqn:Hr; [| discriminate].
    simpl. intros [= <- <-]. constructor; [eapply move_keeps, Ht | eapply IH, Hr].
Qed.

Lemma total_size_from (l : list Z) (a : Z) :
  fold_left Z.add l a = (a + fold_left Z.add l 0)%Z.
Proof.
  revert a. induction l as [| x l IH]; intros a; simpl; [lia |].
  rewrite (IH (a + x)%Z), (IH (0 + x)%Z). lia.
Qed.

Lemma total_size_cons t l : total_size (t :: l) = (Nomad.size t + total_size l)%Z.
Proof. unfold total_size. simpl. rewrite total_size_from. reflexivity. Qed.

Lemma total_size_app l1 l2 : total_size (l1 ++ l2) = (total_size l1 + total_size l2)%Z.
Proof.
  induction l1 as [| t l1 IH]; simpl; [reflexivity |].
  rewrite !total_size_cons, IH. lia.
Qed.

Lemma total_size_perm l1 l2 : l1 ≡ₚ l2 -> total_size l1 = total_size l2.
Proof.
  induction 1 as [| x l l' _ IH | x y l | l l' l'' _ IH1 _ IH2];
    rewrite ?total_size_cons; lia.
Qed.

Lemma total_size_same l1 l2 :
  Forall2 (fun t t' => Nomad.name t' = Nomad.name t /\ Nomad.size t' = Nomad.size t) l1 l2 ->
  total_size l2 = total_size l1.
Proof.
  induction 1 as [| t t' l1 l2 [_ Hs] _ IH]; [reflexivity |].
  rewrite !total_size_cons, Hs, IH. reflexivity.
Qed.

(** Where [d[k] = v] puts the value. *)
Lemma dict_set_shape {V} k (v : V) d :
  (Py.dict_get k d = None /\ (k ∉ d.*1) /\ Py.dict_set k v d = d ++ [(k, v)])
  \/ exists d1 v0 d2,
       d = d1 ++ (k, v0) :: d2 /\ Py.dict_get k d = Some v0
       /\ Py.dict_set k v d = d1 ++ (k, v) :: d2.
Proof.
  induction d as [| [k' v'] d IH]; simpl.
  - left. split; [reflexivity |]. split; [intros H; inversion H | reflexivity].
  - destruct (decide (k' = k)) as [-> | Hne].
    + right. exists [], v', d. auto.
    + destruct IH as [(Hget & Hnot & Hset) | (d1 & v0 & d2 & -> & Hget & Hset)].
      * left. split; [exact Hget |]. split; [| rewrite Hset; reflexivity].
        intros H. apply elem_of_cons in H as [-> | H]; [congruence | contradiction].
      * right. exists ((k', v') :: d1), v0, d2. rewrite Hset. auto.
Qed.

(** Filing one more tribe keeps the groups. *)
Lemma file_tribe_groups d filed t :
  groups_of d filed -> groups_of (NomadModel.file_tribe d t) (filed ++ [t]).
Proof.
  intros (Hnd & Hall & Hperm). unfold NomadModel.file_tribe.
  destruct (dict_set_shape (Nomad.patch t)
              (default [] (Py.dict_get (Nomad.patch t) d) ++ [t]) d)
    as [(Hget & Hnot & ->) | (d1 & ts & d2 & Hd & Hget & ->)].
  - rewrite Hget. simpl. split; [| split].
    + rewrite fmap_app. simpl. apply NoDup_app. split; [exact Hnd |].
      split; [| apply NoDup_singleton].
      intros k Hk Hk'. apply list_elem_of_singleton in Hk'. subst. contradiction.
    + apply Forall_app. split; [exact Hall |]. repeat constructor. discriminate.
    + rewrite fmap_app, concat_app. simpl. rewrite ?app_nil_r, Hperm. reflexivity.
  - rewrite Hget. simpl. subst d. split; [| split].
    + rewrite fmap_app, fmap_cons in *. exact Hnd.
    + apply Forall_app in Hall as [H1 H2]. apply Forall_cons in H2 as [[_ Hg] H2].
      apply Forall_app. split; [exact H1 |]. apply Forall_cons. split; [| exact H2].
      simpl in *. split; [intros H; apply app_eq_nil in H as [_ H]; discriminate |].
      apply Forall_app. split; [exact Hg | repeat constructor].
    + rewrite <- Hperm. rewrite !fmap_app, !fmap_cons, !concat_app, !concat_cons. simpl.
      rewrite <- !app_assoc. apply Permutation_app_head, Permutation_app_head.
      apply Permutation_app_comm.
Qed.

Lemma fold_file_tribe_groups moved d filed :
  groups_of d filed -> groups_of (fold_left NomadModel.file_tribe moved d) (filed ++ moved).
Proof.
  revert d filed. induction moved as [| t moved IH]; intros d filed Hg; simpl.
  - rewrite app_nil_r. exact Hg.
  - replace (filed ++ t :: moved) with ((filed ++ [t]) ++ moved)
      by (rewrite <- app_assoc; reflexivity).
    apply IH, file_tribe_groups, Hg.
Qed.

(** X21: a year of the model conserves the people.  When [one_year]
    returns, the tribes number as many people as before; no two of them
    stand on the same patch; every one carries the name of a tribe of the
    year before, so there are no more of them; and when every tribe had at
    least one member, so has every tribe after the year. *)
Theorem one_year_joins random_random nomads st nomads' st' :
  NomadModel.one_year random_random nomads st = Some (nomads', st') ->
  total_size nomads' = total_size nomads
  /\ NoDup (Nomad.patch <$> nomads')
  /\ (forall t', t' ∈ nomads' -> exists t, t ∈ nomads /\ Nomad.name t' = Nomad.name t)
  /\ (length nomads' <= length nomads)%nat
  /\ (Forall (fun t => (1 <= Nomad.size t)%Z) nomads ->
      Forall (fun t => (1 <= Nomad.size t)%Z) nomads').
Proof.
  unfold NomadModel.one_year.
  destruct (NomadModel.move_all _ nomads st) as [[moved st1] |] eqn:Hmove; [| discriminate].
  simpl. destruct (mapM _ _) as [joined |] eqn:Hjoin; [| discriminate]. simpl.
  intros [= <- <-].
  pose proof (move_all_keeps _ _ _ _ _ Hmove) as Hkeep.
  destruct (fold_file_tribe_groups moved [] [])
    as (Hnd & Hall & Hperm); [repeat split; constructor |].
  simpl in Hperm. set (d := fold_left NomadModel.file_tribe moved []) in *.
  apply mapM_Some in Hjoin.
  assert (Hshape : Forall2 (fun kv t' => exists first rest,
                      kv.2 = first :: rest /\ Nomad.patch first = kv.1
                      /\ t' = Nomad.set_size (total_size kv.2) first) d joined).
  { apply Forall2_same_length_lookup. split; [exact (Forall2_length _ _ _ Hjoin) |].
    intros i [k ts] t' Hi Hi'.
    pose proof (Forall2_lookup_lr _ _ _ _ _ _ Hjoin Hi Hi') as Hj.
    pose proof (list_elem_of_lookup_2 _ _ _ Hi) as Hin. simpl in Hj.
    destruct ts as [| first rest]; [discriminate |]. injection Hj as <-.
    exists first, rest. split; [reflexivity |]. split; [| reflexivity].
    pose proof (proj1 (Forall_forall _ _) Hall _ Hin) as [_ Hp]. simpl in Hp.
    apply Forall_cons in Hp as [Hp _]. exact Hp. }
  clear Hjoin.
  assert (Hgen : Nomad.patch <$> joined = d.*1
                 /\ total_size joined = total_size (concat d.*2)
                 /\ (forall t', t' ∈ joined ->
                       exists t, t ∈ concat d.*2 /\ Nomad.name t' = Nomad.name t
                                 /\ ((Nomad.size t <= Nomad.size t')%Z
                                     \/ exists u, u ∈ concat d.*2
                                                  /\ (Nomad.size u < 1)%Z))
                 /\ (length joined <= length (concat d.*2))%nat).
  { clear Hnd Hperm Hall. induction Hshape as [| [k ts] t' d0 j0 Hhd _ IH].
    - repeat split; [| simpl; lia]. intros t' Ht'. inversion Ht'.
    - destruct Hhd as (first & rest & Hts & Hp & ->). simpl in Hts, Hp. subst ts k.
      destruct IH as (IH1 & IH2 & IH3 & IH4).
      rewrite !fmap_cons, concat_cons. simpl fst. simpl snd.
      split; [simpl; f_equal; exact IH1 |].
      split; [rewrite total_size_cons, total_size_app, IH2; reflexivity |].
      split.
      + intros t' Ht'. apply elem_of_cons in Ht' as [-> | Ht'].
        * exists first. split; [left |]. split; [reflexivity |]. simpl.
          rewrite total_size_cons.
          destruct (decide (Forall (fun u => 1 <= Nomad.size u)%Z rest)) as [Hpos | Hneg].
          -- left. assert (0 <= total_size rest)%Z; [| lia].
             clear -Hpos. induction rest as [| u rest IH]; [reflexivity |].
             apply Forall_cons in Hpos as [Hu Hpos]. rewrite total_size_cons.
             specialize (IH Hpos). lia.
          -- right. apply not_Forall_Exists in Hneg; [| intros u; apply _].
             apply Exists_exists in Hneg as (u & Hu & Hlt). exists u.
             split; [right; apply elem_of_app; left; exact Hu | simpl in Hlt; lia].
        * destruct (IH3 _ Ht') as (t & Ht & Hn & Hs). exists t.
          split; [right; apply elem_of_app; right; exact Ht |]. split; [exact Hn |].
          destruct Hs as [Hs | (u & Hu & Hlt)]; [left; exact Hs |].
          right. exists u. split; [right; apply elem_of_app; right; exact Hu | exact Hlt].
      + simpl. rewrite length_app. lia. }
  destruct Hgen as (Hpatches & Htotal & Hnames & Hlen).
  pose proof (Forall2_length _ _ _ Hkeep) as Hlen'.
  split; [| split; [| split; [| split]]].
  - rewrite Htotal, (total_size_perm _ _ Hperm). apply total_size_same, Hkeep.
  - rewrite Hpatches. exact Hnd.
  - intros t' Ht'. destruct (Hnames _ Ht') as (t1 & Ht1 & Hn & _).
    rewrite Hperm in Ht1. apply list_elem_of_lookup in Ht1 as [i Hi].
    destruct (Forall2_lookup_r _ _ _ _ _ Hkeep Hi) as (t & Ht & Hn' & _).
    exists t. split; [eapply list_elem_of_lookup_2, Ht | congruence].
  - rewrite (Permutation_length Hperm) in Hlen. lia.
  - intros Hpos.
    assert (Hpos' : Forall (fun t => (1 <= Nomad.size t)%Z) moved).
    { apply Forall_forall. intros t1 Ht1. apply list_elem_of_lookup in Ht1 as [i Hi].
      destruct (Forall2_lookup_r _ _ _ _ _ Hkeep Hi) as (t & Ht & _ & ->).
      exact (proj1 (Forall_lookup _ _) Hpos i t Ht). }
    apply Forall_forall. intros t' Ht'.
    destruct (Hnames _ Ht') as (t1 & Ht1 & _ & [Hs | (u & Hu & Hlt)]).
    + rewrite Hperm in Ht1. pose proof (proj1 (Forall_forall _ _) Hpos' _ Ht1) as H1.
      simpl in H1. lia.
    + rewrite Hperm in Hu. pose proof (proj1 (Forall_forall _ _) Hpos' _ Hu) as H1.
      simpl in H1. lia.
Qed.

Lemma one_year_joins_witness :
  exists w',
    NomadModel.one_year (fun n => match n with 2%nat => 1 | _ => 0 end)
      [Nomad.init 0 1; Nomad.mk 1 4 2] (sloped_world, 0%nat)
    = Some ([Nomad.mk 0 4 3], (w', 3%nat))
    /\ (total_size [Nomad.mk 0 4 3] = total_size [Nomad.init 0 1; Nomad.mk 1 4 2]
        /\ NoDup (Nomad.patch <$> [Nomad.mk 0 4 3])
        /\ (forall t', t' ∈ [Nomad.mk 0 4 3] ->
              exists t, t ∈ [Nomad.init 0 1; Nomad.mk 1 4 2]
                        /\ Nomad.name t' = Nomad.name t)
        /\ (length [Nomad.mk 0 4 3] <= length [Nomad.init 0 1; Nomad.mk 1 4 2])%nat
        /\ (Forall (fun t => (1 <= Nomad.size t)%Z) [Nomad.init 0 1; Nomad.mk 1 4 2] ->
            Forall (fun t => (1 <= Nomad.size t)%Z) [Nomad.mk 0 4 3])).
Proof.
  destruct (sloped_nomad_moves (fun n => match n with 2%nat => 1 | _ => 0 end)
              eq_refl eq_refl) as [w' H].
  exists w'.
  assert (Hyear : NomadModel.one_year (fun n => match n with 2%nat => 1 | _ => 0 end)
                    [Nomad.init 0 1; Nomad.mk 1 4 2] (sloped_world, 0%nat)
                  = Some ([Nomad.mk 0 4 3], (w', 3%nat))).
  { unfold NomadModel.one_year, NomadModel.move_all. rewrite H.
    unfold Nomad.move. cbn -[decide Py.truediv]. repeat r_decide.
    cbn -[decide]. repeat r_decide. vm_compute. reflexivity. }
  split; [exact Hyear |].
  exact (one_year_joins _ _ _ _ _ Hyear).
Defined.

(** ** The first tribes *)

(** Once the land patches have been read, they are read from the cache. *)
Lemma land_patches_again w :
  (forall k, k ∈ (patches w).*1 -> is_Some (patch_height_view w k)) ->
  exists wa,
    land_patches w = Some (land_list w, wa) /\ same_view wa w
    /\ (land_list w <> [] -> land_list wa = land_list w).
Proof.
  intros Hread. destruct (land_patches_spec w Hread) as (wa & Hland & Hview & Hcache & _).
  exists wa. split; [exact Hland |]. split; [exact Hview |].
  intros Hne. unfold land_list at 1. rewrite Hcache.
  destruct (decide (length (land_list w) = 0%nat)) as [Hlen | _]; [| reflexivity].
  destruct (land_list w); [congruence | discriminate].
Qed.

(** The loop of the constructor, in a world that has land. *)
Lemma found_tribes random_below w n k :
  (forall m len, (0 < len)%nat -> (random_below m len < len)%nat) ->
  patches_ok w -> land_list w <> [] ->
  exists nomads t,
    Py.for_each (NomadModel.found_tribe random_below) (seq 0 k) ([], (w, n))
    = Some (nomads, (t, (n + k)%nat))
    /\ Nomad.name <$> nomads = seq 0 k
    /\ Forall (fun t => Nomad.size t = 1%Z /\ Nomad.patch t ∈ land_list w) nomads
    /\ same_view t w
    /\ land_list t = land_list w.
Proof.
  intros Hbelow Hok Hland. induction k as [| k IH].
  - exists [], w. rewrite Nat.add_0_r. simpl.
    split; [reflexivity |]. split; [reflexivity |]. split; [constructor |].
    split; [apply same_view_refl | reflexivity].
  - destruct IH as (nomads & t & Hloop & Hnames & Hall & Hview & Hlist).
    rewrite seq_S, for_each_snoc, Hloop. simpl.
    pose proof (patches_ok_same_view _ _ Hview Hok) as (_ & _ & Hread).
    destruct (land_patches_again t Hread) as (wa & Hlp & Hva & Hagain).
    rewrite Hlp. simpl. rewrite Hlist in *. specialize (Hagain Hland).
    unfold random_choice.
    destruct (land_list w) as [| p lp] eqn:Hl; [congruence |].
    destruct (lookup_lt_is_Some_2 (p :: lp) (random_below (n + k)%nat (length (p :: lp))))
      as [x Hx]; [apply Hbelow; simpl; lia |].
    rewrite Hx. simpl. exists (nomads ++ [Nomad.init k x]), wa.
    rewrite Nat.add_succ_r. split; [reflexivity |].
    split; [rewrite fmap_app, Hnames; reflexivity |].
    split; [| split; [eapply same_view_trans; eauto | exact Hagain]].
    apply Forall_app. split; [exact Hall |]. apply Forall_singleton.
    split; [reflexivity |]. simpl. eapply list_elem_of_lookup_2, Hx.
Qed.

(** X22: the first tribes settle on land.  In a world reached by the
    operations of the module that has land, with a generator that draws
    positions inside the sequence, [NomadModel(world, num_tribes)] founds
    [num_tribes] tribes named 0, 1, ... of size 1, each on a patch of the
    list [land_patches] returns, with one call of the generator for each;
    the patches report the same heights as before.  In a world without land
    the first tribe has nowhere to start and the constructor fails. *)
Theorem nomad_model_settles_on_land random_below np_percentile vor x_lim y_lim os w0 w
    num_tribes n :
  World_init vor x_lim y_lim = Some w0 ->
  run_all np_percentile os w0 = Some w ->
  (forall m len, (0 < len)%nat -> (random_below m len < len)%nat) ->
  (land_list w <> [] ->
   exists nomads w',
     NomadModel.init random_below w num_tribes n = Some (nomads, (w', (n + num_tribes)%nat))
     /\ Nomad.name <$> nomads = seq 0 num_tribes
     /\ Forall (fun t => Nomad.size t = 1%Z /\ Nomad.patch t ∈ land_list w) nomads
     /\ same_view w' w)
  /\ (land_list w = [] -> (0 < num_tribes)%nat ->
      NomadModel.init random_below w num_tribes n = None).
Proof.
  intros Hinit Hrun Hbelow.
  destruct (reached_patches _ _ _ _ _ _ _ Hinit Hrun) as [Hok _].
  unfold NomadModel.init. split.
  - intros Hland.
    destruct (found_tribes random_below w n num_tribes Hbelow Hok Hland)
      as (nomads & t & Hloop & Hnames & Hall & Hview & _).
    exists nomads, t. auto.
  - intros Hempty Hpos. destruct num_tribes as [| k]; [lia |]. simpl.
    pose proof Hok as (_ & _ & Hread).
    destruct (land_patches_spec w Hread) as (wa & Hlp & _).
    rewrite Hlp, Hempty. simpl. reflexivity.
Qed.

Lemma coast_has_land : land_list coast_world <> [].
Proof.
  assert (H : (4%nat) ∈ land_list coast_world); [| intros H0; rewrite H0 in H; inversion H].
  unfold land_list. simpl. apply list_elem_of_filter. split; [| set_solver].
  exists 0.3. split; [| simpl; lra].
  unfold patch_height_view, coast_world, sloped_world. py_eval. reflexivity.
Qed.

Lemma nomad_model_settles_on_land_witness :
  exists nomads w',
    NomadModel.init (fun _ _ => 0%nat) coast_world 2 0
    = Some (nomads, (w', (0 + 2)%nat))
    /\ Nomad.name <$> nomads = seq 0 2
    /\ Forall (fun t => Nomad.size t = 1%Z /\ Nomad.patch t ∈ land_list coast_world) nomads
    /\ same_view w' coast_world.
Proof.
  apply (proj1 (nomad_model_settles_on_land (fun _ _ => 0%nat) (fun _ _ => None)
                  grid_voronoi (0, 6) (0, 4) _ grid_world coast_world 2 0
                  grid_world_init coast_world_run (fun _ len Hlen => Hlen))).
  exact coast_has_land.
Defined.

(** * Roads *)

(** A reached world always has a patch network to give. *)
Lemma reached_network_is_Some np_percentile vor x_lim y_lim os w0 w :
  World_init vor x_lim y_lim = Some w0 ->
  run_all np_percentile os w0 = Some w ->
  exists g w', patch_network w = Some (g, w')
    /\ forall x, x ∈ DiGraph.nodes g -> x ∈ (patches w).*1.
Proof.
  intros Hinit Hrun.
  assert (Hpn : exists g w', patch_network w = Some (g, w')).
  { destruct (_patch_network w) as [g0 |] eqn:Hc.
    - exists g0, w. unfold patch_network. rewrite Hc. reflexivity.
    - destruct (reached_patches _ _ _ _ _ _ _ Hinit Hrun) as [Hok Hcache].
      destruct (network_built w Hok Hcache Hc) as (g & w' & Hpn & _). eauto. }
  destruct Hpn as (g & w' & Hpn). exists g, w'. split; [exact Hpn |].
  assert (Hrun' : run_all np_percentile (os ++ [PatchNetwork]) w0 = Some w').
  { unfold run_all. rewrite for_each_snoc. fold (run_all np_percentile os w0).
    rewrite Hrun. simpl. rewrite Hpn. reflexivity. }
  pose proof (reached_network _ _ _ _ _ _ _ Hinit Hrun') as Hnet.
  rewrite <- (keys_of_geometry _ _ (patch_network_geometry _ _ _ Hpn)).
  apply Hnet, (patch_network_sets _ _ _ Hpn).
Qed.

(** The segments of a road along patches that exist. *)
Lemma road_segments (w : World) (path : list nat) :
  (forall k, k ∈ path -> k ∈ (patches w).*1) ->
  exists road,
    mapM (fun i => ka ← path !! i;
                   a ← Py.dict_get ka (patches w);
                   kb ← path !! (i + 1)%nat;
                   b ← Py.dict_get kb (patches w);
                   Some (Patch.centroid a, Patch.centroid b))
         (seq 0 (length path - 1)) = Some road
    /\ length road = (length path - 1)%nat
    /\ forall i a b, path !! i = Some a -> path !! (i + 1)%nat = Some b ->
         exists ca cb, centroid_view w a = Some ca /\ centroid_view w b = Some cb
                       /\ road !! i = Some (ca, cb).
Proof.
  intros Hkeys.
  match goal with |- exists road, mapM ?f ?l = _ /\ _ => set (seg := f) end.
  assert (Hall : Forall (is_Some ∘ seg) (seq 0 (length path - 1))).
  { apply Forall_forall. intros i Hi. apply elem_of_seq in Hi as [_ Hi]. simpl in Hi.
    destruct (lookup_lt_is_Some_2 path i ltac:(lia)) as [a Ha].
    destruct (lookup_lt_is_Some_2 path (i + 1) ltac:(lia)) as [b Hb].
    destruct (proj2 (dict_get_is_Some a (patches w))
                (Hkeys a (list_elem_of_lookup_2 _ _ _ Ha))) as [A HA].
    destruct (proj2 (dict_get_is_Some b (patches w))
                (Hkeys b (list_elem_of_lookup_2 _ _ _ Hb))) as [B HB].
    unfold compose, seg. rewrite Ha. simpl. rewrite HA. simpl. rewrite Hb. simpl.
    rewrite HB. simpl. eauto. }
  apply mapM_is_Some in Hall as [road Hroad]. exists road. split; [exact Hroad |].
  apply mapM_Some in Hroad.
  pose proof (Forall2_length _ _ _ Hroad) as Hlen. rewrite length_seq in Hlen.
  split; [lia |]. intros i a b Ha Hb.
  assert (Hi : (i < length path - 1)%nat).
  { apply lookup_lt_Some in Hb. lia. }
  destruct (Forall2_lookup_l _ _ _ i i Hroad (lookup_seq_lt 0 _ i Hi)) as (s & Hs & Hseg).
  simpl in Hseg. unfold seg in Hseg. rewrite Ha in Hseg. simpl in Hseg.
  destruct (Py.dict_get a (patches w)) as [A |] eqn:HA; [| discriminate]. simpl in Hseg.
  rewrite Hb in Hseg. simpl in Hseg.
  destruct (Py.dict_get b (patches w)) as [B |] eqn:HB; [| discriminate]. simpl in Hseg.
  injection Hseg as <-. exists (Patch.centroid A), (Patch.centroid B).
  unfold centroid_view. rewrite HA, HB. auto.
Qed.

(** The path finder that only knows the direct way between two nodes. *)
Lemma direct_paths (g : DiGraph.t) (s e : nat) (path : list nat) :
  direct_path g s e = Some path -> forall k, k ∈ path -> k ∈ DiGraph.nodes g.
Proof.
  unfold direct_path. destruct (decide _) as [[Hs He] |]; [| discriminate].
  intros [= <-] k Hk. set_solver.
Qed.

(** X17: the road between two patches.  In a world reached by the
    operations of the module, when the path finder answers with nodes of the
    network [make_road] never fails on a missing patch: it returns one
    segment for every two successive patches of the path, from the centroid
    of the one to the centroid of the other; when the path finder raises, so
    does [make_road]. *)
Theorem make_road_joins_centroids np_percentile nx_shortest_path
    vor x_lim y_lim os w0 w start_patch end_patch :
  World_init vor x_lim y_lim = Some w0 ->
  run_all np_percentile os w0 = Some w ->
  (forall g path, nx_shortest_path g start_patch end_patch = Some path ->
     forall k, k ∈ path -> k ∈ DiGraph.nodes g) ->
  exists g w',
    patch_network w = Some (g, w')
    /\ match nx_shortest_path g start_patch end_patch with
       | None => make_road nx_shortest_path w start_patch end_patch = None
       | Some path =>
           exists road,
             make_road nx_shortest_path w start_patch end_patch = Some (road, w')
             /\ length road = (length path - 1)%nat
             /\ forall i a b, path !! i = Some a -> path !! (i + 1)%nat = Some b ->
                  exists ca cb, centroid_view w a = Some ca /\ centroid_view w b = Some cb
                                /\ road !! i = Some (ca, cb)
       end.
Proof.
  intros Hinit Hrun Hnx.
  destruct (reached_network_is_Some _ _ _ _ _ _ _ Hinit Hrun) as (g & w' & Hpn & Hnodes).
  exists g, w'. split; [exact Hpn |].
  pose proof (patch_network_geometry _ _ _ Hpn) as Hgeo.
  unfold make_road. rewrite Hpn. simpl.
  destruct (nx_shortest_path g start_patch end_patch) as [path |] eqn:Hpath; [| reflexivity].
  simpl. destruct (road_segments w' path) as (road & Hroad & Hlen & Hseg).
  { intros k Hk. rewrite (keys_of_geometry _ _ Hgeo). eapply Hnodes, Hnx; eauto. }
  exists road. rewrite Hroad. simpl. split; [reflexivity |]. split; [exact Hlen |].
  intros i a b Ha Hb. destruct (Hseg i a b Ha Hb) as (ca & cb & Hca & Hcb & Hi).
  rewrite (centroid_view_geometry _ _ _ Hgeo) in Hca.
  rewrite (centroid_view_geometry _ _ _ Hgeo) in Hcb. eauto.
Qed.

Lemma make_road_joins_centroids_witness :
  exists g w',
    patch_network coast_world = Some (g, w')
    /\ match direct_path g 4 1 with
       | None => make_road direct_path coast_world 4 1 = None
       | Some path =>
           exists road,
             make_road direct_path coast_world 4 1 = Some (road, w')
             /\ length road = (length path - 1)%nat
             /\ forall i a b, path !! i = Some a -> path !! (i + 1)%nat = Some b ->
                  exists ca cb, centroid_view coast_world a = Some ca
                                /\ centroid_view coast_world b = Some cb
                                /\ road !! i = Some (ca, cb)
       end.
Proof.
  exact (make_road_joins_centroids (fun _ _ => None) direct_path
           grid_voronoi (0, 6) (0, 4) _ grid_world coast_world 4 1
           grid_world_init coast_world_run (fun g => direct_paths g 4 1)).
Defined.
